(* ===== verification/_CoqProject ===== *)
-Q . S2P
Prelude.v
Utf8.v
Raw.v
Layout.v
Events.v
Interfaces.v
Ebpf.v
KernelSpec.v
KernelProofs.v
KernelInv.v
Machine.v
ProgramLogic.v
MachineInv.v
KernelTheorems.v
Common.v
Process.v
Memory.v
Network.v
File.v
Stream.v
Convert.v
ConvertSpec.v
Runtime.v
RuntimeProofs.v
RuntimeTheorems.v
Attach.v
AttachSpec.v
AttachTheorems.v
UserTheorems.v
System.v
Delivery.v
Object.v
Steps.v
Session.v
Resubscribe.v
Completeness.v
Order.v
Typing.v
Wakeup.v
Examples.v
