(* ===== verification/Prelude.v ===== *)
(** * bpfx: a verification development

    bpfx is a Rust library that watches a Linux machine through eBPF.  Its
    parts, and where the data goes:

    - [bpfx-ebpf/src/main.rs]: 23 eBPF programs (fexit, fentry, kprobe,
      tracepoint and LSM) that run inside the kernel.  A program builds a record
      of its event, drops it if the process filter of its subscription (map
      FILTER) or, for files, the file-type filter (map CONFIG) says so, and
      submits it to the ring buffer EVENTS.  Paths of open files are kept in
      FILE_PATH_MAP, the names of a rename pass through the per-CPU TEMP.
    - [bpfx-common/src/raw.rs]: the [repr(C)] structs of those records, shared
      by both sides.
    - [src/core.rs]: [Bpfx], the user side.  [subscribe] writes the filter maps
      and attaches the programs a filter asks for; [event_loop] waits for the
      ring buffer, reads each record with [ptr::read], converts it and offers
      it to the bounded channels of the subscriptions; a rename is completed by
      the record of its return, found by thread in [pending_renames].
    - [src/network.rs], [src/process.rs], [src/file.rs], [src/memory.rs],
      [src/common.rs], [src/error.rs]: the events, their accessors and text, the
      masks and the filters, the errors.

    ** Files of the development

    - [Prelude.v]: outcomes of Rust code ([outcome]: [Ok], [Err], [Panic],
      [UB]), the state monad [stateM], integers of a given width, generic
      lemmas and the hint databases.
    - [Utf8.v]: [core::str::from_utf8], [CStr::from_bytes_until_nul] and the
      lossy conversion used on names and paths.
    - [Raw.v]: the constants, enums and structs of [raw.rs].
    - [Layout.v]: a [codec] per struct, its [repr(C)] layout: how it is
      written, read back and how large it is, padding included.
    - [Events.v]: [RawEvent], the sum of the records.
    - [Interfaces.v]: the ring buffer, the BPF hash maps and the channel of
      tokio, each a class of operations with a class of documented laws, and
      small instances that satisfy them.
    - [Ebpf.v]: the programs of [main.rs], one definition per function, as trees
      of operations ([K]) on the maps ([KState]), over the kernel as a run sees
      it ([Env]); [run_probe] is a run with nothing else in between.
    - [KernelSpec.v], [KernelProofs.v], [KernelInv.v]: the record each program
      owes ([probe_event]) and its effect on the maps ([kernel_post]); a program
      logic ([wp]) and the refinement of every program that runs on its own.
    - [Machine.v], [ProgramLogic.v], [MachineInv.v]: programs of several
      processors, interleaved operation by operation ([mstep]); a program logic
      for programs that others interfere with ([cwp], over what the maps may
      hold, [MapInv]); the invariant of the machine, progress, and [kstep],
      which adds the consumer and the writes of the user side.
    - [KernelTheorems.v]: the theorems about programs alone and interleaved.
    - [Common.v], [Process.v], [Memory.v], [Network.v], [File.v]: the files of
      [src/] with the same names ([Common.v] holds [error.rs] too).
    - [Stream.v]: the streams [subscribe] returns ([PollNetwork],
      [PollProcess], [PollFile], [PollMem]) and their [poll_next].
    - [Convert.v], [ConvertSpec.v]: [convert_network_events],
      [convert_process_events], [convert_file_events], [convert_mem_events] and
      their helpers, and the event each record stands for.
    - [Runtime.v], [RuntimeProofs.v], [RuntimeTheorems.v]: [Bpfx], its
      constructors and [event_loop]: [dispatch] is the body of the inner loop,
      [drain] the inner loop, [run] the start of the task, [loop_next] one turn
      of it.
    - [Attach.v], [AttachSpec.v], [AttachTheorems.v]: the attach functions and
      [subscribe] over [EbpfOps], the operations of aya's [Ebpf] object; the
      plans of programs; the theorems.
    - [UserTheorems.v]: layouts, headers, text, flags, masks, endpoints.
    - [System.v]: the machine, the event loop and the subscribers interleaved.
    - [Delivery.v]: what subscribers find in their channels, over the runs of
      [System.v].
    - [Order.v]: the same runs with a trace of what was reported and received.
    - [Typing.v]: which values of the model are values of the Rust types.
    - [Object.v]: what the operations of the [Ebpf] object do to its maps and
      programs ([EbpfView], [EbpfLaws]), and so what [subscribe] makes of it.
    - [Steps.v]: the objects a [subscribe] leads through, system call by system
      call.
    - [Session.v]: a new [Bpfx], subscriptions of different kinds with programs
      running between their system calls, then the pipeline: from the filter
      given to [subscribe] to the events in the channel; what [|] of two filters
      asks for.
    - [Resubscribe.v]: second subscriptions of a kind, and a concrete object
      with a session on it.
    - [Completeness.v]: the programs add exactly what the filter maps admit, and
      what a session asked for does arrive.
    - [Wakeup.v]: the task asleep in [readable()] and woken again, over the
      promises of the ring buffer, epoll and [AsyncFd] ([WakeOps], [NotifyOps]).
    - [Examples.v]: the programs of [examples/].

    ** What the theorems show

    - Kernel side: every program refines its specification, on every path;
      process filters and file-type filters are respected; a file record carries
      the path the file was opened with, and none is produced once the file is
      released (the last two for programs that run one after the other: an entry
      of FILE_PATH_MAP that another processor replaces or removes while it is
      copied may give any bytes).  For programs of several processors at once,
      whatever the interleaving: the ring buffer only ever holds well-formed
      records with the discriminant of their struct; no program leaves an entry
      reserved, which would block the consumer for good.  Exceptions are theorems
      too: the unmap program does not look at the filter, three programs compare
      a pointer with null after they used it.
    - Event loop: [n] records take [n + 1] turns, neither panic nor undefined
      read happens, and the channels end up as the abstract queues
      ([spec_dispatch]) say: in order, nothing lost while there is room, renames
      paired by thread, at most [MAX_PENDING_RENAMES] pending.  A network
      subscription next to programs of another kind breaks this, because its
      reader takes every record for a [PendingConnect].
    - Subscribing: an attach function is its plan, carried out until something
      fails; a plan holds a program if and only if the masks of the filter cover
      its records; [subscribe] registers its channel only when everything
      succeeded.
    - Streams: what polls have given is a prefix of what the channel held, all of
      it after as many polls that were not pending; any poll may be pending, as
      tokio has it ([received_prefix], [received_all]).
    - All together: the interleaved pipeline never faults and catches up; each
      subscriber receives the events of the submitted records in the order in
      which their entries were reserved, none twice and none invented, and every
      one of them if its channel was never full or closed when a record was read;
      from [subscribe] to the channel, every event matches the process filter, has
      a kind and a protocol the masks ask for and, for files, a type of the
      filter, and is a value of its Rust type; and the other way round,
      what the filters ask for is attached for, written if the ring buffer has
      room, and dispatched.  The task never sleeps over a record: when one is
      readable, the I/O driver and the task alone get to it.  All of these are
      about a network subscription that is the only one, or about subscriptions of
      the other kinds ([sys_init], [network_alone]): beside others its reader is
      out of bounds.
    - Examples: which lines they print for the events of their streams.
    - Combining filters: [f | g] asks for the kinds of both, but for the processes,
      protocols and types of file of [f] only.
    - Subscribing to a kind for the second time breaks this: a file subscription
      fails, but leaves its filter in the maps; a process subscription gets the
      events of the first one too.  The same holds after a subscription that
      failed half way, since nothing detaches its programs; a session is made of
      subscriptions that succeeded.
    - Values: the codecs give each struct the layout that [repr(C)] prescribes for
      its declaration, and it survives the trip through memory; text determines
      the header it was printed from; accessors, masks and flags mean what their
      names say, except where a theorem says otherwise (exit status, remote
      port, [SYNC], [EventType::try_from]).

    ** Bounds and fuel

    The only fuel is that of [drain] (turns of the inner loop: the number of
    records plus one, which the refinement theorem shows is enough) and of
    [hex_go] (digits: 16 hold 64 bits).  Loops over lists are structural.  A
    machine integer is a [Z] with its wrap-around written out ([u_wrap],
    [s_wrap]); well-formed records ([raw_wf]) and environments ([Env_wf]) hold
    values of their Rust types.  Pointers of the kernel are addresses with 0 for
    null.  The byte order is little-endian, as on the targets of the programs.

    ** What is not modelled

    Logging; tokio itself: when the task takes a turn and when a stream is
    polled is left open, so that the theorems hold for every interleaving; only
    [Wakeup.v] looks at when the task can go on, and takes from tokio, epoll and
    the kernel what they document (the wakers of streams are left out); the tests
    of [src/test.rs], which attach each program on a live kernel; the sender kept in a registration and the receiver in its
    stream are two ends of one channel, which the runtime model keeps in the
    registration ([Stream.v] has the receiver's own interface); the serde and
    rkyv derives; the verifier and the kernel itself, which are the [Env]
    argument and the classes of [Interfaces.v].  Programs of all processors
    interleave, with these assumptions.  An operation on a map is one step, but
    the lookup of a path and the copy of its bytes are two, and so are the call of
    [bpf_d_path] and the copy of what it wrote: in between the element or the
    buffer can be written or used again, and then the copy may be any bytes
    ([torn]).  A lookup in FILTER or CONFIG gives the value of that moment: these
    entries are a word or two, only subscriptions write them, and in a session
    each of them once.  The kernel does not enter a tracing program again on a
    processor where it runs (the LSM program [file_open] it may), and of a per-CPU
    map each processor has its own entry.  What a run finds in kernel memory
    ([Env]) is fixed for that run, though different runs may find different
    things.  Once [run] has consumed the [Bpfx] nothing can be subscribed any
    more, so the filter maps stay as they are while the loop runs. *)

From stdpp Require Export base gmap strings list fin_maps pretty numbers functions.
From Stdlib Require Export ZArith Strings.Byte.

#[global] Open Scope Z_scope.

Declare Scope bpfx_scope.
Delimit Scope bpfx_scope with bpfx.
#[global] Open Scope bpfx_scope.

(** ** Outcomes of Rust code

    [Ok]/[Err] are the two variants of [Result]; [Panic] is an unwinding (or
    aborting) panic; [UB] is a step the Rust abstract machine gives no meaning
    to: a read outside of an object, an invalid enum discriminant, a
    dereference of a null pointer. *)

Inductive outcome (E A : Type) : Type :=
| Ok (a : A)
| Err (e : E)
| Panic
| UB.
Arguments Ok {E A} a.
Arguments Err {E A} e.
Arguments Panic {E A}.
Arguments UB {E A}.

#[global] Instance outcome_ret E : MRet (outcome E) := fun A a => Ok a.
#[global] Instance outcome_bind E : MBind (outcome E) := fun A B f m =>
  match m with
  | Ok a => f a
  | Err e => Err e
  | Panic => Panic
  | UB => UB
  end.

#[global] Instance outcome_eq_dec {E A} `{EqDecision E, EqDecision A} :
  EqDecision (outcome E A).
Proof. solve_decision. Defined.

(** [Result] code that also changes a state: the state is kept on an error,
    as it is in Rust. *)
Definition stateM (S E A : Type) : Type := S → outcome E A * S.

#[global] Instance stateM_ret S E : MRet (stateM S E) := fun A a s => (Ok a, s).
#[global] Instance stateM_bind S E : MBind (stateM S E) := fun A B f m s =>
  match m s with
  | (Ok a, s') => f a s'
  | (Err e, s') => (Err e, s')
  | (Panic, s') => (Panic, s')
  | (UB, s') => (UB, s')
  end.

Definition throw {S E A} (e : E) : stateM S E A := fun s => (Err e, s).

(** [Option::unwrap]. *)
Definition unwrap {E A} (o : option A) : outcome E A :=
  match o with Some a => Ok a | None => Panic end.

Definition is_ok {E A} (o : outcome E A) : bool :=
  match o with Ok _ => true | _ => false end.

Lemma outcome_bind_Ok {E A B} (m : outcome E A) (f : A → outcome E B) b :
  m ≫= f = Ok b → ∃ a, m = Ok a ∧ f a = Ok b.
Proof. destruct m; simpl; intros H; try discriminate. by exists a. Qed.

Lemma stateM_bind_Ok {S E A B} (m : stateM S E A) (f : A → stateM S E B) s a s' :
  m s = (Ok a, s') → (m ≫= f) s = f a s'.
Proof. intros H. unfold mbind, stateM_bind. by rewrite H. Qed.

Lemma stateM_bind_Err {S E A B} (m : stateM S E A) (f : A → stateM S E B) s e s' :
  m s = (Err e, s') → (m ≫= f) s = (Err e, s').
Proof. intros H. unfold mbind, stateM_bind. by rewrite H. Qed.

Lemma stateM_bind_assoc {S E A B C} (m : stateM S E A) (f : A → stateM S E B)
    (g : B → stateM S E C) s :
  ((m ≫= f) ≫= g) s = (m ≫= (fun a => f a ≫= g)) s.
Proof. unfold mbind, stateM_bind. destruct (m s) as [[] ?]; done. Qed.

(** ** Fixed-width integers

    A [w]-bit integer is a [Z] in range; [u_wrap] and [s_wrap] are the [as]
    casts to an unsigned and a signed type. *)

Definition in_u (w z : Z) : Prop := 0 ≤ z < 2 ^ w.
Definition in_s (w z : Z) : Prop := - 2 ^ (w - 1) ≤ z < 2 ^ (w - 1).
Definition u_wrap (w z : Z) : Z := z mod 2 ^ w.
Definition s_wrap (w z : Z) : Z := (z + 2 ^ (w - 1)) mod 2 ^ w - 2 ^ (w - 1).

#[global] Instance in_u_dec w z : Decision (in_u w z).
Proof. unfold in_u. apply _. Defined.
#[global] Instance in_s_dec w z : Decision (in_s w z).
Proof. unfold in_s. apply _. Defined.

Lemma u_wrap_id w z : in_u w z → u_wrap w z = z.
Proof. intros H. by apply Z.mod_small. Qed.

Lemma u_wrap_range w z : 0 ≤ w → in_u w (u_wrap w z).
Proof. intros Hw. apply Z.mod_pos_bound. lia. Qed.

Lemma pow2_split w : 0 < w → 2 ^ w = 2 * 2 ^ (w - 1).
Proof. intros Hw. rewrite <- Z.pow_succ_r by lia. f_equal. lia. Qed.

Lemma s_wrap_id w z : 0 < w → in_s w z → s_wrap w z = z.
Proof.
  unfold in_s, s_wrap. intros Hw H. pose proof (pow2_split w Hw).
  rewrite Z.mod_small; lia.
Qed.

Lemma s_wrap_range w z : 0 < w → in_s w (s_wrap w z).
Proof.
  unfold in_s, s_wrap. intros Hw. pose proof (pow2_split w Hw).
  pose proof (Z.mod_pos_bound (z + 2 ^ (w - 1)) (2 ^ w)). lia.
Qed.

(** The bits of a signed value, and back. *)
Lemma s_wrap_u_wrap w z : 0 < w → in_s w z → s_wrap w (u_wrap w z) = z.
Proof.
  intros Hw H. rewrite <- (s_wrap_id w z Hw H) at 2.
  unfold s_wrap, u_wrap. by rewrite Zplus_mod_idemp_l.
Qed.

(** Masks with a single bit. *)
Lemma land_pow2 c k : 0 ≤ k → Z.land c (2 ^ k) = if Z.testbit c k then 2 ^ k else 0.
Proof.
  intros Hk. apply Z.bits_inj'. intros n Hn. rewrite Z.land_spec, Z.pow2_bits_eqb by done.
  destruct (Z.eqb_spec k n) as [->|Hne].
  - rewrite andb_true_r. destruct (Z.testbit c n) eqn:E; [|by rewrite Z.bits_0].
    by rewrite Z.pow2_bits_eqb, Z.eqb_refl.
  - rewrite andb_false_r. destruct (Z.testbit c k); [|by rewrite Z.bits_0].
    rewrite Z.pow2_bits_eqb by done. symmetry. by apply Z.eqb_neq.
Qed.

(** ** Bytes *)

#[global] Instance byte_eq_dec : EqDecision byte := Byte.byte_eq_dec.

Definition byte_to_Z (b : byte) : Z := Z.of_N (Byte.to_N b).
Definition byte_of_Z (z : Z) : byte :=
  match Byte.of_N (Z.to_N (z mod 256)) with Some b => b | None => x00 end.

Lemma byte_to_Z_range b : 0 ≤ byte_to_Z b < 256.
Proof. unfold byte_to_Z. pose proof (Byte.to_N_bounded b). lia. Qed.

Lemma byte_to_of_Z z : byte_to_Z (byte_of_Z z) = z mod 256.
Proof.
  unfold byte_to_Z, byte_of_Z.
  pose proof (Z.mod_pos_bound z 256 ltac:(lia)) as Hb.
  destruct (Byte.of_N (Z.to_N (z mod 256))) as [b|] eqn:E.
  - apply Byte.to_of_N in E. rewrite E. lia.
  - apply Byte.of_N_None_iff in E. lia.
Qed.

Lemma byte_to_Z_inj b1 b2 : byte_to_Z b1 = byte_to_Z b2 → b1 = b2.
Proof.
  unfold byte_to_Z. intros H%N2Z.inj.
  pose proof (Byte.of_to_N b1) as H1. pose proof (Byte.of_to_N b2) as H2.
  rewrite H in H1. congruence.
Qed.

Lemma byte_of_to_Z b : byte_of_Z (byte_to_Z b) = b.
Proof.
  apply byte_to_Z_inj. rewrite byte_to_of_Z.
  apply Z.mod_small, byte_to_Z_range.
Qed.

Lemma byte_of_Z_eq z b : z = byte_to_Z b → byte_of_Z z = b.
Proof. intros ->. apply byte_of_to_Z. Qed.

Lemma byte_to_Z_eq0 b : byte_to_Z b = 0 ↔ b = x00.
Proof. split; [|by intros ->]. intros H. by apply byte_to_Z_inj. Qed.

(** Little-endian bytes of an unsigned integer; [to_ne_bytes] on the
    [bpfel-unknown-none] target the eBPF object is built for. *)
Fixpoint le_bytes (n : nat) (z : Z) : list byte :=
  match n with
  | O => []
  | S n => byte_of_Z z :: le_bytes n (z / 256)
  end.

Fixpoint le_int (l : list byte) : Z :=
  match l with
  | [] => 0
  | b :: l => byte_to_Z b + 256 * le_int l
  end.

Definition width_bits (n : nat) : Z := 8 * Z.of_nat n.

Lemma length_le_bytes n z : length (le_bytes n z) = n.
Proof. revert z; induction n as [|n IH]; intros z; simpl; [done|]. by rewrite IH. Qed.

Lemma le_int_range l : in_u (width_bits (length l)) (le_int l).
Proof.
  unfold in_u, width_bits. induction l as [|b l IH]; simpl; [lia|].
  pose proof (byte_to_Z_range b).
  replace (8 * Z.of_nat (S (length l))) with (8 + 8 * Z.of_nat (length l)) by lia.
  rewrite Z.pow_add_r by lia. change (2 ^ 8) with 256. lia.
Qed.

Lemma le_int_bytes n z : le_int (le_bytes n z) = u_wrap (width_bits n) z.
Proof.
  unfold u_wrap, width_bits. revert z.
  induction n as [|n IH]; intros z; simpl; [by rewrite Z.mod_1_r|].
  rewrite IH, byte_to_of_Z.
  replace (8 * Z.of_nat (S n)) with (8 + 8 * Z.of_nat n) by lia.
  rewrite Z.pow_add_r by lia. change (2 ^ 8) with 256.
  rewrite Z.rem_mul_r by lia. lia.
Qed.

Lemma le_bytes_int l : le_bytes (length l) (le_int l) = l.
Proof.
  induction l as [|b l IH]; simpl; [done|]. pose proof (byte_to_Z_range b).
  replace ((byte_to_Z b + 256 * le_int l) / 256) with (le_int l)
    by (rewrite Z.mul_comm, Z.div_add, Z.div_small by lia; lia).
  rewrite IH. f_equal. apply byte_to_Z_inj. rewrite byte_to_of_Z.
  rewrite Z.mul_comm, Z.mod_add by lia. by apply Z.mod_small.
Qed.

(** ** Arrays of bytes read as C strings

    [iter().position(|&x| x == 0).unwrap_or(len)] and the slice up to it. *)

Fixpoint position (f : byte → bool) (l : list byte) : option nat :=
  match l with
  | [] => None
  | b :: l => if f b then Some O else S <$> position f l
  end.

Definition cstr_len (l : list byte) : nat :=
  default (length l) (position (fun x => bool_decide (x = x00)) l).

Definition cstr (l : list byte) : list byte := take (cstr_len l) l.

Lemma cstr_cons b l :
  cstr (b :: l) = if decide (b = x00) then [] else b :: cstr l.
Proof.
  unfold cstr, cstr_len; simpl. case_bool_decide as Hb; case_decide; try done.
  by destruct (position _ l).
Qed.

Lemma cstr_no_nul l : x00 ∉ cstr l.
Proof.
  induction l as [|b l IH]; [apply not_elem_of_nil|].
  rewrite cstr_cons. case_decide; [apply not_elem_of_nil|].
  apply not_elem_of_cons. auto.
Qed.

Lemma cstr_id l : x00 ∉ l → cstr l = l.
Proof.
  induction l as [|b l IH]; [done|]. intros [Hb Hl]%not_elem_of_cons.
  rewrite cstr_cons, decide_False by done. by rewrite IH.
Qed.

(** What follows the first NUL is not looked at. *)
Lemma cstr_nul s rest : x00 ∉ s → cstr (s ++ x00 :: rest) = s.
Proof.
  induction s as [|b s IH]; intros Hs; simpl.
  - by rewrite cstr_cons, decide_True.
  - apply not_elem_of_cons in Hs as [Hb Hs].
    rewrite cstr_cons, decide_False by done. by rewrite IH.
Qed.

Lemma str_app_nil_r (s : String.string) : (s +:+ "" = s)%string.
Proof. induction s as [|c s IH]; [done|]. exact (f_equal (String.String c) IH). Qed.

Lemma str_app_assoc (a b c : String.string) : (a +:+ (b +:+ c) = (a +:+ b) +:+ c)%string.
Proof. induction a as [|x a IH]; [done|]. exact (f_equal (String.String x) IH). Qed.

(** A list whose members are images. *)
Lemma list_preimage {A B} (f : A → B) (P : A → Prop) l :
  (∀ y, y ∈ l → ∃ x, y = f x ∧ P x) → ∃ xs, l = f <$> xs ∧ Forall P xs.
Proof.
  induction l as [|y l IH]; intros Hl; [by exists []|].
  destruct (Hl y) as (x & -> & Hx); [apply list_elem_of_here|].
  destruct IH as (xs & -> & Hxs); [intros z Hz; by apply Hl, list_elem_of_further|].
  exists (x :: xs). split; [done|by constructor].
Qed.

(** ** Shared proof steps *)

Create HintDb bpfx discriminated.
Create Rewrite HintDb bpfx_rw.
#[export] Hint Resolve length_le_bytes u_wrap_range s_wrap_range byte_to_Z_range : bpfx.

(** Case analysis on every [match]/[if] of the goal, closing absurd branches. *)
Ltac break := repeat (case_match; simplify_eq/=; try done).

(** Invert monadic equations that end in [Ok]. *)
Ltac inv_ok :=
  repeat match goal with
  | H : mbind _ _ = Ok _ |- _ =>
      let a := fresh "a" in let E := fresh "E" in
      apply outcome_bind_Ok in H as (a & E & H)
  end.

(** Split a goal made of conjunctions of decidable ranges. *)
Ltac range := unfold in_u, in_s in *; simpl in *; lia.

Ltac split_all := repeat match goal with |- _ ∧ _ => split end.
