(* ===== verification/Utf8.v ===== *)
(** * UTF-8 and [String::from_utf8_lossy]

    The string decoding every converter of [src/core.rs] goes through:
    [String::from_utf8_lossy(&buf[..len]).into_owned()] with [len] the position
    of the first NUL.  [from_utf8_lossy] follows the standard library's
    decoder (one U+FFFD per maximal invalid prefix); [valid_utf8] is an
    independent definition, by encoding Unicode scalar values. *)

From S2P Require Import Prelude.

Definition between (lo hi z : Z) : bool := (lo <=? z) && (z <=? hi).

Definition is_cont (b : byte) : bool := between 128 191 (byte_to_Z b).

Definition utf8_char_width (b : byte) : Z :=
  let z := byte_to_Z b in
  if z <? 128 then 1
  else if between 194 223 z then 2
  else if between 224 239 z then 3
  else if between 240 244 z then 4
  else 0.

(** The second byte a three- or four-byte sequence may have. *)
Definition second3 (b0 b1 : byte) : bool :=
  let z0 := byte_to_Z b0 in let z1 := byte_to_Z b1 in
  if z0 =? 224 then between 160 191 z1
  else if z0 =? 237 then between 128 159 z1
  else between 128 191 z1.

Definition second4 (b0 b1 : byte) : bool :=
  let z0 := byte_to_Z b0 in let z1 := byte_to_Z b1 in
  if z0 =? 240 then between 144 191 z1
  else if z0 =? 244 then between 128 143 z1
  else between 128 191 z1.

(** U+FFFD in UTF-8. *)
Definition REPLACEMENT : list byte := [xef; xbf; xbd].

Fixpoint from_utf8_lossy (l : list byte) : list byte :=
  match l with
  | [] => []
  | b0 :: l0 =>
      let w := utf8_char_width b0 in
      if w =? 1 then b0 :: from_utf8_lossy l0
      else if w =? 2 then
        match l0 with
        | b1 :: l1 =>
            if is_cont b1 then b0 :: b1 :: from_utf8_lossy l1
            else REPLACEMENT ++ from_utf8_lossy l0
        | [] => REPLACEMENT
        end
      else if w =? 3 then
        match l0 with
        | b1 :: l1 =>
            if second3 b0 b1 then
              match l1 with
              | b2 :: l2 =>
                  if is_cont b2 then b0 :: b1 :: b2 :: from_utf8_lossy l2
                  else REPLACEMENT ++ from_utf8_lossy l1
              | [] => REPLACEMENT
              end
            else REPLACEMENT ++ from_utf8_lossy l0
        | [] => REPLACEMENT
        end
      else if w =? 4 then
        match l0 with
        | b1 :: l1 =>
            if second4 b0 b1 then
              match l1 with
              | b2 :: l2 =>
                  if is_cont b2 then
                    match l2 with
                    | b3 :: l3 =>
                        if is_cont b3
                        then b0 :: b1 :: b2 :: b3 :: from_utf8_lossy l3
                        else REPLACEMENT ++ from_utf8_lossy l2
                    | [] => REPLACEMENT
                    end
                  else REPLACEMENT ++ from_utf8_lossy l1
              | [] => REPLACEMENT
              end
            else REPLACEMENT ++ from_utf8_lossy l0
        | [] => REPLACEMENT
        end
      else REPLACEMENT ++ from_utf8_lossy l0
  end.

(** ** Valid UTF-8, by encoding *)

Definition scalar (c : Z) : Prop := 0 ≤ c < 55296 ∨ 57344 ≤ c < 1114112.

Definition encode_utf8 (c : Z) : list byte :=
  if c <? 128 then [byte_of_Z c]
  else if c <? 2048 then [byte_of_Z (192 + c / 64); byte_of_Z (128 + c mod 64)]
  else if c <? 65536 then
    [byte_of_Z (224 + c / 4096); byte_of_Z (128 + c / 64 mod 64);
     byte_of_Z (128 + c mod 64)]
  else
    [byte_of_Z (240 + c / 262144); byte_of_Z (128 + c / 4096 mod 64);
     byte_of_Z (128 + c / 64 mod 64); byte_of_Z (128 + c mod 64)].

Definition valid_utf8 (l : list byte) : Prop :=
  ∃ cs, Forall scalar cs ∧ l = cs ≫= encode_utf8.

(** ** Lemmas *)

Lemma valid_utf8_nil : valid_utf8 [].
Proof. by exists []. Qed.

Lemma valid_utf8_cons c l : scalar c → valid_utf8 l → valid_utf8 (encode_utf8 c ++ l).
Proof. intros Hc (cs & Hcs & ->). exists (c :: cs). split; [by constructor|done]. Qed.

Lemma valid_utf8_app l1 l2 : valid_utf8 l1 → valid_utf8 l2 → valid_utf8 (l1 ++ l2).
Proof.
  intros (cs1 & H1 & ->) (cs2 & H2 & ->). exists (cs1 ++ cs2).
  rewrite bind_app. split; [by apply Forall_app|done].
Qed.

Lemma replacement_encode : encode_utf8 65533 = REPLACEMENT.
Proof. reflexivity. Qed.

Lemma valid_replacement l : valid_utf8 l → valid_utf8 (REPLACEMENT ++ l).
Proof. rewrite <- replacement_encode. apply valid_utf8_cons. right. lia. Qed.

Lemma between_spec lo hi z : between lo hi z = true ↔ lo ≤ z ≤ hi.
Proof. unfold between. rewrite andb_true_iff, !Z.leb_le. done. Qed.

Ltac zmod_small :=
  repeat match goal with
  | |- context [byte_to_Z (byte_of_Z ?z)] =>
      rewrite (byte_to_of_Z z), (Z.mod_small z 256) by (Z.to_euclidean_division_equations; lia)
  end.

(** Resolve the comparisons of byte values the context decides. *)
Ltac decide_bools :=
  unfold between;
  repeat first
    [ progress cbn [andb]
    | match goal with
      | |- context [?a <? ?b] =>
          first
            [ replace (a <? b) with true by (symmetry; apply Z.ltb_lt; Z.to_euclidean_division_equations; lia)
            | replace (a <? b) with false by (symmetry; apply Z.ltb_ge; Z.to_euclidean_division_equations; lia) ]
      | |- context [?a <=? ?b] =>
          first
            [ replace (a <=? b) with true by (symmetry; apply Z.leb_le; Z.to_euclidean_division_equations; lia)
            | replace (a <=? b) with false by (symmetry; apply Z.leb_gt; Z.to_euclidean_division_equations; lia) ]
      | |- context [?a =? ?b] =>
          first
            [ replace (a =? b) with true by (symmetry; apply Z.eqb_eq; Z.to_euclidean_division_equations; lia)
            | replace (a =? b) with false by (symmetry; apply Z.eqb_neq; Z.to_euclidean_division_equations; lia) ]
      end ].

Lemma is_cont_enc c : is_cont (byte_of_Z (128 + c mod 64)) = true.
Proof.
  unfold is_cont. pose proof (Z.mod_pos_bound c 64). zmod_small.
  apply between_spec. lia.
Qed.

Lemma width_enc2 c : 128 ≤ c < 2048 → utf8_char_width (byte_of_Z (192 + c / 64)) = 2.
Proof. intros. unfold utf8_char_width. zmod_small. by decide_bools. Qed.

Lemma width_enc3 c : 2048 ≤ c < 65536 → utf8_char_width (byte_of_Z (224 + c / 4096)) = 3.
Proof. intros. unfold utf8_char_width. zmod_small. by decide_bools. Qed.

Lemma width_enc4 c :
  65536 ≤ c < 1114112 → utf8_char_width (byte_of_Z (240 + c / 262144)) = 4.
Proof. intros. unfold utf8_char_width. zmod_small. by decide_bools. Qed.

Lemma second3_enc c :
  2048 ≤ c < 65536 → scalar c →
  second3 (byte_of_Z (224 + c / 4096)) (byte_of_Z (128 + c / 64 mod 64)) = true.
Proof.
  unfold scalar, second3. intros Hr Hs. zmod_small.
  destruct (Z.eqb_spec (224 + c / 4096) 224); [|destruct (Z.eqb_spec (224 + c / 4096) 237)];
    apply between_spec; Z.to_euclidean_division_equations; lia.
Qed.

Lemma second4_enc c :
  65536 ≤ c < 1114112 →
  second4 (byte_of_Z (240 + c / 262144)) (byte_of_Z (128 + c / 4096 mod 64)) = true.
Proof.
  unfold second4. intros Hr. zmod_small.
  destruct (Z.eqb_spec (240 + c / 262144) 240); [|destruct (Z.eqb_spec (240 + c / 262144) 244)];
    apply between_spec; Z.to_euclidean_division_equations; lia.
Qed.

Lemma from_utf8_lossy_encode c l :
  scalar c → from_utf8_lossy (encode_utf8 c ++ l) = encode_utf8 c ++ from_utf8_lossy l.
Proof.
  intros Hc. unfold encode_utf8.
  destruct (Z.ltb_spec c 128); [|destruct (Z.ltb_spec c 2048);
    [|destruct (Z.ltb_spec c 65536)]]; cbn [app from_utf8_lossy].
  - assert (Hw : utf8_char_width (byte_of_Z c) = 1).
    { unfold utf8_char_width, scalar in *. zmod_small. by decide_bools. }
    by rewrite Hw.
  - by rewrite width_enc2, is_cont_enc by lia.
  - by rewrite width_enc3, second3_enc, is_cont_enc by (done || lia).
  - assert (c < 1114112) by (unfold scalar in *; lia).
    by rewrite width_enc4, second4_enc, !is_cont_enc by lia.
Qed.

Ltac bytes_eq :=
  repeat (f_equal; try (apply byte_of_Z_eq; Z.to_euclidean_division_equations; lia)).

(** Decoding the sequences the decoder accepts gives scalar values back. *)
Lemma encode_of_bytes2 b0 b1 :
  utf8_char_width b0 = 2 → is_cont b1 = true →
  ∃ c, scalar c ∧ encode_utf8 c = [b0; b1].
Proof.
  unfold utf8_char_width, is_cont. pose proof (byte_to_Z_range b0).
  destruct (Z.ltb_spec (byte_to_Z b0) 128); [done|].
  destruct (between 194 223 _) eqn:E0; [|break].
  apply between_spec in E0. intros _ E1%between_spec.
  exists ((byte_to_Z b0 - 192) * 64 + (byte_to_Z b1 - 128)).
  split; [unfold scalar; lia|]. unfold encode_utf8. decide_bools.
  bytes_eq.
Qed.

Lemma encode_of_bytes3 b0 b1 b2 :
  utf8_char_width b0 = 3 → second3 b0 b1 = true → is_cont b2 = true →
  ∃ c, scalar c ∧ encode_utf8 c = [b0; b1; b2].
Proof.
  unfold utf8_char_width, is_cont, second3. pose proof (byte_to_Z_range b0).
  destruct (Z.ltb_spec (byte_to_Z b0) 128); [done|].
  destruct (between 194 223 _); [done|].
  destruct (between 224 239 _) eqn:E0; [|break]. apply between_spec in E0.
  intros _ E1 E2%between_spec.
  assert (128 ≤ byte_to_Z b1 ≤ 191 ∧ (byte_to_Z b0 = 224 → 160 ≤ byte_to_Z b1) ∧
          (byte_to_Z b0 = 237 → byte_to_Z b1 ≤ 159)) as (? & ? & ?).
  { destruct (Z.eqb_spec (byte_to_Z b0) 224);
      [|destruct (Z.eqb_spec (byte_to_Z b0) 237)]; apply between_spec in E1; lia. }
  exists ((byte_to_Z b0 - 224) * 4096 + (byte_to_Z b1 - 128) * 64 + (byte_to_Z b2 - 128)).
  split; [unfold scalar; lia|]. unfold encode_utf8. decide_bools.
  bytes_eq.
Qed.

Lemma encode_of_bytes4 b0 b1 b2 b3 :
  utf8_char_width b0 = 4 → second4 b0 b1 = true → is_cont b2 = true → is_cont b3 = true →
  ∃ c, scalar c ∧ encode_utf8 c = [b0; b1; b2; b3].
Proof.
  unfold utf8_char_width, is_cont, second4. pose proof (byte_to_Z_range b0).
  destruct (Z.ltb_spec (byte_to_Z b0) 128); [done|].
  destruct (between 194 223 _); [done|]. destruct (between 224 239 _); [done|].
  destruct (between 240 244 _) eqn:E0; [|break]. apply between_spec in E0.
  intros _ E1 E2%between_spec E3%between_spec.
  assert (128 ≤ byte_to_Z b1 ≤ 191 ∧ (byte_to_Z b0 = 240 → 144 ≤ byte_to_Z b1) ∧
          (byte_to_Z b0 = 244 → byte_to_Z b1 ≤ 143)) as (? & ? & ?).
  { destruct (Z.eqb_spec (byte_to_Z b0) 240);
      [|destruct (Z.eqb_spec (byte_to_Z b0) 244)]; apply between_spec in E1; lia. }
  exists ((byte_to_Z b0 - 240) * 262144 + (byte_to_Z b1 - 128) * 4096
          + (byte_to_Z b2 - 128) * 64 + (byte_to_Z b3 - 128)).
  split; [unfold scalar; lia|]. unfold encode_utf8. decide_bools.
  bytes_eq.
Qed.

(** ** What the decoder returns *)

(** A valid string is returned as it is. *)
Lemma from_utf8_lossy_id l : valid_utf8 l → from_utf8_lossy l = l.
Proof.
  intros (cs & Hcs & ->). induction Hcs as [|c cs Hc Hcs IH]; [done|].
  rewrite bind_cons. by rewrite from_utf8_lossy_encode, IH.
Qed.

Lemma valid_sequence c s l : scalar c → encode_utf8 c = s → valid_utf8 l → valid_utf8 (s ++ l).
Proof. intros ? <- ?. by apply valid_utf8_cons. Qed.

Lemma width1 b : utf8_char_width b = 1 → ∃ c, scalar c ∧ encode_utf8 c = [b].
Proof.
  unfold utf8_char_width. pose proof (byte_to_Z_range b).
  destruct (Z.ltb_spec (byte_to_Z b) 128); [|break]. intros _.
  exists (byte_to_Z b). split; [unfold scalar; lia|].
  unfold encode_utf8. decide_bools. by rewrite byte_of_to_Z.
Qed.

(** Whatever the bytes, the result is a valid [String]. *)
Lemma from_utf8_lossy_wf l : valid_utf8 (from_utf8_lossy l).
Proof.
  induction l as [l IH] using (well_founded_induction
    (Wf_nat.well_founded_ltof (list byte) length)).
  unfold Wf_nat.ltof in IH.
  destruct l as [|b0 l0]; [apply valid_utf8_nil|]. cbn [from_utf8_lossy].
  repeat match goal with
  | |- context [utf8_char_width b0 =? ?k] => destruct (Z.eqb_spec (utf8_char_width b0) k)
  | |- context [match ?l with [] => _ | _ :: _ => _ end] => is_var l; destruct l
  | |- context [if ?b then _ else _] => destruct b eqn:?
  end;
  try (apply valid_replacement; apply IH; simpl; lia);
  try (apply (valid_replacement []), valid_utf8_nil).
  - destruct (width1 b0) as (c & ? & ?); [done|].
    eapply (valid_sequence c [b0]); eauto; apply IH; simpl; lia.
  - edestruct (encode_of_bytes2 b0) as (c & ? & ?); [eassumption..|].
    eapply (valid_sequence c [b0; _]); eauto; apply IH; simpl; lia.
  - edestruct (encode_of_bytes3 b0) as (c & ? & ?); [eassumption..|].
    eapply (valid_sequence c [b0; _; _]); eauto; apply IH; simpl; lia.
  - match goal with |- valid_utf8 (_ :: ?x :: ?y :: ?z :: _) =>
      destruct (encode_of_bytes4 b0 x y z) as (c & ? & ?); [done..|] end.
    eapply (valid_sequence c [b0; _; _; _]); eauto; apply IH; simpl; lia.
Qed.

(** ** Decoding a NUL-terminated array

    The [String] every converter builds from a fixed-size byte array. *)
Definition lossy_cstr (buf : list byte) : string :=
  String.string_of_list_byte (from_utf8_lossy (cstr buf)).

Definition string_bytes (s : string) : list byte := String.list_byte_of_string s.

Definition valid_string (s : string) : Prop := valid_utf8 (string_bytes s).

Lemma lossy_cstr_bytes buf : string_bytes (lossy_cstr buf) = from_utf8_lossy (cstr buf).
Proof. apply String.list_byte_of_string_of_list_byte. Qed.

Lemma lossy_cstr_valid buf : valid_string (lossy_cstr buf).
Proof. unfold valid_string. rewrite lossy_cstr_bytes. apply from_utf8_lossy_wf. Qed.

(** The decoder never makes a NUL, and the scan stops before the first one. *)
Lemma from_utf8_lossy_no_nul l : x00 ∉ l → x00 ∉ from_utf8_lossy l.
Proof.
  induction l as [l IH] using (well_founded_induction
    (Wf_nat.well_founded_ltof (list byte) length)).
  unfold Wf_nat.ltof in IH. intros Hl.
  assert (Hrepl : x00 ∉ REPLACEMENT) by (apply (bool_decide_unpack _); vm_compute; exact I).
  destruct l as [|b0 l0]; [done|]. cbn [from_utf8_lossy].
  repeat match goal with
  | |- context [match ?l with [] => _ | _ :: _ => _ end] => is_var l; destruct l
  | |- context [if ?b then _ else _] => destruct b
  end; rewrite ?not_elem_of_cons, ?not_elem_of_app in *; destruct_and?; split_and?;
    try done; apply IH; simpl; rewrite ?not_elem_of_cons; auto with lia.
Qed.

Lemma lossy_cstr_no_nul buf : x00 ∉ string_bytes (lossy_cstr buf).
Proof. rewrite lossy_cstr_bytes. apply from_utf8_lossy_no_nul, cstr_no_nul. Qed.

(** A valid NUL-free name stored in a longer buffer is recovered. *)
Lemma lossy_cstr_padded s rest :
  valid_string s → x00 ∉ string_bytes s →
  lossy_cstr (string_bytes s ++ x00 :: rest) = s.
Proof.
  intros Hv Hn. unfold lossy_cstr.
  rewrite cstr_nul, from_utf8_lossy_id by done.
  apply String.string_of_list_byte_of_string.
Qed.

#[export] Hint Resolve lossy_cstr_valid lossy_cstr_no_nul : bpfx.
