(* ===== verification/Raw.v ===== *)
(** * Raw types shared by the eBPF programs and the library

    [bpfx-common/src/raw.rs]: constants, the raw event structs, [EventType]
    with its discriminants and [TryFrom<u8>], filter keys and owners.  A [u8]
    array is a [list byte]; other integers are [Z], their widths being part of
    the layouts of [Layout.v].  A variant [T::V] is written [T_V]; a field
    [f] of a struct keeps its name behind a short prefix of the struct's. *)

From S2P Require Import Prelude.

Definition TASK_COMM_LEN : nat := 16.

(** [raw.rs] file-type bits of [FileModeFilter]. *)
Definition FILE_REG : Z := Z.shiftl 1 0.
Definition FILE_DIR : Z := Z.shiftl 1 1.
Definition FILE_CHR : Z := Z.shiftl 1 2.
Definition FILE_BLK : Z := Z.shiftl 1 3.
Definition FILE_FIFO : Z := Z.shiftl 1 4.
Definition FILE_LNK : Z := Z.shiftl 1 5.
Definition FILE_SOCK : Z := Z.shiftl 1 6.

(** [raw.rs] open flags ([0o1000000] is [0x40000], and so on). *)
Definition O_RDONLY : Z := 0.
Definition O_WRONLY : Z := 1.
Definition O_RDWR : Z := 2.
Definition O_ACCMODE : Z := 3.
Definition O_APPEND : Z := 1024.
Definition O_ASYNC : Z := 0x2000.
Definition O_CLOEXEC : Z := 0x80000.
Definition O_CREAT : Z := 64.
Definition O_DIRECT : Z := 0x4000.
Definition O_DIRECTORY : Z := 0x10000.
Definition O_DSYNC : Z := 4096.
Definition O_EXCL : Z := 128.
Definition O_NOATIME : Z := 0x40000.
Definition O_NOCTTY : Z := 256.
Definition O_NOFOLLOW : Z := 0x20000.
Definition O_NONBLOCK : Z := 2048.
Definition O_PATH : Z := 0x200000.
Definition O_SYNC : Z := 1052672.
Definition O_TRUNC : Z := 512.
Definition O_TMPFILE : Z := Z.lor 0x400000 O_DIRECTORY.

(** ** Event types *)

Inductive EventType :=
| EventType_Connect | EventType_Accept | EventType_Close
| EventType_ProcessStart | EventType_ProcessFork | EventType_ProcessExit
| EventType_FileOpen | EventType_FileRead | EventType_FileClose
| EventType_FileWrite | EventType_FileDelete | EventType_FileRename
| EventType_Bind | EventType_Listen
| EventType_MemoryMap | EventType_MemoryUnMap
| EventType_PendingFileRename | EventType_Test.

#[global] Instance EventType_eq_dec : EqDecision EventType.
Proof. solve_decision. Defined.

(** The [repr(u8)] discriminants. *)
Definition EventType_repr (t : EventType) : Z :=
  match t with
  | EventType_Connect => 1
  | EventType_Accept => 2
  | EventType_Close => 3
  | EventType_ProcessStart => 4
  | EventType_ProcessFork => 5
  | EventType_ProcessExit => 6
  | EventType_FileOpen => 7
  | EventType_FileRead => 8
  | EventType_FileClose => 9
  | EventType_FileWrite => 10
  | EventType_FileDelete => 11
  | EventType_FileRename => 12
  | EventType_Bind => 13
  | EventType_Listen => 14
  | EventType_MemoryMap => 15
  | EventType_MemoryUnMap => 16
  | EventType_PendingFileRename => 17
  | EventType_Test => 18
  end.

Definition EventType_all : list EventType :=
  [EventType_Connect; EventType_Accept; EventType_Close; EventType_ProcessStart;
   EventType_ProcessFork; EventType_ProcessExit; EventType_FileOpen; EventType_FileRead;
   EventType_FileClose; EventType_FileWrite; EventType_FileDelete; EventType_FileRename;
   EventType_Bind; EventType_Listen; EventType_MemoryMap; EventType_MemoryUnMap;
   EventType_PendingFileRename; EventType_Test].

(** [impl TryFrom<u8> for EventType]. *)
Definition EventType_try_from (value : Z) : outcome unit EventType :=
  match value with
  | 1 => Ok EventType_Connect
  | 2 => Ok EventType_Accept
  | 3 => Ok EventType_Close
  | 4 => Ok EventType_ProcessStart
  | 5 => Ok EventType_ProcessExit
  | 6 => Ok EventType_FileOpen
  | 7 => Ok EventType_FileClose
  | _ => Err tt
  end.

Record RawEventHeader := {
  rh_event_type : EventType;
  rh_timestamp_ns : Z;
  rh_pid : Z;
  rh_tid : Z;
  rh_ppid : Z;
  rh_uid : Z;
  rh_gid : Z;
  rh_comm : list byte;
}.

Inductive RawProtocol := RawProtocol_Tcp | RawProtocol_Udp.

#[global] Instance RawProtocol_eq_dec : EqDecision RawProtocol.
Proof. solve_decision. Defined.

Definition RawProtocol_repr (p : RawProtocol) : Z :=
  match p with RawProtocol_Tcp => 1 | RawProtocol_Udp => 2 end.

(** [impl TryFrom<u8> for RawProtocol]. *)
Definition RawProtocol_try_from (value : Z) : outcome unit RawProtocol :=
  match value with
  | 1 => Ok RawProtocol_Tcp
  | 2 => Ok RawProtocol_Udp
  | _ => Err tt
  end.

Inductive IpVersion := IpVersion_V4 | IpVersion_V6.

#[global] Instance IpVersion_eq_dec : EqDecision IpVersion.
Proof. solve_decision. Defined.

Record FileModeFilter := { mode : Z }.

#[global] Instance FileModeFilter_eq_dec : EqDecision FileModeFilter.
Proof. solve_decision. Defined.

Record PendingConnect := {
  pc_header : RawEventHeader;
  pc_protocol : RawProtocol;
  pc_tid : Z;
  pc_src_port : Z;
  pc_dst_port : Z;
  pc_ip_version : IpVersion;
  pc_src_addr : list byte;
  pc_dst_addr : list byte;
  pc_retval : option Z;
}.

Record RawProcessStartEvent := {
  ps_header : RawEventHeader;
  ps_filename : list byte;
}.

Record RawProcessExitEvent := {
  pe_header : RawEventHeader;
  pe_exit_code : Z;
}.

Record RawProcessForkEvent := {
  pf_parent : RawEventHeader;
  pf_child_pid : Z;
  pf_child_comm : list byte;
}.

Record RawFilePath := { filepath : list byte }.

Record RawFileOpenEvent := {
  ro_header : RawEventHeader;
  ro_file_path : list byte;
  ro_file_mode : FileModeFilter;
  ro_inode : Z;
  ro_retval : Z;
  ro_flags : Z;
}.

Record RawFileCloseEvent := {
  rc_header : RawEventHeader;
  rc_file_path : list byte;
  rc_file_mode : FileModeFilter;
  rc_inode : Z;
  rc_retval : Z;
  rc_flags : Z;
}.

Record RawFileReadEvent := {
  rr_header : RawEventHeader;
  rr_file_path : list byte;
  rr_file_mode : FileModeFilter;
  rr_inode : Z;
  rr_retval : Z;
  rr_flags : Z;
}.

Record RawFileWriteEvent := {
  rw_header : RawEventHeader;
  rw_file_path : list byte;
  rw_file_mode : FileModeFilter;
  rw_inode : Z;
  rw_flags : Z;
  rw_retval : Z;
}.

Record RawFileDeleteEvent := {
  rd_header : RawEventHeader;
  rd_file_name : list byte;
  rd_file_mode : FileModeFilter;
  rd_retval : Z;
}.

Record RawFileRtrEvent := {
  rt_header : RawEventHeader;
  rt_retval : Z;
}.

Record RawFileRenameEvent := {
  rn_header : RawEventHeader;
  rn_old_filename : list byte;
  rn_new_filename : list byte;
  rn_file_mode : FileModeFilter;
  rn_flags : Z;
}.

Record RawMemoryMapEvent := {
  mm_header : RawEventHeader;
  mm_requested_address : Z;
  mm_length : Z;
  mm_protection : Z;
  mm_flags : Z;
  mm_mapped_address : Z;
}.

Record RawMemoryUnmapEvent := {
  mu_header : RawEventHeader;
  mu_requested_address : Z;
  mu_length : Z;
  mu_mapped_address : Z;
}.

(** ** Filter keys and owners *)

Inductive FilterKey :=
| FilterKey_None
| FilterKey_Pid (pid : Z)
| FilterKey_Tid (tid : Z)
| FilterKey_Ppid (ppid : Z)
| FilterKey_Uid (uid : Z)
| FilterKey_Gid (gid : Z).

#[global] Instance FilterKey_eq_dec : EqDecision FilterKey.
Proof. solve_decision. Defined.

Inductive FilterOwner :=
| FilterOwner_Memory | FilterOwner_Process | FilterOwner_Network | FilterOwner_File.

#[global] Instance FilterOwner_eq_dec : EqDecision FilterOwner.
Proof. solve_decision. Defined.

(** [owner as u32]. *)
Definition FilterOwner_repr (o : FilterOwner) : Z :=
  match o with
  | FilterOwner_Memory => 0
  | FilterOwner_Process => 1
  | FilterOwner_Network => 2
  | FilterOwner_File => 3
  end.

(** ** Lemmas *)

Lemma FilterOwner_repr_inj : Inj (=) (=) FilterOwner_repr.
Proof. intros [] []; simpl; congruence. Qed.

Lemma EventType_repr_inj : Inj (=) (=) EventType_repr.
Proof. intros [] []; simpl; congruence. Qed.

Lemma EventType_all_elem t : t ∈ EventType_all.
Proof. apply (bool_decide_unpack _). by destruct t; vm_compute. Qed.
