(* ===== verification/Layout.v ===== *)
(** * Memory layout of the raw structs

    The ring buffer carries bytes: the eBPF programs write a [#[repr(C)]]
    struct and [src/core.rs] reads one back with [ptr::read].  A [codec] is
    the layout of one type: how it is written, how it is read, its size and
    the values it can hold.  A byte that was never written (padding, the
    payload of [None]) is [None], and a read that needs it, goes past the end
    of the record or meets an invalid discriminant fails. *)

From S2P Require Import Prelude Raw.

(** A cell of a record: a byte, or nothing written. *)
Abbreviation mem := (list (option byte)).

Record codec (A : Type) := Codec {
  put : A → mem;
  get : mem → option (A * mem);
  size_of : nat;
  wf : A → Prop;
}.
Arguments Codec {A}.
Arguments put {A}.
Arguments get {A}.
Arguments size_of {A}.
Arguments wf {A}.

(** What a layout promises: a written value is read back whatever follows it,
    a read takes exactly [size_of] bytes, and yields a value of the type. *)
Class CodecOk {A} (c : codec A) : Prop := {
  get_put : ∀ a rest, wf c a → get c (put c a ++ rest) = Some (a, rest);
  length_put : ∀ a, wf c a → length (put c a) = size_of c;
  get_size : ∀ m a rest, get c m = Some (a, rest) → length m = (size_of c + length rest)%nat;
  get_wf : ∀ m a rest, get c m = Some (a, rest) → wf c a;
}.

Lemma put_inj {A} (c : codec A) `{!CodecOk c} a b :
  wf c a → wf c b → put c a = put c b → a = b.
Proof.
  intros Ha Hb He. pose proof (get_put a [] Ha) as H. rewrite He, get_put in H by done.
  by simplify_eq.
Qed.

(** [ptr::read(ptr as *const T)] at the start of a record. *)
Definition ptr_read {E A} (c : codec A) (item : mem) : outcome E A :=
  match get c item with
  | Some (a, _) => Ok a
  | None => UB
  end.

(** ** Elementary layouts *)

Fixpoint mget (n : nat) (m : mem) : option (list byte * mem) :=
  match n with
  | O => Some ([], m)
  | S n =>
      match m with
      | Some b :: m =>
          match mget n m with
          | Some (l, rest) => Some (b :: l, rest)
          | None => None
          end
      | _ => None
      end
  end.

Definition skip (n : nat) (m : mem) : option mem :=
  if (n <=? length m)%nat then Some (drop n m) else None.

Definition pad (n : nat) : mem := replicate n None.

(** [[u8; n]]. *)
Definition array (n : nat) : codec (list byte) := {|
  put l := Some <$> l;
  get := mget n;
  size_of := n;
  wf l := length l = n;
|}.

(** An unsigned integer of [n] bytes. *)
Definition uint (n : nat) : codec Z := {|
  put z := Some <$> le_bytes n z;
  get m := match mget n m with Some (l, rest) => Some (le_int l, rest) | None => None end;
  size_of := n;
  wf := in_u (width_bits n);
|}.

(** A signed integer of [n] bytes, in two's complement. *)
Definition sint (n : nat) : codec Z := {|
  put z := Some <$> le_bytes n z;
  get m :=
    match mget n m with
    | Some (l, rest) => Some (s_wrap (width_bits n) (le_int l), rest)
    | None => None
    end;
  size_of := n;
  wf := in_s (width_bits n);
|}.

(** A fieldless enum stored in [n] bytes; [parse] knows the valid discriminants. *)
Definition enum {A} (n : nat) (repr : A → Z) (parse : Z → option A) : codec A := {|
  put a := put (uint n) (repr a);
  get m :=
    match get (uint n) m with
    | Some (z, rest) => match parse z with Some a => Some (a, rest) | None => None end
    | None => None
    end;
  size_of := n;
  wf _ := True;
|}.

(** ** Composite layouts *)

(** Two consecutive fields. *)
Definition pair {A B} (ca : codec A) (cb : codec B) : codec (A * B) := {|
  put p := put ca p.1 ++ put cb p.2;
  get m :=
    match get ca m with
    | Some (a, m) => match get cb m with Some (b, m) => Some ((a, b), m) | None => None end
    | None => None
    end;
  size_of := size_of ca + size_of cb;
  wf p := wf ca p.1 ∧ wf cb p.2;
|}.

(** A field followed by [n] padding bytes. *)
Definition padded {A} (ca : codec A) (n : nat) : codec A := {|
  put a := put ca a ++ pad n;
  get m :=
    match get ca m with
    | Some (a, m) => match skip n m with Some m => Some (a, m) | None => None end
    | None => None
    end;
  size_of := size_of ca + n;
  wf := wf ca;
|}.

(** A struct, as the tuple of its fields. *)
Definition struct {A B} (mk : A → B) (un : B → A) (ca : codec A) : codec B := {|
  put b := put ca (un b);
  get m := match get ca m with Some (a, m) => Some (mk a, m) | None => None end;
  size_of := size_of ca;
  wf b := wf ca (un b);
|}.

(** [Option<i32>], as rustc lays it out: a 4-byte tag and the payload. *)
Definition option_i32 : codec (option Z) := {|
  put o :=
    match o with
    | None => put (uint 4) 0 ++ pad 4
    | Some v => put (uint 4) 1 ++ put (sint 4) v
    end;
  get m :=
    match get (uint 4) m with
    | Some (0, m) => match skip 4 m with Some m => Some (None, m) | None => None end
    | Some (1, m) => match get (sint 4) m with Some (v, m) => Some (Some v, m) | None => None end
    | _ => None
    end;
  size_of := 8;
  wf o := match o with None => True | Some v => wf (sint 4) v end;
|}.

Infix "⊗" := pair (at level 40, left associativity) : bpfx_scope.
Infix "⊕" := padded (at level 35, no associativity) : bpfx_scope.

Abbreviation u8 := (uint 1).
Abbreviation u16 := (uint 2).
Abbreviation u32 := (uint 4).
Abbreviation u64 := (uint 8).
Abbreviation usize := (uint 8).
Abbreviation i32 := (sint 4).
Abbreviation isize := (sint 8).

(** ** Laws *)

Lemma mget_app l rest : mget (length l) ((Some <$> l) ++ rest) = Some (l, rest).
Proof. induction l as [|b l IH]; csimpl; [done|]. by rewrite IH. Qed.

Lemma mget_size n m l rest :
  mget n m = Some (l, rest) → length l = n ∧ length m = (n + length rest)%nat.
Proof.
  revert m l. induction n as [|n IH]; intros m l; simpl; [by intros [= <- <-]|].
  destruct m as [|[b|] m]; try done.
  destruct (mget n m) as [[l' rest']|] eqn:E; intros [= <- <-].
  apply IH in E. simpl. lia.
Qed.

Lemma skip_pad n rest : skip n (pad n ++ rest) = Some rest.
Proof.
  unfold skip, pad. rewrite length_app, length_replicate.
  rewrite (proj2 (Nat.leb_le _ _)) by lia. rewrite drop_app_length'; [done|].
  by rewrite length_replicate.
Qed.

Lemma skip_size n m rest : skip n m = Some rest → length m = (n + length rest)%nat.
Proof.
  unfold skip. destruct (Nat.leb_spec n (length m)); intros [= <-].
  rewrite length_drop. lia.
Qed.

#[global] Instance array_ok n : CodecOk (array n).
Proof.
  split; simpl.
  - intros l rest <-. apply mget_app.
  - intros l <-. apply length_fmap.
  - intros m l rest H. by apply mget_size in H as [].
  - intros m l rest H. by apply mget_size in H as [].
Qed.

Lemma mget_le_bytes n z rest :
  mget n ((Some <$> le_bytes n z) ++ rest) = Some (le_bytes n z, rest).
Proof. rewrite <- (length_le_bytes n z) at 1. apply mget_app. Qed.

#[global] Instance uint_ok n : CodecOk (uint n).
Proof.
  split; simpl.
  - intros z rest H. rewrite mget_le_bytes, le_int_bytes.
    by rewrite u_wrap_id.
  - intros z _. by rewrite length_fmap, length_le_bytes.
  - intros m z rest. destruct (mget n m) as [[l r]|] eqn:E; intros [= <- <-].
    by apply mget_size in E as [].
  - intros m z rest. destruct (mget n m) as [[l r]|] eqn:E; intros [= <- <-].
    apply mget_size in E as [<- _]. apply le_int_range.
Qed.

Class Pos (n : nat) : Prop := pos : (0 < n)%nat.
#[global] Instance Pos_S n : Pos (S n).
Proof. unfold Pos. lia. Qed.

Lemma width_bits_pos n `{!Pos n} : 0 < width_bits n.
Proof. unfold Pos, width_bits in *. lia. Qed.

#[global] Instance sint_ok n `{!Pos n} : CodecOk (sint n).
Proof.
  pose proof (width_bits_pos n). split; simpl.
  - intros z rest H'. rewrite mget_le_bytes, le_int_bytes.
    by rewrite s_wrap_u_wrap.
  - intros z _. by rewrite length_fmap, length_le_bytes.
  - intros m z rest. destruct (mget n m) as [[l r]|] eqn:E; intros [= <- <-].
    by apply mget_size in E as [].
  - intros m z rest. destruct (mget n m) as [[l r]|] eqn:E; intros [= <- <-].
    by apply s_wrap_range.
Qed.

Lemma enum_ok {A} n (repr : A → Z) parse :
  (∀ a, in_u (width_bits n) (repr a)) → (∀ a, parse (repr a) = Some a) →
  CodecOk (enum n repr parse).
Proof.
  intros Hr Ho. split; simpl.
  - intros a rest _. rewrite mget_le_bytes, le_int_bytes, u_wrap_id by done.
    by rewrite Ho.
  - intros a _. by rewrite length_fmap, length_le_bytes.
  - intros m a rest. destruct (mget n m) as [[l r]|] eqn:E; [|done].
    destruct (parse (le_int l)); intros [= <- <-]. by apply mget_size in E as [].
  - done.
Qed.

#[global] Instance pair_ok {A B} (ca : codec A) (cb : codec B) :
  CodecOk ca → CodecOk cb → CodecOk (ca ⊗ cb).
Proof.
  intros Ha Hb. split; simpl.
  - intros [a b] rest [Hwa Hwb]. simpl in *. rewrite <- (assoc_L (++)).
    by rewrite get_put, get_put.
  - intros [a b] [Hwa Hwb]. simpl in *. by rewrite length_app, !length_put.
  - intros m [a b] rest. destruct (get ca m) as [[a' m']|] eqn:E1; [|done].
    destruct (get cb m') as [[b' m'']|] eqn:E2; intros [= <- <- <-].
    apply get_size in E1, E2. lia.
  - intros m [a b] rest. destruct (get ca m) as [[a' m']|] eqn:E1; [|done].
    destruct (get cb m') as [[b' m'']|] eqn:E2; intros [= <- <- <-].
    apply get_wf in E1, E2; done.
Qed.

#[global] Instance padded_ok {A} (ca : codec A) n : CodecOk ca → CodecOk (ca ⊕ n).
Proof.
  intros Ha. split; simpl.
  - intros a rest Hwa. rewrite <- (assoc_L (++)), get_put by done.
    by rewrite skip_pad.
  - intros a Hwa. rewrite length_app, length_put by done.
    unfold pad. by rewrite length_replicate.
  - intros m a rest. destruct (get ca m) as [[a' m']|] eqn:E1; [|done].
    destruct (skip n m') as [m''|] eqn:E2; intros [= <- <-].
    apply get_size in E1. apply skip_size in E2. lia.
  - intros m a rest. destruct (get ca m) as [[a' m']|] eqn:E1; [|done].
    destruct (skip n m') as [m''|] eqn:E2; intros [= <- <-]. by apply get_wf in E1.
Qed.

Lemma struct_ok {A B} (mk : A → B) (un : B → A) (ca : codec A) :
  (∀ b, mk (un b) = b) → (∀ a, un (mk a) = a) → CodecOk ca → CodecOk (struct mk un ca).
Proof.
  intros Hot Hto Ha. split; simpl.
  - intros b rest Hw. by rewrite get_put, Hot.
  - intros b Hw. by apply length_put.
  - intros m b rest. destruct (get ca m) as [[a' m']|] eqn:E1; intros [= <- <-].
    by eapply get_size.
  - intros m b rest. destruct (get ca m) as [[a' m']|] eqn:E1; intros [= <- <-].
    rewrite Hto. by eapply get_wf.
Qed.

#[global] Instance option_i32_ok : CodecOk option_i32.
Proof.
  split; unfold option_i32; cbn [put get size_of wf].
  - intros [v|] rest Hw; rewrite <- (assoc_L (++)), get_put by (simpl; done || range).
    + by rewrite get_put.
    + by rewrite skip_pad.
  - intros [v|] Hw; rewrite length_app, !length_put; done || range.
  - intros m o rest. destruct (get u32 m) as [[[|[]|] m']|] eqn:E; try done.
    all: apply get_size in E.
    + destruct (skip 4 m') as [m''|] eqn:E2; intros [= <- <-].
      apply skip_size in E2. simpl in *. lia.
    + destruct (get i32 m') as [[v m'']|] eqn:E2; intros [= <- <-].
      apply get_size in E2. simpl in *. lia.
  - intros m o rest. destruct (get u32 m) as [[[|[]|] m']|] eqn:E; try done.
    + destruct (skip 4 m') as [m''|] eqn:E2; intros [= <- <-]. done.
    + destruct (get i32 m') as [[v m'']|] eqn:E2; intros [= <- <-].
      by eapply get_wf.
Qed.

(** ** The structs of [raw.rs]

    Field offsets follow from [repr(C)]: each padding below is what aligns the
    next field, or the end of the struct. *)

Definition EventType_from_repr (z : Z) : option EventType :=
  list_find (fun t => EventType_repr t = z) EventType_all ≫= (fun p => Some p.2).

Definition EventType_codec : codec EventType := enum 1 EventType_repr EventType_from_repr.

Definition RawProtocol_codec : codec RawProtocol :=
  enum 1 RawProtocol_repr
    (fun z => match z with 1 => Some RawProtocol_Tcp | 2 => Some RawProtocol_Udp | _ => None end).

Definition IpVersion_codec : codec IpVersion :=
  enum 4 (fun v => match v with IpVersion_V4 => 0 | IpVersion_V6 => 1 end)
    (fun z => match z with 0 => Some IpVersion_V4 | 1 => Some IpVersion_V6 | _ => None end).

Definition FileModeFilter_codec : codec FileModeFilter := struct Build_FileModeFilter mode u16.

Definition RawEventHeader_codec : codec RawEventHeader :=
  struct
    (fun '(et, ts, p, t, pp, u, g, c) => Build_RawEventHeader et ts p t pp u g c)
    (fun h => (rh_event_type h, rh_timestamp_ns h, rh_pid h, rh_tid h, rh_ppid h, rh_uid h,
               rh_gid h, rh_comm h))
    (EventType_codec ⊕ 7 ⊗ u64 ⊗ u32 ⊗ u32 ⊗ u32 ⊗ u32 ⊗ u32 ⊗ array TASK_COMM_LEN ⊕ 4).

Definition PendingConnect_codec : codec PendingConnect :=
  struct
    (fun '(h, p, t, sp, dp, v, sa, da, r) => Build_PendingConnect h p t sp dp v sa da r)
    (fun e => (pc_header e, pc_protocol e, pc_tid e, pc_src_port e, pc_dst_port e,
               pc_ip_version e, pc_src_addr e, pc_dst_addr e, pc_retval e))
    (RawEventHeader_codec ⊗ RawProtocol_codec ⊕ 3 ⊗ u32 ⊗ u16 ⊗ u16 ⊗ IpVersion_codec
       ⊗ array 16 ⊗ array 16 ⊗ option_i32).

Definition RawProcessStartEvent_codec : codec RawProcessStartEvent :=
  struct (fun '(h, f) => Build_RawProcessStartEvent h f) (fun e => (ps_header e, ps_filename e))
    (RawEventHeader_codec ⊗ array 256).

Definition RawProcessExitEvent_codec : codec RawProcessExitEvent :=
  struct (fun '(h, c) => Build_RawProcessExitEvent h c) (fun e => (pe_header e, pe_exit_code e))
    (RawEventHeader_codec ⊗ i32 ⊕ 4).

Definition RawProcessForkEvent_codec : codec RawProcessForkEvent :=
  struct (fun '(h, p, c) => Build_RawProcessForkEvent h p c)
    (fun e => (pf_parent e, pf_child_pid e, pf_child_comm e))
    (RawEventHeader_codec ⊗ u32 ⊗ array TASK_COMM_LEN ⊕ 4).

Definition RawFileOpenEvent_codec : codec RawFileOpenEvent :=
  struct (fun '(h, p, m, i, r, f) => Build_RawFileOpenEvent h p m i r f)
    (fun e => (ro_header e, ro_file_path e, ro_file_mode e, ro_inode e, ro_retval e, ro_flags e))
    (RawEventHeader_codec ⊗ array 256 ⊗ FileModeFilter_codec ⊕ 6 ⊗ u64 ⊗ i32 ⊗ u32).

Definition RawFileCloseEvent_codec : codec RawFileCloseEvent :=
  struct (fun '(h, p, m, i, r, f) => Build_RawFileCloseEvent h p m i r f)
    (fun e => (rc_header e, rc_file_path e, rc_file_mode e, rc_inode e, rc_retval e, rc_flags e))
    (RawEventHeader_codec ⊗ array 256 ⊗ FileModeFilter_codec ⊕ 6 ⊗ u64 ⊗ i32 ⊗ u32).

Definition RawFileReadEvent_codec : codec RawFileReadEvent :=
  struct (fun '(h, p, m, i, r, f) => Build_RawFileReadEvent h p m i r f)
    (fun e => (rr_header e, rr_file_path e, rr_file_mode e, rr_inode e, rr_retval e, rr_flags e))
    (RawEventHeader_codec ⊗ array 256 ⊗ FileModeFilter_codec ⊕ 6 ⊗ u64 ⊗ isize ⊗ u32 ⊕ 4).

Definition RawFileWriteEvent_codec : codec RawFileWriteEvent :=
  struct (fun '(h, p, m, i, f, r) => Build_RawFileWriteEvent h p m i f r)
    (fun e => (rw_header e, rw_file_path e, rw_file_mode e, rw_inode e, rw_flags e, rw_retval e))
    (RawEventHeader_codec ⊗ array 256 ⊗ FileModeFilter_codec ⊕ 6 ⊗ u64 ⊗ u32 ⊕ 4 ⊗ isize).

Definition RawFileDeleteEvent_codec : codec RawFileDeleteEvent :=
  struct (fun '(h, n, m, r) => Build_RawFileDeleteEvent h n m r)
    (fun e => (rd_header e, rd_file_name e, rd_file_mode e, rd_retval e))
    (RawEventHeader_codec ⊗ array 256 ⊗ FileModeFilter_codec ⊕ 2 ⊗ i32).

Definition RawFileRtrEvent_codec : codec RawFileRtrEvent :=
  struct (fun '(h, r) => Build_RawFileRtrEvent h r) (fun e => (rt_header e, rt_retval e))
    (RawEventHeader_codec ⊗ i32 ⊕ 4).

Definition RawFileRenameEvent_codec : codec RawFileRenameEvent :=
  struct (fun '(h, o, n, m, f) => Build_RawFileRenameEvent h o n m f)
    (fun e => (rn_header e, rn_old_filename e, rn_new_filename e, rn_file_mode e, rn_flags e))
    (RawEventHeader_codec ⊗ array 256 ⊗ array 256 ⊗ FileModeFilter_codec ⊕ 2 ⊗ u32).

Definition RawMemoryMapEvent_codec : codec RawMemoryMapEvent :=
  struct (fun '(h, a, l, p, f, m) => Build_RawMemoryMapEvent h a l p f m)
    (fun e => (mm_header e, mm_requested_address e, mm_length e, mm_protection e, mm_flags e,
               mm_mapped_address e))
    (RawEventHeader_codec ⊗ usize ⊗ u64 ⊗ u32 ⊗ u32 ⊗ usize).

Definition RawMemoryUnmapEvent_codec : codec RawMemoryUnmapEvent :=
  struct (fun '(h, a, l, m) => Build_RawMemoryUnmapEvent h a l m)
    (fun e => (mu_header e, mu_requested_address e, mu_length e, mu_mapped_address e))
    (RawEventHeader_codec ⊗ usize ⊗ u64 ⊗ usize).

(** [size_of::<T>()], as the compiler computes them. *)
Example sizes_of_structs :
  (size_of RawEventHeader_codec, size_of PendingConnect_codec,
   size_of RawProcessStartEvent_codec, size_of RawProcessExitEvent_codec,
   size_of RawProcessForkEvent_codec, size_of RawFileOpenEvent_codec,
   size_of RawFileReadEvent_codec, size_of RawFileWriteEvent_codec,
   size_of RawFileDeleteEvent_codec, size_of RawFileRtrEvent_codec,
   size_of RawFileRenameEvent_codec, size_of RawMemoryMapEvent_codec,
   size_of RawMemoryUnmapEvent_codec)
  = (56, 112, 312, 64, 80, 336, 344, 344, 320, 64, 576, 88, 80)%nat.
Proof. vm_compute. reflexivity. Qed.

(** *** Laws of the structs *)

#[global] Instance EventType_codec_ok : CodecOk EventType_codec.
Proof. apply enum_ok; intros []; vm_compute; done. Qed.
#[global] Instance RawProtocol_codec_ok : CodecOk RawProtocol_codec.
Proof. apply enum_ok; intros []; vm_compute; done. Qed.
#[global] Instance IpVersion_codec_ok : CodecOk IpVersion_codec.
Proof. apply enum_ok; intros []; vm_compute; done. Qed.

Ltac solve_struct :=
  apply struct_ok;
  [ by intros [] | by intros; repeat match goal with x : (_ * _)%type |- _ => destruct x end
  | apply _ ].

#[global] Instance FileModeFilter_codec_ok : CodecOk FileModeFilter_codec.
Proof. solve_struct. Qed.
#[global] Instance RawEventHeader_codec_ok : CodecOk RawEventHeader_codec.
Proof. solve_struct. Qed.
#[global] Instance PendingConnect_codec_ok : CodecOk PendingConnect_codec.
Proof. solve_struct. Qed.
#[global] Instance RawProcessStartEvent_codec_ok : CodecOk RawProcessStartEvent_codec.
Proof. solve_struct. Qed.
#[global] Instance RawProcessExitEvent_codec_ok : CodecOk RawProcessExitEvent_codec.
Proof. solve_struct. Qed.
#[global] Instance RawProcessForkEvent_codec_ok : CodecOk RawProcessForkEvent_codec.
Proof. solve_struct. Qed.
#[global] Instance RawFileOpenEvent_codec_ok : CodecOk RawFileOpenEvent_codec.
Proof. solve_struct. Qed.
#[global] Instance RawFileCloseEvent_codec_ok : CodecOk RawFileCloseEvent_codec.
Proof. solve_struct. Qed.
#[global] Instance RawFileReadEvent_codec_ok : CodecOk RawFileReadEvent_codec.
Proof. solve_struct. Qed.
#[global] Instance RawFileWriteEvent_codec_ok : CodecOk RawFileWriteEvent_codec.
Proof. solve_struct. Qed.
#[global] Instance RawFileDeleteEvent_codec_ok : CodecOk RawFileDeleteEvent_codec.
Proof. solve_struct. Qed.
#[global] Instance RawFileRtrEvent_codec_ok : CodecOk RawFileRtrEvent_codec.
Proof. solve_struct. Qed.
#[global] Instance RawFileRenameEvent_codec_ok : CodecOk RawFileRenameEvent_codec.
Proof. solve_struct. Qed.
#[global] Instance RawMemoryMapEvent_codec_ok : CodecOk RawMemoryMapEvent_codec.
Proof. solve_struct. Qed.
#[global] Instance RawMemoryUnmapEvent_codec_ok : CodecOk RawMemoryUnmapEvent_codec.
Proof. solve_struct. Qed.
