(* ===== verification/Events.v ===== *)
(** * Records of the ring buffer

    [RawEvent] is the sum of the structs the eBPF programs submit to [EVENTS].
    [raw_put] is the record each one makes, [raw_wf] says that it fits its
    layout and [raw_tagged] that its header carries the discriminant of its
    own struct: what the readers of [src/core.rs] rely on when they dispatch
    on [header.event_type]. *)

From S2P Require Import Prelude Raw Layout.

Inductive RawEvent :=
| RawNet (e : PendingConnect)
| RawStart (e : RawProcessStartEvent)
| RawExit (e : RawProcessExitEvent)
| RawFork (e : RawProcessForkEvent)
| RawOpen (e : RawFileOpenEvent)
| RawClose (e : RawFileCloseEvent)
| RawRead (e : RawFileReadEvent)
| RawWrite (e : RawFileWriteEvent)
| RawDelete (e : RawFileDeleteEvent)
| RawRename (e : RawFileRenameEvent)
| RawRtr (e : RawFileRtrEvent)
| RawMap (e : RawMemoryMapEvent)
| RawUnmap (e : RawMemoryUnmapEvent).

Definition raw_header (e : RawEvent) : RawEventHeader :=
  match e with
  | RawNet e => pc_header e
  | RawStart e => ps_header e
  | RawExit e => pe_header e
  | RawFork e => pf_parent e
  | RawOpen e => ro_header e
  | RawClose e => rc_header e
  | RawRead e => rr_header e
  | RawWrite e => rw_header e
  | RawDelete e => rd_header e
  | RawRename e => rn_header e
  | RawRtr e => rt_header e
  | RawMap e => mm_header e
  | RawUnmap e => mu_header e
  end.

Definition raw_put (e : RawEvent) : mem :=
  match e with
  | RawNet e => put PendingConnect_codec e
  | RawStart e => put RawProcessStartEvent_codec e
  | RawExit e => put RawProcessExitEvent_codec e
  | RawFork e => put RawProcessForkEvent_codec e
  | RawOpen e => put RawFileOpenEvent_codec e
  | RawClose e => put RawFileCloseEvent_codec e
  | RawRead e => put RawFileReadEvent_codec e
  | RawWrite e => put RawFileWriteEvent_codec e
  | RawDelete e => put RawFileDeleteEvent_codec e
  | RawRename e => put RawFileRenameEvent_codec e
  | RawRtr e => put RawFileRtrEvent_codec e
  | RawMap e => put RawMemoryMapEvent_codec e
  | RawUnmap e => put RawMemoryUnmapEvent_codec e
  end.

Definition raw_wf (e : RawEvent) : Prop :=
  match e with
  | RawNet e => wf PendingConnect_codec e
  | RawStart e => wf RawProcessStartEvent_codec e
  | RawExit e => wf RawProcessExitEvent_codec e
  | RawFork e => wf RawProcessForkEvent_codec e
  | RawOpen e => wf RawFileOpenEvent_codec e
  | RawClose e => wf RawFileCloseEvent_codec e
  | RawRead e => wf RawFileReadEvent_codec e
  | RawWrite e => wf RawFileWriteEvent_codec e
  | RawDelete e => wf RawFileDeleteEvent_codec e
  | RawRename e => wf RawFileRenameEvent_codec e
  | RawRtr e => wf RawFileRtrEvent_codec e
  | RawMap e => wf RawMemoryMapEvent_codec e
  | RawUnmap e => wf RawMemoryUnmapEvent_codec e
  end.

Definition network_types : list EventType :=
  [EventType_Connect; EventType_Accept; EventType_Close; EventType_Bind; EventType_Listen].

(** The types whose network handler unwraps the return value. *)
Definition retval_types : list EventType :=
  [EventType_Connect; EventType_Bind; EventType_Listen].

Definition raw_tagged (e : RawEvent) : Prop :=
  match e with
  | RawNet e =>
      rh_event_type (pc_header e) ∈ network_types ∧
      (rh_event_type (pc_header e) ∈ retval_types → is_Some (pc_retval e))
  | RawStart e => rh_event_type (ps_header e) = EventType_ProcessStart
  | RawExit e => rh_event_type (pe_header e) = EventType_ProcessExit
  | RawFork e => rh_event_type (pf_parent e) = EventType_ProcessFork
  | RawOpen e => rh_event_type (ro_header e) = EventType_FileOpen
  | RawClose e => rh_event_type (rc_header e) = EventType_FileClose
  | RawRead e => rh_event_type (rr_header e) = EventType_FileRead
  | RawWrite e => rh_event_type (rw_header e) = EventType_FileWrite
  | RawDelete e => rh_event_type (rd_header e) = EventType_FileDelete
  | RawRename e => rh_event_type (rn_header e) = EventType_FileRename
  | RawRtr e => rh_event_type (rt_header e) = EventType_PendingFileRename
  | RawMap e => rh_event_type (mm_header e) = EventType_MemoryMap
  | RawUnmap e => rh_event_type (mu_header e) = EventType_MemoryUnMap
  end.

(** The records the readers expect. *)
Definition raw_ok (e : RawEvent) : Prop := raw_wf e ∧ raw_tagged e.

Definition is_network (e : RawEvent) : bool :=
  match e with RawNet _ => true | _ => false end.

(** ** Reading a record *)

Lemma ptr_read_put {E A} (c : codec A) `{!CodecOk c} a rest :
  wf c a → @ptr_read E A c (put c a ++ rest) = Ok a.
Proof. intros H. unfold ptr_read. by rewrite get_put. Qed.

Lemma ptr_read_put' {E A} (c : codec A) `{!CodecOk c} a :
  wf c a → @ptr_read E A c (put c a) = Ok a.
Proof. intros H. rewrite <- (app_nil_r (put c a)). by apply ptr_read_put. Qed.

(** A record shorter than the struct cannot be read as that struct. *)
Lemma ptr_read_short {E A} (c : codec A) `{!CodecOk c} m :
  (length m < size_of c)%nat → @ptr_read E A c m = UB.
Proof.
  intros H. unfold ptr_read. destruct (get c m) as [[a rest]|] eqn:Hg; [|done].
  apply get_size in Hg. lia.
Qed.

Lemma ptr_read_wf {E A} (c : codec A) `{!CodecOk c} m a :
  @ptr_read E A c m = Ok a → wf c a.
Proof.
  unfold ptr_read. destruct (get c m) as [[a' rest]|] eqn:Hg; intros [= <-].
  by eapply get_wf.
Qed.

(** Every record starts with its header. *)
Lemma raw_put_header e :
  ∃ rest, raw_put e = put RawEventHeader_codec (raw_header e) ++ rest.
Proof.
  destruct e as [e|e|e|e|e|e|e|e|e|e|e|e|e]; destruct e; cbn -[RawEventHeader_codec];
    rewrite <- ?(assoc_L (++)); eexists; reflexivity.
Qed.

Lemma raw_wf_header e : raw_wf e → wf RawEventHeader_codec (raw_header e).
Proof.
  destruct e as [e|e|e|e|e|e|e|e|e|e|e|e|e]; destruct e; cbn -[RawEventHeader_codec];
    intros; destruct_and?; done.
Qed.

Lemma read_header {E} e :
  raw_wf e → @ptr_read E _ RawEventHeader_codec (raw_put e) = Ok (raw_header e).
Proof.
  intros H. destruct (raw_put_header e) as [rest ->].
  apply ptr_read_put, raw_wf_header; [apply _|done].
Qed.

Lemma raw_put_length e :
  raw_wf e →
  length (raw_put e) =
    match e with
    | RawNet _ => 112 | RawStart _ => 312 | RawExit _ => 64 | RawFork _ => 80
    | RawOpen _ | RawClose _ => 336 | RawRead _ | RawWrite _ => 344
    | RawDelete _ => 320 | RawRename _ => 576 | RawRtr _ => 64
    | RawMap _ => 88 | RawUnmap _ => 80
    end%nat.
Proof. destruct e; intros H; cbn [raw_put]; rewrite length_put by done; reflexivity. Qed.

(** A record determines the event it was written from. *)
Lemma raw_put_inj e e' : raw_ok e → raw_ok e' → raw_put e = raw_put e' → e = e'.
Proof.
  intros [Hw Ht] [Hw' Ht'] He.
  assert (Hh : raw_header e = raw_header e').
  { pose proof (@read_header () e Hw) as H1. rewrite He, read_header in H1 by done. congruence. }
  destruct e, e'; cbn [raw_header raw_put raw_wf raw_tagged] in *;
    try (f_equal; by apply (put_inj _ _ _ Hw Hw' He)); exfalso; rewrite Hh in Ht;
    repeat match goal with H : _ ∈ network_types ∧ _ |- _ => destruct H as [H _] end;
    unfold network_types in *; rewrite ?elem_of_cons, ?elem_of_nil in *;
    destruct_or?; congruence || done.
Qed.
