(* ===== verification/Interfaces.v ===== *)
(** * Interfaces to the code outside of the repository

    The BPF ring buffer and hash maps (kernel, [aya-ebpf]) and the bounded
    channel of [tokio::sync::mpsc] are not code of the repository.  Each is a
    class of operations with, apart, a class of the documented laws the
    theorems use; the model is a function of the operations.  The instances at
    the end are small concrete implementations: they show that the laws can
    hold together and make the model executable. *)

From S2P Require Import Prelude Raw Layout.

(** ** The ring buffer *)

(** An entry that is reserved for [n] bytes, or holds what was submitted. *)
Inductive slot (H A : Type) :=
| Busy (h : H) (n : nat)
| Committed (a : A).
Arguments Busy {H A}.
Arguments Committed {H A}.

Section slots.
Context {H A : Type}.
Implicit Types l : list (slot H A).

Definition slot_busy (x : slot H A) : option (H * nat) :=
  match x with Busy h n => Some (h, n) | Committed _ => None end.
Definition slot_value (x : slot H A) : option A :=
  match x with Busy _ _ => None | Committed a => Some a end.

(** The entries reserved, what was submitted, and the part of it in front of the
    first reserved entry. *)
Definition busy l : list (H * nat) := omap slot_busy l.
Definition values l : list A := omap slot_value l.
Fixpoint readable l : list A :=
  match l with
  | Committed a :: l => a :: readable l
  | _ => []
  end.

Lemma readable_committed l : busy l = [] → readable l = values l.
Proof. induction l as [|[h n|a] l IH]; intros Hb; simpl in *; [done|done|]. by rewrite IH. Qed.

Lemma committed_nil l : busy l = [] → values l = [] → l = [].
Proof. by destruct l as [|[]]. Qed.

Lemma busy_app l l' : busy (l ++ l') = busy l ++ busy l'.
Proof. apply omap_app. Qed.

Lemma values_app l l' : values (l ++ l') = values l ++ values l'.
Proof. apply omap_app. Qed.

Lemma values_committed (xs : list A) : values ((Committed <$> xs) : list (slot H A)) = xs.
Proof. induction xs as [|x xs IH]; [done|]. unfold values in *. csimpl. by rewrite IH. Qed.

Context `{EqDecision H}.

(** Replace the reserved entry [h]. *)
Fixpoint settle (h : H) (by_ : list (slot H A)) l : list (slot H A) :=
  match l with
  | [] => []
  | Busy h' n :: l => if decide (h' = h) then by_ ++ l else Busy h' n :: settle h by_ l
  | x :: l => x :: settle h by_ l
  end.

Lemma settle_slot h n by_ l1 l2 :
  h ∉ (busy l1).*1 → settle h by_ (l1 ++ Busy h n :: l2) = l1 ++ by_ ++ l2.
Proof.
  induction l1 as [|[h' n'|a] l1 IH]; intros Hn; simpl in *.
  - by rewrite decide_True.
  - rewrite not_elem_of_cons in Hn. destruct Hn as [Hh Hn]. rewrite decide_False by congruence.
    by rewrite IH.
  - by rewrite IH.
Qed.

Lemma settle_committed h by_ (xs : list A) l :
  settle h by_ ((Committed <$> xs) ++ l) = (Committed <$> xs) ++ settle h by_ l.
Proof. induction xs as [|x xs IH]; csimpl; [done|]. by rewrite IH. Qed.
End slots.

Definition slot_map {H A B} (f : A → B) (x : slot H A) : slot H B :=
  match x with Busy h n => Busy h n | Committed a => Committed (f a) end.

Lemma busy_map {H A B} (f : A → B) (l : list (slot H A)) : busy (slot_map f <$> l) = busy l.
Proof. induction l as [|[h n|a] l IH]; csimpl; [done| |done]. unfold busy in *. csimpl. by rewrite IH. Qed.

Lemma values_map {H A B} (f : A → B) (l : list (slot H A)) :
  values (slot_map f <$> l) = f <$> values l.
Proof. induction l as [|[h n|a] l IH]; csimpl; [done|done|]. unfold values in *. csimpl. by rewrite IH. Qed.

(** [R] is the buffer, [H] an entry handed out by [reserve].  [rb_slots] are the
    entries a consumer has still to see, in the order of their reservation; a
    discarded one is none any more. *)
Class RingBufOps (R H : Type) := {
  rb_reserve : R → nat → option (H * R);
  rb_write : R → H → mem → R;
  rb_submit : R → H → R;
  rb_discard : R → H → R;
  rb_next : R → option (mem * R);
  rb_slots : R → list (slot H mem);
}.

(** The consumer waits for the first entry that is still reserved, whatever was
    submitted behind it. *)
Class RingBufLaws (R H : Type) `{!RingBufOps R H} : Prop := {
  rb_reserve_slots : ∀ r n h r',
    rb_reserve r n = Some (h, r') → h ∉ (busy (rb_slots r)).*1 ∧ rb_slots r' = rb_slots r ++ [Busy h n];
  rb_submit_slots : ∀ r l1 l2 h n bs,
    rb_slots r = l1 ++ Busy h n :: l2 → h ∉ (busy l1).*1 → length bs = n →
    rb_slots (rb_submit (rb_write r h bs) h) = l1 ++ Committed bs :: l2;
  rb_discard_slots : ∀ r l1 l2 h n,
    rb_slots r = l1 ++ Busy h n :: l2 → h ∉ (busy l1).*1 →
    rb_slots (rb_discard r h) = l1 ++ l2;
  rb_next_empty : ∀ r, rb_slots r = [] → rb_next r = None;
  rb_next_busy : ∀ r h n xs, rb_slots r = Busy h n :: xs → rb_next r = None;
  rb_next_committed : ∀ r x xs,
    rb_slots r = Committed x :: xs → ∃ r', rb_next r = Some (x, r') ∧ rb_slots r' = xs;
}.

Section ring.
Context {R H : Type} `{!RingBufOps R H}.

(** What was submitted, in the order of reservation, and the part of it the
    consumer can read. *)
Definition rb_items (r : R) : list mem := values (rb_slots r).
Definition rb_visible (r : R) : list mem := readable (rb_slots r).

Context `{!RingBufLaws R H}.

(** A program that has the buffer for itself. *)
Lemma rb_discard_items r n h r' :
  rb_reserve r n = Some (h, r') → rb_items (rb_discard r' h) = rb_items r.
Proof.
  intros [Hn Hs]%rb_reserve_slots. unfold rb_items.
  by rewrite (rb_discard_slots _ _ _ _ _ Hs Hn), app_nil_r.
Qed.

Lemma rb_submit_items r n h r' bs :
  rb_reserve r n = Some (h, r') → length bs = n →
  rb_items (rb_submit (rb_write r' h bs) h) = rb_items r ++ [bs].
Proof.
  intros [Hn Hs]%rb_reserve_slots Hl. unfold rb_items.
  by rewrite (rb_submit_slots _ _ _ _ _ _ Hs Hn Hl), values_app.
Qed.

(** The consumer. *)
Lemma rb_next_nil r : rb_visible r = [] → rb_next r = None.
Proof.
  unfold rb_visible. destruct (rb_slots r) as [|[h n|x] xs] eqn:Hs; intros Hv; [|by eapply rb_next_busy|done].
  by apply rb_next_empty.
Qed.

Lemma rb_next_cons r x xs :
  rb_visible r = x :: xs → ∃ r', rb_next r = Some (x, r') ∧ rb_visible r' = xs.
Proof.
  unfold rb_visible. destruct (rb_slots r) as [|[h n|y] ys] eqn:Hs; try done. intros [= -> <-].
  destruct (rb_next_committed _ _ _ Hs) as (r' & Hr & Hs'). exists r'. by rewrite Hs'.
Qed.

Lemma rb_next_cases r :
  (rb_next r = None ∧ rb_visible r = []) ∨
  ∃ x xs r', rb_next r = Some (x, r') ∧ rb_slots r = Committed x :: xs ∧ rb_slots r' = xs.
Proof.
  unfold rb_visible. destruct (rb_slots r) as [|[h n|y] ys] eqn:Hs.
  - left. by rewrite (rb_next_empty _ Hs).
  - left. by rewrite (rb_next_busy _ _ _ _ Hs).
  - right. destruct (rb_next_committed _ _ _ Hs) as (r' & Hr & Hs'). by exists y, ys, r'.
Qed.

Lemma rb_next_items r x r' :
  rb_next r = Some (x, r') → rb_items r = x :: rb_items r'.
Proof.
  intros Hn. destruct (rb_next_cases r) as [[Hn' _]|(y & ys & r1 & Hn' & Hs & Hs')]; [congruence|].
  rewrite Hn in Hn'. injection Hn' as -> ->. unfold rb_items. by rewrite Hs, Hs'.
Qed.
End ring.

(** ** BPF hash maps

    One family [M V] of maps with integer keys.  [bm_insert] is [None] when the
    helper returns an error (the map is full); removing an absent key is an
    error the programs ignore. *)

Class BpfMapOps (M : Type → Type) := {
  bm_get : ∀ {V}, M V → Z → option V;
  bm_insert : ∀ {V}, M V → Z → V → option (M V);
  bm_remove : ∀ {V}, M V → Z → M V;
}.

Class BpfMapLaws (M : Type → Type) `{!BpfMapOps M} : Prop := {
  bm_get_insert : ∀ V (m m' : M V) k v k',
    bm_insert m k v = Some m' → bm_get m' k' = if decide (k' = k) then Some v else bm_get m k';
  bm_get_remove : ∀ V (m : M V) k k',
    bm_get (bm_remove m k) k' = if decide (k' = k) then None else bm_get m k';
}.

(** What one saw of a map, as a map. *)
Definition seen (V : Type) : Type := Z → option V.

#[export] Instance seen_ops : BpfMapOps seen := {|
  bm_get V m k := m k;
  bm_insert V m k v := Some (fun k' => if decide (k' = k) then Some v else m k');
  bm_remove V m k := fun k' => if decide (k' = k) then None else m k';
|}.

#[export] Instance seen_laws : BpfMapLaws seen.
Proof. split; simpl; [by intros V m m' k v k' [= <-]|done]. Qed.

(** ** Bounded channels

    [tokio::sync::mpsc]: [ch_channel] is [None] when [channel] panics (a zero
    capacity), [ch_close] is what dropping the receiver does. *)

Inductive TrySend := TrySend_Ok | TrySend_Full | TrySend_Closed.

Class ChannelOps (Ch : Type → Type) := {
  ch_channel : ∀ {A}, Z → option (Ch A);
  ch_try_send : ∀ {A}, Ch A → A → TrySend * Ch A;
  ch_is_closed : ∀ {A}, Ch A → bool;
  ch_recv : ∀ {A}, Ch A → option (A * Ch A);
  ch_close : ∀ {A}, Ch A → Ch A;
  ch_queue : ∀ {A}, Ch A → list A;
  ch_capacity : ∀ {A}, Ch A → Z;
}.

Class ChannelLaws (Ch : Type → Type) `{!ChannelOps Ch} : Prop := {
  ch_channel_zero : ∀ A, ch_channel (A := A) 0 = None;
  ch_channel_new : ∀ A n (c : Ch A),
    ch_channel n = Some c → ch_queue c = [] ∧ ch_capacity c = n ∧ ch_is_closed c = false;
  ch_send_closed : ∀ A (c : Ch A) x,
    ch_is_closed c = true → ch_try_send c x = (TrySend_Closed, c);
  ch_send_full : ∀ A (c : Ch A) x,
    ch_is_closed c = false → ch_capacity c ≤ Z.of_nat (length (ch_queue c)) →
    ch_try_send c x = (TrySend_Full, c);
  ch_send_ok : ∀ A (c : Ch A) x,
    ch_is_closed c = false → Z.of_nat (length (ch_queue c)) < ch_capacity c →
    ∃ c', ch_try_send c x = (TrySend_Ok, c') ∧ ch_queue c' = ch_queue c ++ [x] ∧
          ch_capacity c' = ch_capacity c ∧ ch_is_closed c' = false;
  ch_recv_nil : ∀ A (c : Ch A), ch_queue c = [] → ch_recv c = None;
  ch_recv_cons : ∀ A (c : Ch A) x xs,
    ch_queue c = x :: xs →
    ∃ c', ch_recv c = Some (x, c') ∧ ch_queue c' = xs ∧
          ch_capacity c' = ch_capacity c ∧ ch_is_closed c' = ch_is_closed c;
  ch_close_closed : ∀ A (c : Ch A),
    ch_is_closed (ch_close c) = true ∧ ch_queue (ch_close c) = ch_queue c;
}.

(** The abstract queue a channel implements: a send to an open channel with
    room appends, any other send loses the event. *)
Record chan_view (A : Type) := ChanView { cv_queue : list A; cv_capacity : Z; cv_closed : bool }.
Arguments ChanView {A}.
Arguments cv_queue {A}.
Arguments cv_capacity {A}.
Arguments cv_closed {A}.

Definition view_send {A} (v : chan_view A) (x : A) : chan_view A :=
  if cv_closed v then v
  else if cv_capacity v <=? Z.of_nat (length (cv_queue v)) then v
  else ChanView (cv_queue v ++ [x]) (cv_capacity v) false.

Section channel_view.
Context {Ch : Type → Type} `{ChannelLaws Ch}.

Definition ch_view {A} (c : Ch A) : chan_view A :=
  ChanView (ch_queue c) (ch_capacity c) (ch_is_closed c).

(** [try_send] refines [view_send], whatever its result. *)
Lemma ch_view_try_send {A} (c : Ch A) x :
  ch_view (ch_try_send c x).2 = view_send (ch_view c) x.
Proof.
  unfold view_send, ch_view; simpl. destruct (ch_is_closed c) eqn:Hc.
  - rewrite ch_send_closed by done. simpl. by rewrite Hc.
  - destruct (Z.leb_spec (ch_capacity c) (Z.of_nat (length (ch_queue c)))).
    + rewrite ch_send_full by done. simpl. by rewrite Hc.
    + destruct (ch_send_ok _ c x Hc) as (c' & -> & Hq & Hcap & Hcl); [done|].
      simpl. by rewrite Hq, Hcap, Hcl.
Qed.
End channel_view.

Lemma view_send_capacity {A} (v : chan_view A) x : cv_capacity (view_send v x) = cv_capacity v.
Proof. unfold view_send. by repeat case_match. Qed.

Lemma view_send_closed {A} (v : chan_view A) x : cv_closed (view_send v x) = cv_closed v.
Proof. unfold view_send. destruct (cv_closed v) eqn:?; by repeat case_match. Qed.

Lemma view_send_bound {A} (v : chan_view A) x :
  Z.of_nat (length (cv_queue v)) ≤ cv_capacity v →
  Z.of_nat (length (cv_queue (view_send v x))) ≤ cv_capacity v.
Proof.
  intros Hv. unfold view_send. destruct (cv_closed v); [done|].
  destruct (Z.leb_spec (cv_capacity v) (Z.of_nat (length (cv_queue v)))); [done|].
  simpl. rewrite length_app. simpl. lia.
Qed.

(** A queue only grows at its end. *)
Lemma view_send_prefix {A} (v : chan_view A) x : cv_queue v `prefix_of` cv_queue (view_send v x).
Proof.
  unfold view_send. destruct (cv_closed v); [done|]. case_match; [done|].
  by apply prefix_app_r.
Qed.

(** With room for all of them, every event sent is delivered, in order. *)
Lemma view_send_all {A} (v : chan_view A) xs :
  cv_closed v = false →
  Z.of_nat (length (cv_queue v) + length xs) ≤ cv_capacity v →
  foldl view_send v xs = ChanView (cv_queue v ++ xs) (cv_capacity v) false.
Proof.
  revert v. induction xs as [|x xs IH]; intros [q c b] Hb Hr; simpl in *; subst.
  - by rewrite app_nil_r.
  - unfold view_send at 2; simpl. destruct (Z.leb_spec c (Z.of_nat (length q))); [lia|].
    rewrite IH; simpl; rewrite ?length_app; simpl; [|done|lia]. by rewrite <- (assoc_L (++)).
Qed.

(** ** Reference instances *)

(** A ring of bounded size; an entry is known by a number. *)
Record list_ring := ListRing {
  lr_capacity : nat;
  lr_slots : list (slot nat mem);
  lr_entry : mem;
}.

Definition slot_size (x : slot nat mem) : nat :=
  match x with Busy _ n => n | Committed bs => length bs end.
Definition lr_used (r : list_ring) : nat := sum_list_with slot_size (lr_slots r).

Definition new_handle (l : list (slot nat mem)) : nat := fresh (list_to_set (C := gset nat) (busy l).*1).

#[export] Instance list_ring_ops : RingBufOps list_ring nat := {|
  rb_reserve r n :=
    if (lr_used r + n <=? lr_capacity r)%nat
    then
      let h := new_handle (lr_slots r) in
      Some (h, ListRing (lr_capacity r) (lr_slots r ++ [Busy h n]) (lr_entry r))
    else None;
  rb_write r _ bs := ListRing (lr_capacity r) (lr_slots r) bs;
  rb_submit r h := ListRing (lr_capacity r) (settle h [Committed (lr_entry r)] (lr_slots r)) [];
  rb_discard r h := ListRing (lr_capacity r) (settle h [] (lr_slots r)) [];
  rb_next r :=
    match lr_slots r with
    | Committed x :: xs => Some (x, ListRing (lr_capacity r) xs (lr_entry r))
    | _ => None
    end;
  rb_slots := lr_slots;
|}.

#[export] Instance list_ring_laws : RingBufLaws list_ring nat.
Proof.
  split; simpl.
  - intros r n h r'. case_match; intros [= <- <-]. split; [|done].
    intros Hin. apply (is_fresh (list_to_set (C := gset nat) (busy (lr_slots r)).*1)).
    by apply elem_of_list_to_set.
  - intros r l1 l2 h n bs Hs Hn _. simpl. by rewrite Hs, settle_slot.
  - intros r l1 l2 h n -> Hn. by rewrite settle_slot.
  - by intros r ->.
  - by intros r h n xs ->.
  - intros r x xs ->. by eexists.
Qed.

(** A finite map of bounded size. *)
Record fin_bpf_map (V : Type) := FinBpfMap { fm_max : nat; fm_map : gmap Z V }.
Arguments FinBpfMap {V}.
Arguments fm_max {V}.
Arguments fm_map {V}.

#[export] Instance fin_bpf_map_ops : BpfMapOps fin_bpf_map := {|
  bm_get V m k := fm_map m !! k;
  bm_insert V m k v :=
    match fm_map m !! k with
    | Some _ => Some (FinBpfMap (fm_max m) (<[k := v]> (fm_map m)))
    | None =>
        if (size (fm_map m) <? fm_max m)%nat
        then Some (FinBpfMap (fm_max m) (<[k := v]> (fm_map m)))
        else None
    end;
  bm_remove V m k := FinBpfMap (fm_max m) (delete k (fm_map m));
|}.

#[export] Instance fin_bpf_map_laws : BpfMapLaws fin_bpf_map.
Proof.
  split; simpl.
  - intros V m m' k v k' Hi. assert (fm_map m' = <[k := v]> (fm_map m)) as ->.
    { by repeat case_match; simplify_eq/=. }
    rewrite lookup_insert. case_decide; case_decide; congruence.
  - intros V m k k'. rewrite lookup_delete. case_decide; case_decide; congruence.
Qed.

(** A bounded queue with a closed flag. *)
#[export] Instance chan_view_ops : ChannelOps chan_view := {|
  ch_channel A n := if n <=? 0 then None else Some (ChanView [] n false);
  ch_try_send A c x :=
    if cv_closed c then (TrySend_Closed, c)
    else if cv_capacity c <=? Z.of_nat (length (cv_queue c)) then (TrySend_Full, c)
    else (TrySend_Ok, ChanView (cv_queue c ++ [x]) (cv_capacity c) false);
  ch_is_closed A := cv_closed;
  ch_recv A c :=
    match cv_queue c with
    | [] => None
    | x :: xs => Some (x, ChanView xs (cv_capacity c) (cv_closed c))
    end;
  ch_close A c := ChanView (cv_queue c) (cv_capacity c) true;
  ch_queue A := cv_queue;
  ch_capacity A := cv_capacity;
|}.

#[export] Instance chan_view_laws : ChannelLaws chan_view.
Proof.
  split; simpl.
  - done.
  - intros A n c. by case_match; intros [= <-].
  - by intros A c x ->.
  - intros A c x -> Hr. by rewrite (proj2 (Z.leb_le _ _)).
  - intros A c x -> Hr. rewrite (proj2 (Z.leb_gt _ _)) by done. by eexists.
  - by intros A c ->.
  - intros A c x xs ->. by eexists.
  - done.
Qed.

#[export] Hint Rewrite @view_send_capacity @view_send_closed : bpfx_rw.
