(* ===== verification/Ebpf.v ===== *)
(** * The eBPF programs

    [bpfx-ebpf/src/main.rs]: the maps the programs share ([KState]), the
    helper functions of the file, and one definition per program.  What a
    program asks the kernel for (helpers, probe arguments, kernel memory) is an
    [Env], fixed while the program runs; the ring buffer and the hash maps are
    used through [Interfaces.v].  A program is a tree of the operations it does
    on the maps ([K]), which [run_code] carries out one after the other; [Machine.v]
    interleaves those of programs on several processors. *)

From S2P Require Import Prelude Raw Layout Events Interfaces.

Definition AF_INET : Z := 2.
Definition AF_INET6 : Z := 10.

Definition S_IFMT : Z := 0xf000.
Definition S_IFIFO : Z := 0x1000.
Definition S_IFCHR : Z := 0x2000.
Definition S_IFDIR : Z := 0x4000.
Definition S_IFBLK : Z := 0x6000.
Definition S_IFREG : Z := 0x8000.
Definition S_IFLNK : Z := 0xa000.
Definition S_IFSOCK : Z := 0xc000.

(** ** The kernel, as one program run sees it

    A pointer is its address, null being 0.  A function of a pointer that
    returns an [option] is a [bpf_probe_read_kernel] of the field it names; the
    others are direct loads. *)
Record Env := {
  bpf_get_current_pid_tgid : Z;
  bpf_ktime_get_ns : Z;
  bpf_get_current_uid_gid : Z;
  bpf_get_current_task_btf : Z;
  bpf_get_current_comm : option (list byte);
  processor : nat;
  percpu_lookup : bool;                 (* index 0 of a per-CPU array is there *)
  real_parent : Z → option Z;
  task_tgid : Z → option Z;
  skc_daddr : Z → option Z;
  skc_rcv_saddr : Z → option Z;
  skc_dport : Z → option Z;
  skc_num : Z → option Z;
  skc_family : Z → option Z;
  skc_v6_daddr : Z → option (list byte);
  skc_v6_rcv_saddr : Z → option (list byte);
  socket_sk : Z → Z;
  f_flags : Z → Z;
  f_inode : Z → Z;
  f_path : Z → Z;
  i_mode : Z → Z;
  i_ino : Z → Z;
  d_inode : Z → Z;
  d_name : Z → Z;
  old_dentry : Z → Z;
  new_dentry : Z → Z;
  bpf_d_path : Z → list byte → Z * list byte;
  bpf_probe_read_kernel_str : list byte → Z → list byte;
  arg_ptr : nat → Z;
  arg_i32 : nat → Z;
  arg_u32 : nat → Z;
  arg_u64 : nat → Z;
  arg_isize : nat → Z;
  ctx_ret : option Z;
  ctx_ptr : Z;
  read_at_u32 : nat → option Z;
}.

(** The values have the widths of their Rust types; helpers fill buffers
    without changing their length. *)
Record Env_wf (env : Env) : Prop := {
  wf_pid_tgid : in_u 64 (bpf_get_current_pid_tgid env);
  wf_ktime : in_u 64 (bpf_ktime_get_ns env);
  wf_uid_gid : in_u 64 (bpf_get_current_uid_gid env);
  wf_comm : ∀ c, bpf_get_current_comm env = Some c → length c = TASK_COMM_LEN;
  wf_dport : ∀ p v, skc_dport env p = Some v → in_u 16 v;
  wf_num : ∀ p v, skc_num env p = Some v → in_u 16 v;
  wf_v6_daddr : ∀ p v, skc_v6_daddr env p = Some v → length v = 16%nat;
  wf_v6_rcv_saddr : ∀ p v, skc_v6_rcv_saddr env p = Some v → length v = 16%nat;
  wf_f_flags : ∀ p, in_u 32 (f_flags env p);
  wf_i_ino : ∀ p, in_u 64 (i_ino env p);
  wf_d_path : ∀ p b, length (bpf_d_path env p b).2 = length b;
  wf_read_str : ∀ b p, length (bpf_probe_read_kernel_str env b p) = length b;
  wf_arg_i32 : ∀ n, in_s 32 (arg_i32 env n);
  wf_arg_u32 : ∀ n, in_u 32 (arg_u32 env n);
  wf_arg_u64 : ∀ n, in_u 64 (arg_u64 env n);
  wf_arg_isize : ∀ n, in_s 64 (arg_isize env n);
  wf_read_at : ∀ n v, read_at_u32 env n = Some v → in_u 32 v;
}.

(** ** Process context and event header *)

Definition collect_process_ctx (env : Env) : Z * Z * Z * Z * Z * Z * list byte :=
  let tgid := bpf_get_current_pid_tgid env in
  let pid := u_wrap 32 (Z.shiftr tgid 32) in
  let tid := u_wrap 32 tgid in
  let timestamp := bpf_ktime_get_ns env in
  let uid_gid := bpf_get_current_uid_gid env in
  let uid := u_wrap 32 uid_gid in
  let gid := u_wrap 32 (Z.shiftr uid_gid 32) in
  let task := bpf_get_current_task_btf env in
  let parent_ptr := match real_parent env task with Some p => p | None => 0 end in
  let ppid :=
    if parent_ptr =? 0 then 0 else u_wrap 32 (default 0 (task_tgid env parent_ptr)) in
  let comm := default (replicate TASK_COMM_LEN x00) (bpf_get_current_comm env) in
  (timestamp, pid, tid, ppid, uid, gid, comm).

Definition build_event_header (env : Env) (event_type : EventType) : RawEventHeader :=
  let '(timestamp, pid, tid, ppid, uid, gid, comm) := collect_process_ctx env in
  {| rh_event_type := event_type; rh_timestamp_ns := timestamp; rh_pid := pid; rh_tid := tid;
     rh_ppid := ppid; rh_uid := uid; rh_gid := gid; rh_comm := comm |}.

Definition sock_daddr (env : Env) (sock : Z) : Z := default 0 (skc_daddr env sock).
Definition sock_rcv_saddr (env : Env) (sock : Z) : Z := default 0 (skc_rcv_saddr env sock).
Definition sock_dport (env : Env) (sock : Z) : Z := default 0 (skc_dport env sock).
Definition sock_num (env : Env) (sock : Z) : Z := default 0 (skc_num env sock).

Definition read_v6_addr (field : option (list byte)) : outcome Z (list byte) :=
  match field with Some i => Ok i | None => Err 0 end.

(** [addr[..4].copy_from_slice(&v.to_ne_bytes())] on a zeroed array. *)
Definition v4_addr (v : Z) : list byte := le_bytes 4 v ++ replicate 12 x00.

(** The file-type bit of an inode mode. *)
Definition file_type_bit (i_mode : Z) : Z :=
  let t := Z.land i_mode S_IFMT in
  if t =? S_IFREG then FILE_REG
  else if t =? S_IFDIR then FILE_DIR
  else if t =? S_IFCHR then FILE_CHR
  else if t =? S_IFBLK then FILE_BLK
  else if t =? S_IFIFO then FILE_FIFO
  else if t =? S_IFLNK then FILE_LNK
  else if t =? S_IFSOCK then FILE_SOCK
  else 0.

(** Whether a key drops the event of a header. *)
Definition key_drops (key : FilterKey) (header : RawEventHeader) : bool :=
  match key with
  | FilterKey_None => false
  | FilterKey_Pid pid => negb (rh_pid header =? pid)
  | FilterKey_Tid tid => negb (rh_tid header =? tid)
  | FilterKey_Uid uid => negb (rh_uid header =? uid)
  | FilterKey_Ppid ppid => negb (rh_ppid header =? ppid)
  | FilterKey_Gid gid => negb (rh_gid header =? gid)
  end.

(** ** Program code *)

(** The operations on the maps, with what they return.  [OpSubmit] is
    [events.write(v); events.submit(0)].  [get] of FILE_PATH_MAP gives a reference
    ([OpPathGet] says whether there is one), and the 256 bytes behind it are read
    later ([OpPathCopy]); in the same way [OpPathBuf] is a helper that writes to
    the buffer of a processor, [OpPathBufRead] the copy of that buffer.  [OpTemp]
    updates the entry of a processor in a per-CPU array. *)
Inductive kop (H : Type) :=
| OpReserve (n : nat)
| OpSubmit (h : H) (bs : mem)
| OpDiscard (h : H)
| OpFilter (owner : FilterOwner)
| OpConfig
| OpPathGet (key : Z)
| OpPathCopy (key : Z)
| OpPathInsert (key : Z) (v : RawFilePath)
| OpPathRemove (key : Z)
| OpPathBuf (cpu : nat) (f : list byte → Z * list byte)
| OpPathBufRead (cpu : nat)
| OpTemp (cpu : nat) (f : RawFileRenameEvent → RawFileRenameEvent).
#[global] Arguments OpReserve {H}.
#[global] Arguments OpSubmit {H}.
#[global] Arguments OpDiscard {H}.
#[global] Arguments OpFilter {H}.
#[global] Arguments OpConfig {H}.
#[global] Arguments OpPathGet {H}.
#[global] Arguments OpPathCopy {H}.
#[global] Arguments OpPathInsert {H}.
#[global] Arguments OpPathRemove {H}.
#[global] Arguments OpPathBuf {H}.
#[global] Arguments OpPathBufRead {H}.
#[global] Arguments OpTemp {H}.

Definition kres {H} (o : kop H) : Type :=
  match o with
  | OpReserve _ => option H
  | OpSubmit _ _ | OpDiscard _ | OpPathRemove _ => unit
  | OpFilter _ => option FilterKey
  | OpConfig => option FileModeFilter
  | OpPathGet _ => bool
  | OpPathCopy _ => RawFilePath
  | OpPathInsert _ _ => bool
  | OpPathBuf _ _ => Z
  | OpPathBufRead _ => list byte
  | OpTemp _ _ => RawFileRenameEvent
  end.

(** [Result<_, i32>] code: done, or an operation and what follows. *)
Inductive K (H A : Type) :=
| Done (r : outcome Z A)
| Act (o : kop H) (k : kres o → K H A).
#[global] Arguments Done {H A}.
#[global] Arguments Act {H A}.

#[global] Instance K_ret H : MRet (K H) := fun A a => Done (Ok a).
#[global] Instance K_bind H : MBind (K H) := fun A B f =>
  fix bind (m : K H A) :=
    match m with
    | Done (Ok a) => f a
    | Done (Err e) => Done (Err e)
    | Done Panic => Done Panic
    | Done UB => Done UB
    | Act o k => Act o (fun x => bind (k x))
    end.

Definition act {H} (o : kop H) : K H (kres o) := Act o (fun x => Done (Ok x)).

Section programs.
Context {R H : Type} {M : Type → Type}.
Context `{!RingBufOps R H, !BpfMapOps M}.
#[local] Abbreviation K := (K H).

(** ** Maps *)

Record KState := mkKState {
  EVENTS : R;
  CONFIG : M FileModeFilter;
  TEMP : nat → RawFileRenameEvent;
  FILTER : M FilterKey;
  FILE_PATH_MAP : M RawFilePath;
  PATH_BUF : nat → list byte;
}.

Definition set_EVENTS (r : R) (s : KState) : KState :=
  mkKState r (CONFIG s) (TEMP s) (FILTER s) (FILE_PATH_MAP s) (PATH_BUF s).
Definition set_CONFIG (c : M FileModeFilter) (s : KState) : KState :=
  mkKState (EVENTS s) c (TEMP s) (FILTER s) (FILE_PATH_MAP s) (PATH_BUF s).
Definition set_TEMP (t : nat → RawFileRenameEvent) (s : KState) : KState :=
  mkKState (EVENTS s) (CONFIG s) t (FILTER s) (FILE_PATH_MAP s) (PATH_BUF s).
Definition set_FILTER (f : M FilterKey) (s : KState) : KState :=
  mkKState (EVENTS s) (CONFIG s) (TEMP s) f (FILE_PATH_MAP s) (PATH_BUF s).
Definition set_FILE_PATH_MAP (p : M RawFilePath) (s : KState) : KState :=
  mkKState (EVENTS s) (CONFIG s) (TEMP s) (FILTER s) p (PATH_BUF s).
Definition set_PATH_BUF (b : nat → list byte) (s : KState) : KState :=
  mkKState (EVENTS s) (CONFIG s) (TEMP s) (FILTER s) (FILE_PATH_MAP s) b.

(** *** What the operations do

    When nothing runs in between, a reference still has the value that was
    looked up; [Machine.v] has the other case. *)

Definition kact (o : kop H) (s : KState) : kres o * KState :=
  match o return kres o * KState with
  | OpReserve n =>
      match rb_reserve (EVENTS s) n with
      | Some (h, r) => (Some h, set_EVENTS r s)
      | None => (None, s)
      end
  | OpSubmit h bs => (tt, set_EVENTS (rb_submit (rb_write (EVENTS s) h bs) h) s)
  | OpDiscard h => (tt, set_EVENTS (rb_discard (EVENTS s) h) s)
  | OpFilter owner => (bm_get (FILTER s) (FilterOwner_repr owner), s)
  | OpConfig => (bm_get (CONFIG s) 0, s)
  | OpPathGet key => (bool_decide (is_Some (bm_get (FILE_PATH_MAP s) key)), s)
  | OpPathCopy key =>
      (default {| filepath := replicate 256 x00 |} (bm_get (FILE_PATH_MAP s) key), s)
  | OpPathInsert key v =>
      match bm_insert (FILE_PATH_MAP s) key v with
      | Some m => (true, set_FILE_PATH_MAP m s)
      | None => (false, s)
      end
  | OpPathRemove key => (tt, set_FILE_PATH_MAP (bm_remove (FILE_PATH_MAP s) key) s)
  | OpPathBuf cpu f =>
      let x := f (PATH_BUF s cpu) in (x.1, set_PATH_BUF (<[cpu := x.2]> (PATH_BUF s)) s)
  | OpPathBufRead cpu => (PATH_BUF s cpu, s)
  | OpTemp cpu f =>
      let event := f (TEMP s cpu) in (event, set_TEMP (<[cpu := event]> (TEMP s)) s)
  end.

(** The code run on its own. *)
Fixpoint run_code {A} (m : K A) (s : KState) : outcome Z A * KState :=
  match m with
  | Done r => (r, s)
  | Act o k => let (x, s) := kact o s in run_code (k x) s
  end.

(** *** Their use *)

Definition reserve (n : nat) : K (option H) := act (OpReserve n).

(** [events.write(v); events.submit(0)]. *)
Definition write_submit {A} (c : codec A) (events : H) (v : A) : K unit :=
  act (OpSubmit events (put c v)).

(** [events.discard(0); return Ok(0)]. *)
Definition discard (events : H) : K Z := act (OpDiscard events);; mret 0.

(** A load through a pointer the program dereferences. *)
Definition load {A} (f : Z → A) (p : Z) : K A :=
  if p =? 0 then Done UB else mret (f p).

Definition filter_events (filter_owner : FilterOwner) (header : RawEventHeader) : K bool :=
  key ← act (OpFilter filter_owner);
  mret match key with
       | Some key => key_drops key header
       | None => false
       end.

Definition lift_unwrap {A} (r : outcome unit A) : K A :=
  match r with Ok a => mret a | _ => Done Panic end.

Definition config_get : K (option FileModeFilter) := act OpConfig.

(** [if let Some(val) = FILE_PATH_MAP.get(&key) { val.filepath } else { .. }]. *)
Definition file_path_get (key : Z) : K (option RawFilePath) :=
  found ← act (OpPathGet key);
  if (found : bool) then (val ← act (OpPathCopy key); mret (Some val)) else mret None.

(** Each program is [match try_... { Ok(v) => v, Err(_) => 0 }]. *)
Fixpoint catch (m : K Z) : K Z :=
  match m with
  | Done (Err _) => Done (Ok 0)
  | Done r => Done r
  | Act o k => Act o (fun x => catch (k x))
  end.

(** ** Network *)

Definition emit_v4 (env : Env) (sock : Z) (retval : option Z) (protocol : Z)
    (event_type : EventType) : K Z :=
  entry ← reserve (size_of PendingConnect_codec);
  match entry with
  | None => mret 0
  | Some events =>
      let header := build_event_header env event_type in
      drop ← filter_events FilterOwner_Network header;
      if (drop : bool) then discard events else
      let tid := u_wrap 32 (bpf_get_current_pid_tgid env) in
      let dst_addr := v4_addr (sock_daddr env sock) in
      let src_addr := v4_addr (sock_rcv_saddr env sock) in
      p ← lift_unwrap (RawProtocol_try_from protocol);
      write_submit PendingConnect_codec events
        {| pc_header := header; pc_protocol := p; pc_tid := tid;
           pc_src_port := sock_num env sock; pc_dst_port := sock_dport env sock;
           pc_ip_version := IpVersion_V4; pc_src_addr := src_addr; pc_dst_addr := dst_addr;
           pc_retval := retval |};;
      mret 0
  end.

Definition emit_v6 (env : Env) (sock : Z) (retval : option Z) (protocol : Z)
    (event_type : EventType) : K Z :=
  entry ← reserve (size_of PendingConnect_codec);
  match entry with
  | None => mret 0
  | Some events =>
      let header := build_event_header env event_type in
      drop ← filter_events FilterOwner_Network header;
      if (drop : bool) then discard events else
      let tid := u_wrap 32 (bpf_get_current_pid_tgid env) in
      match read_v6_addr (skc_v6_daddr env sock) with
      | Ok daddr =>
          match read_v6_addr (skc_v6_rcv_saddr env sock) with
          | Ok src_addr =>
              p ← lift_unwrap (RawProtocol_try_from protocol);
              write_submit PendingConnect_codec events
                {| pc_header := header; pc_protocol := p; pc_tid := tid;
                   pc_src_port := sock_num env sock; pc_dst_port := sock_dport env sock;
                   pc_ip_version := IpVersion_V6; pc_src_addr := src_addr;
                   pc_dst_addr := daddr; pc_retval := retval |};;
              mret 0
          | _ => discard events
          end
      | _ => discard events
      end
  end.

(** [match family { AF_INET => emit_v4(..)?, AF_INET6 => emit_v6(..)?, _ => return Ok(0) }]
    after the family was read. *)
Definition emit_family (env : Env) (sock : Z) (retval : option Z) (protocol : Z)
    (event_type : EventType) : K Z :=
  match skc_family env sock with
  | Some family =>
      if family =? AF_INET then emit_v4 env sock retval protocol event_type;; mret 0
      else if family =? AF_INET6 then emit_v6 env sock retval protocol event_type;; mret 0
      else mret 0
  | None => mret 0
  end.

Definition try_tcp_v4_connect (env : Env) : K Z :=
  let sock := arg_ptr env 0 in
  if sock =? 0 then mret 0 else
  emit_v4 env sock (Some (arg_i32 env 3)) 1 EventType_Connect;; mret 0.

Definition try_inet_csk_accept_impl (env : Env) : K Z :=
  match ctx_ret env with
  | Some sock => if sock =? 0 then mret 0 else emit_family env sock None 1 EventType_Accept
  | None => mret 0
  end.

Definition try_tcp_close (env : Env) : K Z :=
  emit_family env (arg_ptr env 0) None 1 EventType_Close.

Definition try_udp_destroy_sock (env : Env) : K Z :=
  let sock := arg_ptr env 0 in
  if sock =? 0 then mret 0 else emit_family env sock None 2 EventType_Close.

Definition try_tcp_v6_connect (env : Env) : K Z :=
  let sock := arg_ptr env 0 in
  if sock =? 0 then mret 0 else
  emit_v6 env sock (Some (arg_i32 env 3)) 1 EventType_Connect.

Definition try_udp_connect (env : Env) : K Z :=
  let sock := arg_ptr env 0 in
  if sock =? 0 then mret 0 else
  emit_v4 env sock (Some (arg_i32 env 3)) 2 EventType_Connect;; mret 0.

Definition try_udpv6_connect (env : Env) : K Z :=
  let sock := arg_ptr env 0 in
  if sock =? 0 then mret 0 else
  emit_v6 env sock (Some (arg_i32 env 3)) 2 EventType_Connect.

Definition try_inet_bind (env : Env) : K Z :=
  let socket := arg_ptr env 0 in
  sock ← load (socket_sk env) socket;
  if (sock =? 0) || (socket =? 0) then mret 0 else
  emit_family env sock (Some (arg_i32 env 3)) 1 EventType_Bind.

Definition try_inet_listen (env : Env) : K Z :=
  let socket := arg_ptr env 0 in
  sock ← load (socket_sk env) socket;
  if (sock =? 0) || (socket =? 0) then mret 0 else
  emit_family env sock (Some (arg_i32 env 2)) 1 EventType_Listen.

(** ** Processes *)

Definition try_sched_process_exec (env : Env) : K Z :=
  entry ← reserve (size_of RawProcessStartEvent_codec);
  match entry with
  | None => mret 0
  | Some events =>
      let header := build_event_header env EventType_ProcessStart in
      drop ← filter_events FilterOwner_Process header;
      if (drop : bool) then discard events else
      match read_at_u32 env 8 with
      | None => discard events
      | Some data_loc =>
          let offset := Z.land data_loc 0xffff in
          let p := ctx_ptr env + offset in
          let filename := bpf_probe_read_kernel_str env (replicate 256 x00) p in
          write_submit RawProcessStartEvent_codec events
            {| ps_header := header; ps_filename := filename |};;
          mret 0
      end
  end.

Definition try_do_group_exit (env : Env) : K Z :=
  entry ← reserve (size_of RawProcessExitEvent_codec);
  match entry with
  | None => mret 0
  | Some events =>
      let header := build_event_header env EventType_ProcessExit in
      drop ← filter_events FilterOwner_Process header;
      if (drop : bool) then discard events else
      write_submit RawProcessExitEvent_codec events
        {| pe_header := header; pe_exit_code := arg_i32 env 0 |};;
      mret 0
  end.

Definition try_sched_process_fork (env : Env) : K Z :=
  entry ← reserve (size_of RawProcessForkEvent_codec);
  match entry with
  | None => mret 0
  | Some events =>
      let header := build_event_header env EventType_ProcessFork in
      drop ← filter_events FilterOwner_Process header;
      if (drop : bool) then discard events else
      match read_at_u32 env 16 with
      | None => discard events
      | Some data_loc =>
          match read_at_u32 env 20 with
          | None => discard events
          | Some child_pid =>
              let offset := Z.land data_loc 0xffff in
              let p := ctx_ptr env + offset in
              let child_comm :=
                bpf_probe_read_kernel_str env (replicate TASK_COMM_LEN x00) p in
              write_submit RawProcessForkEvent_codec events
                {| pf_parent := header; pf_child_pid := child_pid;
                   pf_child_comm := child_comm |};;
              mret 0
          end
      end
  end.

(** ** Files *)

Definition try_file_open (env : Env) : K Z :=
  let file := arg_ptr env 0 in
  if file =? 0 then mret 0 else
  if percpu_lookup env then
    ret ← act (OpPathBuf (processor env) (bpf_d_path env (f_path env file)));
    if ret <? 0 then mret 0 else
    buf ← act (OpPathBufRead (processor env));
    act (OpPathInsert file {| filepath := buf |});;
    mret 0
  else mret 0.

Definition try_fput (env : Env) : K Z :=
  act (OpPathRemove (arg_ptr env 0));; mret 0.

(** [((config.mode & ty) != 0, FileModeFilter { mode: ty })]. *)
Definition capture_inode (env : Env) (inode : Z) : K (bool * FileModeFilter) :=
  config ← config_get;
  match config with
  | None => mret (false, {| mode := 0 |})
  | Some config =>
      m ← load (i_mode env) inode;
      let ty := file_type_bit m in
      mret (negb (Z.land (mode config) ty =? 0), {| mode := ty |})
  end.

Definition capture_file (env : Env) (file : Z) : K (bool * FileModeFilter) :=
  config ← config_get;
  match config with
  | None => mret (false, {| mode := 0 |})
  | Some config =>
      inode ← load (f_inode env) file;
      m ← load (i_mode env) inode;
      let ty := file_type_bit m in
      mret (negb (Z.land (mode config) ty =? 0), {| mode := ty |})
  end.

Definition try_vfs_open (env : Env) : K Z :=
  entry ← reserve (size_of RawFileOpenEvent_codec);
  match entry with
  | None => mret 0
  | Some events =>
      let header := build_event_header env EventType_FileOpen in
      drop ← filter_events FilterOwner_File header;
      if (drop : bool) then discard events else
      let file := arg_ptr env 1 in
      if file =? 0 then discard events else
      output ← capture_file env file;
      if negb output.1 then discard events else
      flags ← load (f_flags env) file;
      path ← file_path_get file;
      match path with
      | None => discard events
      | Some val =>
          inode ← load (f_inode env) file;
          ino ← load (i_ino env) inode;
          write_submit RawFileOpenEvent_codec events
            {| ro_header := header; ro_file_path := filepath val; ro_file_mode := output.2;
               ro_inode := ino; ro_retval := arg_i32 env 2; ro_flags := flags |};;
          mret 0
      end
  end.

Definition try_flip_close (env : Env) : K Z :=
  entry ← reserve (size_of RawFileCloseEvent_codec);
  match entry with
  | None => mret 0
  | Some events =>
      let header := build_event_header env EventType_FileClose in
      drop ← filter_events FilterOwner_File header;
      if (drop : bool) then discard events else
      let file := arg_ptr env 0 in
      flags ← load (f_flags env) file;
      output ← capture_file env file;
      if negb output.1 then discard events else
      if file =? 0 then discard events else
      path ← file_path_get file;
      match path with
      | None => discard events
      | Some val =>
          inode ← load (f_inode env) file;
          ino ← load (i_ino env) inode;
          write_submit RawFileCloseEvent_codec events
            {| rc_header := header; rc_file_path := filepath val; rc_file_mode := output.2;
               rc_inode := ino; rc_retval := arg_i32 env 2; rc_flags := flags |};;
          mret 0
      end
  end.

Definition try_vfs_read (env : Env) : K Z :=
  entry ← reserve (size_of RawFileReadEvent_codec);
  match entry with
  | None => mret 0
  | Some events =>
      let header := build_event_header env EventType_FileRead in
      drop ← filter_events FilterOwner_File header;
      if (drop : bool) then discard events else
      let file := arg_ptr env 0 in
      if file =? 0 then discard events else
      output ← capture_file env file;
      if negb output.1 then discard events else
      path ← file_path_get file;
      match path with
      | None => discard events
      | Some val =>
          flags ← load (f_flags env) file;
          inode ← load (f_inode env) file;
          ino ← load (i_ino env) inode;
          write_submit RawFileReadEvent_codec events
            {| rr_header := header; rr_file_path := filepath val; rr_file_mode := output.2;
               rr_inode := ino; rr_retval := arg_isize env 4; rr_flags := flags |};;
          mret 0
      end
  end.

Definition try_vfs_write (env : Env) : K Z :=
  entry ← reserve (size_of RawFileWriteEvent_codec);
  match entry with
  | None => mret 0
  | Some events =>
      let header := build_event_header env EventType_FileWrite in
      drop ← filter_events FilterOwner_File header;
      if (drop : bool) then discard events else
      let file := arg_ptr env 0 in
      if file =? 0 then discard events else
      output ← capture_file env file;
      if negb output.1 then discard events else
      path ← file_path_get file;
      match path with
      | None => discard events
      | Some val =>
          flags ← load (f_flags env) file;
          inode ← load (f_inode env) file;
          ino ← load (i_ino env) inode;
          write_submit RawFileWriteEvent_codec events
            {| rw_header := header; rw_file_path := filepath val; rw_file_mode := output.2;
               rw_inode := ino; rw_flags := flags; rw_retval := arg_isize env 4 |};;
          mret 0
      end
  end.

Definition try_vfs_unlink (env : Env) : K Z :=
  entry ← reserve (size_of RawFileDeleteEvent_codec);
  match entry with
  | None => mret 0
  | Some events =>
      let header := build_event_header env EventType_FileDelete in
      drop ← filter_events FilterOwner_File header;
      if (drop : bool) then discard events else
      let dentry := arg_ptr env 2 in
      inode ← load (d_inode env) dentry;
      output ← capture_inode env inode;
      if negb output.1 then discard events else
      name ← load (d_name env) dentry;
      let file_name := bpf_probe_read_kernel_str env (replicate 256 x00) name in
      write_submit RawFileDeleteEvent_codec events
        {| rd_header := header; rd_file_name := file_name; rd_file_mode := output.2;
           rd_retval := arg_i32 env 4 |};;
      mret 0
  end.

Definition try_vfs_rename_retval (env : Env) : K Z :=
  entry ← reserve (size_of RawFileRtrEvent_codec);
  match entry with
  | None => mret 0
  | Some events =>
      write_submit RawFileRtrEvent_codec events
        {| rt_header := build_event_header env EventType_PendingFileRename;
           rt_retval := arg_i32 env 1 |};;
      mret 0
  end.

(** The update of [TEMP]: header, mode and names, in place; [flags] is not
    assigned. *)
Definition fill_temp (env : Env) (header : RawEventHeader) (file_mode : FileModeFilter)
    (old_filename new_filename : Z) (event : RawFileRenameEvent) : RawFileRenameEvent :=
  {| rn_header := header;
     rn_old_filename := bpf_probe_read_kernel_str env (rn_old_filename event) old_filename;
     rn_new_filename := bpf_probe_read_kernel_str env (rn_new_filename event) new_filename;
     rn_file_mode := file_mode;
     rn_flags := rn_flags event |}.

Definition update_temp (cpu : nat) (f : RawFileRenameEvent → RawFileRenameEvent)
    : K RawFileRenameEvent := act (OpTemp cpu f).

Definition try_vfs_rename (env : Env) : K Z :=
  let header := build_event_header env EventType_FileRename in
  drop ← filter_events FilterOwner_File header;
  if (drop : bool) then mret 0 else
  let renamedata := arg_ptr env 0 in
  old_dentry ← load (old_dentry env) renamedata;
  new_dentry ← load (new_dentry env) renamedata;
  old_inode ← load (d_inode env) old_dentry;
  output ← capture_inode env old_inode;
  if negb output.1 then mret 0 else
  old_filename ← load (d_name env) old_dentry;
  new_filename ← load (d_name env) new_dentry;
  if percpu_lookup env then
    event ← update_temp (processor env) (fill_temp env header output.2 old_filename new_filename);
    entry ← reserve (size_of RawFileRenameEvent_codec);
    match entry with
    | None => mret 0
    | Some events => write_submit RawFileRenameEvent_codec events event;; mret 0
    end
  else mret 0.

(** ** Memory *)

Definition try_vm_mmap_pgoff (env : Env) : K Z :=
  entry ← reserve (size_of RawMemoryMapEvent_codec);
  match entry with
  | None => mret 0
  | Some events =>
      let header := build_event_header env EventType_MemoryMap in
      drop ← filter_events FilterOwner_Memory header;
      if (drop : bool) then discard events else
      write_submit RawMemoryMapEvent_codec events
        {| mm_header := header; mm_requested_address := arg_u64 env 1;
           mm_length := arg_u64 env 2; mm_protection := arg_u32 env 3;
           mm_flags := arg_u32 env 4; mm_mapped_address := arg_u64 env 6 |};;
      mret 0
  end.

Definition try_vm_munmap (env : Env) : K Z :=
  entry ← reserve (size_of RawMemoryUnmapEvent_codec);
  match entry with
  | None => mret 0
  | Some events =>
      write_submit RawMemoryUnmapEvent_codec events
        {| mu_header := build_event_header env EventType_MemoryUnMap;
           mu_requested_address := arg_u64 env 0; mu_length := arg_u64 env 1;
           mu_mapped_address := arg_u64 env 3 |};;
      mret 0
  end.

(** ** The attached programs *)

Definition tcp_v4_connect (env : Env) : K Z := catch (try_tcp_v4_connect env).
Definition tcp_v6_connect (env : Env) : K Z := catch (try_tcp_v6_connect env).
Definition inet_csk_accept (env : Env) : K Z := catch (try_inet_csk_accept_impl env).
Definition tcp_close (env : Env) : K Z := catch (try_tcp_close env).
Definition udp_connect (env : Env) : K Z := catch (try_udp_connect env).
Definition udpv6_connect (env : Env) : K Z := catch (try_udpv6_connect env).
Definition udp_destroy_sock (env : Env) : K Z := catch (try_udp_destroy_sock env).
Definition inet_bind (env : Env) : K Z := catch (try_inet_bind env).
Definition inet_listen (env : Env) : K Z := catch (try_inet_listen env).
Definition sched_process_exec (env : Env) : K Z := catch (try_sched_process_exec env).
Definition sched_process_fork (env : Env) : K Z := catch (try_sched_process_fork env).
Definition do_group_exit (env : Env) : K Z := catch (try_do_group_exit env).
Definition file_open (env : Env) : K Z := catch (try_file_open env).
Definition __fput (env : Env) : K Z := catch (try_fput env).
Definition vfs_open (env : Env) : K Z := catch (try_vfs_open env).
Definition filp_close (env : Env) : K Z := catch (try_flip_close env).
Definition vfs_read (env : Env) : K Z := catch (try_vfs_read env).
Definition vfs_write (env : Env) : K Z := catch (try_vfs_write env).
Definition vfs_unlink (env : Env) : K Z := catch (try_vfs_unlink env).
Definition vfs_rename (env : Env) : K Z := catch (try_vfs_rename env).
Definition vfs_rename_retval (env : Env) : K Z := catch (try_vfs_rename_retval env).
Definition vm_mmap_pgoff (env : Env) : K Z := catch (try_vm_mmap_pgoff env).
Definition __vm_munmap (env : Env) : K Z := catch (try_vm_munmap env).

Inductive Probe :=
| P_tcp_v4_connect | P_tcp_v6_connect | P_inet_csk_accept | P_tcp_close
| P_udp_connect | P_udpv6_connect | P_udp_destroy_sock | P_inet_bind | P_inet_listen
| P_sched_process_exec | P_sched_process_fork | P_do_group_exit
| P_file_open | P_fput | P_vfs_open | P_filp_close | P_vfs_read | P_vfs_write
| P_vfs_unlink | P_vfs_rename | P_vfs_rename_retval
| P_vm_mmap_pgoff | P_vm_munmap.

Definition probe_code (p : Probe) (env : Env) : K Z :=
  match p with
  | P_tcp_v4_connect => tcp_v4_connect env
  | P_tcp_v6_connect => tcp_v6_connect env
  | P_inet_csk_accept => inet_csk_accept env
  | P_tcp_close => tcp_close env
  | P_udp_connect => udp_connect env
  | P_udpv6_connect => udpv6_connect env
  | P_udp_destroy_sock => udp_destroy_sock env
  | P_inet_bind => inet_bind env
  | P_inet_listen => inet_listen env
  | P_sched_process_exec => sched_process_exec env
  | P_sched_process_fork => sched_process_fork env
  | P_do_group_exit => do_group_exit env
  | P_file_open => file_open env
  | P_fput => __fput env
  | P_vfs_open => vfs_open env
  | P_filp_close => filp_close env
  | P_vfs_read => vfs_read env
  | P_vfs_write => vfs_write env
  | P_vfs_unlink => vfs_unlink env
  | P_vfs_rename => vfs_rename env
  | P_vfs_rename_retval => vfs_rename_retval env
  | P_vm_mmap_pgoff => vm_mmap_pgoff env
  | P_vm_munmap => __vm_munmap env
  end.

Definition run_probe (p : Probe) (env : Env) : stateM KState Z Z := run_code (probe_code p env).
End programs.

#[global] Arguments KState R M : clear implicits.
