(* ===== verification/KernelSpec.v ===== *)
(** * What the eBPF programs do

    [probe_event] says, without the ring buffer and the control flow of the
    programs, which record a program run owes to its subscribers; [temp_after],
    [paths_after] and [path_buf_after] what becomes of the other maps.
    [KernelTheorems.v] shows that every program of [Ebpf.v] does exactly that. *)

From S2P Require Import Prelude Raw Layout Events Interfaces Ebpf.

(** ** Filter keys, as a relation *)

Definition key_matches (key : FilterKey) (h : RawEventHeader) : Prop :=
  match key with
  | FilterKey_None => True
  | FilterKey_Pid pid => rh_pid h = pid
  | FilterKey_Tid tid => rh_tid h = tid
  | FilterKey_Ppid ppid => rh_ppid h = ppid
  | FilterKey_Uid uid => rh_uid h = uid
  | FilterKey_Gid gid => rh_gid h = gid
  end.

#[global] Instance key_matches_dec key h : Decision (key_matches key h).
Proof. destruct key; simpl; apply _. Defined.

Lemma key_drops_spec key h : key_drops key h = false ↔ key_matches key h.
Proof. destruct key; simpl; rewrite ?negb_false_iff, ?Z.eqb_eq; done. Qed.

Definition unless {A} (b : bool) (o : option A) : option A := if b then None else o.

Lemma unless_Some {A} b (o : option A) a : unless b o = Some a ↔ b = false ∧ o = Some a.
Proof. destruct b; simpl; naive_solver. Qed.

(** The bytes a program asks the ring buffer for. *)
Definition probe_size (p : Probe) : nat :=
  match p with
  | P_tcp_v4_connect | P_tcp_v6_connect | P_inet_csk_accept | P_tcp_close
  | P_udp_connect | P_udpv6_connect | P_udp_destroy_sock | P_inet_bind | P_inet_listen =>
      size_of PendingConnect_codec
  | P_sched_process_exec => size_of RawProcessStartEvent_codec
  | P_sched_process_fork => size_of RawProcessForkEvent_codec
  | P_do_group_exit => size_of RawProcessExitEvent_codec
  | P_vfs_open => size_of RawFileOpenEvent_codec
  | P_filp_close => size_of RawFileCloseEvent_codec
  | P_vfs_read => size_of RawFileReadEvent_codec
  | P_vfs_write => size_of RawFileWriteEvent_codec
  | P_vfs_unlink => size_of RawFileDeleteEvent_codec
  | P_vfs_rename => size_of RawFileRenameEvent_codec
  | P_vfs_rename_retval => size_of RawFileRtrEvent_codec
  | P_vm_mmap_pgoff => size_of RawMemoryMapEvent_codec
  | P_vm_munmap => size_of RawMemoryUnmapEvent_codec
  | P_file_open | P_fput => 0
  end.

(** Whose filter applies to a program; three programs apply none. *)
Definition probe_owner (p : Probe) : option FilterOwner :=
  match p with
  | P_tcp_v4_connect | P_tcp_v6_connect | P_inet_csk_accept | P_tcp_close
  | P_udp_connect | P_udpv6_connect | P_udp_destroy_sock | P_inet_bind | P_inet_listen =>
      Some FilterOwner_Network
  | P_sched_process_exec | P_sched_process_fork | P_do_group_exit => Some FilterOwner_Process
  | P_vfs_open | P_filp_close | P_vfs_read | P_vfs_write | P_vfs_unlink | P_vfs_rename =>
      Some FilterOwner_File
  | P_vm_mmap_pgoff => Some FilterOwner_Memory
  | P_vfs_rename_retval | P_vm_munmap | P_file_open | P_fput => None
  end.

Section spec.
Context {R H : Type} {M : Type → Type}.
Context `{!RingBufOps R H, !BpfMapOps M}.
Implicit Types s : KState R M.

Definition dropped s (owner : FilterOwner) (h : RawEventHeader) : bool :=
  match bm_get (FILTER s) (FilterOwner_repr owner) with
  | Some key => key_drops key h
  | None => false
  end.

(** *** Network *)

Definition v4_event (env : Env) s (sock : Z) (retval : option Z) (p : RawProtocol)
    (ty : EventType) : option RawEvent :=
  let h := build_event_header env ty in
  unless (dropped s FilterOwner_Network h) $ Some $ RawNet
    {| pc_header := h; pc_protocol := p;
       pc_tid := u_wrap 32 (bpf_get_current_pid_tgid env);
       pc_src_port := sock_num env sock; pc_dst_port := sock_dport env sock;
       pc_ip_version := IpVersion_V4; pc_src_addr := v4_addr (sock_rcv_saddr env sock);
       pc_dst_addr := v4_addr (sock_daddr env sock); pc_retval := retval |}.

Definition v6_event (env : Env) s (sock : Z) (retval : option Z) (p : RawProtocol)
    (ty : EventType) : option RawEvent :=
  let h := build_event_header env ty in
  unless (dropped s FilterOwner_Network h) $
    daddr ← skc_v6_daddr env sock;
    src_addr ← skc_v6_rcv_saddr env sock;
    Some $ RawNet
      {| pc_header := h; pc_protocol := p;
         pc_tid := u_wrap 32 (bpf_get_current_pid_tgid env);
         pc_src_port := sock_num env sock; pc_dst_port := sock_dport env sock;
         pc_ip_version := IpVersion_V6; pc_src_addr := src_addr;
         pc_dst_addr := daddr; pc_retval := retval |}.

Definition family_event (env : Env) s (sock : Z) (retval : option Z) (p : RawProtocol)
    (ty : EventType) : option RawEvent :=
  family ← skc_family env sock;
  if family =? AF_INET then v4_event env s sock retval p ty
  else if family =? AF_INET6 then v6_event env s sock retval p ty
  else None.

(** *** Files *)

(** The type bit of a file the CONFIG map selects. *)
Definition selected_type s (m : Z) : option FileModeFilter :=
  config ← bm_get (CONFIG s) 0;
  unless (Z.land (mode config) (file_type_bit m) =? 0)
    (Some {| mode := file_type_bit m |}).

(** Type and path of an opened file. *)
Definition file_info (env : Env) s (file : Z) : option (FileModeFilter * list byte) :=
  ty ← selected_type s (i_mode env (f_inode env file));
  path ← bm_get (FILE_PATH_MAP s) file;
  Some (ty, filepath path).

Definition rename_event (env : Env) s : option RawFileRenameEvent :=
  let h := build_event_header env EventType_FileRename in
  let old := old_dentry env (arg_ptr env 0) in
  let new := new_dentry env (arg_ptr env 0) in
  unless (dropped s FilterOwner_File h) $
    ty ← selected_type s (i_mode env (d_inode env old));
    unless (negb (percpu_lookup env)) $
      Some (fill_temp env h ty (d_name env old) (d_name env new) (TEMP s (processor env))).

(** *** The record a program run owes *)

Definition probe_event (p : Probe) (env : Env) s : option RawEvent :=
  let sock := arg_ptr env 0 in
  let file := arg_ptr env 0 in
  match p with
  | P_tcp_v4_connect => unless (sock =? 0) $
      v4_event env s sock (Some (arg_i32 env 3)) RawProtocol_Tcp EventType_Connect
  | P_tcp_v6_connect => unless (sock =? 0) $
      v6_event env s sock (Some (arg_i32 env 3)) RawProtocol_Tcp EventType_Connect
  | P_udp_connect => unless (sock =? 0) $
      v4_event env s sock (Some (arg_i32 env 3)) RawProtocol_Udp EventType_Connect
  | P_udpv6_connect => unless (sock =? 0) $
      v6_event env s sock (Some (arg_i32 env 3)) RawProtocol_Udp EventType_Connect
  | P_inet_csk_accept =>
      sock ← ctx_ret env;
      unless (sock =? 0) $ family_event env s sock None RawProtocol_Tcp EventType_Accept
  | P_tcp_close => family_event env s sock None RawProtocol_Tcp EventType_Close
  | P_udp_destroy_sock => unless (sock =? 0) $
      family_event env s sock None RawProtocol_Udp EventType_Close
  | P_inet_bind =>
      let sk := socket_sk env sock in
      unless (sk =? 0) $
        family_event env s sk (Some (arg_i32 env 3)) RawProtocol_Tcp EventType_Bind
  | P_inet_listen =>
      let sk := socket_sk env sock in
      unless (sk =? 0) $
        family_event env s sk (Some (arg_i32 env 2)) RawProtocol_Tcp EventType_Listen
  | P_sched_process_exec =>
      let h := build_event_header env EventType_ProcessStart in
      unless (dropped s FilterOwner_Process h) $
        data_loc ← read_at_u32 env 8;
        Some $ RawStart {| ps_header := h;
          ps_filename := bpf_probe_read_kernel_str env (replicate 256 x00)
                           (ctx_ptr env + Z.land data_loc 0xffff) |}
  | P_sched_process_fork =>
      let h := build_event_header env EventType_ProcessFork in
      unless (dropped s FilterOwner_Process h) $
        data_loc ← read_at_u32 env 16;
        child_pid ← read_at_u32 env 20;
        Some $ RawFork {| pf_parent := h; pf_child_pid := child_pid;
          pf_child_comm := bpf_probe_read_kernel_str env (replicate TASK_COMM_LEN x00)
                             (ctx_ptr env + Z.land data_loc 0xffff) |}
  | P_do_group_exit =>
      let h := build_event_header env EventType_ProcessExit in
      unless (dropped s FilterOwner_Process h) $
        Some $ RawExit {| pe_header := h; pe_exit_code := arg_i32 env 0 |}
  | P_vfs_open =>
      let h := build_event_header env EventType_FileOpen in
      let file := arg_ptr env 1 in
      unless (dropped s FilterOwner_File h) $ unless (file =? 0) $
        fi ← file_info env s file;
        Some $ RawOpen {| ro_header := h; ro_file_path := fi.2; ro_file_mode := fi.1;
          ro_inode := i_ino env (f_inode env file); ro_retval := arg_i32 env 2;
          ro_flags := f_flags env file |}
  | P_filp_close =>
      let h := build_event_header env EventType_FileClose in
      unless (dropped s FilterOwner_File h) $
        fi ← file_info env s file;
        Some $ RawClose {| rc_header := h; rc_file_path := fi.2; rc_file_mode := fi.1;
          rc_inode := i_ino env (f_inode env file); rc_retval := arg_i32 env 2;
          rc_flags := f_flags env file |}
  | P_vfs_read =>
      let h := build_event_header env EventType_FileRead in
      unless (dropped s FilterOwner_File h) $ unless (file =? 0) $
        fi ← file_info env s file;
        Some $ RawRead {| rr_header := h; rr_file_path := fi.2; rr_file_mode := fi.1;
          rr_inode := i_ino env (f_inode env file); rr_retval := arg_isize env 4;
          rr_flags := f_flags env file |}
  | P_vfs_write =>
      let h := build_event_header env EventType_FileWrite in
      unless (dropped s FilterOwner_File h) $ unless (file =? 0) $
        fi ← file_info env s file;
        Some $ RawWrite {| rw_header := h; rw_file_path := fi.2; rw_file_mode := fi.1;
          rw_inode := i_ino env (f_inode env file); rw_flags := f_flags env file;
          rw_retval := arg_isize env 4 |}
  | P_vfs_unlink =>
      let h := build_event_header env EventType_FileDelete in
      let dentry := arg_ptr env 2 in
      unless (dropped s FilterOwner_File h) $
        ty ← selected_type s (i_mode env (d_inode env dentry));
        Some $ RawDelete {| rd_header := h;
          rd_file_name := bpf_probe_read_kernel_str env (replicate 256 x00) (d_name env dentry);
          rd_file_mode := ty; rd_retval := arg_i32 env 4 |}
  | P_vfs_rename => RawRename <$> rename_event env s
  | P_vfs_rename_retval =>
      Some $ RawRtr {| rt_header := build_event_header env EventType_PendingFileRename;
                       rt_retval := arg_i32 env 1 |}
  | P_vm_mmap_pgoff =>
      let h := build_event_header env EventType_MemoryMap in
      unless (dropped s FilterOwner_Memory h) $
        Some $ RawMap {| mm_header := h; mm_requested_address := arg_u64 env 1;
          mm_length := arg_u64 env 2; mm_protection := arg_u32 env 3;
          mm_flags := arg_u32 env 4; mm_mapped_address := arg_u64 env 6 |}
  | P_vm_munmap =>
      Some $ RawUnmap {| mu_header := build_event_header env EventType_MemoryUnMap;
        mu_requested_address := arg_u64 env 0; mu_length := arg_u64 env 1;
        mu_mapped_address := arg_u64 env 3 |}
  | P_file_open | P_fput => None
  end.

(** The records a run adds to the ring: the one owed, if there is room. *)
Definition submitted (p : Probe) (env : Env) s : list mem :=
  match rb_reserve (EVENTS s) (probe_size p) with
  | Some _ => option_list (raw_put <$> probe_event p env s)
  | None => []
  end.

(** *** The other maps *)

Definition temp_after (p : Probe) (env : Env) s : nat → RawFileRenameEvent :=
  match p, rename_event env s with
  | P_vfs_rename, Some e => <[processor env := e]> (TEMP s)
  | _, _ => TEMP s
  end.

(** Whether [file_open] asks for the path. *)
Definition path_lookup (p : Probe) (env : Env) : bool :=
  match p with
  | P_file_open => negb (arg_ptr env 0 =? 0) && percpu_lookup env
  | _ => false
  end.

Definition d_path_result (env : Env) s : Z * list byte :=
  bpf_d_path env (f_path env (arg_ptr env 0)) (PATH_BUF s (processor env)).

Definition path_buf_after (p : Probe) (env : Env) s : nat → list byte :=
  if path_lookup p env then <[processor env := (d_path_result env s).2]> (PATH_BUF s)
  else PATH_BUF s.

Definition paths_after (p : Probe) (env : Env) s : M RawFilePath :=
  match p with
  | P_fput => bm_remove (FILE_PATH_MAP s) (arg_ptr env 0)
  | _ =>
      if path_lookup p env && (0 <=? (d_path_result env s).1) then
        default (FILE_PATH_MAP s)
          (bm_insert (FILE_PATH_MAP s) (arg_ptr env 0) {| filepath := (d_path_result env s).2 |})
      else FILE_PATH_MAP s
  end.

(** [s'] is [s] after a run of [p]. *)
Definition kernel_post (p : Probe) (env : Env) s s' : Prop :=
  rb_items (EVENTS s') = rb_items (EVENTS s) ++ submitted p env s ∧
  CONFIG s' = CONFIG s ∧ FILTER s' = FILTER s ∧ TEMP s' = temp_after p env s ∧
  FILE_PATH_MAP s' = paths_after p env s ∧ PATH_BUF s' = path_buf_after p env s.
End spec.
