(* ===== verification/KernelProofs.v ===== *)
(** * The programs meet their specification

    Well-formedness of the records ([probe_event_ok]), a small program logic for
    the code of [Ebpf.v] ([wp]), and with it the refinement of every program to
    [kernel_post] ([run_probe_wp]). *)

From S2P Require Import Prelude Raw Layout Events Interfaces Ebpf KernelSpec.

(** ** Well-formed records *)

Lemma build_event_header_wf env ty :
  Env_wf env → wf RawEventHeader_codec (build_event_header env ty).
Proof.
  intros Hw. pose proof (wf_ktime _ Hw). pose proof (wf_comm _ Hw) as Hc.
  cbn [wf RawEventHeader_codec struct pair padded uint array enum EventType_codec
       build_event_header collect_process_ctx rh_event_type rh_timestamp_ns rh_pid rh_tid
       rh_ppid rh_uid rh_gid rh_comm fst snd].
  change (width_bits 4) with 32. change (width_bits 8) with 64.
  split_and!; try done; try (apply u_wrap_range; lia).
  - case_match; [range | apply u_wrap_range; lia].
  - destruct (bpf_get_current_comm env) as [c|] eqn:E; simpl; [by apply Hc|done].
Qed.

Lemma build_event_header_type env ty : rh_event_type (build_event_header env ty) = ty.
Proof. done. Qed.

Definition type_bits : list Z :=
  [0; FILE_REG; FILE_DIR; FILE_CHR; FILE_BLK; FILE_FIFO; FILE_LNK; FILE_SOCK].

Lemma file_type_bit_cases m : file_type_bit m ∈ type_bits.
Proof.
  unfold file_type_bit.
  repeat case_match; apply (bool_decide_unpack _); vm_compute; exact I.
Qed.

Lemma file_type_bit_u16 m : in_u 16 (file_type_bit m).
Proof.
  pose proof (file_type_bit_cases m) as Hm. revert Hm. generalize (file_type_bit m).
  intros z Hz. unfold type_bits in Hz. rewrite !elem_of_cons, elem_of_nil in Hz.
  destruct_or? Hz; subst; vm_compute; done.
Qed.

(** ** Steps of the proofs about programs *)

(** The record is [e] once the conditions met on the way are known. *)
Ltac event_is Hd :=
  simpl; rewrite ?Hd; simpl;
  repeat match goal with
  | E : ?x = Some _ |- context [?x] => rewrite E; simpl
  | E : ?x = None |- context [?x] => rewrite E; simpl
  | E : (?x =? 0) = _ |- context [?x =? 0] => rewrite E; simpl
  end; done.
Ltac file_is Hd :=
  simpl; rewrite ?Hd; unfold file_info; simpl;
  repeat match goal with
  | E : ?x = Some _ |- context [?x] => rewrite E; simpl
  | E : ?x = None |- context [?x] => rewrite E; simpl
  | E : percpu_lookup ?env = _ |- context [percpu_lookup ?env] => rewrite E; simpl
  | E : ?x = 0 |- context [?x =? 0] => rewrite (proj2 (Z.eqb_eq x 0) E); simpl
  | E : ?x ≠ 0 |- context [?x =? 0] => rewrite (proj2 (Z.eqb_neq x 0) E); simpl
  end; done.
Ltac null := simpl; intuition auto.

Section proofs.
Context {R H : Type} {M : Type → Type}.
Context `{RingBufLaws R H, BpfMapLaws M}.
Implicit Types s : KState R M.

Lemma selected_type_wf s m ty :
  selected_type s m = Some ty → wf FileModeFilter_codec ty ∧ ty = {| mode := file_type_bit m |}.
Proof.
  unfold selected_type. destruct (bm_get _ _) as [c|]; [|done]. simpl.
  intros [_ [= <-]]%unless_Some. split; [apply file_type_bit_u16|done].
Qed.

(** The buffers the programs keep have the sizes of their types. *)
Definition maps_wf s : Prop :=
  (∀ k p, bm_get (FILE_PATH_MAP s) k = Some p → length (filepath p) = 256%nat) ∧
  (∀ c, length (PATH_BUF s c) = 256%nat) ∧
  (∀ c, length (rn_old_filename (TEMP s c)) = 256%nat ∧
        length (rn_new_filename (TEMP s c)) = 256%nat ∧ rn_flags (TEMP s c) = 0).

Lemma v4_event_ok env s sock rv p ty e :
  Env_wf env → ty ∈ network_types → (ty ∈ retval_types → is_Some rv) →
  (∀ v, rv = Some v → in_s 32 v) →
  v4_event env s sock rv p ty = Some e → raw_ok e.
Proof.
  intros Hw Hty Hrv Hr [_ [= <-]]%unless_Some. split; [|done].
  pose proof (build_event_header_wf env ty Hw).
  cbn -[RawEventHeader_codec build_event_header in_u in_s width_bits].
  split_and!; try done.
  - apply u_wrap_range. lia.
  - unfold sock_num. destruct (skc_num env sock) eqn:E; [by eapply wf_num|by vm_compute].
  - unfold sock_dport. destruct (skc_dport env sock) eqn:E; [by eapply wf_dport|by vm_compute].
  - destruct rv; [by apply Hr|done].
Qed.

Lemma v6_event_ok env s sock rv p ty e :
  Env_wf env → ty ∈ network_types → (ty ∈ retval_types → is_Some rv) →
  (∀ v, rv = Some v → in_s 32 v) →
  v6_event env s sock rv p ty = Some e → raw_ok e.
Proof.
  intros Hw Hty Hrv Hr [_ He]%unless_Some. simplify_option_eq. split; [|done].
  pose proof (build_event_header_wf env ty Hw).
  cbn -[RawEventHeader_codec build_event_header in_u in_s width_bits].
  split_and!; try done.
  - apply u_wrap_range. lia.
  - unfold sock_num. destruct (skc_num env sock) eqn:E; [by eapply wf_num|by vm_compute].
  - unfold sock_dport. destruct (skc_dport env sock) eqn:E; [by eapply wf_dport|by vm_compute].
  - by eapply wf_v6_rcv_saddr.
  - by eapply wf_v6_daddr.
  - destruct rv; [by apply Hr|done].
Qed.

Lemma family_event_ok env s sock rv p ty e :
  Env_wf env → ty ∈ network_types → (ty ∈ retval_types → is_Some rv) →
  (∀ v, rv = Some v → in_s 32 v) →
  family_event env s sock rv p ty = Some e → raw_ok e.
Proof.
  unfold family_event. intros ????. destruct (skc_family env sock); [|done]. simpl.
  case_match; [by apply v4_event_ok|]. case_match; [by apply v6_event_ok|done].
Qed.

Lemma file_info_wf env s file fi :
  maps_wf s → file_info env s file = Some fi →
  wf FileModeFilter_codec fi.1 ∧ length fi.2 = 256%nat.
Proof.
  intros (Hp & _) Hfi. unfold file_info in Hfi.
  destruct (selected_type s _) as [ty|] eqn:Ht; [|done]. simpl in Hfi.
  destruct (bm_get (FILE_PATH_MAP s) file) as [path|] eqn:Hg; [|done].
  simplify_eq/=. split; [by apply selected_type_wf in Ht as []|by eapply Hp].
Qed.

Lemma rename_event_wf env s e :
  Env_wf env → maps_wf s → rename_event env s = Some e →
  raw_ok (RawRename e) ∧ rn_flags e = 0 ∧
  length (rn_old_filename e) = 256%nat ∧ length (rn_new_filename e) = 256%nat.
Proof.
  intros Hw (_ & _ & Ht) [_ He]%unless_Some.
  destruct (selected_type s _) as [ty|] eqn:Hty; [|done]. simpl in He.
  apply unless_Some in He as [_ [= <-]]. destruct (Ht (processor env)) as (Ho & Hn & Hf).
  pose proof (build_event_header_wf env EventType_FileRename Hw).
  apply selected_type_wf in Hty as [Hty _].
  split; [split; [|done]|]; cbn -[RawEventHeader_codec build_event_header in_u width_bits];
    rewrite ?wf_read_str, ?Ho, ?Hn, ?Hf by done; split_and!; done.
Qed.

Ltac tagged := apply (bool_decide_unpack _); vm_compute; exact I.
Ltac untagged := intros Ht; exfalso; revert Ht; tagged.
Ltac fields Hw :=
  simplify_eq/=; split; [|done];
  cbn -[RawEventHeader_codec build_event_header in_s in_u width_bits];
  rewrite ?(wf_read_str _ Hw); split_and?;
  first [ done | by apply build_event_header_wf | by apply wf_arg_i32 | by apply wf_arg_u32
        | by apply wf_arg_u64 | by apply wf_arg_isize | by apply wf_i_ino
        | by apply wf_f_flags | by eapply wf_read_at ].

(** Every record a program owes is well formed and carries its own tag; a
    connect, bind or listen record has a return value. *)
Lemma probe_event_ok p env s e :
  Env_wf env → maps_wf s → probe_event p env s = Some e → raw_ok e.
Proof.
  intros Hw Hm.
  assert (Hrv : ∀ (n : nat) v, Some (arg_i32 env n) = Some v → in_s 32 v).
  { intros n v [= <-]. by apply wf_arg_i32. }
  destruct p; simpl; intros He; try done.
  all: try (apply unless_Some in He as [_ He]).
  - eapply v4_event_ok, He; [done|tagged|done|apply Hrv].
  - eapply v6_event_ok, He; [done|tagged|done|apply Hrv].
  - destruct (ctx_ret env); [|done]. apply unless_Some in He as [_ He].
    eapply family_event_ok, He; [done|tagged|untagged|done].
  - eapply family_event_ok, He; [done|tagged|untagged|done].
  - eapply v4_event_ok, He; [done|tagged|done|apply Hrv].
  - eapply v6_event_ok, He; [done|tagged|done|apply Hrv].
  - eapply family_event_ok, He; [done|tagged|untagged|done].
  - eapply family_event_ok, He; [done|tagged|done|apply Hrv].
  - eapply family_event_ok, He; [done|tagged|done|apply Hrv].
  - destruct (read_at_u32 env 8); [|done]. fields Hw.
  - destruct (read_at_u32 env 16); [|done].
    destruct (read_at_u32 env 20) eqn:Hv; [|done]. fields Hw.
  - fields Hw.
  - apply unless_Some in He as [_ He]. destruct (file_info _ _ _) eqn:Hfi; [|done].
    apply file_info_wf in Hfi as [? ?]; [|done]. fields Hw.
  - destruct (file_info _ _ _) eqn:Hfi; [|done].
    apply file_info_wf in Hfi as [? ?]; [|done]. fields Hw.
  - apply unless_Some in He as [_ He]. destruct (file_info _ _ _) eqn:Hfi; [|done].
    apply file_info_wf in Hfi as [? ?]; [|done]. fields Hw.
  - apply unless_Some in He as [_ He]. destruct (file_info _ _ _) eqn:Hfi; [|done].
    apply file_info_wf in Hfi as [? ?]; [|done]. fields Hw.
  - destruct (selected_type _ _) eqn:Ht; [|done]. apply selected_type_wf in Ht as [? _].
    fields Hw.
  - destruct (rename_event env s) eqn:Hr; simplify_eq/=. by apply rename_event_wf in Hr as [? _].
  - fields Hw.
  - fields Hw.
  - fields Hw.
Qed.

(** The struct each program writes. *)
Definition probe_struct (p : Probe) (e : RawEvent) : Prop :=
  match p, e with
  | (P_tcp_v4_connect | P_tcp_v6_connect | P_inet_csk_accept | P_tcp_close
    | P_udp_connect | P_udpv6_connect | P_udp_destroy_sock | P_inet_bind | P_inet_listen),
    RawNet _ => True
  | P_sched_process_exec, RawStart _ | P_sched_process_fork, RawFork _
  | P_do_group_exit, RawExit _ | P_vfs_open, RawOpen _ | P_filp_close, RawClose _
  | P_vfs_read, RawRead _ | P_vfs_write, RawWrite _ | P_vfs_unlink, RawDelete _
  | P_vfs_rename, RawRename _ | P_vfs_rename_retval, RawRtr _
  | P_vm_mmap_pgoff, RawMap _ | P_vm_munmap, RawUnmap _ => True
  | _, _ => False
  end.

Lemma probe_event_struct p env s e : probe_event p env s = Some e → probe_struct p e.
Proof.
  destruct p; unfold probe_event, family_event, v4_event, v6_event, unless; intros He;
    repeat (simplify_option_eq || case_match); done.
Qed.

Lemma probe_event_size p env s e :
  Env_wf env → maps_wf s → probe_event p env s = Some e → length (raw_put e) = probe_size p.
Proof.
  intros Hw Hm He. rewrite raw_put_length by by eapply probe_event_ok.
  apply probe_event_struct in He. by destruct p, e.
Qed.

(** *** A program logic for the programs

    [wp ub m Q s]: run on its own from [s], [m] returns normally in a state and
    with a value that satisfy [Q], or dereferences a null pointer, which only
    happens when [ub] holds. *)
#[local] Abbreviation K := (K H).

Lemma run_code_bind {A B} (m : K A) (f : A → K B) s :
  run_code (m ≫= f) s =
  ((run_code m : stateM (KState R M) Z A) ≫=
   (fun a => run_code (f a) : stateM (KState R M) Z B)) s.
Proof.
  revert s. unfold mbind, stateM_bind.
  induction m as [[]|o k IH]; intros s; try done. simpl. destruct (kact o s) as [x s']. apply IH.
Qed.

Lemma run_code_catch (m : K Z) s :
  run_code (catch m) s =
  match run_code m s with (Err _, s') => (Ok 0, s') | r => r end.
Proof.
  revert s. induction m as [[]|o k IH]; intros s; try done. simpl.
  destruct (kact o s) as [x s']. apply IH.
Qed.

Definition wp {A} (ub : Prop) (m : K A) (Q : A → KState R M → Prop) s : Prop :=
  match run_code m s with
  | (Ok a, s') => Q a s'
  | (UB, _) => ub
  | _ => False
  end.

Lemma wp_ret {A} ub (a : A) Q s : Q a s → wp ub (mret a) Q s.
Proof. done. Qed.

Lemma wp_bind {A B} ub m (f : A → K B) Q s :
  wp ub m (fun a s' => wp ub (f a) Q s') s → wp ub (m ≫= f) Q s.
Proof.
  unfold wp. rewrite run_code_bind. unfold mbind, stateM_bind. by destruct (run_code m s) as [[] ?].
Qed.

Lemma wp_act ub o Q s : Q (kact o s).1 (kact o s).2 → wp ub (act o) Q s.
Proof. unfold wp, act. simpl. by destruct (kact o s). Qed.

Lemma wp_mono {A} ub (m : K A) (Q Q' : A → KState R M → Prop) s :
  (∀ a s', Q a s' → Q' a s') → wp ub m Q s → wp ub m Q' s.
Proof. unfold wp. destruct (run_code m s) as [[] ?]; auto. Qed.

Lemma wp_catch ub m Q s : wp ub m Q s → wp ub (catch m) Q s.
Proof. unfold wp. rewrite run_code_catch. by destruct (run_code m s) as [[] ?]. Qed.

Lemma wp_reserve ub n Q s :
  (rb_reserve (EVENTS s) n = None → Q None s) →
  (∀ h r, rb_reserve (EVENTS s) n = Some (h, r) → Q (Some h) (set_EVENTS r s)) →
  wp ub (reserve n) Q s.
Proof. intros Hn Hs. apply (wp_act ub (OpReserve n)). simpl. destruct (rb_reserve _ _) as [[h r]|]; simpl; auto. Qed.

Lemma wp_filter ub owner h Q s :
  Q (dropped s owner h) s → wp ub (filter_events owner h) Q s.
Proof. done. Qed.

Lemma wp_load {A} ub (f : Z → A) p Q s :
  (p = 0 → ub) → (p ≠ 0 → Q (f p) s) → wp ub (load f p) Q s.
Proof. unfold wp, load. destruct (Z.eqb_spec p 0); simpl; auto. Qed.

Lemma wp_capture_inode ub env inode Q s :
  (inode = 0 → ub) →
  (inode ≠ 0 → ∀ ty, selected_type s (i_mode env inode) = Some ty → Q (true, ty) s) →
  (∀ ty, selected_type s (i_mode env inode) = None → Q (false, ty) s) →
  wp ub (capture_inode env inode) Q s.
Proof.
  intros Hub Hy Hn. apply wp_bind, (wp_act ub OpConfig). cbn [kact fst snd]. unfold selected_type in *.
  destruct (bm_get (CONFIG s) 0) as [c|]; simpl in *; [|by apply Hn].
  apply wp_bind, wp_load; [done|]. intros Hi. apply wp_ret.
  destruct (Z.land _ _ =? 0); simpl in *; [by apply Hn | by apply Hy].
Qed.

Lemma wp_capture_file ub env file Q s :
  (file = 0 ∨ f_inode env file = 0 → ub) →
  (file ≠ 0 → f_inode env file ≠ 0 →
   ∀ ty, selected_type s (i_mode env (f_inode env file)) = Some ty → Q (true, ty) s) →
  (∀ ty, selected_type s (i_mode env (f_inode env file)) = None → Q (false, ty) s) →
  wp ub (capture_file env file) Q s.
Proof.
  intros Hub Hy Hn. apply wp_bind, (wp_act ub OpConfig). cbn [kact fst snd]. unfold selected_type in *.
  destruct (bm_get (CONFIG s) 0) as [c|]; simpl in *; [|by apply Hn].
  apply wp_bind, wp_load; [auto|]. intros Hf. apply wp_bind, wp_load; [auto|].
  intros Hi. apply wp_ret.
  destruct (Z.land _ _ =? 0); simpl in *; [by apply Hn | by apply Hy].
Qed.

Lemma wp_file_path ub file Q s :
  (∀ path, bm_get (FILE_PATH_MAP s) file = Some path → Q (Some path) s) →
  (bm_get (FILE_PATH_MAP s) file = None → Q None s) →
  wp ub (file_path_get file) Q s.
Proof.
  intros Hs Hn. apply wp_bind, (wp_act ub (OpPathGet file)). cbn [kact fst snd].
  destruct (bm_get (FILE_PATH_MAP s) file) as [path|] eqn:Hg; [|by apply Hn].
  apply wp_bind, (wp_act ub (OpPathCopy file)). cbn [kact fst snd]. rewrite Hg. by apply Hs.
Qed.

(** When a run meets a null pointer: the conditions are on the arguments and
    on the kernel objects they lead to. *)
Definition null_deref (p : Probe) (env : Env) : Prop :=
  let a := arg_ptr env in
  match p with
  | P_inet_bind | P_inet_listen => a 0%nat = 0
  | P_vfs_open => f_inode env (a 1%nat) = 0
  | P_vfs_read | P_vfs_write => f_inode env (a 0%nat) = 0
  | P_filp_close => a 0%nat = 0 ∨ f_inode env (a 0%nat) = 0
  | P_vfs_unlink =>
      a 2%nat = 0 ∨ d_inode env (a 2%nat) = 0
  | P_vfs_rename =>
      a 0%nat = 0 ∨ old_dentry env (a 0%nat) = 0 ∨ new_dentry env (a 0%nat) = 0 ∨
      d_inode env (old_dentry env (a 0%nat)) = 0
  | _ => False
  end.

(** *** How a run ends *)

(** The programs that leave every map but the ring as it is. *)
Definition quiet (p : Probe) : bool :=
  match p with P_file_open | P_fput | P_vfs_rename => false | _ => true end.

Lemma quiet_post p env s r :
  quiet p = true → rb_items r = rb_items (EVENTS s) ++ submitted p env s →
  kernel_post p env s (set_EVENTS r s).
Proof. intros Hq Hr. split; [done|]. by destruct p. Qed.

Lemma post_full p env s :
  quiet p = true → rb_reserve (EVENTS s) (probe_size p) = None → kernel_post p env s s.
Proof.
  intros Hq Hr. destruct s as [r c t f fp pb]. apply (quiet_post p env (mkKState r c t f fp pb));
    [done|]. unfold submitted. rewrite Hr. by rewrite app_nil_r.
Qed.

Lemma post_none p env s :
  quiet p = true → probe_event p env s = None → kernel_post p env s s.
Proof.
  intros Hq He. destruct s as [r c t f fp pb]. apply (quiet_post p env (mkKState r c t f fp pb));
    [done|]. unfold submitted. rewrite He. case_match; simpl; by rewrite app_nil_r.
Qed.

Lemma post_discard p env s h r :
  quiet p = true → rb_reserve (EVENTS s) (probe_size p) = Some (h, r) →
  probe_event p env s = None →
  kernel_post p env s (set_EVENTS (rb_discard r h) s).
Proof.
  intros Hq Hr He. apply quiet_post; [done|]. unfold submitted. rewrite Hr, He. simpl.
  rewrite app_nil_r. by eapply rb_discard_items.
Qed.

Lemma post_submit p env s h r e :
  quiet p = true → Env_wf env → maps_wf s →
  rb_reserve (EVENTS s) (probe_size p) = Some (h, r) →
  probe_event p env s = Some e →
  kernel_post p env s (set_EVENTS (rb_submit (rb_write r h (raw_put e)) h) s).
Proof.
  intros Hq Hw Hm Hr He. apply quiet_post; [done|]. unfold submitted. rewrite Hr, He. simpl.
  eapply rb_submit_items; [done|]. by eapply probe_event_size.
Qed.

(** *** The programs *)

Definition post p env s : Z → KState R M → Prop := fun v s' => v = 0 ∧ kernel_post p env s s'.

Lemma wp_entry ub p env s body :
  quiet p = true →
  (∀ h r, rb_reserve (EVENTS s) (probe_size p) = Some (h, r) →
          wp ub (body h) (post p env s) (set_EVENTS r s)) →
  wp ub (entry ← reserve (probe_size p);
         match entry with None => mret 0 | Some events => body events end) (post p env s) s.
Proof.
  intros Hq Hb. apply wp_bind, wp_reserve; [|exact Hb].
  intros Hr. split; [done|]. by apply post_full.
Qed.

Lemma wp_discard ub p env s h r :
  quiet p = true → rb_reserve (EVENTS s) (probe_size p) = Some (h, r) →
  probe_event p env s = None →
  wp ub (discard h) (post p env s) (set_EVENTS r s).
Proof. intros Hq Hr He. split; [done|]. exact (post_discard p env s h r Hq Hr He). Qed.

Lemma wp_submit {A} ub p env s h r (c : codec A) v e :
  quiet p = true → Env_wf env → maps_wf s →
  rb_reserve (EVENTS s) (probe_size p) = Some (h, r) →
  probe_event p env s = Some e → put c v = raw_put e →
  wp ub (write_submit c h v;; mret 0) (post p env s) (set_EVENTS r s).
Proof.
  intros Hq Hw Hm Hr Hp He. split; [done|]. rewrite He.
  exact (post_submit p env s h r e Hq Hw Hm Hr Hp).
Qed.

Lemma wp_filtered ub p env s h r owner hd m :
  quiet p = true → rb_reserve (EVENTS s) (probe_size p) = Some (h, r) →
  (dropped s owner hd = true → probe_event p env s = None) →
  (dropped s owner hd = false → wp ub m (post p env s) (set_EVENTS r s)) →
  wp ub (drop ← filter_events owner hd; if (drop : bool) then discard h else m)
     (post p env s) (set_EVENTS r s).
Proof.
  intros Hq Hr Hd Hm. apply wp_bind, wp_filter.
  change (dropped (set_EVENTS r s) owner hd) with (dropped s owner hd).
  destruct (dropped s owner hd) eqn:E; [|by apply Hm].
  by apply wp_discard; [..|apply Hd].
Qed.

Lemma wp_emit_v4 ub p env s sock rv proto rp ty :
  quiet p = true → Env_wf env → maps_wf s → probe_size p = size_of PendingConnect_codec →
  RawProtocol_try_from proto = Ok rp →
  probe_event p env s = v4_event env s sock rv rp ty →
  wp ub (emit_v4 env sock rv proto ty) (post p env s) s.
Proof.
  intros Hq Hw Hm Hs Hp He. unfold emit_v4. rewrite <- Hs. apply wp_entry; [done|].
  intros h r Hr. apply wp_filtered; [done..| |]; intros Hd.
  - rewrite He. unfold v4_event. by rewrite Hd.
  - unfold lift_unwrap. rewrite Hp. apply wp_bind, wp_ret.
    eapply (wp_submit _ p); [done..| |].
    + rewrite He. unfold v4_event. by rewrite Hd.
    + done.
Qed.

Lemma wp_emit_v6 ub p env s sock rv proto rp ty :
  quiet p = true → Env_wf env → maps_wf s → probe_size p = size_of PendingConnect_codec →
  RawProtocol_try_from proto = Ok rp →
  probe_event p env s = v6_event env s sock rv rp ty →
  wp ub (emit_v6 env sock rv proto ty) (post p env s) s.
Proof.
  intros Hq Hw Hm Hs Hp He. unfold emit_v6. rewrite <- Hs. apply wp_entry; [done|].
  intros h r Hr. unfold v6_event in He. apply wp_filtered; [done..| |]; intros Hd.
  - rewrite He. by rewrite Hd.
  - rewrite Hd in He. cbn [unless] in He.
    destruct (skc_v6_daddr env sock); cbn [read_v6_addr mbind option_bind] in *; [|by apply wp_discard].
    destruct (skc_v6_rcv_saddr env sock); cbn [read_v6_addr mbind option_bind] in *; [|by apply wp_discard].
    unfold lift_unwrap. rewrite Hp. apply wp_bind, wp_ret.
    by eapply (wp_submit _ p); [done..|exact He|].
Qed.

Lemma wp_seq0 ub p env s m :
  wp ub m (post p env s) s → wp ub (m;; mret 0) (post p env s) s.
Proof. intros Hm. apply wp_bind. eapply wp_mono; [|exact Hm]. by intros v s' []. Qed.

Lemma wp_nothing ub p env s :
  quiet p = true → probe_event p env s = None → wp ub (mret 0) (post p env s) s.
Proof. intros ??. split; [done|]. by apply post_none. Qed.

Lemma wp_emit_family ub p env s sock rv proto rp ty :
  quiet p = true → Env_wf env → maps_wf s → probe_size p = size_of PendingConnect_codec →
  RawProtocol_try_from proto = Ok rp →
  probe_event p env s = family_event env s sock rv rp ty →
  wp ub (emit_family env sock rv proto ty) (post p env s) s.
Proof.
  intros Hq Hw Hm Hs Hp He. unfold emit_family. unfold family_event in He.
  destruct (skc_family env sock); cbn [mbind option_bind] in *; [|by apply wp_nothing].
  case_match; [by apply wp_seq0; eapply wp_emit_v4|].
  case_match; [by apply wp_seq0; eapply wp_emit_v6|]. by apply wp_nothing.
Qed.

Lemma wp_network p env s :
  Env_wf env → maps_wf s → probe_owner p = Some FilterOwner_Network →
  wp (null_deref p env) (probe_code p env) (post p env s) s.
Proof.
  intros Hw Hm Hp. destruct p; try discriminate; apply wp_catch; cbn [probe_code].
  1: unfold try_tcp_v4_connect. 2: unfold try_tcp_v6_connect.
  3: unfold try_inet_csk_accept_impl; destruct (ctx_ret env) eqn:Hret.
  5: by eapply wp_emit_family.
  5: unfold try_udp_connect. 6: unfold try_udpv6_connect. 7: unfold try_udp_destroy_sock.
  8: unfold try_inet_bind. 9: unfold try_inet_listen.
  8-9: apply wp_bind, wp_load; [done|]; intros Hnz.
  4: apply wp_nothing; [done|]; simpl; by rewrite Hret.
  all: match goal with
       | |- context [if (?a =? 0) || (?b =? 0) then _ else _] =>
           rewrite (proj2 (Z.eqb_neq b 0) Hnz), orb_false_r
       | _ => idtac
       end.
  all: match goal with |- wp _ (if ?b then _ else _) _ _ => destruct b eqn:Hz end;
    [apply wp_nothing; [done|]; simpl; by rewrite ?Hret; simpl; rewrite Hz |].
  all: try apply wp_seq0.
  all: first [eapply wp_emit_v4 | eapply wp_emit_v6 | eapply wp_emit_family]; try done;
       simpl; rewrite ?Hret; simpl; by rewrite Hz.
Qed.

Ltac submit Hd := eapply wp_submit; [done|done|done|done|by event_is Hd|done].
Ltac filtered Hd := apply wp_filtered; [done|done|intros Hd; by event_is Hd|intros Hd].

Lemma wp_process p env s :
  Env_wf env → maps_wf s → probe_owner p = Some FilterOwner_Process →
  wp (null_deref p env) (probe_code p env) (post p env s) s.
Proof.
  intros Hw Hm Hp. destruct p; try discriminate; apply wp_catch; cbn [probe_code].
  1: unfold try_sched_process_exec; apply (wp_entry _ P_sched_process_exec); [done|].
  2: unfold try_sched_process_fork; apply (wp_entry _ P_sched_process_fork); [done|].
  3: unfold try_do_group_exit; apply (wp_entry _ P_do_group_exit); [done|].
  all: intros h r Hr; filtered Hd.
  - destruct (read_at_u32 env 8) eqn:E; [|by apply wp_discard; event_is Hd].
    submit Hd.
  - destruct (read_at_u32 env 16) eqn:E; [|by apply wp_discard; event_is Hd].
    destruct (read_at_u32 env 20) eqn:E2; [|by apply wp_discard; event_is Hd].
    submit Hd.
  - submit Hd.
Qed.

Lemma wp_memory p env s :
  Env_wf env → maps_wf s → p = P_vm_mmap_pgoff ∨ p = P_vm_munmap ∨ p = P_vfs_rename_retval →
  wp (null_deref p env) (probe_code p env) (post p env s) s.
Proof.
  intros Hw Hm [->|[->| ->]]; apply wp_catch; cbn [probe_code].
  - unfold try_vm_mmap_pgoff. apply (wp_entry _ P_vm_mmap_pgoff); [done|].
    intros h r Hr. filtered Hd. submit Hd.
  - unfold try_vm_munmap. apply (wp_entry _ P_vm_munmap); [done|].
    intros h r Hr. submit Hr.
  - unfold try_vfs_rename_retval. apply (wp_entry _ P_vfs_rename_retval); [done|].
    intros h r Hr. submit Hr.
Qed.

(** Step through the tests, loads and map reads of a file program. *)
Ltac file_step :=
  cbv zeta;
  match goal with
  | |- wp _ (if negb (true, _).1 then _ else _) _ _ => cbn [negb fst snd]
  | |- wp _ (if negb (false, _).1 then _ else _) _ _ => cbn [negb fst snd]
  | |- wp _ (if ?x =? 0 then _ else _) _ _ => destruct (Z.eqb_spec x 0)
  | |- wp _ (capture_file _ _ ≫= _) _ _ =>
      apply wp_bind, wp_capture_file; [by null | intros ? ? ? ? | intros ? ?]
  | |- wp _ (capture_inode _ _ ≫= _) _ _ =>
      apply wp_bind, wp_capture_inode; [by null | intros ? ? ? | intros ? ?]
  | |- wp _ (load _ _ ≫= _) _ _ => apply wp_bind, wp_load; [by null | intros ?]
  | |- wp _ (file_path_get ?f ≫= _) _ _ =>
      apply wp_bind; apply wp_file_path; [intros ? ? | intros ?]
  end.
Ltac known_maps r :=
  repeat match goal with
  | E : context [FILE_PATH_MAP (set_EVENTS r ?s)] |- _ =>
      change (FILE_PATH_MAP (set_EVENTS r s)) with (FILE_PATH_MAP s) in E
  | E : selected_type (set_EVENTS r ?s) ?m = _ |- _ =>
      change (selected_type (set_EVENTS r s) m) with (selected_type s m) in E
  end.
Ltac file_end Hd r :=
  known_maps r;
  match goal with
  | |- wp _ (discard _) _ _ => apply wp_discard; [done|done|by file_is Hd]
  | |- wp _ _ _ _ => eapply wp_submit; [done|done|done|done|by file_is Hd|done]
  end.

Lemma wp_vfs_read env s :
  Env_wf env → maps_wf s →
  wp (null_deref P_vfs_read env) (probe_code P_vfs_read env) (post P_vfs_read env s) s.
Proof.
  intros Hw Hm. apply wp_catch. unfold try_vfs_read. apply (wp_entry _ P_vfs_read); [done|].
  intros h r Hr. filtered Hd. repeat file_step; file_end Hd r.
Qed.

Lemma wp_vfs_write env s :
  Env_wf env → maps_wf s →
  wp (null_deref P_vfs_write env) (probe_code P_vfs_write env) (post P_vfs_write env s) s.
Proof.
  intros Hw Hm. apply wp_catch. unfold try_vfs_write. apply (wp_entry _ P_vfs_write); [done|].
  intros h r Hr. filtered Hd. repeat file_step; file_end Hd r.
Qed.

Lemma wp_vfs_open env s :
  Env_wf env → maps_wf s →
  wp (null_deref P_vfs_open env) (probe_code P_vfs_open env) (post P_vfs_open env s) s.
Proof.
  intros Hw Hm. apply wp_catch. unfold try_vfs_open. apply (wp_entry _ P_vfs_open); [done|].
  intros h r Hr. filtered Hd. repeat file_step; file_end Hd r.
Qed.

Lemma wp_filp_close env s :
  Env_wf env → maps_wf s →
  wp (null_deref P_filp_close env) (probe_code P_filp_close env) (post P_filp_close env s) s.
Proof.
  intros Hw Hm. apply wp_catch. unfold try_flip_close. apply (wp_entry _ P_filp_close); [done|].
  intros h r Hr. filtered Hd. repeat file_step; file_end Hd r.
Qed.

Lemma wp_vfs_unlink env s :
  Env_wf env → maps_wf s →
  wp (null_deref P_vfs_unlink env) (probe_code P_vfs_unlink env) (post P_vfs_unlink env s) s.
Proof.
  intros Hw Hm. apply wp_catch. unfold try_vfs_unlink. apply (wp_entry _ P_vfs_unlink); [done|].
  intros h r Hr. filtered Hd. repeat file_step; file_end Hd r.
Qed.

Lemma wp_file_open env s :
  wp False (probe_code P_file_open env) (post P_file_open env s) s.
Proof.
  apply wp_catch. unfold try_file_open.
  assert (Hsub : submitted P_file_open env s = []) by (unfold submitted; by case_match).
  unfold post, kernel_post. rewrite Hsub, app_nil_r.
  unfold paths_after, path_buf_after, path_lookup, temp_after, d_path_result.
  destruct (arg_ptr env 0 =? 0); [done|]. simpl.
  destruct (percpu_lookup env); [|done]. unfold wp; simpl.
  destruct (bpf_d_path env _ _) as [ret buf] eqn:Hd; simpl.
  rewrite Z.leb_antisym. destruct (ret <? 0); simpl; [done|]. rewrite fn_lookup_insert.
  by destruct (bm_insert _ _ _).
Qed.

Lemma wp_fput env s : wp False (probe_code P_fput env) (post P_fput env s) s.
Proof.
  apply wp_catch. split; [done|]. split; [|done].
  unfold submitted. simpl. case_match; by rewrite app_nil_r.
Qed.

(** A rename program that gives up leaves everything as it is. *)
Lemma post_rename_none env s : rename_event env s = None → kernel_post P_vfs_rename env s s.
Proof.
  intros He. split; [|by unfold temp_after; rewrite He].
  unfold submitted. simpl. rewrite He. case_match; by rewrite app_nil_r.
Qed.

Lemma wp_vfs_rename env s :
  Env_wf env → maps_wf s →
  wp (null_deref P_vfs_rename env) (probe_code P_vfs_rename env) (post P_vfs_rename env s) s.
Proof.
  intros Hw Hm. apply wp_catch. unfold try_vfs_rename. apply wp_bind, wp_filter.
  destruct (dropped s FilterOwner_File _) eqn:Hd.
  { split; [done|]. apply post_rename_none. unfold rename_event. by rewrite Hd. }
  repeat file_step.
  2: { split; [done|]. apply post_rename_none. unfold rename_event. by file_is Hd. }
  destruct (percpu_lookup env) eqn:Hp.
  2: { split; [done|]. apply post_rename_none. unfold rename_event. by file_is Hd. }
  apply wp_bind. unfold wp at 1. cbn [update_temp snd fst].
  evar (e : RawFileRenameEvent).
  assert (He : rename_event env s = Some e) by (unfold rename_event; subst e; by file_is Hd).
  match type of He with _ = ?x => idtac end. subst e.
  destruct (rename_event_wf env s _ Hw Hm He) as ([Hwf _] & _).
  apply wp_bind, wp_reserve; cbn [EVENTS set_TEMP]; [intros Hr|intros h r Hr]; (split; [done|]);
    unfold kernel_post, submitted, temp_after; cbn [probe_size probe_event]; rewrite Hr, He.
  - by rewrite app_nil_r.
  - split; [|done]. apply (rb_submit_items _ _ _ _ _ Hr).
    by apply (length_put (c := RawFileRenameEvent_codec)).
Qed.

(** Every run of a program on well-formed maps returns 0 and does what
    [kernel_post] says, unless it dereferences a null pointer. *)
Lemma run_probe_wp p env s :
  Env_wf env → maps_wf s → wp (null_deref p env) (probe_code p env) (post p env s) s.
Proof.
  intros Hw Hm. destruct (probe_owner p) as [[]|] eqn:Ho.
  - apply wp_memory; [done..|]. destruct p; try discriminate; auto.
  - by apply wp_process.
  - by apply wp_network.
  - destruct p; try discriminate; [by apply wp_vfs_open|by apply wp_filp_close|by apply wp_vfs_read
      |by apply wp_vfs_write|by apply wp_vfs_unlink|by apply wp_vfs_rename].
  - destruct p; try discriminate;
      [apply wp_file_open|apply wp_fput|apply wp_memory; auto|apply wp_memory; auto].
Qed.

(** The same of [run_probe]. *)
Lemma run_probe_cases p env s :
  Env_wf env → maps_wf s →
  (∃ s', run_probe p env s = (Ok 0, s') ∧ kernel_post p env s s') ∨
  ((run_probe p env s).1 = UB ∧ null_deref p env).
Proof.
  intros Hw Hm. pose proof (run_probe_wp p env s Hw Hm) as Hp. unfold wp in Hp. unfold run_probe.
  destruct (run_code _ _) as [[v| | |] s']; [|done|done|by right].
  destruct Hp as [-> Hp]. left. by exists s'.
Qed.
End proofs.
