(* ===== verification/KernelInv.v ===== *)
(** * Runs of the programs

    What a run on its own does to well-formed maps, what the record it owes
    says about the filter maps ([probe_event_filter], [probe_event_mode]) and the
    path map, and sequences of runs; then a concrete kernel. *)

From S2P Require Import Prelude Raw Layout Events Interfaces Ebpf KernelSpec KernelProofs.

Lemma type_bit_land c b : b ∈ type_bits → Z.land c b ≠ 0 → b ≠ 0 ∧ Z.land c b = b.
Proof.
  intros Hb Hz. assert (b ≠ 0) by (intros ->; by rewrite Z.land_0_r in Hz). split; [done|].
  assert (∃ k, 0 ≤ k ∧ b = 2 ^ k) as (k & Hk & ->).
  { unfold type_bits in Hb. rewrite !elem_of_cons, elem_of_nil in Hb. destruct_or? Hb; try done;
      [exists 0|exists 1|exists 2|exists 3|exists 4|exists 5|exists 6]; by subst. }
  rewrite land_pow2 in * by done. by destruct (Z.testbit c k).
Qed.

(** The programs never assign the [flags] of a rename. *)
Definition flags_zero (e : RawEvent) : Prop := ∀ r, e = RawRename r → rn_flags r = 0.

Section runs.
Context {R H : Type} {M : Type → Type}.
Context `{RingBufLaws R H, BpfMapLaws M}.
Implicit Types s : KState R M.

(** The maps when the object is loaded: arrays are zeroed, hash maps empty. *)
Definition kinit s : Prop :=
  rb_slots (EVENTS s) = [] ∧
  (∀ k, bm_get (CONFIG s) k = None) ∧ (∀ k, bm_get (FILTER s) k = None) ∧
  (∀ k, bm_get (FILE_PATH_MAP s) k = None) ∧
  (∀ c, PATH_BUF s c = replicate 256 x00) ∧
  (∀ c, rn_old_filename (TEMP s c) = replicate 256 x00 ∧
        rn_new_filename (TEMP s c) = replicate 256 x00 ∧ rn_flags (TEMP s c) = 0).

(** A run that returned, of any program, on its own. *)
Lemma run_probe_post p env v s s' :
  Env_wf env → maps_wf s → run_probe p env s = (Ok v, s') → v = 0 ∧ kernel_post p env s s'.
Proof.
  intros Hw Hm Hr. destruct (run_probe_cases p env s Hw Hm) as [(s1 & Hr' & Hp)|[Hu _]].
  - rewrite Hr in Hr'. by injection Hr' as -> ->.
  - by rewrite Hr in Hu.
Qed.

Lemma kinit_maps_wf s : kinit s → maps_wf s.
Proof.
  intros (_ & _ & _ & Hf & Hb & Ht). split_and!.
  - intros k p. by rewrite Hf.
  - intros c. by rewrite Hb, length_replicate.
  - intros c. destruct (Ht c) as (-> & -> & ->). by rewrite length_replicate.
Qed.

Lemma kernel_post_maps_wf p env s s' :
  Env_wf env → maps_wf s → kernel_post p env s s' → maps_wf s'.
Proof.
  intros Hw Hm (_ & _ & _ & Ht & Hf & Hb). pose proof Hm as (Hmf & Hmb & Hmt).
  unfold maps_wf. rewrite Ht, Hf, Hb. split_and!.
  - intros k q. unfold paths_after.
    assert (Hnew : bm_get (default (FILE_PATH_MAP s)
        (bm_insert (FILE_PATH_MAP s) (arg_ptr env 0) {| filepath := (d_path_result env s).2 |})) k
      = Some q → length (filepath q) = 256%nat).
    { destruct (bm_insert _ _ _) as [m|] eqn:Hi; simpl; [|by apply Hmf].
      rewrite (bm_get_insert _ _ _ _ _ k Hi). case_decide; [|by apply Hmf].
      intros [= <-]. unfold d_path_result. simpl. by rewrite wf_d_path. }
    destruct p; simpl; try apply Hmf.
    + case_match; [exact Hnew | by apply Hmf].
    + rewrite bm_get_remove. case_decide; [done|by apply Hmf].
  - intros c. unfold path_buf_after. case_match; [|by apply Hmb].
    destruct (decide (c = processor env)) as [->|].
    + rewrite fn_lookup_insert. unfold d_path_result. by rewrite wf_d_path.
    + by rewrite fn_lookup_insert_ne.
  - intros c. unfold temp_after. destruct p; try apply Hmt.
    destruct (rename_event env s) as [e|] eqn:He; [|by apply Hmt].
    apply rename_event_wf in He as (_ & ? & ? & ?); [|done..].
    destruct (decide (c = processor env)) as [->|].
    + by rewrite fn_lookup_insert.
    + by rewrite fn_lookup_insert_ne.
Qed.

(** The records a run adds. *)
Lemma probe_event_flags p env s e :
  Env_wf env → maps_wf s → probe_event p env s = Some e → flags_zero e.
Proof.
  intros Hw Hm He r ->. pose proof (probe_event_struct _ _ _ _ He) as Hs. destruct p; try done.
  simpl in He. destruct (rename_event env s) eqn:Hr; [|done]. simplify_eq/=.
  by apply rename_event_wf in Hr as (_ & ? & _).
Qed.

Lemma submitted_records p env s x :
  Env_wf env → maps_wf s → x ∈ submitted p env s →
  ∃ e, probe_event p env s = Some e ∧ x = raw_put e ∧ raw_ok e.
Proof.
  intros Hw Hm. unfold submitted. case_match; [|by intros ?%not_elem_of_nil].
  destruct (probe_event p env s) as [e|] eqn:He; simpl; [|by intros ?%not_elem_of_nil].
  intros ->%list_elem_of_singleton. exists e. split_and!; try done. by eapply probe_event_ok.
Qed.

(** *** Headers of the records a program owes *)

Lemma unless_bind_Some {A B} b (o : option A) (f : A → option B) r :
  unless b o ≫= f = Some r → b = false ∧ o ≫= f = Some r.
Proof. by destruct b. Qed.

Lemma probe_event_filter p env s e owner :
  probe_event p env s = Some e → probe_owner p = Some owner →
  dropped s owner (raw_header e) = false.
Proof.
  destruct p; intros He Ho; simplify_eq/=;
    unfold family_event, v4_event, v6_event in He;
    repeat match goal with
    | He : unless _ _ = Some _ |- _ => apply unless_Some in He as [? He]
    | He : ?o ≫= _ = Some _ |- _ => destruct o eqn:?; simpl in He; [|done]
    | He : (if ?b then _ else _) = Some _ |- _ => destruct b
    end; simplify_eq/=; try done.
  all: destruct (rename_event env s) as [e'|] eqn:Hr; simplify_eq/=;
    unfold rename_event in Hr; apply unless_Some in Hr as [Hd Hr];
    destruct (selected_type _ _); simpl in Hr; [|done]; apply unless_Some in Hr as [_ Hr];
    by simplify_eq/=.
Qed.

(** Type bit of a file record. *)
Definition raw_file_mode (e : RawEvent) : option FileModeFilter :=
  match e with
  | RawOpen e => Some (ro_file_mode e)
  | RawClose e => Some (rc_file_mode e)
  | RawRead e => Some (rr_file_mode e)
  | RawWrite e => Some (rw_file_mode e)
  | RawDelete e => Some (rd_file_mode e)
  | RawRename e => Some (rn_file_mode e)
  | _ => None
  end.

Lemma selected_type_config s m ty :
  selected_type s m = Some ty →
  ∃ config, bm_get (CONFIG s) 0 = Some config ∧ Z.land (mode config) (mode ty) ≠ 0 ∧
            mode ty ∈ type_bits.
Proof.
  unfold selected_type. destruct (bm_get _ _) as [c|]; [|done]. simpl.
  intros [Hz [= <-]]%unless_Some. exists c. split_and!; [done| |apply file_type_bit_cases].
  by apply Z.eqb_neq.
Qed.

Lemma probe_event_mode p env s e ty :
  probe_event p env s = Some e → raw_file_mode e = Some ty →
  ∃ m, selected_type s m = Some ty.
Proof.
  intros He Ht. pose proof (probe_event_struct _ _ _ _ He) as Hs.
  destruct p, e; try done; simpl in He; unfold file_info, rename_event in He;
    repeat match goal with
    | He : unless _ _ = Some _ |- _ => apply unless_Some in He as [? He]
    | He : unless _ _ ≫= _ = Some _ |- _ => apply unless_bind_Some in He as [? He]
    | He : ?o ≫= _ = Some _ |- _ => destruct o eqn:?; simpl in He; [|done]
    | He : RawRename <$> _ = Some _ |- _ => apply fmap_Some in He as (? & He & ?)
    end; simplify_eq/=; simplify_option_eq; eauto.
Qed.

(** A run of [p] returns and adds the record of [e] to the ring buffer. *)
Definition adds_record p env s e : Prop :=
  Env_wf env ∧ maps_wf s ∧ raw_ok e ∧
  ∃ v s' xs, run_probe p env s = (Ok v, s') ∧
             rb_items (EVENTS s') = rb_items (EVENTS s) ++ xs ∧ raw_put e ∈ xs.

Lemma adds_record_event p env s e : adds_record p env s e → probe_event p env s = Some e.
Proof.
  intros (Hw & Hm & Hok & v & s' & xs & Hr & Hxs & Hx).
  apply run_probe_post in Hr as (_ & Hi & _); [|done..].
  rewrite Hi in Hxs. apply (inj _) in Hxs as <-.
  apply submitted_records in Hx as (e' & He & Heq & Hok'); [|done..].
  by apply raw_put_inj in Heq as <-.
Qed.

(** *** Sequences of runs and the path map *)

Fixpoint runs (tr : list (Probe * Env)) s : option (KState R M) :=
  match tr with
  | [] => Some s
  | (p, env) :: tr =>
      match run_probe p env s with
      | (Ok _, s') => runs tr s'
      | _ => None
      end
  end.

(** A run that does not open or release [file]. *)
Definition keeps_file (file : Z) (r : Probe * Env) : Prop :=
  Env_wf r.2 ∧ ¬ ((r.1 = P_file_open ∨ r.1 = P_fput) ∧ arg_ptr r.2 0%nat = file).

(** A run that does not open [file]. *)
Definition not_opening (file : Z) (r : Probe * Env) : Prop :=
  Env_wf r.2 ∧ ¬ (r.1 = P_file_open ∧ arg_ptr r.2 0%nat = file).

Lemma paths_after_frame p env s file :
  ¬ ((p = P_file_open ∨ p = P_fput) ∧ arg_ptr env 0 = file) →
  bm_get (paths_after p env s) file = bm_get (FILE_PATH_MAP s) file.
Proof.
  intros Hk. unfold paths_after, path_lookup. destruct p; simpl; try done.
  - case_match; [|done]. destruct (bm_insert _ _ _) as [m|] eqn:Hi; simpl; [|done].
    rewrite (bm_get_insert _ _ _ _ _ file Hi), decide_False; naive_solver.
  - rewrite bm_get_remove, decide_False; naive_solver.
Qed.

Lemma paths_after_none p env s file :
  ¬ (p = P_file_open ∧ arg_ptr env 0 = file) →
  bm_get (FILE_PATH_MAP s) file = None →
  bm_get (paths_after p env s) file = None.
Proof.
  intros Hk Hn. destruct (decide (arg_ptr env 0 = file)) as [<-|].
  - destruct p; simpl; try done.
    + by destruct Hk.
    + by rewrite bm_get_remove, decide_True.
  - rewrite paths_after_frame; naive_solver.
Qed.

Lemma runs_path tr s s' file o :
  maps_wf s → Forall (keeps_file file) tr → bm_get (FILE_PATH_MAP s) file = o →
  runs tr s = Some s' → maps_wf s' ∧ bm_get (FILE_PATH_MAP s') file = o.
Proof.
  revert s. induction tr as [|[p env] tr IH]; simpl; intros s Hm Hk Ho Hr; simplify_eq; [done|].
  inversion Hk as [|?? [Hw Hn] Hks]; subst. simpl in *.
  destruct (run_probe p env s) as [[v|?| |] s1] eqn:Hp; try done.
  apply run_probe_post in Hp as (_ & Hp); [|done..].
  eapply IH; [by eapply kernel_post_maps_wf|done| |done].
  destruct Hp as (_ & _ & _ & _ & -> & _). by apply paths_after_frame.
Qed.

Lemma runs_no_path tr s s' file :
  maps_wf s → Forall (not_opening file) tr → bm_get (FILE_PATH_MAP s) file = None →
  runs tr s = Some s' → maps_wf s' ∧ bm_get (FILE_PATH_MAP s') file = None.
Proof.
  revert s. induction tr as [|[p env] tr IH]; simpl; intros s Hm Hk Ho Hr; simplify_eq; [done|].
  inversion Hk as [|?? [Hw Hn] Hks]; subst. simpl in *.
  destruct (run_probe p env s) as [[v|?| |] s1] eqn:Hp; try done.
  apply run_probe_post in Hp as (_ & Hp); [|done..].
  eapply IH; [by eapply kernel_post_maps_wf|done| |done].
  destruct Hp as (_ & _ & _ & _ & -> & _). by apply paths_after_none.
Qed.

(** The file a record is about, for the four programs that report a path. *)
Definition reported_file (p : Probe) (env : Env) : option Z :=
  match p with
  | P_vfs_open => Some (arg_ptr env 1)
  | P_filp_close | P_vfs_read | P_vfs_write => Some (arg_ptr env 0)
  | _ => None
  end.

Definition raw_file_path (e : RawEvent) : option (list byte) :=
  match e with
  | RawOpen e => Some (ro_file_path e)
  | RawClose e => Some (rc_file_path e)
  | RawRead e => Some (rr_file_path e)
  | RawWrite e => Some (rw_file_path e)
  | _ => None
  end.

Lemma probe_event_path p env s e file :
  reported_file p env = Some file → probe_event p env s = Some e →
  ∃ path, bm_get (FILE_PATH_MAP s) file = Some path ∧ raw_file_path e = Some (filepath path).
Proof.
  destruct p; intros Hf He; simplify_eq/=; unfold file_info in He;
    repeat match goal with
    | He : unless _ _ = Some _ |- _ => apply unless_Some in He as [? He]
    end; simplify_option_eq; eauto.
Qed.

End runs.

(** ** Concrete runs *)

(** A kernel whose helpers and fields return fixed values. *)
Definition sample_env (pid tid : Z) (args : list Z) (imode : Z) (path : list byte) : Env := {|
  bpf_get_current_pid_tgid := u_wrap 64 (Z.shiftl pid 32 + tid);
  bpf_ktime_get_ns := 1000; bpf_get_current_uid_gid := 0; bpf_get_current_task_btf := 1;
  bpf_get_current_comm := None; processor := 0; percpu_lookup := true;
  real_parent _ := None; task_tgid _ := None;
  skc_daddr _ := Some 0x0100007f; skc_rcv_saddr _ := Some 0x0200007f;
  skc_dport _ := Some 0x5000; skc_num _ := Some 4660; skc_family _ := Some AF_INET;
  skc_v6_daddr _ := None; skc_v6_rcv_saddr _ := None;
  socket_sk p := p; f_flags _ := 0; f_inode p := p + 1; f_path p := p; i_mode _ := imode;
  i_ino p := u_wrap 64 p; d_inode p := p; d_name p := p; old_dentry p := p; new_dentry p := p;
  bpf_d_path p buf := (0, take (length buf) (path ++ buf));
  bpf_probe_read_kernel_str buf p := buf;
  arg_ptr n := nth n args 0;
  arg_i32 n := s_wrap 32 (nth n args 0);
  arg_u32 n := u_wrap 32 (nth n args 0);
  arg_u64 n := u_wrap 64 (nth n args 0);
  arg_isize n := s_wrap 64 (nth n args 0);
  ctx_ret := None; ctx_ptr := 0; read_at_u32 _ := None |}.

Lemma sample_env_wf pid tid args imode path : Env_wf (sample_env pid tid args imode path).
Proof.
  split; simpl; try done; intros; simplify_eq/=;
    try (first [apply u_wrap_range | apply s_wrap_range]; lia); try (vm_compute; done).
  rewrite length_take, length_app. lia.
Qed.

Definition zero_header : RawEventHeader := {|
  rh_event_type := EventType_Connect; rh_timestamp_ns := 0; rh_pid := 0; rh_tid := 0;
  rh_ppid := 0; rh_uid := 0; rh_gid := 0; rh_comm := replicate TASK_COMM_LEN x00 |}.

Definition sample_state (filter : list (FilterOwner * FilterKey)) (config : option Z)
    : KState list_ring fin_bpf_map := {|
  EVENTS := ListRing 4096 [] [];
  CONFIG := FinBpfMap 1 (match config with
                         | Some m => {[0 := {| mode := m |}]} | None => ∅ end);
  TEMP _ := {| rn_header := zero_header; rn_old_filename := replicate 256 x00;
               rn_new_filename := replicate 256 x00; rn_file_mode := {| mode := 0 |};
               rn_flags := 0 |};
  FILTER := FinBpfMap 4 (list_to_map (map (fun p => (FilterOwner_repr p.1, p.2)) filter));
  FILE_PATH_MAP := FinBpfMap 64 ∅;
  PATH_BUF _ := replicate 256 x00 |}.

Lemma sample_state_maps_wf filter config : maps_wf (sample_state filter config).
Proof. by split_and!. Qed.

(** A computed run adds its record. *)
Lemma adds_record_compute p pid tid args imode path (s : KState list_ring fin_bpf_map) e :
  let env := sample_env pid tid args imode path in
  maps_wf s → probe_event p env s = Some e →
  (run_probe p env s).1 = Ok 0 →
  rb_items (EVENTS (run_probe p env s).2) = rb_items (EVENTS s) ++ [raw_put e] →
  adds_record p env s e.
Proof.
  intros env Hm He Hr Hi. pose proof (sample_env_wf pid tid args imode path : Env_wf env) as Hw.
  split_and!; [done|done|by eapply probe_event_ok|]. exists 0, (run_probe p env s).2, [raw_put e].
  split_and!; [|done|by apply list_elem_of_singleton]. rewrite <- Hr. apply surjective_pairing.
Qed.

Lemma sample_state_kinit : kinit (sample_state [] None).
Proof. by split_and!. Qed.
