(* ===== verification/Machine.v ===== *)
(** * Programs on several processors

    The programs of [Ebpf.v] share their maps with those that run on other
    processors, and one can interrupt another.  A [Machine] is the maps with the
    programs that run at the moment; a step starts a program, lets one do its
    next operation on a map, or ends one.

    An entry of FILE_PATH_MAP is read through a reference after it was looked up,
    without a lock: meanwhile another program can overwrite it, or remove it, and
    the element can be used again for another file; and the buffer of a processor
    is read after the helper filled it, where [file_open] can have been entered
    again.  So the bytes of either may be any bytes ([torn]).  The kernel keeps
    the tracing programs, the kprobe and the tracepoints, not the LSM program,
    from being entered again on a processor where they run. *)

From stdpp Require Import relations.
From S2P Require Import Prelude Raw Layout Events Interfaces Ebpf KernelSpec KernelProofs KernelInv.

(** ** The machine *)

Record Thread (H : Type) := mkThread {
  th_probe : Probe;
  th_env : Env;
  th_code : K H Z;
}.
#[global] Arguments mkThread {H}.
#[global] Arguments th_probe {H}.
#[global] Arguments th_env {H}.
#[global] Arguments th_code {H}.

Definition resume {H} (th : Thread H) (m : K H Z) : Thread H :=
  mkThread (th_probe th) (th_env th) m.

(** [p] runs on the processor of [env]. *)
Definition entered {H} (p : Probe) (env : Env) (ts : list (Thread H)) : Prop :=
  ∃ th, th ∈ ts ∧ th_probe th = p ∧ processor (th_env th) = processor env.

(** The kernel may enter [p] there. *)
Definition may_enter {H} (p : Probe) (env : Env) (ts : list (Thread H)) : Prop :=
  p = P_file_open ∨ ¬ entered p env ts.

Record Machine (R H : Type) (M : Type → Type) := mkMachine {
  kernel : KState R M;
  threads : list (Thread H);
}.
#[global] Arguments mkMachine {R H M}.
#[global] Arguments kernel {R H M}.
#[global] Arguments threads {R H M}.

Definition with_kernel {R H M} (k : KState R M) (m : Machine R H M) : Machine R H M :=
  mkMachine k (threads m).

(** What a program may find when others wrote to what it reads. *)
Definition torn {H} (o : kop H) : kres o → Prop :=
  match o return kres o → Prop with
  | OpPathCopy _ => fun q => length (filepath q) = 256%nat
  | OpPathBufRead _ => fun b => length b = 256%nat
  | _ => fun _ => False
  end.

Section machine.
Context {R H : Type} {M : Type → Type}.
Context `{!RingBufOps R H, !BpfMapOps M}.
Implicit Types k v : KState R M.
Implicit Types m : Machine R H M.

(** An operation among those of other programs. *)
Definition acts (o : kop H) k (x : kres o) k' : Prop :=
  kact o k = (x, k') ∨ (torn o x ∧ k' = k).

(** The programs that may start. *)
Variable starts : Probe → Env → Prop.

Inductive mstep : Machine R H M → Machine R H M → Prop :=
| MStart p env k ts :
    starts p env → Env_wf env → may_enter p env ts →
    mstep (mkMachine k ts) (mkMachine k (ts ++ [mkThread p env (probe_code p env)]))
| MAct k ts1 th ts2 o c x k' :
    th_code th = Act o c → acts o k x k' →
    mstep (mkMachine k (ts1 ++ th :: ts2)) (mkMachine k' (ts1 ++ resume th (c x) :: ts2))
| MEnd k ts1 th ts2 r :
    th_code th = Done (Ok r) →
    mstep (mkMachine k (ts1 ++ th :: ts2)) (mkMachine k (ts1 ++ ts2)).

(** The same as a function: program [i] of the list goes on. *)
Definition advance (i : nat) m : option (Machine R H M) :=
  th ← threads m !! i;
  match th_code th with
  | Act o c =>
      let (x, k) := kact o (kernel m) in
      Some (mkMachine k (<[i := resume th (c x)]> (threads m)))
  | Done (Ok _) => Some (mkMachine (kernel m) (delete i (threads m)))
  | Done _ => None
  end.

Lemma advance_mstep i m m' : advance i m = Some m' → mstep m m'.
Proof.
  unfold advance. destruct m as [k ts]. simpl. destruct (ts !! i) as [th|] eqn:Hi; [|done]. simpl.
  pose proof (take_drop_middle _ _ _ Hi) as Hts.
  destruct (th_code th) as [[r|e| |]|o c] eqn:Hc; intros Ha; simplify_eq.
  - rewrite delete_take_drop, <- Hts at 1. by eapply MEnd.
  - destruct (kact o k) as [x k1] eqn:Hx. simplify_eq.
    rewrite insert_take_drop by by eapply lookup_lt_Some. rewrite <- Hts at 1. eapply MAct; [done|by left].
Qed.

(** A program that has the machine for itself from its start to its end. *)
Lemma code_alone p env (c : K H Z) k ts r k' :
  run_code c k = (Ok r, k') →
  rtc mstep (mkMachine k (ts ++ [mkThread p env c])) (mkMachine k' ts).
Proof.
  revert k. induction c as [o|o c IH]; intros k Hr; simpl in Hr.
  - injection Hr as -> ->. apply rtc_once.
    pose proof (MEnd k' ts (mkThread p env (Done (Ok r))) [] r eq_refl) as He.
    by rewrite app_nil_r in He.
  - destruct (kact o k) as [x k1] eqn:Hx. eapply rtc_l; [|by apply IH].
    apply (MAct k ts (mkThread p env (Act o c)) [] o c x k1); [done|by left].
Qed.

Lemma run_alone p env k ts r k' :
  starts p env → Env_wf env → ¬ entered p env ts → run_probe p env k = (Ok r, k') →
  rtc mstep (mkMachine k ts) (mkMachine k' ts).
Proof. intros Ha Hw Hn Hr. eapply rtc_l; [apply (MStart p env); [done|done|by right]|]. by eapply code_alone. Qed.
End machine.

Lemma mstep_mono {R H M} `{!RingBufOps R H, !BpfMapOps M} (A A' : Probe → Env → Prop) (m m' : Machine R H M) :
  (∀ p env, A p env → A' p env) → mstep A m m' → mstep A' m m'.
Proof. intros HA []; [apply MStart; auto|by eapply MAct|by eapply MEnd]. Qed.

Lemma mstep_filters {R H M} `{!RingBufOps R H, !BpfMapOps M} (A : Probe → Env → Prop) (m m' : Machine R H M) :
  mstep A m m' → FILTER (kernel m') = FILTER (kernel m) ∧ CONFIG (kernel m') = CONFIG (kernel m).
Proof.
  intros [|k ts1 th ts2 o c x k' _ [Hx|[_ ->]]|]; [done| |done|done]. simpl.
  destruct o; simpl in Hx; repeat case_match; by simplify_eq/=.
Qed.
