(* ===== verification/ProgramLogic.v ===== *)
(** * A program logic for programs that others interfere with

    [cwp J P ub hd v m Q]: what the program [m] reads is any value the maps may
    hold at that moment ([MapInv]; of the shared path buffers, any bytes), and of
    the ring buffer it only owns [hd], the entry it reserved.  Every program satisfies it ([probe_cwp]): it settles the
    entry on every path, and what it submits is the record it owes under the
    values it read. *)

From S2P Require Import Prelude Raw Layout Events Interfaces Ebpf KernelSpec KernelProofs KernelInv.

(** What FILTER and CONFIG hold, whoever writes to them. *)
Record MapInv (M : Type → Type) := filters_inv {
  inv_filter : M FilterKey → Prop;
  inv_config : M FileModeFilter → Prop;
}.
#[global] Arguments filters_inv {M}.
#[global] Arguments inv_filter {M}.
#[global] Arguments inv_config {M}.

Definition any_maps {M : Type → Type} : MapInv M := filters_inv (fun _ => True) (fun _ => True).

(** [J'] allows less in FILTER and CONFIG. *)
Definition narrows {M} (J' J : MapInv M) : Prop :=
  (∀ f, inv_filter J' f → inv_filter J f) ∧ (∀ c, inv_config J' c → inv_config J c).

Definition temp_wf (t : RawFileRenameEvent) : Prop :=
  length (rn_old_filename t) = 256%nat ∧ length (rn_new_filename t) = 256%nat ∧ rn_flags t = 0.

(** The path a program read for a file. *)
Definition seen_path (key : Z) (q : RawFilePath) : seen RawFilePath :=
  fun i => if decide (i = key) then Some q else None.

Section logic.
Context {R H : Type} {M : Type → Type}.
Context `{!RingBufOps R H, !BpfMapOps M}.
Implicit Types k : KState R M.
Implicit Types v : KState R seen.

Variable J : MapInv M.

Definition kernel_ok k : Prop := maps_wf k ∧ inv_filter J (FILTER k) ∧ inv_config J (CONFIG k).

(** What a program saw of the maps: the state [v] has for each map what the
    program found there when it looked; the maps themselves may be different by
    now. *)
Definition view_ok v : Prop :=
  maps_wf v ∧ (∃ f, inv_filter J f ∧ FILTER v = bm_get f) ∧ (∃ c, inv_config J c ∧ CONFIG v = bm_get c).

Definition view_from k : KState R seen :=
  mkKState (EVENTS k) (bm_get (CONFIG k)) (TEMP k) (bm_get (FILTER k)) (bm_get (FILE_PATH_MAP k))
    (PATH_BUF k).

(** What may be submitted, by what the program has read. *)
Variable P : KState R seen → RawEvent → Prop.

(** A program holds at most one reserved entry. *)
Abbreviation held := (option (H * nat)).

Definition op_wp (o : kop H) (hd : held) v : (kres o → held → KState R seen → Prop) → Prop :=
  match o return (kres o → held → KState R seen → Prop) → Prop with
  | OpReserve n => fun post => hd = None ∧ post None None v ∧ ∀ h, post (Some h) (Some (h, n)) v
  | OpSubmit h bs => fun post =>
      hd = Some (h, length bs) ∧ (∃ e, bs = raw_put e ∧ raw_ok e ∧ P v e) ∧ post tt None v
  | OpDiscard h => fun post => (∃ n, hd = Some (h, n)) ∧ post tt None v
  | OpFilter owner => fun post =>
      ∀ f, inv_filter J f → post (bm_get f (FilterOwner_repr owner)) hd (set_FILTER (bm_get f) v)
  | OpConfig => fun post => ∀ c, inv_config J c → post (bm_get c 0) hd (set_CONFIG (bm_get c) v)
  | OpPathGet key => fun post => ∀ found, post found hd v
  | OpPathCopy key => fun post =>
      ∀ q, length (filepath q) = 256%nat → post q hd (set_FILE_PATH_MAP (seen_path key q) v)
  | OpPathInsert key q => fun post => length (filepath q) = 256%nat ∧ ∀ b, post b hd v
  | OpPathRemove key => fun post => post tt hd v
  | OpPathBuf cpu f => fun post =>
      ∀ b, length b = 256%nat → length (f b).2 = 256%nat ∧ post (f b).1 hd v
  | OpPathBufRead cpu => fun post => ∀ b, length b = 256%nat → post b hd v
  | OpTemp cpu f => fun post =>
      ∀ t, temp_wf t → temp_wf (f t) ∧ post (f t) hd (set_TEMP (<[cpu := t]> (TEMP v)) v)
  end.

Fixpoint cwp {A} (ub : Prop) (hd : held) v (m : K H A) (Q : A → held → KState R seen → Prop) : Prop :=
  match m with
  | Done (Ok a) => Q a hd v
  | Done UB => ub
  | Done _ => False
  | Act o c => op_wp o hd v (fun x hd' v' => cwp ub hd' v' (c x) Q)
  end.
End logic.

Section rules.
Context {R H : Type} {M : Type → Type}.
Context `{RingBufLaws R H, BpfMapLaws M}.
Implicit Types k : KState R M.
Implicit Types v : KState R seen.

Lemma op_wp_mono (J J' : MapInv M) (P P' : KState R seen → RawEvent → Prop) (o : kop H) hd v post post' :
  narrows J' J → (∀ e, P v e → P' v e) →
  (∀ x hd' v', post x hd' v' → post' x hd' v') →
  op_wp J P o hd v post → op_wp J' P' o hd v post'.
Proof.
  intros (HF & HC) HP Hpost. destruct o; simpl; try naive_solver.
Qed.

Lemma narrows_refl (J : MapInv M) : narrows J J.
Proof. done. Qed.

Lemma cwp_mono {A} (J J' : MapInv M) (P P' : KState R seen → RawEvent → Prop) ub hd v (m : K H A) Q Q' :
  narrows J' J → (∀ v e, P v e → P' v e) →
  (∀ a hd' v', Q a hd' v' → Q' a hd' v') →
  cwp J P ub hd v m Q → cwp J' P' ub hd v m Q'.
Proof.
  intros HJ HP HQ. revert hd v. induction m as [[a|e| |]|o c IH]; intros hd v; simpl; auto.
  apply op_wp_mono; auto.
Qed.

Variable J : MapInv M.
#[local] Abbreviation view_ok := (view_ok J).

Lemma view_from_ok k : kernel_ok J k → view_ok (view_from k).
Proof. intros (Hw & Hf & Hc). split; [exact Hw|]. split; eauto. Qed.

Lemma seen_path_wf key q i q' : seen_path key q i = Some q' → i = key ∧ q' = q.
Proof. unfold seen_path. by case_decide; intros [= <-]. Qed.

Lemma seen_path_same key q : seen_path key q key = Some q.
Proof. unfold seen_path. by rewrite decide_True. Qed.

Lemma set_TEMP_maps_wf {M'} `{!BpfMapOps M'} (v : KState R M') cpu t :
  maps_wf v → temp_wf t → maps_wf (set_TEMP (<[cpu := t]> (TEMP v)) v).
Proof.
  intros (Hp & Hb & Ht) Ht'. split; [done|]. split; [done|]. intros i. simpl.
  destruct (decide (i = cpu)) as [->|]; [by rewrite fn_lookup_insert|by rewrite fn_lookup_insert_ne].
Qed.

(** What a program has read are values the maps may hold. *)
Lemma op_wp_view P (o : kop H) hd v post :
  view_ok v → op_wp J P o hd v post →
  op_wp J (fun v e => view_ok v ∧ P v e) o hd v (fun x hd' v' => view_ok v' ∧ post x hd' v').
Proof.
  intros Hv. pose proof Hv as (Hw & Hf & Hc). destruct o; simpl; intros Ho.
  1-3: naive_solver.
  - intros f Hf'. split; [|by apply Ho]. split_and!; [done|by exists f|done].
  - intros c Hc'. split; [|by apply Ho]. split_and!; [done|done|by exists c].
  - naive_solver.
  - intros q Hq. split; [|by apply Ho]. split; [|done]. split; [|apply Hw].
    by intros i q' [_ ->]%seen_path_wf.
  - naive_solver.
  - naive_solver.
  - naive_solver.
  - naive_solver.
  - intros t Ht'. destruct (Ho t Ht'). split; [done|]. split; [|done]. split; [|done].
    by apply set_TEMP_maps_wf.
Qed.

Lemma cwp_view {A} P ub hd v (m : K H A) Q :
  view_ok v → cwp J P ub hd v m Q →
  cwp J (fun v e => view_ok v ∧ P v e) ub hd v m Q.
Proof.
  revert hd v. induction m as [[a|e| |]|o c IH]; intros hd v Hv; simpl; auto.
  intros Ho%op_wp_view; [|done]. eapply op_wp_mono; [..|exact Ho]; [done|done|].
  intros x hd' v' [? ?]. by apply IH.
Qed.

Variable P : KState R seen → RawEvent → Prop.
#[local] Abbreviation cwp := (cwp (H := H) J P).

Lemma cwp_ret {A} ub hd v (a : A) Q : Q a hd v → cwp ub hd v (mret a) Q.
Proof. done. Qed.

Lemma cwp_bind {A B} ub hd v (m : K H A) (f : A → K H B) Q :
  cwp ub hd v m (fun a hd' v' => cwp ub hd' v' (f a) Q) → cwp ub hd v (m ≫= f) Q.
Proof.
  revert hd v. induction m as [[a|e| |]|o c IH]; intros hd v Hm; try done.
  eapply op_wp_mono; [..|exact Hm]; [done|done|]. intros x hd' v'. apply IH.
Qed.

Lemma cwp_catch ub hd v (m : K H Z) Q : cwp ub hd v m Q → cwp ub hd v (catch m) Q.
Proof.
  revert hd v. induction m as [[a|e| |]|o c IH]; intros hd v Hm; try done.
  eapply op_wp_mono; [..|exact Hm]; [done|done|]. intros x hd' v'. apply IH.
Qed.

Lemma cwp_act ub hd v o (Q : kres o → _ → _ → Prop) :
  op_wp J P o hd v Q → cwp ub hd v (act o) Q.
Proof. done. Qed.

Lemma cwp_load {A} ub hd v (f : Z → A) p Q :
  (p = 0 → ub) → (p ≠ 0 → Q (f p) hd v) → cwp ub hd v (load f p) Q.
Proof. unfold load. destruct (Z.eqb_spec p 0); simpl; auto. Qed.

Lemma cwp_filter ub hd v owner h Q :
  (∀ f, inv_filter J f → let v' := set_FILTER (bm_get f) v in Q (dropped v' owner h) hd v') →
  cwp ub hd v (filter_events owner h) Q.
Proof. intros HQ f Hf. exact (HQ f Hf). Qed.

Lemma cwp_capture_inode ub hd v env inode Q :
  (inode = 0 → ub) →
  (inode ≠ 0 → ∀ c ty, inv_config J c → let v' := set_CONFIG (bm_get c) v in
   selected_type v' (i_mode env inode) = Some ty → Q (true, ty) hd v') →
  (∀ c ty, inv_config J c → Q (false, ty) hd (set_CONFIG (bm_get c) v)) →
  cwp ub hd v (capture_inode env inode) Q.
Proof.
  intros Hub Hy Hn. apply cwp_bind, (cwp_act ub hd v OpConfig). intros c Hc.
  destruct (bm_get c 0) as [config|] eqn:Hg; [|by apply Hn].
  apply cwp_bind, cwp_load; [done|]. intros Hi. apply cwp_ret.
  destruct (Z.land _ _ =? 0) eqn:Hz; cbn [negb]; [by apply Hn|].
  apply Hy; [done|done|]. unfold selected_type. simpl. rewrite Hg. simpl. by rewrite Hz.
Qed.

Lemma cwp_capture_file ub hd v env file Q :
  (file = 0 ∨ f_inode env file = 0 → ub) →
  (file ≠ 0 → f_inode env file ≠ 0 → ∀ c ty, inv_config J c → let v' := set_CONFIG (bm_get c) v in
   selected_type v' (i_mode env (f_inode env file)) = Some ty → Q (true, ty) hd v') →
  (∀ c ty, inv_config J c → Q (false, ty) hd (set_CONFIG (bm_get c) v)) →
  cwp ub hd v (capture_file env file) Q.
Proof.
  intros Hub Hy Hn. apply cwp_bind, (cwp_act ub hd v OpConfig). intros c Hc.
  destruct (bm_get c 0) as [config|] eqn:Hg; [|by apply Hn].
  apply cwp_bind, cwp_load; [auto|]. intros Hf. apply cwp_bind, cwp_load; [auto|].
  intros Hi. apply cwp_ret.
  destruct (Z.land _ _ =? 0) eqn:Hz; cbn [negb]; [by apply Hn|].
  apply Hy; [done|done|done|]. unfold selected_type. simpl. rewrite Hg. simpl. by rewrite Hz.
Qed.

Lemma cwp_file_path ub hd v file Q :
  (∀ q, length (filepath q) = 256%nat → Q (Some q) hd (set_FILE_PATH_MAP (seen_path file q) v)) →
  Q None hd v →
  cwp ub hd v (file_path_get file) Q.
Proof.
  intros Hs Hn. apply cwp_bind, (cwp_act ub hd v (OpPathGet file)). intros found.
  destruct found; [|exact Hn]. apply cwp_bind, (cwp_act ub hd v (OpPathCopy file)). exact Hs.
Qed.
End rules.

(** ** The programs *)

(** The values read from the maps. *)
Ltac read_values :=
  simpl; unfold file_info, rename_event; simpl; rewrite ?seen_path_same;
  repeat match goal with
  | |- context [dropped (set_CONFIG ?c ?v)] => change (dropped (set_CONFIG c v)) with (dropped v)
  | |- context [dropped (set_FILE_PATH_MAP ?c ?v)] =>
      change (dropped (set_FILE_PATH_MAP c v)) with (dropped v)
  | |- context [dropped (set_TEMP ?c ?v)] => change (dropped (set_TEMP c v)) with (dropped v)
  | |- context [selected_type (set_FILE_PATH_MAP ?c ?v)] =>
      change (selected_type (set_FILE_PATH_MAP c v)) with (selected_type v)
  | |- context [selected_type (set_TEMP ?c ?v)] =>
      change (selected_type (set_TEMP c v)) with (selected_type v)
  end.
Ltac subst_views := repeat match goal with v := _ : KState _ _ |- _ => subst v end.
Ltac find_maps_wf :=
  match goal with
  | Hv : view_ok _ ?v |- maps_wf ?v => exact (proj1 Hv)
  | Hv : view_ok _ ?v |- maps_wf _ =>
      destruct Hv as ((? & ? & ?) & _); split_and!; first [by intros ? ? [_ ->]%seen_path_wf|done]
  end.

Section programs.
Context {R H : Type} {M : Type → Type}.
Context `{RingBufLaws R H, BpfMapLaws M}.
Implicit Types k : KState R M.
Implicit Types v : KState R seen.
Variable J : MapInv M.
#[local] Abbreviation view_ok := (view_ok J).

(** A program ends with 0 and holds nothing. *)
Definition ended (r : Z) (hd : option (H * nat)) (_ : KState R seen) : Prop := r = 0 ∧ hd = None.

(** [p] may submit the record it owes under what it read. *)
#[local] Abbreviation owes p env := (fun v e => probe_event p env v = Some e).
#[local] Abbreviation code_ok p env ub hd v m := (cwp J (owes p env) ub hd v m ended).

Lemma cwp_nothing p env ub v : code_ok p env ub None v (mret 0).
Proof. done. Qed.

Lemma cwp_seq0 p env ub hd v (m : K H Z) :
  code_ok p env ub hd v m → code_ok p env ub hd v (m;; mret 0).
Proof.
  intros Hm. apply cwp_bind. eapply cwp_mono; [..|exact Hm]; try done. by intros a hd' v' [_ ?].
Qed.

Lemma cwp_entry p env ub v (body : H → K H Z) :
  (∀ h, code_ok p env ub (Some (h, probe_size p)) v (body h)) →
  code_ok p env ub None v
    (entry ← reserve (probe_size p);
     match entry with None => mret 0 | Some events => body events end).
Proof. intros Hb. apply cwp_bind. split; [done|]. split; [done|]. exact Hb. Qed.

Lemma cwp_discard p env ub v h n : code_ok p env ub (Some (h, n)) v (discard h).
Proof. apply cwp_bind. split; [by eexists|]. done. Qed.

Lemma cwp_submit {A} p env ub v h (c : codec A) x e :
  Env_wf env → maps_wf v → probe_event p env v = Some e → put c x = raw_put e →
  code_ok p env ub (Some (h, probe_size p)) v (write_submit c h x;; mret 0).
Proof.
  intros Hw Hm He Hx. apply cwp_bind. unfold write_submit. rewrite Hx.
  split; [by rewrite (probe_event_size p env v)|]. split; [|done].
  exists e. split_and!; [done|by apply (probe_event_ok p env v)|done].
Qed.

Lemma cwp_filtered p env ub v h n owner hd m :
  view_ok v →
  (∀ v', view_ok v' → dropped v' owner hd = false → code_ok p env ub (Some (h, n)) v' m) →
  code_ok p env ub (Some (h, n)) v
    (drop ← filter_events owner hd; if (drop : bool) then discard h else m).
Proof.
  intros (Hm & _ & Hc) Hd. apply cwp_bind, cwp_filter. intros f Hf v'.
  destruct (dropped v' owner hd) eqn:E; [by apply cwp_discard|]. apply Hd; [|done]. by split_and!; [|exists f|].
Qed.

Lemma cwp_emit_v4 p env ub v sock rv proto rp ty :
  Env_wf env → view_ok v → probe_size p = size_of PendingConnect_codec →
  RawProtocol_try_from proto = Ok rp →
  (∀ v, probe_event p env v = v4_event env v sock rv rp ty) →
  code_ok p env ub None v (emit_v4 env sock rv proto ty).
Proof.
  intros Hw Hv Hs Hp He. unfold emit_v4. rewrite <- Hs. apply cwp_entry. intros h.
  apply cwp_filtered; [done|]. intros v' (Hm & _) Hd. unfold lift_unwrap. rewrite Hp.
  apply cwp_bind, cwp_ret. eapply cwp_submit; [done|done| |].
  - rewrite He. unfold v4_event. by rewrite Hd.
  - done.
Qed.

Lemma cwp_emit_v6 p env ub v sock rv proto rp ty :
  Env_wf env → view_ok v → probe_size p = size_of PendingConnect_codec →
  RawProtocol_try_from proto = Ok rp →
  (∀ v, probe_event p env v = v6_event env v sock rv rp ty) →
  code_ok p env ub None v (emit_v6 env sock rv proto ty).
Proof.
  intros Hw Hv Hs Hp He. unfold emit_v6. rewrite <- Hs. apply cwp_entry. intros h.
  apply cwp_filtered; [done|]. intros v' (Hm & _) Hd. specialize (He v'). unfold v6_event in He.
  rewrite Hd in He. cbn [unless] in He.
  destruct (skc_v6_daddr env sock); cbn [read_v6_addr mbind option_bind] in *; [|by apply cwp_discard].
  destruct (skc_v6_rcv_saddr env sock); cbn [read_v6_addr mbind option_bind] in *;
    [|by apply cwp_discard].
  unfold lift_unwrap. rewrite Hp. apply cwp_bind, cwp_ret. by eapply cwp_submit; [| |exact He|].
Qed.

Lemma cwp_emit_family p env ub v sock rv proto rp ty :
  Env_wf env → view_ok v → probe_size p = size_of PendingConnect_codec →
  RawProtocol_try_from proto = Ok rp →
  (∀ v, probe_event p env v = family_event env v sock rv rp ty) →
  code_ok p env ub None v (emit_family env sock rv proto ty).
Proof.
  intros Hw Hv Hs Hp He. unfold emit_family. unfold family_event in He.
  destruct (skc_family env sock); cbn [mbind option_bind] in *; [|by apply cwp_nothing].
  case_match; [by apply cwp_seq0; eapply cwp_emit_v4|].
  case_match; [by apply cwp_seq0; eapply cwp_emit_v6|]. by apply cwp_nothing.
Qed.

Lemma cwp_network p env v :
  Env_wf env → view_ok v → probe_owner p = Some FilterOwner_Network →
  code_ok p env (null_deref p env) None v (probe_code p env).
Proof.
  intros Hw Hv Hp. destruct p; try discriminate; apply cwp_catch; cbn [probe_code].
  1: unfold try_tcp_v4_connect. 2: unfold try_tcp_v6_connect.
  3: unfold try_inet_csk_accept_impl; destruct (ctx_ret env) eqn:Hret.
  5: by eapply cwp_emit_family.
  5: unfold try_udp_connect. 6: unfold try_udpv6_connect. 7: unfold try_udp_destroy_sock.
  8: unfold try_inet_bind. 9: unfold try_inet_listen.
  8-9: apply cwp_bind, cwp_load; [done|]; intros Hnz.
  4: by apply cwp_nothing.
  all: match goal with
       | |- context [if (?a =? 0) || (?b =? 0) then _ else _] =>
           rewrite (proj2 (Z.eqb_neq b 0) Hnz), orb_false_r
       | _ => idtac
       end.
  all: match goal with |- cwp _ _ _ _ _ (if ?b then _ else _) _ => destruct b eqn:Hz end;
    [by apply cwp_nothing|].
  all: try apply cwp_seq0.
  all: first [eapply cwp_emit_v4 | eapply cwp_emit_v6 | eapply cwp_emit_family]; try done;
       intros v'; simpl; rewrite ?Hret; simpl; by rewrite Hz.
Qed.
Ltac cwp_submit_now Hd :=
  eapply cwp_submit; [done|by find_maps_wf|by read_values; event_is Hd|done].
Ltac cwp_filtered_now Hd := apply cwp_filtered; [done|intros ? ? Hd].

Lemma cwp_process p env v :
  Env_wf env → view_ok v → probe_owner p = Some FilterOwner_Process →
  code_ok p env (null_deref p env) None v (probe_code p env).
Proof.
  intros Hw Hv Hp. destruct p; try discriminate; apply cwp_catch; cbn [probe_code].
  1: unfold try_sched_process_exec; apply (cwp_entry P_sched_process_exec).
  2: unfold try_sched_process_fork; apply (cwp_entry P_sched_process_fork).
  3: unfold try_do_group_exit; apply (cwp_entry P_do_group_exit).
  all: intros h; cwp_filtered_now Hd.
  - destruct (read_at_u32 env 8) eqn:E; [|by apply cwp_discard]. cwp_submit_now Hd.
  - destruct (read_at_u32 env 16) eqn:E; [|by apply cwp_discard].
    destruct (read_at_u32 env 20) eqn:E2; [|by apply cwp_discard]. cwp_submit_now Hd.
  - cwp_submit_now Hd.
Qed.

Lemma cwp_memory p env v :
  Env_wf env → view_ok v → p = P_vm_mmap_pgoff ∨ p = P_vm_munmap ∨ p = P_vfs_rename_retval →
  code_ok p env (null_deref p env) None v (probe_code p env).
Proof.
  intros Hw Hv [->|[->| ->]]; apply cwp_catch; cbn [probe_code].
  - unfold try_vm_mmap_pgoff. apply (cwp_entry P_vm_mmap_pgoff). intros h.
    cwp_filtered_now Hd. cwp_submit_now Hd.
  - unfold try_vm_munmap. apply (cwp_entry P_vm_munmap). intros h. cwp_submit_now Hv.
  - unfold try_vfs_rename_retval. apply (cwp_entry P_vfs_rename_retval). intros h.
    cwp_submit_now Hv.
Qed.

(** The tests, loads and map reads of a file program. *)
Ltac file_cwp :=
  cbv zeta;
  match goal with
  | |- cwp _ _ _ _ _ (if negb (true, _).1 then _ else _) _ => cbn [negb fst snd]
  | |- cwp _ _ _ _ _ (if negb (false, _).1 then _ else _) _ => cbn [negb fst snd]
  | |- cwp _ _ _ _ _ (if ?x =? 0 then _ else _) _ => destruct (Z.eqb_spec x 0)
  | |- cwp _ _ _ _ _ (capture_file _ _ ≫= _) _ =>
      apply cwp_bind, cwp_capture_file; [by null | intros ? ? ? ? ? ? ? | intros ? ? ?]
  | |- cwp _ _ _ _ _ (capture_inode _ _ ≫= _) _ =>
      apply cwp_bind, cwp_capture_inode; [by null | intros ? ? ? ? ? ? | intros ? ? ?]
  | |- cwp _ _ _ _ _ (load _ _ ≫= _) _ => apply cwp_bind, cwp_load; [by null | intros ?]
  | |- cwp _ _ _ _ _ (file_path_get ?f ≫= _) _ =>
      apply cwp_bind, cwp_file_path; [intros ? ?|]
  end.
Ltac file_cwp_end Hd :=
  subst_views;
  first [ by apply cwp_discard
        | eapply cwp_submit; [done|by find_maps_wf|by read_values; file_is Hd|done] ].

Lemma cwp_vfs_read env v :
  Env_wf env → view_ok v →
  code_ok P_vfs_read env (null_deref P_vfs_read env) None v (probe_code P_vfs_read env).
Proof.
  intros Hw Hv. apply cwp_catch. unfold try_vfs_read. apply (cwp_entry P_vfs_read).
  intros h. cwp_filtered_now Hd. repeat file_cwp; file_cwp_end Hd.
Qed.

Lemma cwp_vfs_write env v :
  Env_wf env → view_ok v →
  code_ok P_vfs_write env (null_deref P_vfs_write env) None v (probe_code P_vfs_write env).
Proof.
  intros Hw Hv. apply cwp_catch. unfold try_vfs_write. apply (cwp_entry P_vfs_write).
  intros h. cwp_filtered_now Hd. repeat file_cwp; file_cwp_end Hd.
Qed.

Lemma cwp_vfs_open env v :
  Env_wf env → view_ok v →
  code_ok P_vfs_open env (null_deref P_vfs_open env) None v (probe_code P_vfs_open env).
Proof.
  intros Hw Hv. apply cwp_catch. unfold try_vfs_open. apply (cwp_entry P_vfs_open).
  intros h. cwp_filtered_now Hd. repeat file_cwp; file_cwp_end Hd.
Qed.

Lemma cwp_filp_close env v :
  Env_wf env → view_ok v →
  code_ok P_filp_close env (null_deref P_filp_close env) None v (probe_code P_filp_close env).
Proof.
  intros Hw Hv. apply cwp_catch. unfold try_flip_close. apply (cwp_entry P_filp_close).
  intros h. cwp_filtered_now Hd. repeat file_cwp; file_cwp_end Hd.
Qed.

Lemma cwp_vfs_unlink env v :
  Env_wf env → view_ok v →
  code_ok P_vfs_unlink env (null_deref P_vfs_unlink env) None v (probe_code P_vfs_unlink env).
Proof.
  intros Hw Hv. apply cwp_catch. unfold try_vfs_unlink. apply (cwp_entry P_vfs_unlink).
  intros h. cwp_filtered_now Hd. repeat file_cwp; file_cwp_end Hd.
Qed.

Lemma cwp_file_open env v :
  Env_wf env → code_ok P_file_open env False None v (probe_code P_file_open env).
Proof.
  intros Hw. apply cwp_catch. unfold try_file_open. cbv zeta.
  destruct (arg_ptr env 0 =? 0); [done|]. destruct (percpu_lookup env); [|done].
  apply cwp_bind. intros b Hb. split; [by rewrite wf_d_path|].
  cbn [cwp]. destruct (Z.ltb_spec (bpf_d_path env (f_path env (arg_ptr env 0)) b).1 0); [done|].
  apply cwp_bind. intros b' Hb'. apply cwp_bind. by split.
Qed.

Lemma cwp_fput env v : code_ok P_fput env False None v (probe_code P_fput env).
Proof. apply cwp_catch, cwp_bind. done. Qed.

Lemma fill_temp_wf env hd ty o n t : Env_wf env → temp_wf t → temp_wf (fill_temp env hd ty o n t).
Proof. intros Hw (? & ? & ?). unfold temp_wf, fill_temp. simpl. by rewrite !wf_read_str. Qed.

Lemma cwp_vfs_rename env v :
  Env_wf env → view_ok v →
  code_ok P_vfs_rename env (null_deref P_vfs_rename env) None v (probe_code P_vfs_rename env).
Proof.
  intros Hw Hv. apply cwp_catch. unfold try_vfs_rename. cbv zeta. apply cwp_bind, cwp_filter.
  intros f Hf v'. destruct (dropped v' FilterOwner_File _) eqn:Hd; [done|].
  repeat file_cwp; [|done]. subst_views.
  destruct (percpu_lookup env) eqn:Hp; [|done].
  apply cwp_bind. intros t Ht. split; [by apply fill_temp_wf|].
  apply (cwp_entry P_vfs_rename). intros h.
  eapply cwp_submit; [done|apply set_TEMP_maps_wf; [exact (proj1 Hv)|done]| |].
  - read_values. rewrite Hd. cbn [unless].
    match goal with E : selected_type _ _ = Some _ |- _ => rewrite E, Hp end.
    simpl. by rewrite fn_lookup_insert.
  - done.
Qed.

(** Every program, whatever runs beside it: it ends with 0 or at a null pointer,
    settles what it reserved, and submits nothing but the record it owes. *)
Lemma probe_cwp p env v :
  Env_wf env → view_ok v →
  code_ok p env (null_deref p env) None v (probe_code p env).
Proof.
  intros Hw Hv. destruct (probe_owner p) as [[]|] eqn:Ho.
  - apply cwp_memory; [done..|]. destruct p; try discriminate; auto.
  - by apply cwp_process.
  - by apply cwp_network.
  - destruct p; try discriminate; [by apply cwp_vfs_open|by apply cwp_filp_close|by apply cwp_vfs_read
      |by apply cwp_vfs_write|by apply cwp_vfs_unlink|by apply cwp_vfs_rename].
  - destruct p; try discriminate;
      [by apply cwp_file_open|by apply cwp_fput|apply cwp_memory; auto|apply cwp_memory; auto].
Qed.
End programs.
