(* ===== verification/MachineInv.v ===== *)
(** * The invariant of the machine

    What the program logic means for a [Machine]: the maps stay well formed,
    every record in the ring buffer is one that a program owed, and the entries
    that are reserved are those the running programs hold ([machine_inv]).  So
    running programs come to their end, and leave no entry reserved
    ([finish_all], [machine_idle]).  [kstep] adds the consumer and the writes of
    the user side. *)

From stdpp Require Import relations.
From S2P Require Import Prelude Raw Layout Events Interfaces Ebpf KernelSpec KernelProofs KernelInv Machine ProgramLogic.

(** ** The ring buffer under several programs *)

(** A byte image in the ring buffer, of a record with property [P]. *)
Definition origin_item (P : RawEvent → Prop) (x : mem) : Prop :=
  ∃ e, x = raw_put e ∧ raw_ok e ∧ P e.

Lemma origin_item_mono (P P' : RawEvent → Prop) x :
  (∀ e, P e → P' e) → origin_item P x → origin_item P' x.
Proof. intros HP (e & -> & Hok & He). exists e. auto. Qed.

(** What an operation does to the entries, as bytes and as records. *)
Inductive ring_act (H A : Type) :=
| Reserve (h : H) (n : nat)
| Submit (h : H) (a : A)
| Discard (h : H)
| Quiet.
#[global] Arguments Reserve {H A}.
#[global] Arguments Submit {H A}.
#[global] Arguments Discard {H A}.
#[global] Arguments Quiet {H A}.

Definition op_bytes {H} (o : kop H) : kres o → ring_act H mem :=
  match o return kres o → ring_act H mem with
  | OpReserve n => fun x => match x with Some h => Reserve h n | None => Quiet end
  | OpSubmit h bs => fun _ => Submit h bs
  | OpDiscard h => fun _ => Discard h
  | _ => fun _ => Quiet
  end.

Definition act_bytes {H} (a : ring_act H RawEvent) : ring_act H mem :=
  match a with
  | Reserve h n => Reserve h n
  | Submit h e => Submit h (raw_put e)
  | Discard h => Discard h
  | Quiet => Quiet
  end.

Definition act_ok {H} (a : ring_act H RawEvent) : Prop :=
  match a with Submit _ e => raw_ok e | _ => True end.

Definition op_act {H} (o : kop H) (x : kres o) (a : ring_act H RawEvent) : Prop :=
  op_bytes o x = act_bytes a ∧ act_ok a.

Lemma op_act_fun {H} (o : kop H) x a a' : op_act o x a → op_act o x a' → a = a'.
Proof.
  intros [Hb Ha] [Hb' Ha']. rewrite Hb in Hb'. destruct a, a'; simplify_eq/=; try done.
  match goal with E : raw_put _ = raw_put _ |- _ => by apply raw_put_inj in E as -> end.
Qed.

Section ring.
Context {H : Type}.
Implicit Types l : list (slot H mem).
Implicit Types hd : option (H * nat).
Variable P : RawEvent → Prop.

(** The same for a program that holds [hd] before and [hd'] after it. *)
Inductive ring_step :
  ring_act H RawEvent → list (slot H mem) → option (H * nat) → list (slot H mem) → option (H * nat) → Prop :=
| RingSame l hd : ring_step Quiet l hd l hd
| RingReserve l h n :
    h ∉ (busy l).*1 → ring_step (Reserve h n) l None (l ++ [Busy h n]) (Some (h, n))
| RingSubmit l1 l2 h n e :
    raw_ok e → P e → h ∉ (busy l1).*1 →
    ring_step (Submit h e) (l1 ++ Busy h n :: l2) (Some (h, n))
      (l1 ++ Committed (raw_put e) :: l2) None
| RingDiscard l1 l2 h n :
    h ∉ (busy l1).*1 →
    ring_step (Discard h) (l1 ++ Busy h n :: l2) (Some (h, n)) (l1 ++ l2) None.

Lemma busy_split l h n :
  (h, n) ∈ busy l → NoDup (busy l).*1 →
  ∃ l1 l2, l = l1 ++ Busy h n :: l2 ∧ h ∉ (busy l1).*1.
Proof.
  intros Hin Hnd. apply list_elem_of_omap in Hin as (x & Hx & Hs).
  destruct x as [h' n'|]; simplify_eq/=. apply list_elem_of_split in Hx as (l1 & l2 & ->).
  exists l1, l2. split; [done|]. rewrite busy_app, fmap_app in Hnd. simpl in Hnd.
  apply list.NoDup_app in Hnd as (_ & Hnd & _). intros Hin. apply (Hnd _ Hin). apply list_elem_of_here.
Qed.

Lemma ring_step_held a l hd l' hd' rest :
  ring_step a l hd l' hd' → busy l ≡ₚ option_list hd ++ rest → NoDup (busy l).*1 →
  busy l' ≡ₚ option_list hd' ++ rest ∧ NoDup (busy l').*1.
Proof.
  destruct 1 as [l hd|l h n Hn|l1 l2 h n e _ _ Hn|l1 l2 h n Hn]; rewrite ?busy_app; simpl;
    rewrite ?fmap_app; simpl; intros Hp Hnd.
  - done.
  - split; [by rewrite Hp, (comm (++))|].
    apply list.NoDup_app. split; [done|]. split; [|apply list.NoDup_singleton].
    intros x Hx Hx'. apply list_elem_of_singleton in Hx' as ->. done.
  - split.
    + apply (Permutation_cons_inv (a := (h, n))). by rewrite Permutation_middle.
    + rewrite <- Permutation_middle in Hnd. by inversion Hnd.
  - split.
    + apply (Permutation_cons_inv (a := (h, n))). by rewrite Permutation_middle.
    + rewrite <- Permutation_middle in Hnd. by inversion Hnd.
Qed.

Lemma ring_step_items a l hd l' hd' :
  ring_step a l hd l' hd' → Forall (origin_item P) (values l) →
  Forall (origin_item P) (values l').
Proof.
  destruct 1 as [l hd|l h n Hn|l1 l2 h n e Hok He Hn|l1 l2 h n Hn]; rewrite ?values_app; simpl;
    rewrite ?Forall_app; [done|by intros|intros [? ?]|done].
  split; [done|]. constructor; [by exists e|done].
Qed.

(** The entries as records: [hist] is a list of reservations, each open or with
    the record that was submitted. *)
Context `{EqDecision H}.

Definition ring_history (hist : list (slot H RawEvent)) (a : ring_act H RawEvent) :
    list (slot H RawEvent) :=
  match a with
  | Reserve h n => hist ++ [Busy h n]
  | Submit h e => settle h [Committed e] hist
  | Discard h => settle h [] hist
  | Quiet => hist
  end.

Lemma map_busy_split (hist : list (slot H RawEvent)) l1 l2 h n :
  slot_map raw_put <$> hist = l1 ++ Busy h n :: l2 →
  ∃ h1 h2, hist = h1 ++ Busy h n :: h2 ∧ l1 = slot_map raw_put <$> h1 ∧ l2 = slot_map raw_put <$> h2.
Proof.
  intros (h1 & h2' & -> & Hl & ->)%fmap_app_inv.
  apply eq_sym, fmap_cons_inv in Hl as ([h' n'|e] & h2 & Hb & -> & ->); simplify_eq/=. by exists h1, h2.
Qed.

Lemma ring_step_history hist a hd l' hd' :
  ring_step a (slot_map raw_put <$> hist) hd l' hd' →
  l' = slot_map raw_put <$> ring_history hist a ∧
  (Forall raw_ok (values hist) → Forall raw_ok (values (ring_history hist a))).
Proof.
  intros Hs. remember (slot_map raw_put <$> hist) as l eqn:Hl.
  destruct Hs as [l hd|l h n Hn|l1 l2 h n e Hok _ Hn|l1 l2 h n Hn]; cbn [ring_history]; subst.
  - done.
  - rewrite fmap_app, values_app. simpl. by rewrite app_nil_r.
  - apply eq_sym, map_busy_split in Hl as (h1 & h2 & -> & -> & ->). rewrite busy_map in Hn.
    rewrite settle_slot, !fmap_app, !values_app by done. split; [done|]. simpl.
    rewrite !Forall_app. intros [? ?]. split; [done|]. by constructor.
  - apply eq_sym, map_busy_split in Hl as (h1 & h2 & -> & -> & ->). rewrite busy_map in Hn.
    rewrite settle_slot, !fmap_app, !values_app by done. done.
Qed.

Lemma ring_history_committed es (hist : list (slot H RawEvent)) a :
  ring_history ((Committed <$> es) ++ hist) a = (Committed <$> es) ++ ring_history hist a.
Proof. destruct a; simpl; [by rewrite (assoc_L (++))|by rewrite settle_committed..|done]. Qed.
End ring.

(** ** The invariant of the machine *)

Section invariant.
Context {R H : Type} {M : Type → Type}.
Context `{RingBufLaws R H, BpfMapLaws M}.
Implicit Types k : KState R M.
Implicit Types v : KState R seen.
Implicit Types m : Machine R H M.
Implicit Types hd : option (H * nat).
Implicit Types hds : list (option (H * nat)).
Implicit Types P : RawEvent → Prop.
Implicit Types J : MapInv M.

(** The slots of the ring buffer. *)
Abbreviation slots k := (rb_slots (EVENTS k)).

(** What a program holds after an operation. *)
Definition held_after (o : kop H) hd : kres o → option (H * nat) :=
  match o return kres o → option (H * nat) with
  | OpReserve n => fun x => (fun h => (h, n)) <$> x
  | OpSubmit _ _ | OpDiscard _ => fun _ => None
  | _ => fun _ => hd
  end.

(** What an operation does to the maps, and to the entries. *)
Lemma act_maps J (P : KState R seen → RawEvent → Prop) (o : kop H) hd v k x k' post :
  kernel_ok J k → op_wp J P o hd v post → acts o k x k' →
  kernel_ok J k' ∧ ∃ v', post x (held_after o hd x) v'.
Proof.
  intros Hk Ho [Hx|[Hx ->]]; [|destruct o; simpl in Hx, Ho; try done; eauto].
  pose proof Hk as ((Hp & Hb & Ht) & Hf & Hc). destruct o; simpl in Hx; simpl in Ho.
  - destruct Ho as (-> & Hno & Hyes). destruct (rb_reserve _ _) as [[h r]|]; simplify_eq/=; eauto.
  - destruct Ho as (_ & _ & Hpost). simplify_eq/=. eauto.
  - destruct Ho as (_ & Hpost). simplify_eq/=. eauto.
  - simplify_eq/=. eauto.
  - simplify_eq/=. eauto.
  - simplify_eq/=. eauto.
  - simplify_eq/=. split; [done|]. eexists. apply Ho. destruct (bm_get _ _) eqn:E; simpl; [by eapply Hp|done].
  - destruct Ho as (Hl & Hpost). destruct (bm_insert _ _ _) as [m|] eqn:E; simplify_eq/=; [|by eauto].
    split; [|by eauto]. split; [|done].
    split; [|done]. intros i q. simpl. rewrite (bm_get_insert _ _ _ _ _ i E).
    case_decide; [by intros [= <-]|by apply Hp].
  - simplify_eq/=. split; [|by eauto]. split; [|done].
    split; [|done]. intros i q. simpl. rewrite bm_get_remove. case_decide; [done|by apply Hp].
  - destruct (Ho (PATH_BUF k cpu) (Hb _)) as [Hl Hpost]. simplify_eq/=. split; [|by eauto].
    split; [|done]. split; [done|]. split; [|done]. intros i. simpl.
    destruct (decide (i = cpu)) as [->|]; [by rewrite fn_lookup_insert|by rewrite fn_lookup_insert_ne].
  - simplify_eq/=. eauto.
  - destruct (Ho (TEMP k cpu) (Ht _)) as [Hl Hpost]. simplify_eq/=. split; [|by eauto].
    split; [|done]. by apply set_TEMP_maps_wf.
Qed.

Lemma act_ring J P (o : kop H) hd v k x k' post :
  op_wp J (fun _ => P) o hd v post → acts o k x k' →
  (∀ h n, hd = Some (h, n) → (h, n) ∈ busy (slots k)) → NoDup (busy (slots k)).*1 →
  ∃ a, op_act o x a ∧ ring_step P a (slots k) hd (slots k') (held_after o hd x).
Proof.
  intros Ho [Hx|[Hx ->]] Hown Hnd.
  2: { destruct o; try done; exists Quiet; (split; [done|constructor]). }
  destruct o; simpl in Hx; simpl in Ho.
  1: destruct Ho as (-> & _). 2: destruct Ho as (-> & (e & -> & Hok & He) & _).
  3: destruct Ho as ((n & ->) & _).
  2-3: destruct (busy_split _ _ _ (Hown _ _ eq_refl) Hnd) as (l1 & l2 & Hs & Hn); simplify_eq/=.
  4-12: exists Quiet; split; [done|]; repeat case_match; simplify_eq/=; constructor.
  - destruct (rb_reserve (EVENTS k) n) as [[h r]|] eqn:Hr; simplify_eq/=.
    + apply rb_reserve_slots in Hr as [Hn ->]. exists (Reserve h n). split; [done|]. by constructor.
    + exists Quiet. split; [done|constructor].
  - exists (Submit h e). split; [done|]. rewrite (rb_submit_slots _ _ _ _ _ _ Hs Hn eq_refl), Hs.
    by constructor.
  - exists (Discard h). split; [done|]. rewrite (rb_discard_slots _ _ _ _ _ Hs Hn), Hs. by constructor.
Qed.

(** What a program may still do. *)
Definition thread_ok J P (th : Thread H) hd : Prop :=
  ∃ v, cwp J (fun _ => P) (null_deref (th_probe th) (th_env th)) hd v (th_code th) ended.

Lemma thread_ok_mono J J' P P' th hd :
  narrows J' J → (∀ e, P e → P' e) →
  thread_ok J P th hd → thread_ok J' P' th hd.
Proof. intros HJ HP [v Hv]. exists v. eapply cwp_mono; [..|exact Hv]; auto. Qed.

Record machine_inv J P m : Prop := {
  mi_kernel : kernel_ok J (kernel m);
  mi_items : Forall (origin_item P) (rb_items (EVENTS (kernel m)));
  mi_threads : ∃ hds,
    Forall2 (thread_ok J P) (threads m) hds ∧
    busy (slots (kernel m)) ≡ₚ omap id hds ∧ NoDup (busy (slots (kernel m))).*1;
}.

Lemma mi_maps_wf J P m : machine_inv J P m → maps_wf (kernel m).
Proof. intros [(? & _) _ _]. done. Qed.

(** The user side writes to FILTER and CONFIG; what the programs may find there
    and what their records have may be more from then on. *)
Lemma machine_inv_write J J' P P' m k :
  narrows J' J → (∀ e, P e → P' e) →
  kernel_ok J' k → EVENTS k = EVENTS (kernel m) →
  machine_inv J P m → machine_inv J' P' (with_kernel k m).
Proof.
  intros HJ HP Hk He [_ Hi (hds & Ht & Hb)]. split; simpl; rewrite ?He.
  - done.
  - eapply Forall_impl; [|exact Hi]. intros x. by apply origin_item_mono.
  - exists hds. split; [|done]. eapply Forall2_impl; [|exact Ht]. intros th hd.
    by apply thread_ok_mono.
Qed.

(** Idle programs and an empty buffer. *)
Lemma machine_inv_start J P k :
  kernel_ok J k → slots k = [] → machine_inv J P (mkMachine k []).
Proof.
  intros Hk Hs. split; simpl; [done|by unfold rb_items; rewrite Hs|].
  exists []. rewrite Hs. simpl. split_and!; [done|done|constructor].
Qed.

(** The records of the programs that start have the property. *)
Definition starts_ok (starts : Probe → Env → Prop) J P : Prop :=
  ∀ p env v e, starts p env → Env_wf env → view_ok J v → probe_event p env v = Some e → P e.

Lemma thread_ok_start starts J P p env k :
  starts_ok starts J P → starts p env → Env_wf env → kernel_ok J k →
  thread_ok J P (mkThread p env (probe_code p env)) None.
Proof.
  intros HP Hst Hw Hk. exists (view_from k). apply view_from_ok in Hk.
  pose proof (probe_cwp (H := H) J p env (view_from k) Hw Hk) as Hp.
  apply cwp_view in Hp; [|done]. eapply cwp_mono; [..|exact Hp]; try done.
  intros v e [Hv Hev]. by eapply HP.
Qed.

Lemma omap_id_middle (hds1 hds2 : list (option (H * nat))) hd :
  omap id (hds1 ++ hd :: hds2) ≡ₚ option_list hd ++ omap id (hds1 ++ hds2).
Proof. rewrite !omap_app. destruct hd; simpl; [|done]. by rewrite Permutation_middle. Qed.

Lemma mact_sound J P k ts1 th ts2 o c x k' :
  machine_inv J P (mkMachine k (ts1 ++ th :: ts2)) → th_code th = Act o c → acts o k x k' →
  machine_inv J P (mkMachine k' (ts1 ++ resume th (c x) :: ts2)) ∧
  ∃ a hd hd', op_act o x a ∧ ring_step P a (slots k) hd (slots k') hd'.
Proof.
  intros [Hk Hi (hds & Ht & Hb & Hnd)] Hc Hx. simpl in *.
  apply Forall2_app_inv_l in Ht as (hds1 & hds2' & Ht1 & Ht2 & ->).
  apply Forall2_cons_inv_l in Ht2 as (hd & hds2 & [v Hv] & Ht2 & ->).
  rewrite omap_id_middle in Hb. rewrite Hc in Hv.
  destruct (act_maps _ _ _ _ _ _ _ _ _ Hk Hv Hx) as (Hk' & v' & Hv').
  destruct (act_ring _ _ _ _ _ _ _ _ _ Hv Hx) as (a & Ha & Hr).
  { intros h n ->. rewrite Hb. simpl. apply list_elem_of_here. }
  { done. }
  destruct (ring_step_held _ _ _ _ _ _ _ Hr Hb Hnd) as [Hb' Hnd']. split; [|by eexists _, _, _].
  split; simpl; [done|by eapply ring_step_items|].
  exists (hds1 ++ held_after o hd x :: hds2). rewrite omap_id_middle. split_and!; [|done|done].
  apply Forall2_app; [done|]. constructor; [by exists v'|done].
Qed.

Lemma mstep_inv starts J P m m' :
  starts_ok starts J P → mstep starts m m' → machine_inv J P m → machine_inv J P m'.
Proof.
  intros HP Hs Hm.
  destruct Hs as [p env k ts Hat Hw Hent|k ts1 th ts2 o c x k' Hc Hx|k ts1 th ts2 r Hc].
  - destruct Hm as [Hk Hi (hds & Ht & Hb & Hnd)]. split; simpl in *; [done|done|].
    exists (hds ++ [None]). rewrite omap_app, app_nil_r. split_and!; try done.
    apply Forall2_app; [done|]. constructor; [|done]. by eapply thread_ok_start.
  - by destruct (mact_sound _ _ _ _ _ _ _ _ _ _ Hm Hc Hx).
  - destruct Hm as [Hk Hi (hds & Ht & Hb & Hnd)]. simpl in *.
    apply Forall2_app_inv_l in Ht as (hds1 & hds2' & Ht1 & Ht2 & ->).
    apply Forall2_cons_inv_l in Ht2 as (hd & hds2 & [v Hv] & Ht2 & ->).
    rewrite Hc in Hv. destruct Hv as [_ ->]. split; [done|done|].
    exists (hds1 ++ hds2). rewrite omap_id_middle in Hb. split_and!; [by apply Forall2_app|done|done].
Qed.

(** The consumer takes a record. *)
Lemma consume_inv J P m x r :
  rb_next (EVENTS (kernel m)) = Some (x, r) → machine_inv J P m →
  machine_inv J P (with_kernel (set_EVENTS r (kernel m)) m).
Proof.
  intros Hn [Hk Hi Ht]. destruct (rb_next_cases (EVENTS (kernel m))) as [[Hn' _]|(y & ys & r' & Hn' & Hs & Hs')];
    [congruence|]. rewrite Hn in Hn'. simplify_eq. split; simpl.
  - exact Hk.
  - unfold rb_items in *. rewrite Hs in Hi. by inversion Hi.
  - by rewrite Hs in Ht.
Qed.

(** No program runs: every entry is settled, and the consumer can read it. *)
Lemma machine_idle J P m :
  machine_inv J P m → threads m = [] →
  busy (slots (kernel m)) = [] ∧ rb_visible (EVENTS (kernel m)) = rb_items (EVENTS (kernel m)).
Proof.
  intros [_ _ (hds & Ht & Hb & _)] He. rewrite He in Ht. apply Forall2_nil_inv_l in Ht as ->.
  simpl in Hb. apply Permutation_nil_r in Hb. split; [done|]. by apply readable_committed.
Qed.
End invariant.

(** ** Progress *)

Section progress.
Context {R H : Type} {M : Type → Type}.
Context `{RingBufLaws R H, BpfMapLaws M}.
Implicit Types k : KState R M.
Implicit Types v : KState R seen.
Implicit Types m : Machine R H M.
Implicit Types P : RawEvent → Prop.
Implicit Types J : MapInv M.

(** The programs that run go on, and no other one starts. *)
Abbreviation go_on := (mstep (R := R) (H := H) (M := M) (fun _ _ => False)).

Lemma go_on_inv J P m m' : rtc go_on m m' → machine_inv J P m → machine_inv J P m'.
Proof. induction 1; [done|]. intros Hm. apply IHrtc. eapply mstep_inv; [|done|done]. by intros p env v e []. Qed.

(** A running program gets to its end, unless it gets to a null pointer. *)
Lemma finish_one J P p env (c : K H Z) k ts :
  ¬ null_deref p env → machine_inv J P (mkMachine k (mkThread p env c :: ts)) →
  ∃ k', rtc go_on (mkMachine k (mkThread p env c :: ts)) (mkMachine k' ts).
Proof.
  intros Hn. revert k. induction c as [o|o c IH]; intros k Hm.
  - pose proof (mi_threads _ _ _ Hm) as (hds & Ht & _). simpl in Ht.
    apply Forall2_cons_inv_l in Ht as (hd & hds2 & [v Hv] & _ & _). simpl in Hv.
    destruct o as [r|e| |]; try done. exists k. apply rtc_once.
    by apply (MEnd _ k [] (mkThread p env (Done (Ok r))) ts r).
  - destruct (kact o k) as [x k1] eqn:Hx.
    assert (Hs : go_on (mkMachine k (mkThread p env (Act o c) :: ts))
                   (mkMachine k1 (mkThread p env (c x) :: ts)))
      by (apply (MAct _ k [] (mkThread p env (Act o c)) ts o c x k1); [done|by left]).
    destruct (IH x k1) as [k' Hk'].
    { eapply go_on_inv; [|exact Hm]. by apply rtc_once. }
    exists k'. by eapply rtc_l.
Qed.

Lemma finish_all J P m :
  (∀ th, th ∈ threads m → ¬ null_deref (th_probe th) (th_env th)) → machine_inv J P m →
  ∃ k', rtc go_on m (mkMachine k' []).
Proof.
  destruct m as [k ts]. simpl. revert k. induction ts as [|[p env c] ts IH]; intros k Hn Hm.
  - by exists k.
  - destruct (finish_one _ _ p env c k ts (Hn _ (list_elem_of_here _ _)) Hm) as [k1 Hk1].
    destruct (IH k1) as [k' Hk'].
    { intros th Hth. by apply Hn, list_elem_of_further. }
    { by eapply go_on_inv. }
    exists k'. by etrans.
Qed.

(** ** The eBPF side on its own

    The programs run, those of [starts]; the consumer takes a record; the user
    side writes an entry of FILTER or CONFIG. *)
Variable starts : Probe → Env → Prop.

Inductive kstep m : Machine R H M → Prop :=
| KPrograms m' : mstep starts m m' → kstep m m'
| KConsume x r :
    rb_next (EVENTS (kernel m)) = Some (x, r) →
    kstep m (with_kernel (set_EVENTS r (kernel m)) m)
| KFilter owner key f :
    bm_insert (FILTER (kernel m)) (FilterOwner_repr owner) key = Some f →
    kstep m (with_kernel (set_FILTER f (kernel m)) m)
| KConfig mask c :
    bm_insert (CONFIG (kernel m)) 0 mask = Some c →
    kstep m (with_kernel (set_CONFIG c (kernel m)) m).

(** From the maps as they are when the object is loaded. *)
Definition kreach m : Prop := ∃ k, kinit k ∧ rtc kstep (mkMachine k []) m.

Abbreviation any_inv := (machine_inv (R := R) (H := H) (M := M) any_maps flags_zero).

Lemma kstep_inv m m' : kstep m m' → any_inv m → any_inv m'.
Proof.
  intros [m2 Hs|x r Hn|owner key f Hf|mask c Hc] Hm.
  - eapply mstep_inv; [|exact Hs|exact Hm]. intros p env v e _ Hw (Hv & _).
    by apply probe_event_flags.
  - by eapply consume_inv.
  - eapply machine_inv_write; [..|exact Hm]; try done. by destruct (mi_kernel _ _ _ Hm).
  - eapply machine_inv_write; [..|exact Hm]; try done. by destruct (mi_kernel _ _ _ Hm).
Qed.

Lemma kreach_inv m : kreach m → any_inv m.
Proof.
  intros (k & Hk & Hs). assert (Hm : any_inv (mkMachine k [])).
  { apply machine_inv_start; [|by destruct Hk]. split; [by apply kinit_maps_wf|done]. }
  clear Hk. induction Hs; eauto using kstep_inv.
Qed.
End progress.
