(* ===== verification/KernelTheorems.v ===== *)
(** * What the eBPF side guarantees

    The theorems about the programs of [Ebpf.v]: the content of the ring buffer
    in every reachable state, the refinement of a run to its specification, and
    the three promises made to subscribers (process filter, file types, paths);
    then the runs that break them. *)

From stdpp Require Import relations.
From S2P Require Import Prelude Raw Layout Events Interfaces Ebpf KernelSpec KernelProofs KernelInv Machine ProgramLogic MachineInv.

Section theorems.
Context {R H : Type} {M : Type → Type}.
Context `{RingBufLaws R H, BpfMapLaws M}.
Implicit Types s : KState R M.

(** (C7) Whatever programs ran, interleaved in whatever way, whatever the user
    side wrote to the filter maps meanwhile and however far the consumer got:
    every record in the ring buffer is the byte image of one of the raw structs,
    fits its layout, carries the discriminant of that struct in its header, and
    the scratch record of a rename has its [flags] at 0. *)
Theorem ring_records_reachable starts (m : Machine R H M) x :
  kreach starts m → x ∈ rb_items (EVENTS (kernel m)) →
  ∃ e, x = raw_put e ∧ raw_ok e ∧ ∀ r, e = RawRename r → rn_flags r = 0.
Proof.
  intros [_ Hi _]%kreach_inv Hx. rewrite Forall_forall in Hi.
  destruct (Hi x) as (e & ? & ? & ?); [by apply list_elem_of_In|by exists e].
Qed.

(** (C13) No program blocks the consumer for good: in every reachable state in
    which none of the running programs is bound to load a null pointer, letting
    them go on brings each to its end, and then no entry of the ring buffer is
    left reserved, so that the consumer can read all that was submitted. *)
Theorem programs_settle starts (m : Machine R H M) :
  kreach starts m → (∀ th, th ∈ threads m → ¬ null_deref (th_probe th) (th_env th)) →
  ∃ k, rtc (mstep (fun _ _ => False)) m (mkMachine k []) ∧
       busy (rb_slots (EVENTS k)) = [] ∧ rb_visible (EVENTS k) = rb_items (EVENTS k).
Proof.
  intros Hm%kreach_inv Hn. destruct (finish_all _ _ m Hn Hm) as [k Hk]. exists k.
  split; [exact Hk|]. pose proof (go_on_inv _ _ _ _ Hk Hm) as Hk'.
  by apply (machine_idle _ _ _ Hk').
Qed.

(** (C5) A run of any program, on maps that hold what programs put there,
    returns 0 and does exactly what [kernel_post] says: it adds the owed
    record if the ring buffer has room and nothing otherwise, leaves the
    filter maps alone and updates the path map, its buffer and the rename
    scratch as specified; the only other end is the load of a null pointer
    in the cases of [null_deref]. *)
Theorem run_probe_refines p env s :
  Env_wf env → maps_wf s → ¬ null_deref p env →
  ∃ s', run_probe p env s = (Ok 0, s') ∧ kernel_post p env s s'.
Proof.
  intros Hw Hm Hn. by destruct (run_probe_cases p env s Hw Hm) as [Hr|[_ ?]].
Qed.

(** The filter of a subscription is respected: if FILTER has a key for
    the owner of a program, the records a run adds all have a header that
    the consumer can read and that matches the key. *)
Theorem run_probe_filter p env s v s' owner key xs x :
  Env_wf env → maps_wf s → run_probe p env s = (Ok v, s') →
  probe_owner p = Some owner → bm_get (FILTER s) (FilterOwner_repr owner) = Some key →
  rb_items (EVENTS s') = rb_items (EVENTS s) ++ xs → x ∈ xs →
  ∃ h, @ptr_read () _ RawEventHeader_codec x = Ok h ∧ key_matches key h.
Proof.
  intros Hw Hm Hr Ho Hk Hxs Hx. apply run_probe_post in Hr as (_ & Hi & _); [|done..].
  rewrite Hi in Hxs. apply (inj _) in Hxs as <-.
  apply submitted_records in Hx as (e & He & -> & [Hwf _]); [|done..].
  exists (raw_header e). split; [by apply read_header|].
  pose proof (probe_event_filter _ _ _ _ _ He Ho) as Hd. unfold dropped in Hd.
  rewrite Hk in Hd. by apply key_drops_spec.
Qed.

(** A file record is only produced when the CONFIG map selects its
    type: the record's type field is a single file-type bit, and that bit is
    in the configured mask. *)
Theorem run_probe_file_type p env s e ty :
  adds_record p env s e → raw_file_mode e = Some ty →
  ∃ config, bm_get (CONFIG s) 0 = Some config ∧ mode ty ∈ type_bits ∧ mode ty ≠ 0 ∧
            Z.land (mode config) (mode ty) = mode ty.
Proof.
  intros He%adds_record_event Hty. destruct (probe_event_mode _ _ _ _ _ He Hty) as [m Hs].
  apply selected_type_config in Hs as (c & Hc & Hz & Hb). exists c.
  by destruct (type_bit_land _ _ Hb Hz).
Qed.

(** (C10) The path in a file record is the one [bpf_d_path] gave when the file
    was opened: after a [file_open] run whose path was stored, and any runs
    in between that neither open nor release the file, every record an open,
    close, read or write of that file adds carries that path. *)
Theorem path_of_open_file env0 s0 ret buf tr s2 p env v s3 xs x file :
  Env_wf env0 → maps_wf s0 → arg_ptr env0 0 = file → file ≠ 0 → percpu_lookup env0 = true →
  d_path_result env0 s0 = (ret, buf) → 0 ≤ ret →
  is_Some (bm_insert (FILE_PATH_MAP s0) file {| filepath := buf |}) →
  runs ((P_file_open, env0) :: tr) s0 = Some s2 → Forall (keeps_file file) tr →
  Env_wf env → reported_file p env = Some file → run_probe p env s2 = (Ok v, s3) →
  rb_items (EVENTS s3) = rb_items (EVENTS s2) ++ xs → x ∈ xs →
  ∃ e, x = raw_put e ∧ raw_file_path e = Some buf.
Proof.
  intros Hw0 Hm0 <- Hf Hp Hd Hret [m Hi] Hruns Hk Hw Hrep Hr Hxs Hx. simpl in Hruns.
  destruct (run_probe P_file_open env0 s0) as [[v1|?| |] s1] eqn:Hrun; try done.
  apply (run_probe_post P_file_open) in Hrun as (_ & Hrun); [|done..].
  pose proof (kernel_post_maps_wf _ _ _ _ Hw0 Hm0 Hrun) as Hm1.
  destruct Hrun as (_ & _ & _ & _ & Hrun & _).
  destruct (runs_path tr s1 s2 (arg_ptr env0 0) (Some {| filepath := buf |})) as [Hm2 Hpath];
    [done..| |done|].
  { rewrite Hrun. unfold paths_after, path_lookup.
    rewrite (proj2 (Z.eqb_neq _ _) Hf), Hp, Hd. simpl.
    rewrite (proj2 (Z.leb_le _ _) Hret), Hi. simpl.
    by rewrite (bm_get_insert _ _ _ _ _ _ Hi), decide_True. }
  apply run_probe_post in Hr as (_ & Hit & _); [|done..].
  rewrite Hit in Hxs. apply (inj _) in Hxs as <-.
  apply submitted_records in Hx as (e & He & -> & _); [|done..]. exists e. split; [done|].
  destruct (probe_event_path _ _ _ _ _ Hrep He) as (path & Hg & Hpe). rewrite Hpath in Hg. by simplify_eq/=.
Qed.

(** (C18) After [__fput] released a file, and as long as it is not opened
    again, no program adds a record for it: a new file at the same address
    is never reported under the old path. *)
Theorem fput_forgets_path env0 s0 tr s2 p env v s3 file :
  Env_wf env0 → maps_wf s0 → arg_ptr env0 0 = file →
  runs ((P_fput, env0) :: tr) s0 = Some s2 → Forall (not_opening file) tr →
  Env_wf env → reported_file p env = Some file → run_probe p env s2 = (Ok v, s3) →
  rb_items (EVENTS s3) = rb_items (EVENTS s2).
Proof.
  intros Hw0 Hm0 <- Hruns Hk Hw Hrep Hr.
  change (runs tr (set_FILE_PATH_MAP (bm_remove (FILE_PATH_MAP s0) (arg_ptr env0 0)) s0)
          = Some s2) in Hruns.
  assert (Hm1 : maps_wf (set_FILE_PATH_MAP (bm_remove (FILE_PATH_MAP s0) (arg_ptr env0 0)) s0)).
  { destruct Hm0 as (Hf & Hb & Ht). split; [|done]. intros k q. simpl.
    rewrite bm_get_remove. case_decide; [done|by apply Hf]. }
  destruct (runs_no_path tr _ s2 (arg_ptr env0 0) Hm1 Hk) as [Hm2 Hpath]; [|done|].
  { simpl. by rewrite bm_get_remove, decide_True. }
  apply run_probe_post in Hr as (_ & Hit & _); [|done..].
  rewrite Hit. replace (submitted p env s2) with (@nil mem); [by rewrite app_nil_r|].
  unfold submitted. case_match; [|done].
  destruct (probe_event p env s2) as [e|] eqn:He; [|done].
  destruct (probe_event_path _ _ _ _ _ Hrep He) as (path & Hg & _). congruence.
Qed.
End theorems.

(** ** The theorems at concrete runs *)

Abbreviation S_ := (KState list_ring fin_bpf_map).

(** A file record of a regular file at address 4096, opened under [a/b]. *)
Definition open_env : Env :=
  sample_env 7 8 [4096; 4096; 0; 0; 100] S_IFREG [x61; x2f; x62; x00].
Definition open_state : S_ := sample_state [(FilterOwner_File, FilterKey_Pid 7)] (Some 127).
Definition opened_state : S_ := (run_probe P_file_open open_env open_state).2.
Definition read_state : S_ := (run_probe P_vfs_read open_env opened_state).2.
Definition read_record : mem := nth 0 (rb_items (EVENTS read_state)) [].
Definition read_event : RawEvent :=
  RawRead {| rr_header := build_event_header open_env EventType_FileRead;
             rr_file_path := [x61; x2f; x62; x00] ++ replicate 252 x00;
             rr_file_mode := {| mode := 1 |}; rr_inode := 4097; rr_retval := 100;
             rr_flags := 0 |}.

Lemma open_env_wf : Env_wf open_env.
Proof. apply sample_env_wf. Qed.
Lemma open_state_wf : maps_wf open_state.
Proof. apply sample_state_maps_wf. Qed.
Lemma opened_run : run_probe P_file_open open_env open_state = (Ok 0, opened_state).
Proof. reflexivity. Qed.
Lemma opened_state_wf : maps_wf opened_state.
Proof. eapply kernel_post_maps_wf, run_probe_post; eauto using open_env_wf, open_state_wf, opened_run. Qed.
Lemma read_run : run_probe P_vfs_read open_env opened_state = (Ok 0, read_state).
Proof. vm_compute. reflexivity. Qed.
Lemma read_items : rb_items (EVENTS read_state) = rb_items (EVENTS opened_state) ++ [read_record].
Proof. vm_compute. reflexivity. Qed.
Lemma read_record_eq : read_record = raw_put read_event.
Proof. vm_compute. reflexivity. Qed.

Lemma run_probe_filter_witness :
  ∃ h, @ptr_read () _ RawEventHeader_codec read_record = Ok h ∧ key_matches (FilterKey_Pid 7) h.
Proof.
  apply (run_probe_filter P_vfs_read open_env opened_state 0 read_state FilterOwner_File
           (FilterKey_Pid 7) [read_record] read_record).
  - apply open_env_wf.
  - apply opened_state_wf.
  - apply read_run.
  - reflexivity.
  - reflexivity.
  - apply read_items.
  - apply list_elem_of_here.
Defined.

Lemma path_of_open_file_witness :
  ∃ e, read_record = raw_put e ∧
       raw_file_path e = Some ([x61; x2f; x62; x00] ++ replicate 252 x00).
Proof.
  apply (path_of_open_file open_env open_state 0 ([x61; x2f; x62; x00] ++ replicate 252 x00) []
           opened_state P_vfs_read open_env 0 read_state [read_record] read_record 4096).
  - apply open_env_wf.
  - apply open_state_wf.
  - reflexivity.
  - discriminate.
  - reflexivity.
  - vm_compute. reflexivity.
  - lia.
  - vm_compute. eexists. reflexivity.
  - reflexivity.
  - constructor.
  - apply open_env_wf.
  - reflexivity.
  - apply read_run.
  - apply read_items.
  - apply list_elem_of_here.
Defined.

Lemma run_probe_file_type_witness :
  ∃ config, bm_get (CONFIG opened_state) 0 = Some config ∧ 1 ∈ type_bits ∧ 1 ≠ 0 ∧
            Z.land (mode config) 1 = 1.
Proof.
  apply (run_probe_file_type P_vfs_read open_env opened_state read_event {| mode := 1 |});
    [|reflexivity].
  apply adds_record_compute; [apply opened_state_wf|vm_compute; reflexivity..].
Defined.

(** A connect, from the initial maps. *)
Definition connect_env : Env := sample_env 7 8 [4096; 0; 0; -115] 0 [].
Definition start_state : S_ := sample_state [] None.
Definition connect_state : S_ := (run_probe P_tcp_v4_connect connect_env start_state).2.
Definition connect_record : mem := nth 0 (rb_items (EVENTS connect_state)) [].

Lemma programs_reach starts (k k' : S_) ts ts' :
  kinit k → rtc (mstep starts) (mkMachine k ts) (mkMachine k' ts') →
  ts = [] → kreach starts (mkMachine k' ts').
Proof.
  intros Hk Hs ->. exists k. split; [done|].
  eapply rtc_subrel; [|exact Hs]. intros m m'. by apply KPrograms.
Qed.

Lemma ring_records_reachable_witness :
  ∃ e, connect_record = raw_put e ∧ raw_ok e ∧ ∀ r, e = RawRename r → rn_flags r = 0.
Proof.
  apply (ring_records_reachable (fun _ _ => True) (mkMachine connect_state []) connect_record).
  - eapply (programs_reach _ start_state); [apply sample_state_kinit| |done].
    apply (run_alone _ P_tcp_v4_connect connect_env _ _ 0); [done|apply sample_env_wf| |].
    + by intros (th & Hth%not_elem_of_nil & _).
    + vm_compute. reflexivity.
  - apply (bool_decide_unpack _). vm_compute. exact I.
Defined.

(** A connect that reserved its entry, when an exit interrupts it. *)
Definition started_connect : Machine list_ring nat fin_bpf_map :=
  mkMachine start_state [mkThread P_tcp_v4_connect connect_env (probe_code P_tcp_v4_connect connect_env)].
Definition reserved_connect : Machine list_ring nat fin_bpf_map :=
  default started_connect (advance 0 started_connect).
Definition interrupted : Machine list_ring nat fin_bpf_map :=
  mkMachine (kernel reserved_connect) (threads reserved_connect ++
    [mkThread P_do_group_exit connect_env (probe_code P_do_group_exit connect_env)]).

Lemma interrupted_run : rtc (mstep (fun _ _ => True)) (mkMachine start_state []) interrupted.
Proof.
  eapply rtc_l; [apply (MStart _ P_tcp_v4_connect connect_env); [done|apply sample_env_wf|]|].
  { right. by intros (th & Hth%not_elem_of_nil & _). }
  eapply rtc_l; [apply (advance_mstep _ 0 _ reserved_connect); reflexivity|].
  apply rtc_once.
  change reserved_connect with (mkMachine (kernel reserved_connect) (threads reserved_connect)).
  apply MStart; [done|apply sample_env_wf|]. right. intros (th & Hth & Hp & _).
  assert (Ht : th_probe th ∈ [P_tcp_v4_connect]) by exact (list_elem_of_fmap_2 th_probe _ _ Hth).
  rewrite Hp in Ht. by apply list_elem_of_singleton in Ht.
Qed.

Lemma interrupted_no_null th :
  th ∈ threads interrupted → ¬ null_deref (th_probe th) (th_env th).
Proof.
  intros Hth. assert (Ht : th_probe th ∈ [P_tcp_v4_connect; P_do_group_exit])
    by exact (list_elem_of_fmap_2 th_probe _ _ Hth).
  rewrite !elem_of_cons in Ht. destruct Ht as [->|[->|?%not_elem_of_nil]]; by intros ?.
Qed.

Lemma programs_settle_witness :
  busy (rb_slots (EVENTS (kernel interrupted))) ≠ [] ∧
  ∃ k, rtc (mstep (fun _ _ => False)) interrupted (mkMachine k []) ∧
       busy (rb_slots (EVENTS k)) = [] ∧ rb_visible (EVENTS k) = rb_items (EVENTS k).
Proof.
  split; [vm_compute; discriminate|]. apply (programs_settle (fun _ _ => True) interrupted).
  - eapply (programs_reach _ start_state); [apply sample_state_kinit|apply interrupted_run|done].
  - apply interrupted_no_null.
Defined.

Lemma run_probe_refines_witness :
  ∃ s', run_probe P_vfs_read open_env opened_state = (Ok 0, s') ∧
        kernel_post P_vfs_read open_env opened_state s'.
Proof.
  apply (run_probe_refines P_vfs_read open_env opened_state).
  - apply open_env_wf.
  - apply opened_state_wf.
  - vm_compute. discriminate.
Defined.

Definition released_state : S_ := (run_probe P_fput open_env opened_state).2.

Lemma fput_forgets_path_witness :
  rb_items (EVENTS (run_probe P_vfs_read open_env released_state).2)
  = rb_items (EVENTS released_state).
Proof.
  apply (fput_forgets_path open_env opened_state [] released_state P_vfs_read open_env 0
           (run_probe P_vfs_read open_env released_state).2 4096).
  - apply open_env_wf.
  - apply opened_state_wf.
  - reflexivity.
  - reflexivity.
  - constructor.
  - apply open_env_wf.
  - reflexivity.
  - vm_compute. reflexivity.
Defined.

(** ** Runs outside of the promises *)

Definition munmap_env : Env := sample_env 9 9 [0x7000; 4096; 0; 0] 0 [].

(** The memory filter does not reach [__vm_munmap]: with a filter for
    process 7, an unmap by process 9 is reported, while a map by process 9 is
    not. *)
Theorem munmap_ignores_filter :
  let s := (sample_state [(FilterOwner_Memory, FilterKey_Pid 7)] None : S_) in
  (∃ h, ptr_read (E := ()) RawEventHeader_codec
          (nth 0 (rb_items (EVENTS (run_probe P_vm_munmap munmap_env s).2)) []) = Ok h ∧
        ¬ key_matches (FilterKey_Pid 7) h) ∧
  rb_items (EVENTS (run_probe P_vm_mmap_pgoff munmap_env s).2) = [].
Proof.
  split; [|vm_compute; reflexivity].
  eexists. split; [vm_compute; reflexivity|]. vm_compute. discriminate.
Qed.

(** (C38) The null checks of [filp_close], [inet_bind] and [inet_listen] come
    after the pointer was used: with a null argument the run ends in an access
    through it, although the code compares that pointer to null further on. *)
Theorem null_check_after_use (p : Probe) (env : Env) :
  p = P_filp_close ∨ p = P_inet_bind ∨ p = P_inet_listen → arg_ptr env 0 = 0 →
  (run_probe p env start_state).1 = UB.
Proof.
  intros [->|[->| ->]] Hz; unfold run_probe; cbn [probe_code].
  - unfold filp_close. rewrite run_code_catch.
    assert (Hu : (run_code (try_flip_close env) start_state).1 = UB).
    { unfold try_flip_close. rewrite Hz. vm_compute. reflexivity. }
    destruct (run_code _ _) as [[] ?]; done.
  - unfold inet_bind, try_inet_bind. rewrite Hz. reflexivity.
  - unfold inet_listen, try_inet_listen. rewrite Hz. reflexivity.
Qed.

Lemma null_check_after_use_witness : (run_probe P_inet_bind (sample_env 1 1 [] 0 []) start_state).1 = UB.
Proof. apply (null_check_after_use P_inet_bind (sample_env 1 1 [] 0 [])); [right; left|]; reflexivity. Defined.
