(* ===== verification/Common.v ===== *)
(** * Common event metadata, and text

    [src/common.rs] ([EventHeader], [ProcessId]), [src/error.rs] ([Error]), and
    the parts of [std::fmt] that the [Display] impls of the crate use. *)

From Stdlib Require Import Ascii.
From S2P Require Import Prelude Utf8.

Abbreviation str := String.string.
#[local] Open Scope string_scope.
#[local] Open Scope Z_scope.

(** ** [std::fmt]: [{}] and [{:#x}] of integers *)

Definition dec (z : Z) : str := pretty z.

Definition hex_digit (d : Z) : ascii :=
  match d with
  | 0 => "0" | 1 => "1" | 2 => "2" | 3 => "3" | 4 => "4" | 5 => "5" | 6 => "6" | 7 => "7"
  | 8 => "8" | 9 => "9" | 10 => "a" | 11 => "b" | 12 => "c" | 13 => "d" | 14 => "e" | _ => "f"
  end%char.

(** Digits from the least significant one; 16 of them are enough for 64 bits. *)
Fixpoint hex_go (fuel : nat) (z : Z) (acc : str) : str :=
  match fuel with
  | O => acc
  | S fuel =>
      let acc := String (hex_digit (z mod 16)) acc in
      if z / 16 =? 0 then acc else hex_go fuel (z / 16) acc
  end.

Definition hex (z : Z) : str := "0x" +:+ hex_go 16 z "".

(** ** Headers *)

Record ProcessId := { pid : Z; tid : Z }.

#[global] Instance ProcessId_eq_dec : EqDecision ProcessId.
Proof. solve_decision. Defined.

Record EventHeader := {
  eh_timestamp_ns : Z;
  eh_pid : Z;
  eh_tid : Z;
  eh_ppid : Z;
  eh_uid : Z;
  eh_gid : Z;
  eh_comm : str;
}.

#[global] Instance EventHeader_eq_dec : EqDecision EventHeader.
Proof. solve_decision. Defined.

Definition EventHeader_fmt (h : EventHeader) : str :=
  dec (eh_timestamp_ns h) +:+ " pid=" +:+ dec (eh_pid h) +:+ " tid=" +:+ dec (eh_tid h)
  +:+ " ppid=" +:+ dec (eh_ppid h) +:+ " uid=" +:+ dec (eh_uid h)
  +:+ " gid=" +:+ dec (eh_gid h) +:+ " comm=" +:+ eh_comm h.

Definition EventHeader_process (h : EventHeader) : ProcessId :=
  {| pid := eh_pid h; tid := eh_tid h |}.

Definition EventHeader_is_kernel_thread (h : EventHeader) : bool := eh_pid h =? 0.

(** [std::time::Duration]. *)
Record Duration := { d_secs : Z; d_nanos : Z }.

Definition Duration_from_nanos (n : Z) : Duration :=
  {| d_secs := n / 1000000000; d_nanos := n mod 1000000000 |}.

Definition Duration_as_nanos (d : Duration) : Z := d_secs d * 1000000000 + d_nanos d.

Definition EventHeader_timestamp (h : EventHeader) : Duration :=
  Duration_from_nanos (eh_timestamp_ns h).

(** ** Errors

    [X] is the type of the errors of [aya] and [std::io]. *)

Inductive Error (X : Type) :=
| Error_Btf (e : X)
| Error_Load (e : X)
| Error_Attach (e : X)
| Error_Io (e : X)
| Error_Map (e : X)
| Error_Unsupported
| Error_InvalidFilter
| Error_ProgramAccess
| Error_NoActiveSubscriptions
| Error_FilterMapAccess
| Error_ConfigMapAccess
| Error_EventsMapAccess.
Arguments Error_Btf {X}.
Arguments Error_Load {X}.
Arguments Error_Attach {X}.
Arguments Error_Io {X}.
Arguments Error_Map {X}.
Arguments Error_Unsupported {X}.
Arguments Error_InvalidFilter {X}.
Arguments Error_ProgramAccess {X}.
Arguments Error_NoActiveSubscriptions {X}.
Arguments Error_FilterMapAccess {X}.
Arguments Error_ConfigMapAccess {X}.
Arguments Error_EventsMapAccess {X}.

(** [Display for Error]; [fmt] is the one of the wrapped errors. *)
Definition Error_fmt {X} (fmt : X → str) (e : Error X) : str :=
  match e with
  | Error_Btf e => fmt e
  | Error_Load _ => "failed to load eBPF program"
  | Error_Attach _ => "failed to attach eBPF program"
  | Error_Io e => fmt e
  | Error_Map e => fmt e
  | Error_Unsupported => "unsupported kernel feature"
  | Error_InvalidFilter => "invalid filter"
  | Error_ProgramAccess => "failed to retrieve eBPF program"
  | Error_NoActiveSubscriptions => "no active event subscriptions remain"
  | Error_FilterMapAccess => "failed to access FILTER map"
  | Error_ConfigMapAccess => "failed to access CONFIG map"
  | Error_EventsMapAccess => "failed to access EVENTS ring buffer"
  end.

(** ** Bit masks

    The masks of the crate are [struct _(u8)] with the same [contains]. *)

Definition mask_contains (m other : Z) : bool := Z.land m other =? other.

(** ** Lemmas *)

Lemma mask_contains_testbit m k :
  0 ≤ k → mask_contains m (2 ^ k) = Z.testbit m k.
Proof.
  intros Hk. unfold mask_contains. rewrite land_pow2 by done. pose proof (Z.pow_pos_nonneg 2 k).
  destruct (Z.testbit m k); [by rewrite Z.eqb_refl | apply Z.eqb_neq; lia].
Qed.

Lemma mask_contains_spec m o :
  mask_contains m o = true ↔ ∀ k, 0 ≤ k → Z.testbit o k = true → Z.testbit m k = true.
Proof.
  unfold mask_contains. rewrite Z.eqb_eq. split.
  - intros He k Hk Ho. rewrite <- He, Z.land_spec in Ho. by apply andb_true_iff in Ho as [].
  - intros Hs. apply Z.bits_inj'. intros k Hk. rewrite Z.land_spec.
    destruct (Z.testbit o k) eqn:Ho; [by rewrite Hs|by rewrite andb_false_r].
Qed.

(** A union contains what its parts together contain, for a one-bit mask. *)
Lemma mask_contains_lor a b k :
  0 ≤ k → mask_contains (Z.lor a b) (2 ^ k) = mask_contains a (2 ^ k) || mask_contains b (2 ^ k).
Proof. intros Hk. by rewrite !mask_contains_testbit, Z.lor_spec. Qed.

Lemma mask_lor_u8 a b : in_u 8 a → in_u 8 b → in_u 8 (Z.lor a b).
Proof.
  unfold in_u. intros [Ha Ha'] [Hb Hb']. assert (0 ≤ Z.lor a b) by by apply Z.lor_nonneg.
  split; [done|]. destruct (Z.eq_dec (Z.lor a b) 0) as [->|]; [done|].
  apply Z.log2_lt_pow2; [lia|]. rewrite Z.log2_lor by done.
  assert (Hlog : ∀ x, 0 ≤ x → x < 2 ^ 8 → Z.log2 x < 8).
  { intros x Hx Hx'. destruct (Z.eq_dec x 0) as [->|]; [done|]. apply Z.log2_lt_pow2; lia. }
  apply Z.max_lub_lt; auto.
Qed.

(** *** Text without spaces *)

Fixpoint no_space (s : str) : bool :=
  match s with
  | EmptyString => true
  | String c s => negb (bool_decide (c = " "%char)) && no_space s
  end.

Lemma no_space_app s t : no_space (s +:+ t) = no_space s && no_space t.
Proof. induction s as [|c s IH]; simpl; [done|]. by rewrite IH, andb_assoc. Qed.

(** The first space splits a text in one way. *)
Lemma split_at_space s1 s2 t1 t2 :
  no_space s1 = true → no_space s2 = true →
  s1 +:+ String " " t1 = s2 +:+ String " " t2 → s1 = s2 ∧ t1 = t2.
Proof.
  revert s2. induction s1 as [|c s1 IH]; intros [|c' s2] H1 H2 He; simpl in H1, H2.
  - split; [done|]. by injection He.
  - injection He as <- _. done.
  - injection He as -> _. done.
  - injection He as <- He. apply andb_true_iff in H1 as [_ H1], H2 as [_ H2].
    by destruct (IH s2 H1 H2 He) as [-> ->].
Qed.

Lemma pretty_N_go_no_space (n : N) s : no_space s = true → no_space (pretty_N_go n s) = true.
Proof.
  revert s. induction n as [n IH] using (well_founded_induction N.lt_wf_0); intros s Hs.
  destruct (decide (0 < n)%N) as [Hn|Hn].
  - rewrite pretty_N_go_step by done. apply IH; [apply N.div_lt; lia|]. simpl.
    rewrite Hs. unfold pretty_N_char. repeat case_match; done.
  - assert (n = 0%N) as -> by lia. by rewrite pretty_N_go_0.
Qed.

Lemma dec_no_space z : no_space (dec z) = true.
Proof.
  unfold dec, pretty, pretty_Z. destruct z as [|p|p]; [done| |]; unfold pretty, pretty_positive, pretty, pretty_N;
    repeat case_decide; try done; try (by apply pretty_N_go_no_space);
    simpl; by apply pretty_N_go_no_space.
Qed.

Lemma dec_inj z1 z2 : dec z1 = dec z2 → z1 = z2.
Proof. intros H. by apply (inj pretty) in H. Qed.

Lemma dec_field z1 z2 t1 t2 :
  dec z1 +:+ String " " t1 = dec z2 +:+ String " " t2 → z1 = z2 ∧ t1 = t2.
Proof.
  intros He. destruct (split_at_space _ _ _ _ (dec_no_space z1) (dec_no_space z2) He) as [Hd ->].
  by apply dec_inj in Hd.
Qed.
