(* ===== verification/Process.v ===== *)
(** * Process events

    [src/process.rs]: the events, their accessors and text, the event mask and
    the subscription filter.  Subscribing is in [Subscribe.v]. *)

From S2P Require Import Prelude Raw Common.

#[local] Open Scope string_scope.
#[local] Open Scope Z_scope.

(** ** Events *)

Record ProcessStartEvent := { pse_header : EventHeader; pse_filename : str }.
Record ProcessExitEvent := { pxe_header : EventHeader; pxe_exit_code : Z }.
Record ProcessForkEvent := {
  pfe_parent : EventHeader;
  pfe_child_pid : Z;
  pfe_child_comm : str;
}.

Inductive ProcessEvent :=
| ProcessEvent_Start (e : ProcessStartEvent)
| ProcessEvent_Fork (e : ProcessForkEvent)
| ProcessEvent_Exit (e : ProcessExitEvent).

(** [((self.exit_code << 8) & 0xff) as u8] on an [i32]. *)
Definition ProcessExitEvent_status (e : ProcessExitEvent) : Z :=
  u_wrap 8 (Z.land (s_wrap 32 (Z.shiftl (pxe_exit_code e) 8)) 0xff).

Definition ProcessStartEvent_fmt (e : ProcessStartEvent) : str :=
  EventHeader_fmt (pse_header e) +:+ " START " +:+ pse_filename e.
Definition ProcessExitEvent_fmt (e : ProcessExitEvent) : str :=
  EventHeader_fmt (pxe_header e) +:+ " EXIT " +:+ dec (ProcessExitEvent_status e).
Definition ProcessForkEvent_fmt (e : ProcessForkEvent) : str :=
  EventHeader_fmt (pfe_parent e) +:+ " FORK " +:+ pfe_child_comm e +:+ "("
  +:+ dec (pfe_child_pid e) +:+ ")".

Definition ProcessEvent_fmt (e : ProcessEvent) : str :=
  match e with
  | ProcessEvent_Start e => ProcessStartEvent_fmt e
  | ProcessEvent_Fork e => ProcessForkEvent_fmt e
  | ProcessEvent_Exit e => ProcessExitEvent_fmt e
  end.

Definition ProcessEvent_header (e : ProcessEvent) : EventHeader :=
  match e with
  | ProcessEvent_Start e => pse_header e
  | ProcessEvent_Fork e => pfe_parent e
  | ProcessEvent_Exit e => pxe_header e
  end.

Definition ProcessEvent_process (e : ProcessEvent) : ProcessId :=
  EventHeader_process (ProcessEvent_header e).
Definition ProcessEvent_timestamp (e : ProcessEvent) : Duration :=
  EventHeader_timestamp (ProcessEvent_header e).
Definition ProcessEvent_is_kernel_thread (e : ProcessEvent) : bool :=
  EventHeader_is_kernel_thread (ProcessEvent_header e).

Definition ProcessEvent_is_start (e : ProcessEvent) : bool :=
  match e with ProcessEvent_Start _ => true | _ => false end.
Definition ProcessEvent_is_fork (e : ProcessEvent) : bool :=
  match e with ProcessEvent_Fork _ => true | _ => false end.
Definition ProcessEvent_is_exit (e : ProcessEvent) : bool :=
  match e with ProcessEvent_Exit _ => true | _ => false end.

(** ** Mask and filter *)

Record ProcessMask := MkProcessMask { process_mask : Z }.

Definition ProcessMask_START : ProcessMask := MkProcessMask (Z.shiftl 1 0).
Definition ProcessMask_FORK : ProcessMask := MkProcessMask (Z.shiftl 1 1).
Definition ProcessMask_EXIT : ProcessMask := MkProcessMask (Z.shiftl 1 2).
Definition ProcessMask_ALL : ProcessMask :=
  MkProcessMask (Z.lor (Z.lor (process_mask ProcessMask_START) (process_mask ProcessMask_FORK))
                  (process_mask ProcessMask_EXIT)).

Definition ProcessMask_contains (m other : ProcessMask) : bool :=
  mask_contains (process_mask m) (process_mask other).
Definition ProcessMask_bitor (m rhs : ProcessMask) : ProcessMask :=
  MkProcessMask (Z.lor (process_mask m) (process_mask rhs)).

(** [impl BitOrAssign]: the new value of [self]. *)
Definition ProcessMask_bitor_assign (self rhs : ProcessMask) : ProcessMask :=
  MkProcessMask (Z.lor (process_mask self) (process_mask rhs)).

Record ProcessFilter := { pf_mask : ProcessMask; pf_filter : FilterKey }.

Definition ProcessFilter_bitor (f rhs : ProcessFilter) : ProcessFilter :=
  {| pf_mask := ProcessMask_bitor (pf_mask f) (pf_mask rhs); pf_filter := pf_filter f |}.

Definition ProcessFilter_default : ProcessFilter :=
  {| pf_mask := ProcessMask_ALL; pf_filter := FilterKey_None |}.
Definition ProcessFilter_START : ProcessFilter :=
  {| pf_mask := ProcessMask_START; pf_filter := FilterKey_None |}.
Definition ProcessFilter_FORK : ProcessFilter :=
  {| pf_mask := ProcessMask_FORK; pf_filter := FilterKey_None |}.
Definition ProcessFilter_EXIT : ProcessFilter :=
  {| pf_mask := ProcessMask_EXIT; pf_filter := FilterKey_None |}.
Definition ProcessFilter_ALL : ProcessFilter :=
  {| pf_mask := ProcessMask_ALL; pf_filter := FilterKey_None |}.

(** ** Lemmas *)

Lemma ProcessMask_contains_bitor a b m k :
  0 ≤ k → process_mask m = 2 ^ k →
  ProcessMask_contains (ProcessMask_bitor a b) m
  = ProcessMask_contains a m || ProcessMask_contains b m.
Proof. intros Hk Hm. unfold ProcessMask_contains. rewrite Hm. by apply mask_contains_lor. Qed.

(** The event is exactly one of the three kinds. *)
Lemma ProcessEvent_kinds e :
  (Nat.b2n (ProcessEvent_is_start e) + Nat.b2n (ProcessEvent_is_fork e)
   + Nat.b2n (ProcessEvent_is_exit e) = 1)%nat.
Proof. by destruct e. Qed.
