(* ===== verification/Memory.v ===== *)
(** * Memory events

    [src/memory.rs]: the events, their accessors and text, the event mask and
    the subscription filter. *)

From S2P Require Import Prelude Raw Common.

#[local] Open Scope string_scope.
#[local] Open Scope Z_scope.

(** ** Events *)

Record MemoryMapEvent := {
  mme_header : EventHeader;
  mme_requested_address : Z;
  mme_length : Z;
  mme_protection : Z;
  mme_flags : Z;
  mme_mapped_address : Z;
}.

Record MemoryUnmapEvent := {
  mue_header : EventHeader;
  mue_requested_address : Z;
  mue_length : Z;
  mue_mapped_address : Z;
}.

Inductive MemoryEvent :=
| MemoryEvent_MemoryMap (e : MemoryMapEvent)
| MemoryEvent_MemoryUnMap (e : MemoryUnmapEvent).

Definition MemoryMapEvent_fmt (e : MemoryMapEvent) : str :=
  EventHeader_fmt (mme_header e) +:+ " MMAP addr=" +:+ hex (mme_requested_address e)
  +:+ " len=" +:+ hex (mme_length e) +:+ " -> " +:+ hex (mme_mapped_address e).
Definition MemoryUnmapEvent_fmt (e : MemoryUnmapEvent) : str :=
  EventHeader_fmt (mue_header e) +:+ " MUNMAP addr=" +:+ hex (mue_requested_address e)
  +:+ " len=" +:+ hex (mue_length e).

Definition MemoryEvent_fmt (e : MemoryEvent) : str :=
  match e with
  | MemoryEvent_MemoryMap e => MemoryMapEvent_fmt e
  | MemoryEvent_MemoryUnMap e => MemoryUnmapEvent_fmt e
  end.

Definition MemoryEvent_header (e : MemoryEvent) : EventHeader :=
  match e with
  | MemoryEvent_MemoryMap e => mme_header e
  | MemoryEvent_MemoryUnMap e => mue_header e
  end.

Definition MemoryEvent_process (e : MemoryEvent) : ProcessId :=
  EventHeader_process (MemoryEvent_header e).
Definition MemoryEvent_timestamp (e : MemoryEvent) : Duration :=
  EventHeader_timestamp (MemoryEvent_header e).
Definition MemoryEvent_is_kernel_thread (e : MemoryEvent) : bool :=
  EventHeader_is_kernel_thread (MemoryEvent_header e).

Definition MemoryEvent_is_mmap (e : MemoryEvent) : bool :=
  match e with MemoryEvent_MemoryMap _ => true | _ => false end.
Definition MemoryEvent_is_unmap (e : MemoryEvent) : bool :=
  match e with MemoryEvent_MemoryUnMap _ => true | _ => false end.

(** ** Mask and filter *)

Record MemoryMask := MkMemoryMask { memory_mask : Z }.

Definition MemoryMask_MMAP : MemoryMask := MkMemoryMask (Z.shiftl 1 0).
Definition MemoryMask_UNMAP : MemoryMask := MkMemoryMask (Z.shiftl 1 1).
Definition MemoryMask_ALL : MemoryMask :=
  MkMemoryMask (Z.lor (memory_mask MemoryMask_MMAP) (memory_mask MemoryMask_UNMAP)).

Definition MemoryMask_contains (m other : MemoryMask) : bool :=
  mask_contains (memory_mask m) (memory_mask other).
Definition MemoryMask_bitor (m rhs : MemoryMask) : MemoryMask :=
  MkMemoryMask (Z.lor (memory_mask m) (memory_mask rhs)).

(** [impl BitOrAssign]: the new value of [self]. *)
Definition MemoryMask_bitor_assign (self rhs : MemoryMask) : MemoryMask :=
  MkMemoryMask (Z.lor (memory_mask self) (memory_mask rhs)).

Record MemoryFilter := { mf_mask : MemoryMask; mf_filter : FilterKey }.

Definition MemoryFilter_default : MemoryFilter :=
  {| mf_mask := MemoryMask_ALL; mf_filter := FilterKey_None |}.
Definition MemoryFilter_ALL : MemoryFilter :=
  {| mf_mask := MemoryMask_ALL; mf_filter := FilterKey_None |}.
Definition MemoryFilter_MMAP : MemoryFilter :=
  {| mf_mask := MemoryMask_MMAP; mf_filter := FilterKey_None |}.
Definition MemoryFilter_UNMAP : MemoryFilter :=
  {| mf_mask := MemoryMask_UNMAP; mf_filter := FilterKey_None |}.

Definition MemoryFilter_bitor (f rhs : MemoryFilter) : MemoryFilter :=
  {| mf_mask := MemoryMask_bitor (mf_mask f) (mf_mask rhs); mf_filter := mf_filter f |}.

(** ** Lemmas *)

Lemma MemoryMask_contains_bitor a b m k :
  0 ≤ k → memory_mask m = 2 ^ k →
  MemoryMask_contains (MemoryMask_bitor a b) m
  = MemoryMask_contains a m || MemoryMask_contains b m.
Proof. intros Hk Hm. unfold MemoryMask_contains. rewrite Hm. by apply mask_contains_lor. Qed.
