(* ===== verification/Network.v ===== *)
(** * Network events

    [src/network.rs]: protocols, endpoints, the events with their accessors and
    text, the two masks and the subscription filter. *)

From S2P Require Import Prelude Raw Common.

#[local] Open Scope string_scope.
#[local] Open Scope Z_scope.

Inductive Protocol := Protocol_Tcp | Protocol_Udp.

#[global] Instance Protocol_eq_dec : EqDecision Protocol.
Proof. solve_decision. Defined.

Definition Protocol_fmt (p : Protocol) : str :=
  match p with Protocol_Tcp => "TCP" | Protocol_Udp => "UDP" end.

(** ** Addresses

    [std::net::IpAddr], by its octets. *)
Inductive IpAddr := IpAddr_V4 (octets : list byte) | IpAddr_V6 (octets : list byte).

(** *** [Display for Ipv4Addr] and [Ipv6Addr] *)

Definition Ipv4Addr_fmt (o : list byte) : str :=
  String.concat "." (map (fun b => dec (byte_to_Z b)) o).

(** The eight 16-bit segments, in network order. *)
Fixpoint segments (o : list byte) : list Z :=
  match o with
  | hi :: lo :: o => 256 * byte_to_Z hi + byte_to_Z lo :: segments o
  | _ => []
  end.

(** The first longest run of zero segments: its start and length. *)
Record span := Span { sp_start : nat; sp_len : nat }.

Fixpoint longest_zeros (i : nat) (cur best : span) (segs : list Z) : span :=
  match segs with
  | [] => best
  | s :: segs =>
      if s =? 0 then
        let cur := Span (if (sp_len cur =? 0)%nat then i else sp_start cur) (S (sp_len cur)) in
        longest_zeros (S i) cur (if (sp_len best <? sp_len cur)%nat then cur else best) segs
      else longest_zeros (S i) (Span 0 0) best segs
  end.

Definition fmt_subslice (segs : list Z) : str :=
  String.concat ":" (map (fun s => hex_go 16 s "") segs).

Definition ipv4_mapped (o : list byte) : bool :=
  bool_decide (take 12 o = (replicate 10 x00 ++ [xff; xff])%list).

Definition Ipv6Addr_fmt (o : list byte) : str :=
  if ipv4_mapped o then "::ffff:" +:+ Ipv4Addr_fmt (drop 12 o)
  else
    let segs := segments o in
    let best := longest_zeros 0 (Span 0 0) (Span 0 0) segs in
    if (1 <? sp_len best)%nat
    then fmt_subslice (take (sp_start best) segs) +:+ "::"
         +:+ fmt_subslice (drop (sp_start best + sp_len best) segs)
    else fmt_subslice segs.

Definition IpAddr_fmt (a : IpAddr) : str :=
  match a with
  | IpAddr_V4 o => Ipv4Addr_fmt o
  | IpAddr_V6 o => Ipv6Addr_fmt o
  end.

Example IpAddr_fmt_samples :
  map IpAddr_fmt
    ([IpAddr_V4 [x7f; x00; x00; x01];
     IpAddr_V6 (replicate 16 x00); IpAddr_V6 (replicate 15 x00 ++ [x01]);
     IpAddr_V6 ([x20; x01; x0d; xb8; x00; x00; x00; x00; x00; x01] ++ replicate 5 x00 ++ [x01]);
     IpAddr_V6 (replicate 10 x00 ++ [xff; xff; x7f; x00; x00; x01])])%list
  = ["127.0.0.1"; "::"; "::1"; "2001:db8::1:0:0:1"; "::ffff:127.0.0.1"].
Proof. vm_compute. reflexivity. Qed.

Record SocketEndpoints := {
  local_ip : IpAddr;
  local_port : Z;
  remote_ip : IpAddr;
  remote_port : Z;
}.

Definition SocketEndpoints_fmt (e : SocketEndpoints) : str :=
  IpAddr_fmt (local_ip e) +:+ ":" +:+ dec (local_port e) +:+ " -> "
  +:+ IpAddr_fmt (remote_ip e) +:+ ":" +:+ dec (remote_port e).

(** ** Events *)

Record ConnectEvent := {
  ce_header : EventHeader;
  ce_protocol : Protocol;
  ce_endpoints : SocketEndpoints;
  ce_retval : Z;
}.

Record AcceptEvent := {
  ae_header : EventHeader;
  ae_protocol : Protocol;
  ae_endpoints : SocketEndpoints;
}.

Record CloseEvent := {
  cl_header : EventHeader;
  cl_protocol : Protocol;
  cl_endpoints : SocketEndpoints;
}.

Record BindEvent := {
  be_header : EventHeader;
  be_protocol : Protocol;
  be_endpoints : SocketEndpoints;
  be_retval : Z;
}.

Record ListenEvent := {
  le_header : EventHeader;
  le_protocol : Protocol;
  le_endpoints : SocketEndpoints;
  le_retval : Z;
}.

Inductive NetworkEvent :=
| NetworkEvent_Connect (e : ConnectEvent)
| NetworkEvent_Accept (e : AcceptEvent)
| NetworkEvent_Close (e : CloseEvent)
| NetworkEvent_Bind (e : BindEvent)
| NetworkEvent_Listen (e : ListenEvent).

Definition ConnectEvent_fmt (e : ConnectEvent) : str :=
  EventHeader_fmt (ce_header e) +:+ " " +:+ Protocol_fmt (ce_protocol e) +:+ " CONNECT "
  +:+ SocketEndpoints_fmt (ce_endpoints e) +:+ " -> " +:+ dec (ce_retval e).
Definition AcceptEvent_fmt (e : AcceptEvent) : str :=
  EventHeader_fmt (ae_header e) +:+ " " +:+ Protocol_fmt (ae_protocol e) +:+ " ACCEPT "
  +:+ SocketEndpoints_fmt (ae_endpoints e).
Definition CloseEvent_fmt (e : CloseEvent) : str :=
  EventHeader_fmt (cl_header e) +:+ " " +:+ Protocol_fmt (cl_protocol e) +:+ " CLOSE "
  +:+ SocketEndpoints_fmt (cl_endpoints e).
Definition BindEvent_fmt (e : BindEvent) : str :=
  EventHeader_fmt (be_header e) +:+ " " +:+ Protocol_fmt (be_protocol e) +:+ " BIND "
  +:+ SocketEndpoints_fmt (be_endpoints e) +:+ " -> " +:+ dec (be_retval e).
Definition ListenEvent_fmt (e : ListenEvent) : str :=
  EventHeader_fmt (le_header e) +:+ " " +:+ Protocol_fmt (le_protocol e) +:+ " LISTEN "
  +:+ SocketEndpoints_fmt (le_endpoints e) +:+ " -> " +:+ dec (le_retval e).

Definition NetworkEvent_fmt (e : NetworkEvent) : str :=
  match e with
  | NetworkEvent_Connect e => ConnectEvent_fmt e
  | NetworkEvent_Accept e => AcceptEvent_fmt e
  | NetworkEvent_Close e => CloseEvent_fmt e
  | NetworkEvent_Bind e => BindEvent_fmt e
  | NetworkEvent_Listen e => ListenEvent_fmt e
  end.

Definition NetworkEvent_header (e : NetworkEvent) : EventHeader :=
  match e with
  | NetworkEvent_Connect e => ce_header e
  | NetworkEvent_Accept e => ae_header e
  | NetworkEvent_Close e => cl_header e
  | NetworkEvent_Bind e => be_header e
  | NetworkEvent_Listen e => le_header e
  end.

Definition NetworkEvent_process (e : NetworkEvent) : ProcessId :=
  EventHeader_process (NetworkEvent_header e).
Definition NetworkEvent_timestamp (e : NetworkEvent) : Duration :=
  EventHeader_timestamp (NetworkEvent_header e).
Definition NetworkEvent_is_kernel_thread (e : NetworkEvent) : bool :=
  EventHeader_is_kernel_thread (NetworkEvent_header e).

Definition NetworkEvent_protocol (e : NetworkEvent) : Protocol :=
  match e with
  | NetworkEvent_Connect e => ce_protocol e
  | NetworkEvent_Accept e => ae_protocol e
  | NetworkEvent_Close e => cl_protocol e
  | NetworkEvent_Bind e => be_protocol e
  | NetworkEvent_Listen e => le_protocol e
  end.

Definition NetworkEvent_is_tcp (e : NetworkEvent) : bool :=
  bool_decide (NetworkEvent_protocol e = Protocol_Tcp).
Definition NetworkEvent_is_udp (e : NetworkEvent) : bool :=
  bool_decide (NetworkEvent_protocol e = Protocol_Udp).

Definition NetworkEvent_endpoints (e : NetworkEvent) : SocketEndpoints :=
  match e with
  | NetworkEvent_Connect e => ce_endpoints e
  | NetworkEvent_Accept e => ae_endpoints e
  | NetworkEvent_Close e => cl_endpoints e
  | NetworkEvent_Bind e => be_endpoints e
  | NetworkEvent_Listen e => le_endpoints e
  end.

(** ** Masks and filter *)

Record ProtocolMask := MkProtocolMask { protocol_mask_bits : Z }.

Definition ProtocolMask_TCP : ProtocolMask := MkProtocolMask (Z.shiftl 1 0).
Definition ProtocolMask_UDP : ProtocolMask := MkProtocolMask (Z.shiftl 1 1).
Definition ProtocolMask_ALL : ProtocolMask :=
  MkProtocolMask (Z.lor (protocol_mask_bits ProtocolMask_TCP)
                        (protocol_mask_bits ProtocolMask_UDP)).

Definition ProtocolMask_contains (m other : ProtocolMask) : bool :=
  mask_contains (protocol_mask_bits m) (protocol_mask_bits other).
Definition ProtocolMask_bitor (m rhs : ProtocolMask) : ProtocolMask :=
  MkProtocolMask (Z.lor (protocol_mask_bits m) (protocol_mask_bits rhs)).

(** [impl BitOrAssign]: the new value of [self]. *)
Definition ProtocolMask_bitor_assign (self rhs : ProtocolMask) : ProtocolMask :=
  MkProtocolMask (Z.lor (protocol_mask_bits self) (protocol_mask_bits rhs)).

Record NetworkMask := MkNetworkMask { network_mask : Z }.

Definition NetworkMask_CONNECT : NetworkMask := MkNetworkMask (Z.shiftl 1 0).
Definition NetworkMask_ACCEPT : NetworkMask := MkNetworkMask (Z.shiftl 1 1).
Definition NetworkMask_CLOSE : NetworkMask := MkNetworkMask (Z.shiftl 1 2).
Definition NetworkMask_BIND : NetworkMask := MkNetworkMask (Z.shiftl 1 3).
Definition NetworkMask_LISTEN : NetworkMask := MkNetworkMask (Z.shiftl 1 4).
Definition NetworkMask_ALL : NetworkMask :=
  MkNetworkMask
    (Z.lor (Z.lor (Z.lor (Z.lor (network_mask NetworkMask_CONNECT) (network_mask NetworkMask_ACCEPT))
                         (network_mask NetworkMask_CLOSE))
                  (network_mask NetworkMask_BIND))
           (network_mask NetworkMask_LISTEN)).

Definition NetworkMask_contains (m other : NetworkMask) : bool :=
  mask_contains (network_mask m) (network_mask other).
Definition NetworkMask_bitor (m rhs : NetworkMask) : NetworkMask :=
  MkNetworkMask (Z.lor (network_mask m) (network_mask rhs)).

Definition NetworkMask_bitor_assign (self rhs : NetworkMask) : NetworkMask :=
  MkNetworkMask (Z.lor (network_mask self) (network_mask rhs)).

Record NetworkFilter := {
  nf_protocol_mask : ProtocolMask;
  nf_event_mask : NetworkMask;
  nf_filter : FilterKey;
}.

Definition NetworkFilter_default : NetworkFilter :=
  {| nf_protocol_mask := ProtocolMask_ALL; nf_event_mask := NetworkMask_ALL;
     nf_filter := FilterKey_None |}.
Definition NetworkFilter_ALL : NetworkFilter :=
  {| nf_protocol_mask := ProtocolMask_ALL; nf_event_mask := NetworkMask_ALL;
     nf_filter := FilterKey_None |}.
Definition NetworkFilter_TCP : NetworkFilter :=
  {| nf_protocol_mask := ProtocolMask_TCP; nf_event_mask := NetworkMask_ALL;
     nf_filter := FilterKey_None |}.
Definition NetworkFilter_UDP : NetworkFilter :=
  {| nf_protocol_mask := ProtocolMask_UDP; nf_event_mask := NetworkMask_ALL;
     nf_filter := FilterKey_None |}.

Definition NetworkFilter_bitor (f rhs : NetworkFilter) : NetworkFilter :=
  {| nf_protocol_mask := nf_protocol_mask f;
     nf_event_mask := NetworkMask_bitor (nf_event_mask f) (nf_event_mask rhs);
     nf_filter := nf_filter f |}.

(** ** Lemmas *)

Lemma NetworkMask_contains_bitor a b m k :
  0 ≤ k → network_mask m = 2 ^ k →
  NetworkMask_contains (NetworkMask_bitor a b) m
  = NetworkMask_contains a m || NetworkMask_contains b m.
Proof. intros Hk Hm. unfold NetworkMask_contains. rewrite Hm. by apply mask_contains_lor. Qed.

Lemma NetworkEvent_tcp_or_udp e : NetworkEvent_is_tcp e = negb (NetworkEvent_is_udp e).
Proof.
  unfold NetworkEvent_is_tcp, NetworkEvent_is_udp. by destruct (NetworkEvent_protocol e).
Qed.
