(* ===== verification/File.v ===== *)
(** * File events

    [src/file.rs]: open flags ([FileInfo]), file types, the events with their
    accessors, text and deduplication key, the masks and the subscription
    filter. *)

From Stdlib Require Import Ascii.
From S2P Require Import Prelude Raw Common.

#[local] Open Scope string_scope.
#[local] Open Scope Z_scope.

(** ** Open flags *)

(** [trait FileInfo]: [flags_raw], and the default methods. *)
Class FileInfo (T : Type) := flags_raw : T → Z.

Definition push_flag (flags flag : Z) (name : str) : list str :=
  if negb (Z.land flags flag =? 0) then [name] else [].

Section file_info.
Context {T} `{!FileInfo T}.

Definition FileInfo_is_read (self : T) : bool :=
  let m := Z.land (flags_raw self) O_ACCMODE in (m =? O_RDONLY) || (m =? O_RDWR).

Definition FileInfo_is_write (self : T) : bool :=
  let m := Z.land (flags_raw self) O_ACCMODE in (m =? O_WRONLY) || (m =? O_RDWR).

Definition FileInfo_has_flag (self : T) (flag : Z) : bool :=
  negb (Z.land (flags_raw self) flag =? 0).

Definition access_mode_name (flags : Z) : list str :=
  let m := Z.land flags O_ACCMODE in
  if m =? O_RDONLY then ["RDONLY"]
  else if m =? O_WRONLY then ["WRONLY"]
  else if m =? O_RDWR then ["RDWR"]
  else [].

Definition flag_names (flags : Z) : list str :=
 (access_mode_name flags
  ++ push_flag flags O_APPEND "APPEND"
  ++ push_flag flags O_ASYNC "ASYNC"
  ++ push_flag flags O_CLOEXEC "CLOEXEC"
  ++ push_flag flags O_CREAT "CREAT"
  ++ push_flag flags O_DIRECT "DIRECT"
  ++ push_flag flags O_DIRECTORY "DIRECTORY"
  ++ push_flag flags O_DSYNC "DSYNC"
  ++ push_flag flags O_EXCL "EXCL"
  ++ push_flag flags O_NOATIME "NOATIME"
  ++ push_flag flags O_NOCTTY "NOCTTY"
  ++ push_flag flags O_NOFOLLOW "NOFOLLOW"
  ++ push_flag flags O_NONBLOCK "NONBLOCK"
  ++ push_flag flags O_PATH "PATH"
  ++ push_flag flags O_SYNC "SYNC"
  ++ push_flag flags O_TRUNC "TRUNC"
  ++ (if Z.land flags O_TMPFILE =? O_TMPFILE then ["TMPFILE"] else []))%list.

Definition FileInfo_flags (self : T) : str := String.concat "|" (flag_names (flags_raw self)).
End file_info.

(** ** File types *)

Inductive FileType :=
| FileType_Regular | FileType_Directory | FileType_CharDevice | FileType_BlockDevice
| FileType_Fifo | FileType_Symlink | FileType_Socket | FileType_Unknown.

#[global] Instance FileType_eq_dec : EqDecision FileType.
Proof. solve_decision. Defined.

(** [impl From<FileModeFilter> for FileType]. *)
Definition FileType_from (m : FileModeFilter) : FileType :=
  let b := mode m in
  if b =? FILE_REG then FileType_Regular
  else if b =? FILE_DIR then FileType_Directory
  else if b =? FILE_CHR then FileType_CharDevice
  else if b =? FILE_BLK then FileType_BlockDevice
  else if b =? FILE_FIFO then FileType_Fifo
  else if b =? FILE_LNK then FileType_Symlink
  else if b =? FILE_SOCK then FileType_Socket
  else FileType_Unknown.

(** Octal constants in the source. *)
Definition FileType_mode_bits (t : FileType) : Z :=
  match t with
  | FileType_Regular => 8 * 8 ^ 4
  | FileType_Directory => 4 * 8 ^ 4
  | FileType_CharDevice => 2 * 8 ^ 4
  | FileType_BlockDevice => 6 * 8 ^ 4
  | FileType_Fifo => 1 * 8 ^ 4
  | FileType_Symlink => 10 * 8 ^ 4
  | FileType_Socket => 12 * 8 ^ 4
  | FileType_Unknown => 0
  end.

(** [impl From<FileType> for u32]. *)
Definition u32_from (value : FileType) : Z := FileType_mode_bits value.

(** ** Events *)

Record FileOpenEvent := {
  foe_header : EventHeader;
  foe_file_path : str;
  foe_file_type : FileType;
  foe_inode : Z;
  foe_retval : Z;
  foe_flags : Z;
}.

Record FileCloseEvent := {
  fce_header : EventHeader;
  fce_file_path : str;
  fce_file_type : FileType;
  fce_inode : Z;
  fce_retval : Z;
  fce_flags : Z;
}.

Record FileReadEvent := {
  fre_header : EventHeader;
  fre_file_path : str;
  fre_file_type : FileType;
  fre_inode : Z;
  fre_retval : Z;
  fre_flags : Z;
}.

Record FileWriteEvent := {
  fwe_header : EventHeader;
  fwe_file_path : str;
  fwe_file_type : FileType;
  fwe_inode : Z;
  fwe_retval : Z;
  fwe_flags : Z;
}.

Record FileDeleteEvent := {
  fde_header : EventHeader;
  fde_filename : str;
  fde_file_type : FileType;
  fde_retval : Z;
}.

Record FileRenameEvent := {
  fne_header : EventHeader;
  fne_old_filename : str;
  fne_new_filename : str;
  fne_file_type : FileType;
  fne_flags : Z;
  fne_retval : Z;
}.

(** [impl_file_info!]. *)
#[global] Instance FileOpenEvent_info : FileInfo FileOpenEvent := foe_flags.
#[global] Instance FileCloseEvent_info : FileInfo FileCloseEvent := fce_flags.
#[global] Instance FileReadEvent_info : FileInfo FileReadEvent := fre_flags.
#[global] Instance FileWriteEvent_info : FileInfo FileWriteEvent := fwe_flags.
#[global] Instance FileRenameEvent_info : FileInfo FileRenameEvent := fne_flags.

Definition FileOpenEvent_fmt (e : FileOpenEvent) : str :=
  EventHeader_fmt (foe_header e) +:+ " OPEN " +:+ foe_file_path e +:+ " -> " +:+ dec (foe_retval e).
Definition FileCloseEvent_fmt (e : FileCloseEvent) : str :=
  EventHeader_fmt (fce_header e) +:+ " CLOSE " +:+ fce_file_path e +:+ " ("
  +:+ dec (fce_retval e) +:+ ")".
Definition FileReadEvent_fmt (e : FileReadEvent) : str :=
  EventHeader_fmt (fre_header e) +:+ " READ " +:+ fre_file_path e +:+ " ("
  +:+ dec (fre_retval e) +:+ ")".
Definition FileWriteEvent_fmt (e : FileWriteEvent) : str :=
  EventHeader_fmt (fwe_header e) +:+ " WRITE " +:+ fwe_file_path e +:+ " ("
  +:+ dec (fwe_retval e) +:+ ")".
Definition FileDeleteEvent_fmt (e : FileDeleteEvent) : str :=
  EventHeader_fmt (fde_header e) +:+ " DELETE " +:+ fde_filename e +:+ " ("
  +:+ dec (fde_retval e) +:+ ")".
Definition FileRenameEvent_fmt (e : FileRenameEvent) : str :=
  EventHeader_fmt (fne_header e) +:+ " RENAME (" +:+ fne_old_filename e +:+ ") => ("
  +:+ fne_new_filename e +:+ ") (" +:+ dec (fne_retval e) +:+ ")".

(** *** [Path::file_name]

    The last component of a path, when it is a normal one: empty components
    and [.] are skipped, [..] and the root have no name. *)

Fixpoint path_split (cur : str) (s : str) : list str :=
  match s with
  | EmptyString => [cur]
  | String c s =>
      if bool_decide (c = "/"%char) then cur :: path_split "" s
      else path_split (cur +:+ String c "") s
  end.

Definition path_components (s : str) : list str :=
  filter (fun c => c ≠ "" ∧ c ≠ ".") (path_split "" s).

Definition path_file_name (s : str) : option str :=
  match list.last (path_components s) with
  | Some c => if bool_decide (c = "..") then None else Some c
  | None => None
  end.

(** [.file_name().and_then(|s| s.to_str()).unwrap_or("")]: a component of a
    [str] is one itself. *)
Definition file_name_or_empty (path : str) : str := default "" (path_file_name path).

Definition FileOpenEvent_file_name (e : FileOpenEvent) : str := file_name_or_empty (foe_file_path e).
Definition FileCloseEvent_file_name (e : FileCloseEvent) : str := file_name_or_empty (fce_file_path e).
Definition FileReadEvent_file_name (e : FileReadEvent) : str := file_name_or_empty (fre_file_path e).
Definition FileWriteEvent_file_name (e : FileWriteEvent) : str := file_name_or_empty (fwe_file_path e).

Definition FileOpenEvent_file_path (e : FileOpenEvent) : str := foe_file_path e.
Definition FileCloseEvent_file_path (e : FileCloseEvent) : str := fce_file_path e.
Definition FileReadEvent_file_path (e : FileReadEvent) : str := fre_file_path e.
Definition FileWriteEvent_file_path (e : FileWriteEvent) : str := fwe_file_path e.

Inductive FileEvent :=
| FileEvent_Open (e : FileOpenEvent)
| FileEvent_Read (e : FileReadEvent)
| FileEvent_Close (e : FileCloseEvent)
| FileEvent_Write (e : FileWriteEvent)
| FileEvent_Delete (e : FileDeleteEvent)
| FileEvent_Rename (e : FileRenameEvent).

Inductive FileEventKey :=
| FileEventKey_Read (inode retval : Z)
| FileEventKey_Write (inode retval : Z)
| FileEventKey_Open (inode flags : Z)
| FileEventKey_Close (inode retval : Z)
| FileEventKey_Rename (retval : Z)
| FileEventKey_Delete (retval : Z).

#[global] Instance FileEventKey_eq_dec : EqDecision FileEventKey.
Proof. solve_decision. Defined.

(** ** Masks *)

Record FileMask := MkFileMask { file_mask : Z }.

#[global] Instance FileMask_eq_dec : EqDecision FileMask.
Proof. solve_decision. Defined.

Definition FileMask_OPEN : FileMask := MkFileMask (Z.shiftl 1 0).
Definition FileMask_CLOSE : FileMask := MkFileMask (Z.shiftl 1 1).
Definition FileMask_READ : FileMask := MkFileMask (Z.shiftl 1 2).
Definition FileMask_WRITE : FileMask := MkFileMask (Z.shiftl 1 3).
Definition FileMask_DELETE : FileMask := MkFileMask (Z.shiftl 1 4).
Definition FileMask_RENAME : FileMask := MkFileMask (Z.shiftl 1 5).
Definition FileMask_ALL : FileMask :=
  MkFileMask
    (Z.lor (Z.lor (Z.lor (Z.lor (Z.lor (file_mask FileMask_OPEN) (file_mask FileMask_CLOSE))
                                (file_mask FileMask_READ))
                         (file_mask FileMask_WRITE))
                  (file_mask FileMask_DELETE))
           (file_mask FileMask_RENAME)).

Definition FileMask_contains (m other : FileMask) : bool :=
  mask_contains (file_mask m) (file_mask other).
Definition FileMask_bitor (m rhs : FileMask) : FileMask :=
  MkFileMask (Z.lor (file_mask m) (file_mask rhs)).

(** [impl BitOrAssign]: the new value of [self]. *)
Definition FileMask_bitor_assign (self rhs : FileMask) : FileMask :=
  MkFileMask (Z.lor (file_mask self) (file_mask rhs)).

(** [Display for FileMask]; [{:?}] prints the derived [Debug]. *)
Definition FileMask_fmt (m : FileMask) : str :=
  if bool_decide (m = FileMask_OPEN) then "OPEN"
  else if bool_decide (m = FileMask_READ) then "READ"
  else if bool_decide (m = FileMask_WRITE) then "WRITE"
  else if bool_decide (m = FileMask_RENAME) then "RENAME"
  else if bool_decide (m = FileMask_CLOSE) then "CLOSE"
  else if bool_decide (m = FileMask_DELETE) then "DELETE"
  else "FileMask(" +:+ dec (file_mask m) +:+ ")".

(** ** Accessors *)

Definition FileEvent_dedup_key (e : FileEvent) : FileEventKey :=
  match e with
  | FileEvent_Read e => FileEventKey_Read (fre_inode e) (fre_retval e)
  | FileEvent_Open e => FileEventKey_Open (foe_inode e) (foe_flags e)
  | FileEvent_Write e => FileEventKey_Write (fwe_inode e) (fwe_retval e)
  | FileEvent_Close e => FileEventKey_Close (fce_inode e) (fce_retval e)
  | FileEvent_Rename e => FileEventKey_Rename (fne_retval e)
  | FileEvent_Delete e => FileEventKey_Delete (fde_retval e)
  end.

Definition FileEvent_event_type (e : FileEvent) : FileMask :=
  match e with
  | FileEvent_Open _ => FileMask_OPEN
  | FileEvent_Close _ => FileMask_CLOSE
  | FileEvent_Read _ => FileMask_READ
  | FileEvent_Write _ => FileMask_WRITE
  | FileEvent_Rename _ => FileMask_RENAME
  | FileEvent_Delete _ => FileMask_DELETE
  end.

Definition FileEvent_header (e : FileEvent) : EventHeader :=
  match e with
  | FileEvent_Open e => foe_header e
  | FileEvent_Read e => fre_header e
  | FileEvent_Close e => fce_header e
  | FileEvent_Write e => fwe_header e
  | FileEvent_Delete e => fde_header e
  | FileEvent_Rename e => fne_header e
  end.

Definition FileEvent_process (e : FileEvent) : ProcessId :=
  EventHeader_process (FileEvent_header e).
Definition FileEvent_timestamp (e : FileEvent) : Duration :=
  EventHeader_timestamp (FileEvent_header e).
Definition FileEvent_is_kernel_thread (e : FileEvent) : bool :=
  EventHeader_is_kernel_thread (FileEvent_header e).

Definition FileEvent_file_type (e : FileEvent) : FileType :=
  match e with
  | FileEvent_Open e => foe_file_type e
  | FileEvent_Read e => fre_file_type e
  | FileEvent_Close e => fce_file_type e
  | FileEvent_Write e => fwe_file_type e
  | FileEvent_Delete e => fde_file_type e
  | FileEvent_Rename e => fne_file_type e
  end.

Definition FileEvent_file_path (e : FileEvent) : option str :=
  match e with
  | FileEvent_Open e => Some (FileOpenEvent_file_path e)
  | FileEvent_Read e => Some (FileReadEvent_file_path e)
  | FileEvent_Close e => Some (FileCloseEvent_file_path e)
  | FileEvent_Write e => Some (FileWriteEvent_file_path e)
  | _ => None
  end.

Definition FileEvent_file_name (e : FileEvent) : option str :=
  match e with
  | FileEvent_Open e => Some (FileOpenEvent_file_name e)
  | FileEvent_Read e => Some (FileReadEvent_file_name e)
  | FileEvent_Close e => Some (FileCloseEvent_file_name e)
  | FileEvent_Write e => Some (FileWriteEvent_file_name e)
  | _ => None
  end.

Definition FileEvent_old_filename (e : FileEvent) : option str :=
  match e with FileEvent_Rename e => Some (fne_old_filename e) | _ => None end.
Definition FileEvent_new_filename (e : FileEvent) : option str :=
  match e with FileEvent_Rename e => Some (fne_new_filename e) | _ => None end.

(** [as isize] from [i32] is the identity on 64-bit targets. *)
Definition FileEvent_retval (e : FileEvent) : Z :=
  match e with
  | FileEvent_Open e => s_wrap 64 (foe_retval e)
  | FileEvent_Read e => fre_retval e
  | FileEvent_Close e => s_wrap 64 (fce_retval e)
  | FileEvent_Write e => fwe_retval e
  | FileEvent_Delete e => s_wrap 64 (fde_retval e)
  | FileEvent_Rename e => s_wrap 64 (fne_retval e)
  end.

Definition FileEvent_succeeded (e : FileEvent) : bool := 0 <=? FileEvent_retval e.
Definition FileEvent_failed (e : FileEvent) : bool := negb (FileEvent_succeeded e).

Definition FileEvent_inode (e : FileEvent) : option Z :=
  match e with
  | FileEvent_Open e => Some (foe_inode e)
  | FileEvent_Read e => Some (fre_inode e)
  | FileEvent_Close e => Some (fce_inode e)
  | FileEvent_Write e => Some (fwe_inode e)
  | FileEvent_Delete _ | FileEvent_Rename _ => None
  end.

(** ** Filters *)

Record FileTypeFilter := MkFileTypeFilter { type_filter : FileModeFilter }.

Definition FileTypeFilter_FILE_REG := MkFileTypeFilter {| mode := Z.shiftl 1 0 |}.
Definition FileTypeFilter_FILE_DIR := MkFileTypeFilter {| mode := Z.shiftl 1 1 |}.
Definition FileTypeFilter_FILE_CHR := MkFileTypeFilter {| mode := Z.shiftl 1 2 |}.
Definition FileTypeFilter_FILE_BLK := MkFileTypeFilter {| mode := Z.shiftl 1 3 |}.
Definition FileTypeFilter_FILE_FIFO := MkFileTypeFilter {| mode := Z.shiftl 1 4 |}.
Definition FileTypeFilter_FILE_LNK := MkFileTypeFilter {| mode := Z.shiftl 1 5 |}.
Definition FileTypeFilter_FILE_SOCK := MkFileTypeFilter {| mode := Z.shiftl 1 6 |}.

Definition FileTypeFilter_bitor (f rhs : FileTypeFilter) : FileTypeFilter :=
  MkFileTypeFilter {| mode := Z.lor (mode (type_filter f)) (mode (type_filter rhs)) |}.

Definition FileTypeFilter_bitor_assign (self rhs : FileTypeFilter) : FileTypeFilter :=
  MkFileTypeFilter {| mode := Z.lor (mode (type_filter self)) (mode (type_filter rhs)) |}.

Definition FileTypeFilter_ALL : FileTypeFilter :=
  foldl FileTypeFilter_bitor FileTypeFilter_FILE_REG
    [FileTypeFilter_FILE_DIR; FileTypeFilter_FILE_CHR; FileTypeFilter_FILE_BLK;
     FileTypeFilter_FILE_FIFO; FileTypeFilter_FILE_LNK; FileTypeFilter_FILE_SOCK].

Definition FileTypeFilter_default : FileTypeFilter := FileTypeFilter_ALL.

(** [impl From<FileTypeFilter> for FileModeFilter]. *)
Definition FileModeFilter_from (f : FileTypeFilter) : FileModeFilter := type_filter f.

Record FileFilter := {
  ff_event_type : FileMask;
  ff_file_mode : FileTypeFilter;
  ff_filter : FilterKey;
}.

Definition FileFilter_bitor (f rhs : FileFilter) : FileFilter :=
  {| ff_filter := ff_filter f; ff_file_mode := ff_file_mode f;
     ff_event_type := FileMask_bitor (ff_event_type f) (ff_event_type rhs) |}.

Definition FileFilter_default : FileFilter :=
  {| ff_event_type := FileMask_ALL; ff_file_mode := FileTypeFilter_default;
     ff_filter := FilterKey_None |}.

Definition FileFilter_only (m : FileMask) : FileFilter :=
  {| ff_event_type := m; ff_file_mode := FileTypeFilter_ALL; ff_filter := FilterKey_None |}.
Definition FileFilter_OPEN := FileFilter_only FileMask_OPEN.
Definition FileFilter_CLOSE := FileFilter_only FileMask_CLOSE.
Definition FileFilter_READ := FileFilter_only FileMask_READ.
Definition FileFilter_WRITE := FileFilter_only FileMask_WRITE.
Definition FileFilter_DELETE := FileFilter_only FileMask_DELETE.
Definition FileFilter_RENAME := FileFilter_only FileMask_RENAME.
Definition FileFilter_ALL := FileFilter_only FileMask_ALL.

(** ** Lemmas *)

Lemma FileMask_contains_bitor a b m k :
  0 ≤ k → file_mask m = 2 ^ k →
  FileMask_contains (FileMask_bitor a b) m = FileMask_contains a m || FileMask_contains b m.
Proof. intros Hk Hm. unfold FileMask_contains. rewrite Hm. by apply mask_contains_lor. Qed.
