(* ===== verification/Stream.v ===== *)
(** * Streams

    What [subscribe] returns: [PollNetwork], [PollProcess], [PollFile] and
    [PollMem], wrappers around the receiving end of a tokio channel, and their
    [poll_next].  [received_prefix] and [received_all] say what polling them
    gives. *)

From S2P Require Import Prelude.
From S2P Require Import Process Memory Network File.

(** ** The receiver of a channel

    [tokio::sync::mpsc::Receiver]: the events it still holds, whether a sender
    is left, and [poll_recv].  A pending poll leaves a waker, which is not
    modelled: a task is polled when somebody likes to. *)

Inductive poll (A : Type) := Ready (a : A) | Pending.
Arguments Ready {A}.
Arguments Pending {A}.

Class ReceiverOps (Rx : Type → Type) := {
  rx_poll_recv : ∀ {A}, Rx A → poll (option A) * Rx A;
  rx_queue : ∀ {A}, Rx A → list A;
  rx_senders : ∀ {A}, Rx A → bool;
}.

(** A poll takes the first event, or says that there are no more; but it may also
    be pending although it could have done so ("or if a spurious failure
    happens", says the documentation of [poll_recv]). *)
Class ReceiverLaws (Rx : Type → Type) `{!ReceiverOps Rx} : Prop := {
  rx_poll : ∀ A (r : Rx A), ∃ r', rx_senders r' = rx_senders r ∧
    (rx_poll_recv r = (Pending, r') ∧ rx_queue r' = rx_queue r ∨
     match rx_queue r with
     | x :: xs => rx_poll_recv r = (Ready (Some x), r') ∧ rx_queue r' = xs
     | [] => rx_senders r = false ∧ rx_poll_recv r = (Ready None, r') ∧ rx_queue r' = []
     end);
}.

(** [futures::Stream]. *)
Class Stream (S Item : Type) := poll_next : S → poll (option Item) * S.

Section streams.
Context {Rx : Type → Type} `{!ReceiverOps Rx}.

Record PollNetwork := { pn_rx : Rx NetworkEvent }.
Record PollProcess := { pp_rx : Rx ProcessEvent }.
Record PollFile := { pfl_rx : Rx FileEvent }.
Record PollMem := { pm_rx : Rx MemoryEvent }.

#[export] Instance PollNetwork_poll_next : Stream PollNetwork NetworkEvent := fun self =>
  let (r, rx) := rx_poll_recv (pn_rx self) in (r, {| pn_rx := rx |}).
#[export] Instance PollProcess_poll_next : Stream PollProcess ProcessEvent := fun self =>
  let (r, rx) := rx_poll_recv (pp_rx self) in (r, {| pp_rx := rx |}).
#[export] Instance PollFile_poll_next : Stream PollFile FileEvent := fun self =>
  let (r, rx) := rx_poll_recv (pfl_rx self) in (r, {| pfl_rx := rx |}).
#[export] Instance PollMem_poll_next : Stream PollMem MemoryEvent := fun self =>
  let (r, rx) := rx_poll_recv (pm_rx self) in (r, {| pm_rx := rx |}).
End streams.

#[global] Arguments PollNetwork Rx : clear implicits.
#[global] Arguments PollProcess Rx : clear implicits.
#[global] Arguments PollFile Rx : clear implicits.
#[global] Arguments PollMem Rx : clear implicits.

(** ** Polling *)

(** The results of [n] polls in a row. *)
Fixpoint polls {S Item} `{!Stream S Item} (n : nat) (self : S) : list (poll (option Item)) :=
  match n with
  | O => []
  | Datatypes.S n => let (r, self) := poll_next self in r :: polls n self
  end.

(** The events among them. *)
Definition poll_event {A} (r : poll (option A)) : option A :=
  match r with Ready (Some x) => Some x | _ => None end.
Definition received {S Item} `{!Stream S Item} (n : nat) (self : S) : list Item :=
  omap poll_event (polls n self).

Lemma received_S {S Item} `{!Stream S Item} (n : nat) (self : S) :
  received (Datatypes.S n) self
  = option_list (poll_event (poll_next self).1) ++ received n (poll_next self).2.
Proof.
  unfold received. cbn [polls]. destruct (poll_next self) as [r self']. csimpl. by destruct (poll_event r).
Qed.

(** The stream after them. *)
Fixpoint polled {S Item} `{!Stream S Item} (n : nat) (self : S) : S :=
  match n with
  | O => self
  | Datatypes.S n => polled n (poll_next self).2
  end.

Section receiving.
Context {Rx : Type → Type} `{ReceiverLaws Rx}.

(** A stream around a receiver. *)
Class Wraps {S Item} `{!Stream S Item} (rx : S → Rx Item) : Prop :=
  wraps : ∀ self, (poll_next self).1 = (rx_poll_recv (rx self)).1 ∧
                  rx (poll_next self).2 = (rx_poll_recv (rx self)).2.

#[export] Instance wraps_network : Wraps (pn_rx (Rx := Rx)).
Proof. intros s. unfold poll_next, PollNetwork_poll_next. by destruct (rx_poll_recv (pn_rx s)). Qed.
#[export] Instance wraps_process : Wraps (pp_rx (Rx := Rx)).
Proof. intros s. unfold poll_next, PollProcess_poll_next. by destruct (rx_poll_recv (pp_rx s)). Qed.
#[export] Instance wraps_file : Wraps (pfl_rx (Rx := Rx)).
Proof. intros s. unfold poll_next, PollFile_poll_next. by destruct (rx_poll_recv (pfl_rx s)). Qed.
#[export] Instance wraps_mem : Wraps (pm_rx (Rx := Rx)).
Proof. intros s. unfold poll_next, PollMem_poll_next. by destruct (rx_poll_recv (pm_rx s)). Qed.

(** One poll. *)
Lemma wraps_poll {S Item} `{!Stream S Item} (rx : S → Rx Item) `{!Wraps rx} self :
  rx_senders (rx (poll_next self).2) = rx_senders (rx self) ∧
  ((poll_next self).1 = Pending ∧ rx_queue (rx (poll_next self).2) = rx_queue (rx self) ∨
   match rx_queue (rx self) with
   | x :: xs => (poll_next self).1 = Ready (Some x) ∧ rx_queue (rx (poll_next self).2) = xs
   | [] => rx_senders (rx self) = false ∧ (poll_next self).1 = Ready None ∧ rx_queue (rx (poll_next self).2) = []
   end).
Proof.
  destruct (wraps (rx := rx) self) as [-> ->].
  destruct (rx_poll _ (rx self)) as (r' & Hs & [[-> Hq]|Hq]); [by split; [|left]|].
  split; [|right]; destruct (rx_queue (rx self)); destruct_and? Hq;
    match goal with E : rx_poll_recv _ = _ |- _ => by rewrite E end.
Qed.

(** Nothing is lost, and nothing received twice or out of order. *)
Lemma received_queue {S Item} `{!Stream S Item} (rx : S → Rx Item) `{!Wraps rx} n self :
  rx_queue (rx self) = received n self ++ rx_queue (rx (polled n self)).
Proof.
  revert self. induction n as [|n IH]; intros self; [done|]. rewrite received_S, <- (assoc_L (++)).
  cbn [polled]. rewrite <- IH. destruct (wraps_poll rx self) as [_ [[-> ->]|Hp]]; [done|].
  destruct (rx_queue (rx self)) as [|x xs]; [destruct Hp as (_ & -> & ->)|destruct Hp as [-> ->]]; done.
Qed.

Lemma received_prefix {S Item} `{!Stream S Item} (rx : S → Rx Item) `{!Wraps rx} n self :
  received n self `prefix_of` rx_queue (rx self).
Proof. eexists. apply (received_queue rx). Qed.

(** Polls that are not pending get on: with as many of them as there are events,
    all are received. *)
Definition settled {A} (r : poll (option A)) : bool := match r with Pending => false | _ => true end.

Lemma received_all {S Item} `{!Stream S Item} (rx : S → Rx Item) `{!Wraps rx} n self :
  (length (rx_queue (rx self)) ≤ length (filter settled (polls n self)))%nat →
  received n self = rx_queue (rx self).
Proof.
  revert self. induction n as [|n IH]; intros self Hn.
  { simpl in Hn. by destruct (rx_queue (rx self)); [|simpl in Hn; lia]. }
  rewrite received_S. specialize (IH (poll_next self).2). cbn [polls] in Hn.
  destruct (wraps_poll rx self) as [_ Hp]. destruct (poll_next self) as [r self']. simpl in *.
  destruct Hp as [[-> Hq]|Hp]; [simpl in *; rewrite <- Hq in *; by apply IH|].
  destruct (rx_queue (rx self)) as [|x xs].
  - destruct Hp as (_ & -> & Hq). simpl. rewrite Hq in IH. apply IH. simpl. lia.
  - destruct Hp as [-> Hq]. simpl in *. rewrite Hq in IH. f_equal. apply IH. lia.
Qed.

(** After the end of the stream nothing comes. *)
Lemma received_end {S Item} `{!Stream S Item} (rx : S → Rx Item) `{!Wraps rx} n self :
  rx_queue (rx self) = [] → received n self = [].
Proof. intros Hq. pose proof (received_prefix rx n self) as Hp. rewrite Hq in Hp. by apply prefix_nil_inv. Qed.
End receiving.

(** ** A reference receiver

    With a budget of polls, as tokio's cooperative scheduling has it: when it is
    used up the poll is pending, and there is a new budget. *)

Record list_rx (A : Type) := ListRx { lx_queue : list A; lx_senders : bool; lx_budget : nat }.
Arguments ListRx {A}.
Arguments lx_queue {A}.
Arguments lx_senders {A}.
Arguments lx_budget {A}.

#[export] Instance list_rx_ops : ReceiverOps list_rx := {|
  rx_poll_recv A r :=
    match lx_budget r with
    | O => (Pending, ListRx (lx_queue r) (lx_senders r) 128)
    | S n =>
        match lx_queue r with
        | x :: xs => (Ready (Some x), ListRx xs (lx_senders r) n)
        | [] => (if lx_senders r then Pending else Ready None, r)
        end
    end;
  rx_queue A := lx_queue;
  rx_senders A := lx_senders;
|}.

#[export] Instance list_rx_laws : ReceiverLaws list_rx.
Proof.
  split. intros A [q b [|n]]; simpl.
  - exists (ListRx q b 128). split; [done|]. by left.
  - destruct q as [|x xs]; [exists (ListRx [] b (S n))|exists (ListRx xs b n); split; [done|by right]].
    split; [done|]. destruct b; [by left|by right].
Qed.
