(* ===== verification/Convert.v ===== *)
(** * From records to events

    The second half of [src/core.rs]: the functions that read a record of the
    ring buffer, turn it into an event and offer it to the channel of a
    subscription.  A function takes the channel and returns it, in [outcome]:
    [Panic] is an [unwrap] of [None], [UB] a [ptr::read] of a record that does
    not hold the struct it is read as. *)

From S2P Require Import Prelude Utf8 Raw Layout Interfaces.
From S2P Require Import Common Process Memory Network File.

#[local] Open Scope Z_scope.

Definition MAX_PENDING_RENAMES : nat := 1024.

Abbreviation pending := (gmap (Z * Z) RawFileRenameEvent).

(** ** Headers and endpoints *)

Definition convert_header (header : RawEventHeader) : EventHeader := {|
  eh_timestamp_ns := rh_timestamp_ns header;
  eh_pid := rh_pid header;
  eh_tid := rh_tid header;
  eh_ppid := rh_ppid header;
  eh_uid := rh_uid header;
  eh_gid := rh_gid header;
  eh_comm := lossy_cstr (rh_comm header);
|}.

(** An address field, as the version of the record says. *)
Definition parse_ip (v : IpVersion) (addr : list byte) : IpAddr :=
  match v with
  | IpVersion_V4 => IpAddr_V4 (take 4 addr)
  | IpVersion_V6 => IpAddr_V6 addr
  end.

Definition parse_network_event (event : PendingConnect) : EventHeader * SocketEndpoints :=
  let header := {|
    eh_timestamp_ns := rh_timestamp_ns (pc_header event);
    eh_pid := rh_pid (pc_header event);
    eh_tid := rh_tid (pc_header event);
    eh_ppid := rh_ppid (pc_header event);
    eh_uid := rh_uid (pc_header event);
    eh_gid := rh_gid (pc_header event);
    eh_comm := lossy_cstr (rh_comm (pc_header event));
  |} in
  let local := parse_ip (pc_ip_version event) (pc_src_addr event) in
  let remote := parse_ip (pc_ip_version event) (pc_dst_addr event) in
  let endpoints := {|
    local_ip := local;
    remote_ip := remote;
    local_port := pc_src_port event;
    remote_port := pc_dst_port event;
  |} in
  (header, endpoints).

(** ** Building events

    The arms of the macros [network_event!], [process_event!], [file_event!] and
    [mem_event!], with their parameters in order.  An arm that takes the name of
    a struct takes its constructor here. *)

Definition network_event_retval {Ty} (variant : Ty → NetworkEvent)
    (ty : EventHeader → Protocol → SocketEndpoints → Z → Ty)
    (header : EventHeader) (protocol : Protocol) (endpoints : SocketEndpoints) (retval : Z)
    : NetworkEvent := variant (ty header protocol endpoints retval).

Definition network_event_plain {Ty} (variant : Ty → NetworkEvent)
    (ty : EventHeader → Protocol → SocketEndpoints → Ty)
    (header : EventHeader) (protocol : Protocol) (endpoints : SocketEndpoints)
    : NetworkEvent := variant (ty header protocol endpoints).

Definition process_event_start (header : EventHeader) (filename : str) : ProcessEvent :=
  ProcessEvent_Start {| pse_header := header; pse_filename := filename |}.

Definition process_event_fork (parent : EventHeader) (child_pid : Z) (child_comm : str)
    : ProcessEvent :=
  ProcessEvent_Fork
    {| pfe_parent := parent; pfe_child_pid := child_pid; pfe_child_comm := child_comm |}.

Definition process_event_exit (header : EventHeader) (exit_code : Z) : ProcessEvent :=
  ProcessEvent_Exit {| pxe_header := header; pxe_exit_code := exit_code |}.

Definition file_event_rest {Ty} (variant : Ty → FileEvent)
    (ty : EventHeader → str → FileType → Z → Z → Z → Ty)
    (header : EventHeader) (file_path : str) (file_type : FileType) (inode retval flags : Z)
    : FileEvent := variant (ty header file_path file_type inode retval flags).

Definition file_event_delete (header : EventHeader) (filename : str) (file_type : FileType)
    (retval : Z) : FileEvent :=
  FileEvent_Delete
    {| fde_header := header; fde_filename := filename; fde_file_type := file_type;
       fde_retval := retval |}.

Definition file_event_rename (header : EventHeader) (old_filename new_filename : str)
    (file_type : FileType) (retval flags : Z) : FileEvent :=
  FileEvent_Rename
    {| fne_header := header; fne_old_filename := old_filename;
       fne_new_filename := new_filename; fne_file_type := file_type;
       fne_retval := retval; fne_flags := flags |}.

Definition mem_event_map (header : EventHeader)
    (requested_address length protection flags mapped_address : Z) : MemoryEvent :=
  MemoryEvent_MemoryMap
    {| mme_header := header; mme_requested_address := requested_address; mme_length := length;
       mme_protection := protection; mme_flags := flags; mme_mapped_address := mapped_address |}.

Definition mem_event_unmap (header : EventHeader) (requested_address length mapped_address : Z)
    : MemoryEvent :=
  MemoryEvent_MemoryUnMap
    {| mue_header := header; mue_requested_address := requested_address; mue_length := length;
       mue_mapped_address := mapped_address |}.

Section convert.
Context {Ch : Type → Type} `{!ChannelOps Ch} {X : Type}.

Abbreviation res := (outcome (Error X)).

(** [match producer.try_send(e) { Ok(()) => {}, Err(Full | Closed) => log }]. *)
Definition offer {A} (producer : Ch A) (e : A) : Ch A :=
  match ch_try_send producer e with
  | (TrySend_Ok, producer) => producer
  | (TrySend_Full, producer) => producer
  | (TrySend_Closed, producer) => producer
  end.

(** ** Network *)

Definition handle_connect (event : PendingConnect) (producer : Ch NetworkEvent)
    : res (Ch NetworkEvent) :=
  let '(header, endpoints) := parse_network_event event in
  match pc_protocol event with
  | RawProtocol_Tcp =>
      retval ← unwrap (pc_retval event);
      Ok (offer producer (network_event_retval NetworkEvent_Connect Build_ConnectEvent
            header Protocol_Tcp endpoints retval))
  | RawProtocol_Udp =>
      retval ← unwrap (pc_retval event);
      Ok (offer producer (network_event_retval NetworkEvent_Connect Build_ConnectEvent
            header Protocol_Udp endpoints retval))
  end.

Definition handle_tcp_accept (event : PendingConnect) (producer : Ch NetworkEvent)
    : res (Ch NetworkEvent) :=
  let '(header, endpoints) := parse_network_event event in
  let protocol := Protocol_Tcp in
  Ok (offer producer (network_event_plain NetworkEvent_Accept Build_AcceptEvent
        header protocol endpoints)).

Definition handle_close (event : PendingConnect) (producer : Ch NetworkEvent)
    : res (Ch NetworkEvent) :=
  let '(header, endpoints) := parse_network_event event in
  match pc_protocol event with
  | RawProtocol_Tcp =>
      Ok (offer producer (network_event_plain NetworkEvent_Close Build_CloseEvent
            header Protocol_Tcp endpoints))
  | RawProtocol_Udp =>
      Ok (offer producer (network_event_plain NetworkEvent_Close Build_CloseEvent
            header Protocol_Udp endpoints))
  end.

Definition handle_bind (event : PendingConnect) (producer : Ch NetworkEvent)
    : res (Ch NetworkEvent) :=
  let '(header, endpoints) := parse_network_event event in
  let protocol := Protocol_Tcp in
  retval ← unwrap (pc_retval event);
  Ok (offer producer (network_event_retval NetworkEvent_Bind Build_BindEvent
        header protocol endpoints retval)).

Definition handle_listen (event : PendingConnect) (producer : Ch NetworkEvent)
    : res (Ch NetworkEvent) :=
  let '(header, endpoints) := parse_network_event event in
  let protocol := Protocol_Tcp in
  retval ← unwrap (pc_retval event);
  Ok (offer producer (network_event_retval NetworkEvent_Listen Build_ListenEvent
        header protocol endpoints retval)).

Definition convert_network_events (producer : Ch NetworkEvent) (events : mem)
    : res (Ch NetworkEvent) :=
  event ← ptr_read PendingConnect_codec events;
  match rh_event_type (pc_header event) with
  | EventType_Connect => handle_connect event producer
  | EventType_Accept => handle_tcp_accept event producer
  | EventType_Close => handle_close event producer
  | EventType_Bind => handle_bind event producer
  | EventType_Listen => handle_listen event producer
  | _ => Ok producer
  end.

(** ** Processes *)

Definition convert_process_events (producer : Ch ProcessEvent) (events : mem)
    : res (Ch ProcessEvent) :=
  header ← ptr_read RawEventHeader_codec events;
  match rh_event_type header with
  | EventType_ProcessStart =>
      event ← ptr_read RawProcessStartEvent_codec events;
      Ok (offer producer (process_event_start
            (convert_header (ps_header event)) (lossy_cstr (ps_filename event))))
  | EventType_ProcessExit =>
      event ← ptr_read RawProcessExitEvent_codec events;
      Ok (offer producer (process_event_exit
            (convert_header (pe_header event)) (pe_exit_code event)))
  | EventType_ProcessFork =>
      event ← ptr_read RawProcessForkEvent_codec events;
      Ok (offer producer (process_event_fork
            (convert_header (pf_parent event)) (pf_child_pid event)
            (lossy_cstr (pf_child_comm event))))
  | _ => Ok producer
  end.

(** ** Files *)

(** The arms of a rename and of its return. *)
Definition store_rename (event : RawFileRenameEvent) (pending_rename_map : pending) : pending :=
  let pid_tid := (rh_pid (rn_header event), rh_tid (rn_header event)) in
  if (MAX_PENDING_RENAMES <=? size pending_rename_map)%nat
  then pending_rename_map
  else <[pid_tid := event]> pending_rename_map.

Definition complete_rename (producer : Ch FileEvent) (ret_event : RawFileRtrEvent)
    (pending_rename_map : pending) : Ch FileEvent * pending :=
  let pid_tid := (rh_pid (rt_header ret_event), rh_tid (rt_header ret_event)) in
  match pending_rename_map !! pid_tid with
  | Some event =>
      (offer producer (file_event_rename
         (convert_header (rn_header event)) (lossy_cstr (rn_old_filename event))
         (lossy_cstr (rn_new_filename event)) (FileType_from (rn_file_mode event))
         (rt_retval ret_event) (rn_flags event)),
       delete pid_tid pending_rename_map)
  | None => (producer, pending_rename_map)
  end.

Definition convert_file_events (producer : Ch FileEvent) (events : mem)
    (pending_rename_map : pending) : res (Ch FileEvent * pending) :=
  header ← ptr_read RawEventHeader_codec events;
  match rh_event_type header with
  | EventType_FileOpen =>
      event ← ptr_read RawFileOpenEvent_codec events;
      Ok (offer producer (file_event_rest FileEvent_Open Build_FileOpenEvent
            (convert_header (ro_header event)) (lossy_cstr (ro_file_path event))
            (FileType_from (ro_file_mode event)) (ro_inode event) (ro_retval event)
            (ro_flags event)), pending_rename_map)
  | EventType_FileClose =>
      event ← ptr_read RawFileCloseEvent_codec events;
      Ok (offer producer (file_event_rest FileEvent_Close Build_FileCloseEvent
            (convert_header (rc_header event)) (lossy_cstr (rc_file_path event))
            (FileType_from (rc_file_mode event)) (rc_inode event) (rc_retval event)
            (rc_flags event)), pending_rename_map)
  | EventType_FileRead =>
      event ← ptr_read RawFileReadEvent_codec events;
      Ok (offer producer (file_event_rest FileEvent_Read Build_FileReadEvent
            (convert_header (rr_header event)) (lossy_cstr (rr_file_path event))
            (FileType_from (rr_file_mode event)) (rr_inode event) (rr_retval event)
            (rr_flags event)), pending_rename_map)
  | EventType_FileWrite =>
      event ← ptr_read RawFileWriteEvent_codec events;
      Ok (offer producer (file_event_rest FileEvent_Write Build_FileWriteEvent
            (convert_header (rw_header event)) (lossy_cstr (rw_file_path event))
            (FileType_from (rw_file_mode event)) (rw_inode event) (rw_retval event)
            (rw_flags event)), pending_rename_map)
  | EventType_FileDelete =>
      event ← ptr_read RawFileDeleteEvent_codec events;
      Ok (offer producer (file_event_delete
            (convert_header (rd_header event)) (lossy_cstr (rd_file_name event))
            (FileType_from (rd_file_mode event)) (rd_retval event)), pending_rename_map)
  | EventType_FileRename =>
      event ← ptr_read RawFileRenameEvent_codec events;
      Ok (producer, store_rename event pending_rename_map)
  | EventType_PendingFileRename =>
      ret_event ← ptr_read RawFileRtrEvent_codec events;
      Ok (complete_rename producer ret_event pending_rename_map)
  | _ => Ok (producer, pending_rename_map)
  end.

(** ** Memory *)

Definition convert_mem_events (producer : Ch MemoryEvent) (events : mem)
    : res (Ch MemoryEvent) :=
  header ← ptr_read RawEventHeader_codec events;
  match rh_event_type header with
  | EventType_MemoryMap =>
      event ← ptr_read RawMemoryMapEvent_codec events;
      Ok (offer producer (mem_event_map
            (convert_header (mm_header event)) (mm_requested_address event) (mm_length event)
            (mm_protection event) (mm_flags event) (mm_mapped_address event)))
  | EventType_MemoryUnMap =>
      event ← ptr_read RawMemoryUnmapEvent_codec events;
      Ok (offer producer (mem_event_unmap
            (convert_header (mu_header event)) (mu_requested_address event) (mu_length event)
            (mu_mapped_address event)))
  | _ => Ok producer
  end.
End convert.
