(* ===== verification/ConvertSpec.v ===== *)
(** * What the converters owe to the subscribers

    For each subscription, the event a record stands for ([net_event],
    [process_event], [file_event], [mem_event]) and what becomes of the pending
    renames ([pending_after]); the lemmas show that on the records of the ring
    buffer the functions of [Convert.v] offer exactly that event. *)

From S2P Require Import Prelude Utf8 Raw Layout Events Interfaces.
From S2P Require Import Common Process Memory Network File Convert.

#[local] Open Scope Z_scope.

(** ** The events of a record *)

Definition event_protocol (p : RawProtocol) : Protocol :=
  match p with RawProtocol_Tcp => Protocol_Tcp | RawProtocol_Udp => Protocol_Udp end.

Definition event_endpoints (e : PendingConnect) : SocketEndpoints := {|
  local_ip := parse_ip (pc_ip_version e) (pc_src_addr e);
  local_port := pc_src_port e;
  remote_ip := parse_ip (pc_ip_version e) (pc_dst_addr e);
  remote_port := pc_dst_port e |}.

(** Accept, bind and listen are reported as TCP whatever the record says. *)
Definition net_event (e : RawEvent) : option NetworkEvent :=
  match e with
  | RawNet e =>
      let h := convert_header (pc_header e) in
      let ep := event_endpoints e in
      match rh_event_type (pc_header e), pc_retval e with
      | EventType_Connect, Some r => Some (NetworkEvent_Connect
          {| ce_header := h; ce_protocol := event_protocol (pc_protocol e);
             ce_endpoints := ep; ce_retval := r |})
      | EventType_Accept, _ => Some (NetworkEvent_Accept
          {| ae_header := h; ae_protocol := Protocol_Tcp; ae_endpoints := ep |})
      | EventType_Close, _ => Some (NetworkEvent_Close
          {| cl_header := h; cl_protocol := event_protocol (pc_protocol e); cl_endpoints := ep |})
      | EventType_Bind, Some r => Some (NetworkEvent_Bind
          {| be_header := h; be_protocol := Protocol_Tcp; be_endpoints := ep; be_retval := r |})
      | EventType_Listen, Some r => Some (NetworkEvent_Listen
          {| le_header := h; le_protocol := Protocol_Tcp; le_endpoints := ep; le_retval := r |})
      | _, _ => None
      end
  | _ => None
  end.

Definition process_event (e : RawEvent) : option ProcessEvent :=
  match e with
  | RawStart e => Some (ProcessEvent_Start
      {| pse_header := convert_header (ps_header e); pse_filename := lossy_cstr (ps_filename e) |})
  | RawFork e => Some (ProcessEvent_Fork
      {| pfe_parent := convert_header (pf_parent e); pfe_child_pid := pf_child_pid e;
         pfe_child_comm := lossy_cstr (pf_child_comm e) |})
  | RawExit e => Some (ProcessEvent_Exit
      {| pxe_header := convert_header (pe_header e); pxe_exit_code := pe_exit_code e |})
  | _ => None
  end.

Definition mem_event (e : RawEvent) : option MemoryEvent :=
  match e with
  | RawMap e => Some (MemoryEvent_MemoryMap
      {| mme_header := convert_header (mm_header e);
         mme_requested_address := mm_requested_address e; mme_length := mm_length e;
         mme_protection := mm_protection e; mme_flags := mm_flags e;
         mme_mapped_address := mm_mapped_address e |})
  | RawUnmap e => Some (MemoryEvent_MemoryUnMap
      {| mue_header := convert_header (mu_header e);
         mue_requested_address := mu_requested_address e; mue_length := mu_length e;
         mue_mapped_address := mu_mapped_address e |})
  | _ => None
  end.

(** The thread a rename record belongs to. *)
Definition thread_of (h : RawEventHeader) : Z * Z := (rh_pid h, rh_tid h).

(** A rename and its return value make one event. *)
Definition paired_rename (r : RawFileRenameEvent) (t : RawFileRtrEvent) : FileEvent :=
  FileEvent_Rename
    {| fne_header := convert_header (rn_header r);
       fne_old_filename := lossy_cstr (rn_old_filename r);
       fne_new_filename := lossy_cstr (rn_new_filename r);
       fne_file_type := FileType_from (rn_file_mode r);
       fne_flags := rn_flags r; fne_retval := rt_retval t |}.

Definition file_event (p : pending) (e : RawEvent) : option FileEvent :=
  match e with
  | RawOpen e => Some (FileEvent_Open
      {| foe_header := convert_header (ro_header e); foe_file_path := lossy_cstr (ro_file_path e);
         foe_file_type := FileType_from (ro_file_mode e); foe_inode := ro_inode e;
         foe_retval := ro_retval e; foe_flags := ro_flags e |})
  | RawClose e => Some (FileEvent_Close
      {| fce_header := convert_header (rc_header e); fce_file_path := lossy_cstr (rc_file_path e);
         fce_file_type := FileType_from (rc_file_mode e); fce_inode := rc_inode e;
         fce_retval := rc_retval e; fce_flags := rc_flags e |})
  | RawRead e => Some (FileEvent_Read
      {| fre_header := convert_header (rr_header e); fre_file_path := lossy_cstr (rr_file_path e);
         fre_file_type := FileType_from (rr_file_mode e); fre_inode := rr_inode e;
         fre_retval := rr_retval e; fre_flags := rr_flags e |})
  | RawWrite e => Some (FileEvent_Write
      {| fwe_header := convert_header (rw_header e); fwe_file_path := lossy_cstr (rw_file_path e);
         fwe_file_type := FileType_from (rw_file_mode e); fwe_inode := rw_inode e;
         fwe_retval := rw_retval e; fwe_flags := rw_flags e |})
  | RawDelete e => Some (FileEvent_Delete
      {| fde_header := convert_header (rd_header e); fde_filename := lossy_cstr (rd_file_name e);
         fde_file_type := FileType_from (rd_file_mode e); fde_retval := rd_retval e |})
  | RawRtr t => (fun r => paired_rename r t) <$> p !! thread_of (rt_header t)
  | _ => None
  end.

Definition pending_after (p : pending) (e : RawEvent) : pending :=
  match e with
  | RawRename r =>
      if (MAX_PENDING_RENAMES <=? size p)%nat then p
      else <[thread_of (rn_header r) := r]> p
  | RawRtr t => delete (thread_of (rt_header t)) p
  | _ => p
  end.

Lemma network_types_cases t :
  t ∈ network_types →
  t = EventType_Connect ∨ t = EventType_Accept ∨ t = EventType_Close ∨
  t = EventType_Bind ∨ t = EventType_Listen.
Proof.
  unfold network_types. rewrite !elem_of_cons, elem_of_nil. intros. by destruct_or?; auto 6.
Qed.

(** ** Reading a record as another struct *)

Lemma ptr_read_cases {E A} (c : codec A) m :
  (∃ a, @ptr_read E A c m = Ok a) ∨ @ptr_read E A c m = UB.
Proof. unfold ptr_read. destruct (get c m) as [[a rest]|]; eauto. Qed.

(** [PendingConnect] starts with its header. *)
Lemma ptr_read_pc_header {E} m e :
  @ptr_read E _ PendingConnect_codec m = Ok e →
  @ptr_read E _ RawEventHeader_codec m = Ok (pc_header e).
Proof.
  unfold ptr_read. destruct (get PendingConnect_codec m) as [[e' rest]|] eqn:Hg; [|done].
  intros [= ->]. cbn -[RawEventHeader_codec] in Hg.
  destruct (get RawEventHeader_codec m) as [[h m']|]; [|done].
  repeat (case_match; simplify_eq/=; try done).
Qed.

Section lemmas.
Context {Ch : Type → Type} `{!ChannelOps Ch} {X : Type}.

Definition offer_opt {A} (c : Ch A) (o : option A) : Ch A :=
  match o with Some e => offer c e | None => c end.

Lemma offer_try_send {A} (c : Ch A) e : offer c e = (ch_try_send c e).2.
Proof. unfold offer. by destruct (ch_try_send c e) as [[] ?]. Qed.

Lemma convert_network_spec (c : Ch NetworkEvent) e :
  raw_ok e → is_network e = true →
  @convert_network_events _ _ X c (raw_put e) = Ok (offer_opt c (net_event e)).
Proof.
  destruct e as [e|e|e|e|e|e|e|e|e|e|e|e|e]; intros [Hw Ht] Hn; try done.
  destruct Ht as [Ht Hr].
  cbn [raw_put raw_wf] in *. unfold convert_network_events. rewrite ptr_read_put' by (done || apply _).
  cbn [mbind outcome_bind net_event].
  unfold handle_connect, handle_tcp_accept, handle_close, handle_bind, handle_listen,
    parse_network_event.
  destruct (rh_event_type (pc_header e)) eqn:Hty; try done;
    try (destruct Hr as [r ->]; [apply (bool_decide_unpack _); vm_compute; exact I|]);
    destruct (pc_protocol e); reflexivity.
Qed.

(** Another record, when it can be read at all, is ignored. *)
Lemma convert_network_foreign (c : Ch NetworkEvent) e :
  raw_ok e → is_network e = false →
  @convert_network_events _ _ X c (raw_put e) = Ok c ∨
  @convert_network_events _ _ X c (raw_put e) = UB.
Proof.
  intros [Hw Ht] Hn. unfold convert_network_events.
  destruct (ptr_read_cases (E := Error X) PendingConnect_codec (raw_put e)) as [[ev Hr]| ->];
    [rewrite Hr|by right].
  left. cbn [mbind outcome_bind]. apply ptr_read_pc_header in Hr. rewrite read_header in Hr by done.
  injection Hr as Hr. rewrite <- Hr.
  destruct e as [e|e|e|e|e|e|e|e|e|e|e|e|e]; try done; cbn [raw_header raw_tagged] in *; by rewrite Ht.
Qed.

Lemma convert_process_spec (c : Ch ProcessEvent) e :
  raw_ok e → @convert_process_events _ _ X c (raw_put e) = Ok (offer_opt c (process_event e)).
Proof.
  intros [Hw Ht]. unfold convert_process_events. rewrite read_header by done.
  cbn [mbind outcome_bind].
  destruct e as [e|e|e|e|e|e|e|e|e|e|e|e|e]; cbn [raw_tagged raw_header raw_put raw_wf] in *;
    try (rewrite Ht; cbn beta iota; rewrite ?ptr_read_put' by (done || apply _); reflexivity).
  by destruct (network_types_cases _ (proj1 Ht)) as [Hty|[Hty|[Hty|[Hty|Hty]]]]; rewrite Hty.
Qed.

Lemma convert_mem_spec (c : Ch MemoryEvent) e :
  raw_ok e → @convert_mem_events _ _ X c (raw_put e) = Ok (offer_opt c (mem_event e)).
Proof.
  intros [Hw Ht]. unfold convert_mem_events. rewrite read_header by done.
  cbn [mbind outcome_bind].
  destruct e as [e|e|e|e|e|e|e|e|e|e|e|e|e]; cbn [raw_tagged raw_header raw_put raw_wf] in *;
    try (rewrite Ht; cbn beta iota; rewrite ?ptr_read_put' by (done || apply _); reflexivity).
  by destruct (network_types_cases _ (proj1 Ht)) as [Hty|[Hty|[Hty|[Hty|Hty]]]]; rewrite Hty.
Qed.

Lemma convert_file_spec (c : Ch FileEvent) p e :
  raw_ok e →
  @convert_file_events _ _ X c (raw_put e) p
  = Ok (offer_opt c (file_event p e), pending_after p e).
Proof.
  intros [Hw Ht]. unfold convert_file_events. rewrite read_header by done.
  cbn [mbind outcome_bind].
  destruct e as [e|e|e|e|e|e|e|e|e|e|e|e|e]; cbn [raw_tagged raw_header raw_put raw_wf] in *;
    try (rewrite Ht; cbn beta iota; rewrite ?ptr_read_put' by (done || apply _); reflexivity).
  - by destruct (network_types_cases _ (proj1 Ht)) as [Hty|[Hty|[Hty|[Hty|Hty]]]]; rewrite Hty.
  - rewrite Ht. cbn beta iota. rewrite ptr_read_put' by (done || apply _). cbn [mbind outcome_bind pending_after file_event].
    unfold thread_of, complete_rename. destruct (p !! _) eqn:Hp; [done|]. by rewrite delete_id.
Qed.
End lemmas.

(** ** The pending renames *)

Lemma pending_after_other p e k :
  (∀ r, e = RawRename r → thread_of (rn_header r) ≠ k) →
  (∀ t, e = RawRtr t → thread_of (rt_header t) ≠ k) →
  pending_after p e !! k = p !! k.
Proof.
  intros Hr Ht. destruct e; cbn [pending_after]; try done.
  - case_match; [done|]. rewrite lookup_insert_ne; [done|]. by apply Hr.
  - rewrite lookup_delete_ne; [done|]. by apply Ht.
Qed.

(** A pending rename is kept, replaced by a newer one, or added to a map with
    room; a reader of any bytes keeps the bound. *)
Lemma pending_insert_bound (p : pending) k r :
  (size p < MAX_PENDING_RENAMES)%nat → (size (<[k := r]> p) ≤ MAX_PENDING_RENAMES)%nat.
Proof.
  intros Hp. destruct (p !! k) eqn:Hl.
  - rewrite map_size_insert_Some by by eexists. by apply Nat.lt_le_incl.
  - by rewrite map_size_insert_None.
Qed.

Lemma pending_delete_bound (p : pending) k :
  (size p ≤ MAX_PENDING_RENAMES)%nat → (size (delete k p) ≤ MAX_PENDING_RENAMES)%nat.
Proof.
  intros Hp. rewrite map_size_delete. etrans; [|exact Hp]. case_match; [apply Nat.le_pred_l|done].
Qed.

Lemma pending_after_bound p e :
  (size p ≤ MAX_PENDING_RENAMES)%nat → (size (pending_after p e) ≤ MAX_PENDING_RENAMES)%nat.
Proof.
  intros Hp. destruct e; cbn [pending_after]; try done.
  - destruct (Nat.leb_spec MAX_PENDING_RENAMES (size p)); [done|by apply pending_insert_bound].
  - by apply pending_delete_bound.
Qed.

Lemma convert_file_bound {Ch : Type → Type} `{!ChannelOps Ch} {X} (c c' : Ch FileEvent) item p p' :
  @convert_file_events _ _ X c item p = Ok (c', p') →
  (size p ≤ MAX_PENDING_RENAMES)%nat → (size p' ≤ MAX_PENDING_RENAMES)%nat.
Proof.
  intros Hc Hp. unfold convert_file_events in Hc.
  apply outcome_bind_Ok in Hc as (h & _ & Hc).
  destruct (rh_event_type h); try (injection Hc as _ <-; exact Hp);
    apply outcome_bind_Ok in Hc as (e & _ & Hc); try (injection Hc as _ <-; exact Hp).
  - injection Hc as _ <-. unfold store_rename.
    destruct (Nat.leb_spec MAX_PENDING_RENAMES (size p)); [exact Hp|]. by apply pending_insert_bound.
  - unfold complete_rename in Hc. destruct (p !! _); injection Hc as _ <-; [by apply pending_delete_bound|exact Hp].
Qed.

(** All file events of a sequence of records, oldest first. *)
Fixpoint file_events (p : pending) (es : list RawEvent) : list FileEvent :=
  match es with
  | [] => []
  | e :: es => option_list (file_event p e) ++ file_events (pending_after p e) es
  end.

Definition pendings_after (p : pending) (es : list RawEvent) : pending := foldl pending_after p es.

Lemma file_events_app p es es' :
  file_events p (es ++ es') = file_events p es ++ file_events (pendings_after p es) es'.
Proof.
  revert p. induction es as [|e es IH]; intros p; simpl; [done|].
  by rewrite IH, (assoc_L (++)).
Qed.

(** Records that leave the pending rename of thread [k] alone. *)
Definition keeps_thread (k : Z * Z) (e : RawEvent) : Prop :=
  match e with
  | RawRename r => thread_of (rn_header r) ≠ k
  | RawRtr t => thread_of (rt_header t) ≠ k
  | _ => True
  end.

Lemma pendings_after_other p es k :
  Forall (keeps_thread k) es → pendings_after p es !! k = p !! k.
Proof.
  revert p. induction es as [|e es IH]; intros p Hk; [done|].
  inversion Hk as [|?? He Hes]; subst. simpl. etrans; [by apply IH|].
  apply pending_after_other; intros ? ->; exact He.
Qed.

(** Each record makes at most one event. *)
Lemma file_events_length p es : (length (file_events p es) ≤ length es)%nat.
Proof.
  revert p. induction es as [|e es IH]; intros p; simpl; [done|]. rewrite length_app.
  specialize (IH (pending_after p e)). destruct (file_event p e); simpl; lia.
Qed.

(** A rename, records that leave its thread alone, and its return. *)
Lemma rename_events_paired p r es t :
  (size p < MAX_PENDING_RENAMES)%nat → thread_of (rt_header t) = thread_of (rn_header r) →
  Forall (keeps_thread (thread_of (rn_header r))) es →
  file_events p (RawRename r :: es ++ [RawRtr t])
  = file_events (<[thread_of (rn_header r) := r]> p) es ++ [paired_rename r t] ∧
  pendings_after p (RawRename r :: es ++ [RawRtr t]) !! thread_of (rn_header r) = None.
Proof.
  intros Hs Ht Hk.
  assert (Hp : pending_after p (RawRename r) = <[thread_of (rn_header r) := r]> p).
  { cbn [pending_after]. by rewrite (proj2 (Nat.leb_gt _ _) Hs). }
  change (file_events p (RawRename r :: es ++ [RawRtr t]))
    with (file_events (pending_after p (RawRename r)) (es ++ [RawRtr t])).
  rewrite file_events_app, Hp. split.
  - f_equal. cbn [file_events file_event]. rewrite Ht, pendings_after_other by done.
    by rewrite lookup_insert_eq.
  - unfold pendings_after. cbn [foldl]. rewrite foldl_app. cbn [foldl].
    cbn [pending_after]. by rewrite Ht, lookup_delete_eq.
Qed.

(** ** Readers never return an error *)

Lemma outcome_bind_Err {E A A'} (m : outcome E A) (f : A → outcome E A') e :
  m ≫= f = Err e → m = Err e ∨ ∃ a, m = Ok a ∧ f a = Err e.
Proof.
  destruct m; simpl; intros Hm; try discriminate; [by eauto|].
  left. by injection Hm as ->.
Qed.

Ltac no_err :=
  repeat match goal with
  | H : _ ≫= _ = Err _ |- _ => apply outcome_bind_Err in H as [H|(? & _ & H)]
  | H : ptr_read ?c ?m = Err _ |- _ =>
      unfold ptr_read in H; destruct (get c m) as [[? ?]|]; discriminate
  | H : unwrap ?o = Err _ |- _ => destruct o; discriminate
  | H : (match ?x with _ => _ end) = Err _ |- _ => destruct x
  | H : Ok _ = Err _ |- _ => discriminate
  end.

Section no_err.
Context {Ch : Type → Type} `{!ChannelOps Ch} {X : Type}.

Lemma convert_network_no_err (c : Ch NetworkEvent) m e :
  @convert_network_events _ _ X c m ≠ Err e.
Proof.
  unfold convert_network_events, handle_connect, handle_tcp_accept, handle_close, handle_bind,
    handle_listen, parse_network_event. intros He. no_err.
Qed.

Lemma convert_process_no_err (c : Ch ProcessEvent) m e :
  @convert_process_events _ _ X c m ≠ Err e.
Proof. unfold convert_process_events. intros He. no_err. Qed.

Lemma convert_file_no_err (c : Ch FileEvent) m p e :
  @convert_file_events _ _ X c m p ≠ Err e.
Proof. unfold convert_file_events. intros He. no_err. Qed.

Lemma convert_mem_no_err (c : Ch MemoryEvent) m e :
  @convert_mem_events _ _ X c m ≠ Err e.
Proof. unfold convert_mem_events. intros He. no_err. Qed.
End no_err.
