(* ===== verification/Runtime.v ===== *)
(** * The runtime

    [Bpfx] and its event loop ([src/core.rs]): configuration, construction, the
    dispatch of one record to the registered subscriptions, the inner loop
    that empties the ring buffer ([drain]), and the outer loop as a step
    relation ([loop_next]).  The abstract view of a runtime is one queue per
    subscription and the pending renames ([view]); [spec_dispatch] is what a
    record does to it. *)

From S2P Require Import Prelude Raw Layout Events Interfaces.
From S2P Require Import Common Process Memory Network File Convert ConvertSpec.

#[local] Open Scope Z_scope.

(** ** Configuration *)

Record BpfxConfig := { channel_capacity : Z }.

Definition BpfxConfig_default : BpfxConfig := {| channel_capacity := 1024 |}.
Definition BpfxConfig_new : BpfxConfig := BpfxConfig_default.
Definition BpfxConfig_channel_capacity (self : BpfxConfig) (capacity : Z) : BpfxConfig :=
  {| channel_capacity := capacity |}.

(** ** Registrations and the runtime

    The sender of a registration and the receiver of its stream are two ends
    of one channel; the model keeps the channel in the registration. *)

Section runtime.
Context {B T R H : Type} {Ch : Type → Type} {X : Type}.
Context `{!RingBufOps R H, !ChannelOps Ch}.

Record NetworkRegister := { nr_filter : NetworkFilter; nr_tx : Ch NetworkEvent }.
Record ProcessRegister := { pr_filter : ProcessFilter; pr_tx : Ch ProcessEvent }.
Record FileRegister := { fr_filter : FileFilter; fr_tx : Ch FileEvent }.
Record MemRegister := { mr_filter : MemoryFilter; mr_tx : Ch MemoryEvent }.

Record Bpfx := MkBpfx {
  bpf : B;
  btf : T;
  ringbuf : R;
  network : option NetworkRegister;
  process : option ProcessRegister;
  file : option FileRegister;
  mem_reg : option MemRegister;
  pending_renames : pending;
  config : BpfxConfig;
}.

Definition set_bpf (b : B) (s : Bpfx) : Bpfx :=
  MkBpfx b (btf s) (ringbuf s) (network s) (process s) (file s) (mem_reg s)
    (pending_renames s) (config s).
Definition set_ringbuf (r : R) (s : Bpfx) : Bpfx :=
  MkBpfx (bpf s) (btf s) r (network s) (process s) (file s) (mem_reg s)
    (pending_renames s) (config s).
Definition set_network (n : option NetworkRegister) (s : Bpfx) : Bpfx :=
  MkBpfx (bpf s) (btf s) (ringbuf s) n (process s) (file s) (mem_reg s)
    (pending_renames s) (config s).
Definition set_process (p : option ProcessRegister) (s : Bpfx) : Bpfx :=
  MkBpfx (bpf s) (btf s) (ringbuf s) (network s) p (file s) (mem_reg s)
    (pending_renames s) (config s).
Definition set_file (f : option FileRegister) (s : Bpfx) : Bpfx :=
  MkBpfx (bpf s) (btf s) (ringbuf s) (network s) (process s) f (mem_reg s)
    (pending_renames s) (config s).
Definition set_mem (m : option MemRegister) (s : Bpfx) : Bpfx :=
  MkBpfx (bpf s) (btf s) (ringbuf s) (network s) (process s) (file s) m
    (pending_renames s) (config s).
Definition set_pending (p : pending) (s : Bpfx) : Bpfx :=
  MkBpfx (bpf s) (btf s) (ringbuf s) (network s) (process s) (file s) (mem_reg s)
    p (config s).

(** *** Construction

    [load], [from_sys_fs], [take_map] and [RingBuf::try_from] are [aya]'s. *)
Record Loader := {
  ebpf_load : B + X;
  logger_init : B → B;
  btf_from_sys_fs : T + X;
  take_map : B → option ((R + X) * B);
}.

Definition fresh (b : B) (t : T) (r : R) (c : BpfxConfig) : Bpfx :=
  MkBpfx b t r None None None None ∅ c.

Definition with_config_from (ld : Loader) (init : B → B) (c : BpfxConfig)
    : outcome (Error X) Bpfx :=
  match ebpf_load ld with
  | inr e => Err (Error_Load e)
  | inl b =>
      let b := init b in
      match btf_from_sys_fs ld with
      | inr e => Err (Error_Btf e)
      | inl t =>
          match take_map ld b with
          | None => Err Error_EventsMapAccess
          | Some (inr e, _) => Err (Error_Map e)
          | Some (inl r, b) => Ok (fresh b t r c)
          end
      end
  end.

(** [new] also tries to start the logger, and ignores a failure. *)
Definition Bpfx_new (ld : Loader) : outcome (Error X) Bpfx :=
  with_config_from ld (logger_init ld) {| channel_capacity := 1024 |}.
Definition Bpfx_with_config (ld : Loader) (c : BpfxConfig) : outcome (Error X) Bpfx :=
  with_config_from ld id c.

(** *** The event loop *)

Definition is_some_and {A} (o : option A) (f : A → bool) : bool :=
  match o with Some a => f a | None => false end.

Definition has_subscribers (s : Bpfx) : bool :=
  is_some_and (network s) (fun r => negb (ch_is_closed (nr_tx r)))
  || is_some_and (process s) (fun r => negb (ch_is_closed (pr_tx r)))
  || is_some_and (file s) (fun r => negb (ch_is_closed (fr_tx r)))
  || is_some_and (mem_reg s) (fun r => negb (ch_is_closed (mr_tx r))).

(** The body of [while let Some(events) = self.ringbuf.next()]. *)
Definition dispatch (events : mem) (s : Bpfx) : outcome (Error X) Bpfx :=
  s ← match network s with
      | Some nr =>
          tx ← convert_network_events (nr_tx nr) events;
          Ok (set_network (Some {| nr_filter := nr_filter nr; nr_tx := tx |}) s)
      | None => Ok s
      end;
  s ← match process s with
      | Some pr =>
          tx ← convert_process_events (pr_tx pr) events;
          Ok (set_process (Some {| pr_filter := pr_filter pr; pr_tx := tx |}) s)
      | None => Ok s
      end;
  s ← match file s with
      | Some pr =>
          out ← convert_file_events (fr_tx pr) events (pending_renames s);
          Ok (set_pending out.2
                (set_file (Some {| fr_filter := fr_filter pr; fr_tx := out.1 |}) s))
      | None => Ok s
      end;
  match mem_reg s with
  | Some pr =>
      tx ← convert_mem_events (mr_tx pr) events;
      Ok (set_mem (Some {| mr_filter := mr_filter pr; mr_tx := tx |}) s)
  | None => Ok s
  end.

(** The inner loop; [None] when the fuel runs out. *)
Fixpoint drain (fuel : nat) (s : Bpfx) : option (outcome (Error X) Bpfx) :=
  match fuel with
  | O => None
  | S fuel =>
      match rb_next (ringbuf s) with
      | Some (events, r) =>
          match dispatch events (set_ringbuf r s) with
          | Ok s => drain fuel s
          | e => Some e
          end
      | None => Some (Ok s)
      end
  end.

(** Where the task is: waiting for the ring buffer to become readable,
    emptying it, or done with the result of [event_loop]. *)
Inductive loop_state :=
| LWait (s : Bpfx)
| LDrain (s : Bpfx)
| LDone (r : outcome (Error X) unit).

(** The task [run] spawns, before its first turn; [opened] is the result of
    [AsyncFd::new]. *)
Definition run (opened : unit + X) (s : Bpfx) : loop_state :=
  match opened with
  | inl _ => LWait s
  | inr e => LDone (Err (Error_Io e))
  end.

(** One step of the task; [ready] is the result of [readable().await]. *)
Definition loop_next (ready : unit + X) (l : loop_state) : loop_state :=
  match l with
  | LWait s =>
      match ready with
      | inr e => LDone (Err (Error_Io e))
      | inl _ => if has_subscribers s then LDrain s else LDone (Ok tt)
      end
  | LDrain s =>
      match rb_next (ringbuf s) with
      | Some (events, r) =>
          match dispatch events (set_ringbuf r s) with
          | Ok s => LDrain s
          | Err e => LDone (Err e)
          | Panic => LDone Panic
          | UB => LDone UB
          end
      | None => LWait s
      end
  | LDone r => LDone r
  end.

(** *** The abstract view *)

Record view := MkView {
  v_network : option (chan_view NetworkEvent);
  v_process : option (chan_view ProcessEvent);
  v_file : option (chan_view FileEvent);
  v_mem : option (chan_view MemoryEvent);
  v_pending : pending;
}.

Definition view_of (s : Bpfx) : view := {|
  v_network := (fun r => ch_view (nr_tx r)) <$> network s;
  v_process := (fun r => ch_view (pr_tx r)) <$> process s;
  v_file := (fun r => ch_view (fr_tx r)) <$> file s;
  v_mem := (fun r => ch_view (mr_tx r)) <$> mem_reg s;
  v_pending := pending_renames s;
|}.
End runtime.

#[global] Arguments NetworkRegister Ch : clear implicits.
#[global] Arguments ProcessRegister Ch : clear implicits.
#[global] Arguments FileRegister Ch : clear implicits.
#[global] Arguments MemRegister Ch : clear implicits.
#[global] Arguments Bpfx B T R Ch : clear implicits.
#[global] Arguments Loader B T R X : clear implicits.
#[global] Arguments loop_state B T R Ch X : clear implicits.

Definition send_opt {A} (v : chan_view A) (o : option A) : chan_view A :=
  match o with Some e => view_send v e | None => v end.

(** What a record does to the subscriptions. *)
Definition spec_dispatch (v : view) (e : RawEvent) : view := {|
  v_network := (fun c => send_opt c (net_event e)) <$> v_network v;
  v_process := (fun c => send_opt c (process_event e)) <$> v_process v;
  v_file := (fun c => send_opt c (file_event (v_pending v) e)) <$> v_file v;
  v_mem := (fun c => send_opt c (mem_event e)) <$> v_mem v;
  v_pending := match v_file v with Some _ => pending_after (v_pending v) e | None => v_pending v end;
|}.

(** The network reader takes every record for a [PendingConnect]. *)
Definition readable_by {B T R Ch} (s : Bpfx B T R Ch) (e : RawEvent) : Prop :=
  raw_ok e ∧ (is_Some (network s) → is_network e = true).
