(* ===== verification/RuntimeProofs.v ===== *)
(** * The runtime refines its abstract view

    [dispatch_spec]: one record of the ring buffer does to the runtime what
    [spec_dispatch] does to its view.  From it, the inner loop ([drain_spec])
    and the lemmas on sequences of records the theorems use. *)

From S2P Require Import Prelude Raw Layout Events Interfaces.
From S2P Require Import Common Process Memory Network File Convert ConvertSpec Runtime.

#[local] Open Scope Z_scope.

Section proofs.
Context {B T R H : Type} {Ch : Type → Type} {X : Type}.
Context `{RingBufLaws R H, ChannelLaws Ch}.
Implicit Types s : Bpfx B T R Ch.

Lemma ch_view_offer {A} (c : Ch A) e : ch_view (offer c e) = view_send (ch_view c) e.
Proof. rewrite offer_try_send. apply ch_view_try_send. Qed.

Lemma ch_view_offer_opt {A} (c : Ch A) o : ch_view (offer_opt c o) = send_opt (ch_view c) o.
Proof. destruct o; [apply ch_view_offer|done]. Qed.

(** The parts of a runtime a dispatch leaves alone. *)
Definition same_rest s s' : Prop :=
  bpf s' = bpf s ∧ btf s' = btf s ∧ ringbuf s' = ringbuf s ∧ config s' = config s ∧
  nr_filter <$> network s' = nr_filter <$> network s ∧
  pr_filter <$> process s' = pr_filter <$> process s ∧
  fr_filter <$> file s' = fr_filter <$> file s ∧
  mr_filter <$> mem_reg s' = mr_filter <$> mem_reg s.

#[local] Instance same_rest_preorder : PreOrder same_rest.
Proof.
  split; [by intros s|]. intros s1 s2 s3 (?&?&?&?&?&?&?&?) (?&?&?&?&?&?&?&?).
  unfold same_rest. split_and!; congruence.
Qed.

Lemma dispatch_spec s e :
  readable_by s e →
  ∃ s', @dispatch B T R Ch X _ (raw_put e) s = Ok s' ∧
        view_of s' = spec_dispatch (view_of s) e ∧ same_rest s s'.
Proof.
  intros [Hok Hn]. destruct s as [b t r n p f m pd c]. unfold dispatch. cbn [network] in *.
  destruct n as [n|].
  all: rewrite ?convert_network_spec by (try done; apply Hn; by eexists).
  all: cbn [mbind outcome_bind set_network process].
  all: destruct p as [p|]; rewrite ?convert_process_spec by done;
    cbn [mbind outcome_bind set_process set_network file].
  all: destruct f as [f|]; cbn [pending_renames]; rewrite ?convert_file_spec by done;
    cbn [mbind outcome_bind set_process set_network set_file set_pending mem_reg].
  all: destruct m as [m|]; rewrite ?convert_mem_spec by done;
    cbn [mbind outcome_bind].
  all: eexists; split; [reflexivity|split; [|done]].
  all: unfold view_of, spec_dispatch; csimpl; by rewrite ?ch_view_offer_opt.
Qed.

Lemma same_rest_readable s s' e : same_rest s s' → readable_by s e → readable_by s' e.
Proof.
  intros (_&_&_&_&Hf&_) [? Hn]. split; [done|]. intros [n Hs]. apply Hn.
  rewrite Hs in Hf. destruct (network s); [by eexists|done].
Qed.

(** The inner loop on a buffer of readable records, whatever their number. *)
Lemma drain_spec es s :
  rb_visible (ringbuf s) = raw_put <$> es → Forall (readable_by s) es →
  ∃ s', @drain B T R H Ch X _ _ (S (length es)) s = Some (Ok s') ∧
        rb_visible (ringbuf s') = [] ∧
        view_of s' = foldl spec_dispatch (view_of s) es ∧
        same_rest (set_ringbuf (ringbuf s') s) s'.
Proof.
  revert s. induction es as [|e es IH]; intros s Hi Hr.
  - exists s. simpl. rewrite rb_next_nil by done. destruct s. done.
  - inversion Hr as [|?? He Hes]; subst. csimpl in Hi.
    destruct (rb_next_cons _ _ _ Hi) as (r & Hnext & Hr').
    destruct (dispatch_spec (set_ringbuf r s) e) as (s1 & Hd & Hv & Hs1); [done|].
    destruct (IH s1) as (s' & Hdr & Hi' & Hv' & Hs').
    { destruct Hs1 as (_ & _ & -> & _). done. }
    { eapply Forall_impl; [|exact Hes]. intros e' He'. by eapply same_rest_readable. }
    exists s'. cbn [length]. cbn [drain]. rewrite Hnext, Hd. split_and!; [done|done| |].
    + rewrite Hv', Hv. done.
    + destruct Hs1 as (?&?&?&?&?&?&?&?), Hs' as (?&?&?&?&?&?&?&?), s, s1, s'. simpl in *.
      unfold same_rest. simpl. split_and!; congruence.
Qed.

Lemma dispatch_no_err item s e : @dispatch B T R Ch X _ item s ≠ Err e.
Proof.
  unfold dispatch. intros He.
  apply outcome_bind_Err in He as [He|(s1 & _ & He)].
  { destruct (network s); [|done]. apply outcome_bind_Err in He as [He|(? & _ & He)]; [|done].
    by eapply convert_network_no_err. }
  apply outcome_bind_Err in He as [He|(s2 & _ & He)].
  { destruct (process s1); [|done]. apply outcome_bind_Err in He as [He|(? & _ & He)]; [|done].
    by eapply convert_process_no_err. }
  apply outcome_bind_Err in He as [He|(s3 & _ & He)].
  { destruct (file s2); [|done]. apply outcome_bind_Err in He as [He|(? & _ & He)]; [|done].
    by eapply convert_file_no_err. }
  destruct (mem_reg s3); [|done]. apply outcome_bind_Err in He as [He|(? & _ & He)]; [|done].
  by eapply convert_mem_no_err.
Qed.
End proofs.

(** ** Sequences of records *)

Lemma foldl_spec_file v es c :
  v_file v = Some c →
  v_file (foldl spec_dispatch v es) = Some (foldl view_send c (file_events (v_pending v) es)) ∧
  v_pending (foldl spec_dispatch v es) = pendings_after (v_pending v) es.
Proof.
  revert v c. induction es as [|e es IH]; intros v c Hc; csimpl; [done|].
  destruct (IH (spec_dispatch v e) (send_opt c (file_event (v_pending v) e))) as [-> ->].
  { simpl. by rewrite Hc. }
  simpl. rewrite Hc. by destruct (file_event (v_pending v) e).
Qed.

Lemma foldl_spec_network v es c :
  v_network v = Some c →
  v_network (foldl spec_dispatch v es) = Some (foldl view_send c (omap net_event es)).
Proof.
  revert v c. induction es as [|e es IH]; intros v c Hc; csimpl; [done|].
  rewrite (IH _ (send_opt c (net_event e))) by (simpl; by rewrite Hc).
  by destruct (net_event e).
Qed.

Lemma foldl_spec_process v es c :
  v_process v = Some c →
  v_process (foldl spec_dispatch v es) = Some (foldl view_send c (omap process_event es)).
Proof.
  revert v c. induction es as [|e es IH]; intros v c Hc; csimpl; [done|].
  rewrite (IH _ (send_opt c (process_event e))) by (simpl; by rewrite Hc).
  by destruct (process_event e).
Qed.

Lemma foldl_spec_mem v es c :
  v_mem v = Some c →
  v_mem (foldl spec_dispatch v es) = Some (foldl view_send c (omap mem_event es)).
Proof.
  revert v c. induction es as [|e es IH]; intros v c Hc; csimpl; [done|].
  rewrite (IH _ (send_opt c (mem_event e))) by (simpl; by rewrite Hc).
  by destruct (mem_event e).
Qed.
