(* ===== verification/RuntimeTheorems.v ===== *)
(** * What the event loop guarantees

    Theorems about [Convert.v] and [Runtime.v]: the inner loop against its
    abstract view, delivery in order, the pairing and the bound of pending
    renames, the end of the loop; then the records that break the network
    reader and the stale pairing of renames. *)

From S2P Require Import Prelude Utf8 Raw Layout Events Interfaces.
From S2P Require Import Common Process Memory Network File Convert ConvertSpec Runtime RuntimeProofs.

#[local] Open Scope Z_scope.

Section theorems.
Context {B T R H : Type} {Ch : Type → Type} {X : Type}.
Context `{RingBufLaws R H, ChannelLaws Ch}.
Implicit Types s : Bpfx B T R Ch.

(** (C4) The inner loop terminates and refines the abstract queues: on a ring
    buffer of [n] well-formed records (network records only, if there is a
    network subscription), [n + 1] turns end the loop without panic or
    undefined behaviour, the buffer is empty, every subscription's queue and
    the pending renames are what [spec_dispatch] makes of the records in
    order, and nothing else in the runtime changed. *)
Theorem drain_refines es s :
  rb_visible (ringbuf s) = raw_put <$> es → Forall (readable_by s) es →
  ∃ s', @drain B T R H Ch X _ _ (S (length es)) s = Some (Ok s') ∧
        rb_visible (ringbuf s') = [] ∧
        view_of s' = foldl spec_dispatch (view_of s) es ∧
        same_rest (set_ringbuf (ringbuf s') s) s'.
Proof. apply drain_spec. Qed.

(** With room in the channels, no event is lost and none is reordered:
    after the inner loop each open channel holds what it held, followed by
    the events of the records in the order of the ring buffer, renames being
    completed by their return records. *)
Theorem drain_delivers_in_order es s s' n p f m :
  rb_visible (ringbuf s) = raw_put <$> es → Forall (readable_by s) es →
  @drain B T R H Ch X _ _ (S (length es)) s = Some (Ok s') →
  network s = Some n → process s = Some p → file s = Some f → mem_reg s = Some m →
  (ch_is_closed (nr_tx n) = false ∧ ch_is_closed (pr_tx p) = false ∧
   ch_is_closed (fr_tx f) = false ∧ ch_is_closed (mr_tx m) = false) →
  (Z.of_nat (length (ch_queue (nr_tx n)) + length (omap net_event es)) ≤ ch_capacity (nr_tx n) ∧
   Z.of_nat (length (ch_queue (pr_tx p)) + length (omap process_event es)) ≤ ch_capacity (pr_tx p) ∧
   Z.of_nat (length (ch_queue (fr_tx f)) + length (file_events (pending_renames s) es))
     ≤ ch_capacity (fr_tx f) ∧
   Z.of_nat (length (ch_queue (mr_tx m)) + length (omap mem_event es)) ≤ ch_capacity (mr_tx m)) →
  ∃ n' p' f' m',
    network s' = Some n' ∧ ch_queue (nr_tx n') = ch_queue (nr_tx n) ++ omap net_event es ∧
    process s' = Some p' ∧ ch_queue (pr_tx p') = ch_queue (pr_tx p) ++ omap process_event es ∧
    file s' = Some f' ∧
      ch_queue (fr_tx f') = ch_queue (fr_tx f) ++ file_events (pending_renames s) es ∧
    mem_reg s' = Some m' ∧ ch_queue (mr_tx m') = ch_queue (mr_tx m) ++ omap mem_event es.
Proof.
  intros Hi Hr Hd En Ep Ef Em (Cn & Cp & Cf & Cm) (Ln & Lp & Lf & Lm).
  destruct (drain_spec (X := X) es s Hi Hr) as (s1 & Hd1 & _ & Hv & _).
  rewrite Hd in Hd1. injection Hd1 as <-.
  pose proof (foldl_spec_network (view_of s) es (ch_view (nr_tx n))) as Hn.
  pose proof (foldl_spec_process (view_of s) es (ch_view (pr_tx p))) as Hp.
  pose proof (foldl_spec_file (view_of s) es (ch_view (fr_tx f))) as Hf.
  pose proof (foldl_spec_mem (view_of s) es (ch_view (mr_tx m))) as Hm.
  rewrite <- Hv in *. simpl in *. rewrite En, Ep, Ef, Em in *. simpl in *.
  specialize (Hn eq_refl). specialize (Hp eq_refl). specialize (Hm eq_refl).
  destruct (Hf eq_refl) as [Hf' _].
  rewrite view_send_all in Hn by done. rewrite view_send_all in Hp by done.
  rewrite view_send_all in Hm by done. rewrite view_send_all in Hf' by done.
  destruct (network s') as [n'|]; [|done]. destruct (process s') as [p'|]; [|done].
  destruct (file s') as [f'|]; [|done]. destruct (mem_reg s') as [m'|]; [|done].
  exists n', p', f', m'. simpl in *. unfold ch_view in *. simplify_eq. by split_and!.
Qed.

(** (C21) The pending renames never exceed [MAX_PENDING_RENAMES], whatever
    bytes the records hold. *)
Theorem dispatch_pending_bound item s s' :
  @dispatch B T R Ch X _ item s = Ok s' →
  (size (pending_renames s) ≤ MAX_PENDING_RENAMES)%nat →
  (size (pending_renames s') ≤ MAX_PENDING_RENAMES)%nat.
Proof.
  intros Hd Hs. unfold dispatch in Hd.
  apply outcome_bind_Ok in Hd as (s1 & H1' & Hd). apply outcome_bind_Ok in Hd as (s2 & H2' & Hd).
  apply outcome_bind_Ok in Hd as (s3 & H3' & Hd).
  assert (pending_renames s1 = pending_renames s) as E1.
  { destruct (network s); [|by simplify_eq]. apply outcome_bind_Ok in H1' as (? & _ & H1').
    by simplify_eq. }
  assert (pending_renames s2 = pending_renames s) as E2.
  { rewrite <- E1. destruct (process s1); [|by simplify_eq].
    apply outcome_bind_Ok in H2' as (? & _ & H2'). by simplify_eq. }
  assert (pending_renames s' = pending_renames s3) as ->.
  { destruct (mem_reg s3); [|by simplify_eq]. apply outcome_bind_Ok in Hd as (? & _ & Hd).
    by simplify_eq. }
  destruct (file s2) as [f|]; [|simplify_eq; by rewrite E2].
  apply outcome_bind_Ok in H3' as ([c p] & Hc & H3'). simplify_eq. simpl. rewrite E2 in Hc.
  by eapply convert_file_bound.
Qed.

(** The task after some turns, given what the waits return. *)
Definition turns (readies : list (unit + X)) (l : loop_state B T R Ch X) : loop_state B T R Ch X :=
  foldl (fun l ready => loop_next ready l) l readies.

Lemma turns_done readies r : turns readies (LDone r) = LDone r.
Proof. induction readies as [|ready readies IH]; [done|]. exact IH. Qed.

(** A turn that ends the task. *)
Lemma loop_next_end ready (l : loop_state B T R Ch X) r :
  loop_next ready l = LDone r → (∀ r', l ≠ LDone r') →
  (r = Ok tt → ∃ s u, l = LWait s ∧ ready = inl u ∧ has_subscribers s = false) ∧
  (∀ e, r = Err e → ∃ s x, l = LWait s ∧ ready = inr x ∧ e = Error_Io x).
Proof.
  intros Hl Hn. destruct l as [s|s|r']; simpl in Hl.
  - destruct ready as [u|x].
    + destruct (has_subscribers s) eqn:Hs; [done|]. injection Hl as <-. split; [|done].
      intros _. by exists s, u.
    + injection Hl as <-. split; [done|]. intros e [= <-]. by exists s, x.
  - destruct (rb_next (ringbuf s)) as [[item r']|]; [|done].
    destruct (dispatch (X := X) item _) eqn:Hd; simplify_eq; try done.
    by apply dispatch_no_err in Hd.
  - by destruct (Hn r').
Qed.

(** The turn in which it did. *)
Lemma turns_end readies (l : loop_state B T R Ch X) r :
  turns readies l = LDone r →
  l = LDone r ∨ ∃ i ready, readies !! i = Some ready ∧ (∀ r', turns (take i readies) l ≠ LDone r') ∧
                           loop_next ready (turns (take i readies) l) = LDone r.
Proof.
  revert l. induction readies as [|ready readies IH]; intros l Hl; [by left|].
  destruct l as [s|s|r']; [| |left; by rewrite turns_done in Hl]; right.
  - destruct (IH _ Hl) as [Hn|(i & ready' & Hi & Hn)]; [exists 0%nat, ready; by split_and!|].
    by exists (S i), ready'.
  - destruct (IH _ Hl) as [Hn|(i & ready' & Hi & Hn)]; [exists 0%nat, ready; by split_and!|].
    by exists (S i), ready'.
Qed.

Lemma turns_from i ready readies (l : loop_state B T R Ch X) r :
  readies !! i = Some ready → loop_next ready (turns (take i readies) l) = LDone r →
  turns readies l = LDone r.
Proof.
  intros Hi Hn. rewrite <- (take_drop_middle _ _ _ Hi). unfold turns in *. rewrite foldl_app. simpl.
  rewrite Hn. apply turns_done.
Qed.

(** (C22) How the task ends, whatever its waits return: without an error just
    when, in some turn, it waited, the wait succeeded and no subscription was
    open; with the error [e] just when registering the ring buffer with the I/O
    driver failed with it ([AsyncFd::new], before the first turn), or a wait did.
    So a task whose subscriptions are all dropped goes on until the buffer
    becomes readable once more; the documentation of [run] says that it exits
    automatically. *)
Theorem loop_end opened s readies :
  (turns readies (run opened s) = LDone (Ok tt) ↔
   ∃ i u s', turns (take i readies) (run opened s) = LWait s' ∧ readies !! i = Some (inl u) ∧
             has_subscribers s' = false) ∧
  (∀ e, turns readies (run opened s) = LDone (Err e) ↔
   (∃ x, opened = inr x ∧ e = Error_Io x) ∨
   ∃ i x s', turns (take i readies) (run opened s) = LWait s' ∧ readies !! i = Some (inr x) ∧
             e = Error_Io x).
Proof.
  split; [|intros e]; split.
  - intros [Hl|(i & ready & Hi & Hn & Hl)]%turns_end; [by destruct opened|].
    destruct (proj1 (loop_next_end _ _ _ Hl Hn) eq_refl) as (s' & u & Hs' & -> & Hsub). by exists i, u, s'.
  - intros (i & u & s' & Hs' & Hi & Hsub). eapply turns_from; [exact Hi|]. rewrite Hs'. simpl. by rewrite Hsub.
  - intros [Hl|(i & ready & Hi & Hn & Hl)]%turns_end.
    { left. destruct opened as [u|x]; [done|]. injection Hl as <-. by exists x. }
    right. destruct (proj2 (loop_next_end _ _ _ Hl Hn) e eq_refl) as (s' & x & Hs' & -> & ->).
    by exists i, x, s'.
  - intros [(x & -> & ->)|(i & x & s' & Hs' & Hi & ->)]; [apply turns_done|].
    eapply turns_from; [exact Hi|]. by rewrite Hs'.
Qed.

(** (C34) A network subscription makes the loop read every record as a
    112-byte [PendingConnect] before its type is looked at: a record of a
    process exit or fork, of a rename's return or of a memory operation is
    shorter, and dispatching it is undefined behaviour. *)
Theorem network_reader_out_of_bounds e s n :
  raw_ok e → (length (raw_put e) < size_of PendingConnect_codec)%nat → network s = Some n →
  @dispatch B T R Ch X _ (raw_put e) s = UB.
Proof.
  intros Hok Hl Hn. unfold dispatch. rewrite Hn. unfold convert_network_events.
  by rewrite ptr_read_short by (done || apply _).
Qed.

(** (C11) A rename is completed by its own return record: when the buffer
    holds a rename record that the pending map has room for, records that
    are not renames or returns of that thread, and the thread's return
    record, the last event delivered has the names of the first and the
    return value of the last, after the events of the records in between,
    and the thread has no rename pending any more. *)
Theorem rename_paired r es t s f :
  rb_visible (ringbuf s) = raw_put <$> (RawRename r :: es ++ [RawRtr t]) →
  Forall (readable_by s) (RawRename r :: es ++ [RawRtr t]) →
  (size (pending_renames s) < MAX_PENDING_RENAMES)%nat →
  thread_of (rt_header t) = thread_of (rn_header r) →
  Forall (keeps_thread (thread_of (rn_header r))) es →
  file s = Some f → ch_is_closed (fr_tx f) = false →
  Z.of_nat (length (ch_queue (fr_tx f)) + S (length es)) ≤ ch_capacity (fr_tx f) →
  ∃ s' f' mid,
    @drain B T R H Ch X _ _ (S (length (RawRename r :: es ++ [RawRtr t]))) s = Some (Ok s') ∧
    file s' = Some f' ∧
    ch_queue (fr_tx f') = ch_queue (fr_tx f) ++ mid ++ [paired_rename r t] ∧
    mid = file_events (<[thread_of (rn_header r) := r]> (pending_renames s)) es ∧
    pending_renames s' !! thread_of (rn_header r) = None.
Proof.
  intros Hi Hr Hs Ht Hk Hf Hc Hl.
  destruct (drain_spec (X := X) _ s Hi Hr) as (s' & Hd & _ & Hv & _).
  destruct (rename_events_paired (pending_renames s) r es t Hs Ht Hk) as [He Hp].
  destruct (foldl_spec_file (view_of s) (RawRename r :: es ++ [RawRtr t]) (ch_view (fr_tx f)))
    as [Hq Hpd].
  { simpl. by rewrite Hf. }
  rewrite <- Hv in Hq, Hpd.
  change (v_pending (view_of s)) with (pending_renames s) in Hq, Hpd.
  rewrite He in Hq. rewrite view_send_all in Hq; [|done|].
  2: { rewrite length_app. simpl. pose proof (file_events_length
         (<[thread_of (rn_header r) := r]> (pending_renames s)) es). simpl. lia. }
  simpl in Hq. destruct (file s') as [f'|] eqn:Hf'; [|done]. injection Hq as Hq _ _.
  exists s', f'. eexists. split_and!; [exact Hd|done|exact Hq|done|].
  change (pending_renames s') with (v_pending (view_of s')). by rewrite Hpd.
Qed.

(** (C35) When the pending map is full, a new rename of a thread that still
    has one pending is dropped, and the next return record of the thread is
    reported with the names of the old rename. *)
Theorem rename_full_map_stale (c : Ch FileEvent) p old new t :
  raw_ok (RawRename new) → raw_ok (RawRtr t) →
  size p = MAX_PENDING_RENAMES → p !! thread_of (rn_header new) = Some old →
  thread_of (rt_header t) = thread_of (rn_header new) →
  @convert_file_events _ _ X c (raw_put (RawRename new)) p = Ok (c, p) ∧
  @convert_file_events _ _ X c (raw_put (RawRtr t)) p
  = Ok (offer c (paired_rename old t), delete (thread_of (rn_header new)) p).
Proof.
  intros Hn Ht Hs Ho Hth. rewrite !convert_file_spec by done.
  cbn [pending_after file_event offer_opt]. by rewrite Hs, Nat.leb_refl, Hth, Ho.
Qed.
End theorems.

(** ** The theorems at a concrete runtime *)

Definition sample_header (ty : EventType) (ts p t : Z) : RawEventHeader := {|
  rh_event_type := ty; rh_timestamp_ns := ts; rh_pid := p; rh_tid := t; rh_ppid := 1;
  rh_uid := 0; rh_gid := 0; rh_comm := [x73; x68] ++ replicate 14 x00 |}.

Definition sample_connect (p : Z) : RawEvent := RawNet {|
  pc_header := sample_header EventType_Connect 1 p p; pc_protocol := RawProtocol_Tcp; pc_tid := p;
  pc_src_port := 4660; pc_dst_port := 80; pc_ip_version := IpVersion_V4;
  pc_src_addr := [x7f; x00; x00; x01] ++ replicate 12 x00;
  pc_dst_addr := [x7f; x00; x00; x02] ++ replicate 12 x00; pc_retval := Some 0 |}.

Definition sample_exit (p : Z) : RawEvent := RawExit {|
  pe_header := sample_header EventType_ProcessExit 2 p p; pe_exit_code := 256 |}.

Definition sample_rename (p : Z) (c : byte) : RawFileRenameEvent := {|
  rn_header := sample_header EventType_FileRename 3 p p;
  rn_old_filename := c :: replicate 255 x00; rn_new_filename := [c; x7e] ++ replicate 254 x00;
  rn_file_mode := {| mode := FILE_REG |}; rn_flags := 0 |}.

Definition sample_rtr (p : Z) : RawFileRtrEvent := {|
  rt_header := sample_header EventType_PendingFileRename 4 p p; rt_retval := 0 |}.

Ltac wf_by_compute := vm_compute; repeat split; discriminate.

Lemma sample_connect_ok : raw_ok (sample_connect 7).
Proof.
  split; [wf_by_compute|].
  split; [apply (bool_decide_unpack _); vm_compute; exact I|]. intros _. by eexists.
Qed.
Lemma sample_exit_ok : raw_ok (sample_exit 7).
Proof. split; [wf_by_compute|done]. Qed.
Lemma sample_rename_ok : raw_ok (RawRename (sample_rename 7 x61)).
Proof. split; [wf_by_compute|done]. Qed.
Lemma sample_rtr_ok : raw_ok (RawRtr (sample_rtr 7)).
Proof. split; [wf_by_compute|done]. Qed.

Abbreviation Rt := (Bpfx unit unit list_ring chan_view).

Definition sample_chan {A} : chan_view A := ChanView [] 8 false.

Definition sample_rt (es : list RawEvent) : Rt := {|
  bpf := tt; btf := tt; ringbuf := ListRing 4096 (Committed <$> (raw_put <$> es)) [];
  network := Some {| nr_filter := NetworkFilter_ALL; nr_tx := sample_chan |};
  process := Some {| pr_filter := ProcessFilter_ALL; pr_tx := sample_chan |};
  file := Some {| fr_filter := FileFilter_ALL; fr_tx := sample_chan |};
  mem_reg := Some {| mr_filter := MemoryFilter_ALL; mr_tx := sample_chan |};
  pending_renames := ∅; config := BpfxConfig_default |}.

(** The same without a network subscription. *)
Definition sample_rt_local (es : list RawEvent) : Rt := set_network None (sample_rt es).

Definition local_events : list RawEvent :=
  [RawRename (sample_rename 7 x61); sample_exit 7; RawRtr (sample_rtr 7)].

Lemma drain_refines_witness :
  ∃ s', @drain unit unit list_ring nat chan_view unit _ _ 4 (sample_rt_local local_events)
        = Some (Ok s') ∧
        rb_visible (ringbuf s') = [] ∧
        view_of s' = foldl spec_dispatch (view_of (sample_rt_local local_events)) local_events ∧
        same_rest (set_ringbuf (ringbuf s') (sample_rt_local local_events)) s'.
Proof.
  apply (drain_refines local_events (sample_rt_local local_events)); [reflexivity|].
  constructor; [|constructor; [|constructor; [|constructor]]]; (split; [|by intros [? Hn]]).
  - apply sample_rename_ok.
  - apply sample_exit_ok.
  - apply sample_rtr_ok.
Defined.

Lemma drain_delivers_in_order_witness :
  ∃ n' p' f' m' : _,
    ∃ s' : Rt,
      network s' = Some n' ∧ ch_queue (nr_tx n') = [] ++ omap net_event [sample_connect 7] ∧
      process s' = Some p' ∧ ch_queue (pr_tx p') = [] ++ omap process_event [sample_connect 7] ∧
      file s' = Some f' ∧ ch_queue (fr_tx f') = [] ++ file_events ∅ [sample_connect 7] ∧
      mem_reg s' = Some m' ∧ ch_queue (mr_tx m') = [] ++ omap mem_event [sample_connect 7].
Proof.
  destruct (@drain unit unit list_ring nat chan_view unit _ _ 2 (sample_rt [sample_connect 7]))
    as [[s'|?| |]|] eqn:Hd; try (vm_compute in Hd; discriminate Hd).
  destruct (drain_delivers_in_order (X := unit) [sample_connect 7] (sample_rt [sample_connect 7]) s'
              {| nr_filter := NetworkFilter_ALL; nr_tx := sample_chan |}
              {| pr_filter := ProcessFilter_ALL; pr_tx := sample_chan |}
              {| fr_filter := FileFilter_ALL; fr_tx := sample_chan |}
              {| mr_filter := MemoryFilter_ALL; mr_tx := sample_chan |})
    as (n' & p' & f' & m' & Hall); try reflexivity; try exact Hd.
  - constructor; [split; [apply sample_connect_ok|reflexivity]|constructor].
  - split_and!; reflexivity.
  - split_and!; vm_compute; discriminate.
  - exists n', p', f', m', s'. exact Hall.
Defined.

Lemma dispatch_pending_bound_witness :
  ∃ s' : Rt, (size (pending_renames s') ≤ MAX_PENDING_RENAMES)%nat.
Proof.
  destruct (@dispatch unit unit list_ring chan_view unit _ (raw_put (RawRename (sample_rename 7 x61)))
              (sample_rt_local [])) as [s'|?| |] eqn:Hd; try (vm_compute in Hd; discriminate Hd).
  exists s'. refine (dispatch_pending_bound _ _ _ Hd _). vm_compute. lia.
Defined.

(** Nobody is subscribed: the task ends when its first wait succeeds. *)
Example loop_end_closed :
  turns [inl tt] (run (X := unit) (inl tt) (set_process None (set_file None (set_mem None (sample_rt_local [])))))
  = LDone (Ok tt).
Proof. reflexivity. Qed.

Lemma network_reader_out_of_bounds_witness :
  @dispatch unit unit list_ring chan_view unit _ (raw_put (sample_exit 7)) (sample_rt []) = UB.
Proof.
  eapply (network_reader_out_of_bounds (sample_exit 7) (sample_rt [])); [|vm_compute; lia|reflexivity].
  apply sample_exit_ok.
Defined.

Lemma rename_paired_witness :
  let k := thread_of (rn_header (sample_rename 7 x61)) in
  ∃ s' f' mid,
    @drain unit unit list_ring nat chan_view unit _ _ 4 (sample_rt_local local_events)
      = Some (Ok s') ∧
    file s' = Some f' ∧
    ch_queue (fr_tx f') = ch_queue sample_chan
      ++ mid ++ [paired_rename (sample_rename 7 x61) (sample_rtr 7)] ∧
    mid = file_events (<[k := sample_rename 7 x61]> (pending_renames (sample_rt_local local_events)))
            [sample_exit 7] ∧
    pending_renames s' !! k = None.
Proof.
  apply (rename_paired (sample_rename 7 x61) [sample_exit 7] (sample_rtr 7)
           (sample_rt_local local_events) {| fr_filter := FileFilter_ALL; fr_tx := sample_chan |}).
  - reflexivity.
  - constructor; [|constructor; [|constructor; [|constructor]]]; (split; [|by intros [? Hn]]).
    + apply sample_rename_ok.
    + apply sample_exit_ok.
    + apply sample_rtr_ok.
  - vm_compute. lia.
  - reflexivity.
  - repeat constructor.
  - reflexivity.
  - reflexivity.
  - vm_compute. discriminate.
Defined.

(** A full map: thread [k] of process [k], for [k] up to 1024. *)
Definition full_pending : pending :=
  list_to_map ((fun k => ((Z.of_nat k, Z.of_nat k), sample_rename (Z.of_nat k) x61)) <$> seq 1 1024).

Lemma sample_rename_new_ok : raw_ok (RawRename (sample_rename 7 x62)).
Proof. split; [wf_by_compute|done]. Qed.

Lemma rename_full_map_stale_witness :
  ∃ p, convert_file_events (X := unit) (ChanView [] 8 false) (raw_put (RawRtr (sample_rtr 7)))
         full_pending
       = Ok (offer (ChanView [] 8 false) (paired_rename (sample_rename 7 x61) (sample_rtr 7)), p).
Proof.
  eexists. refine (proj2 (rename_full_map_stale (ChanView [] 8 false) full_pending
    (sample_rename 7 x61) (sample_rename 7 x62) (sample_rtr 7) _ _ _ _ _)).
  - apply sample_rename_new_ok.
  - apply sample_rtr_ok.
  - vm_compute. reflexivity.
  - vm_compute. reflexivity.
  - reflexivity.
Defined.
