(* ===== verification/Attach.v ===== *)
(** * Attaching programs and subscribing

    The first half of [src/core.rs]: the [attach_*] functions, the writes to
    the FILTER and CONFIG maps, the four [attach_*_probe] functions, and
    [Subscription::subscribe] of the four filters.  The loaded eBPF object of
    [aya] is used through [EbpfOps]; the code runs in [stateM] over it. *)

From S2P Require Import Prelude Raw Layout Interfaces.
From S2P Require Import Common Process Memory Network File Convert Runtime.

#[local] Open Scope string_scope.
#[local] Open Scope Z_scope.

(** ** The eBPF object, as [aya] offers it

    [B] is the object ([Ebpf]), [T] the kernel type information ([Btf]), [X]
    the errors.  An operation that can fail returns its error, if any. *)

Inductive ProgKind := Prog_FExit | Prog_FEntry | Prog_KProbe | Prog_TracePoint | Prog_Lsm.

#[global] Instance ProgKind_eq_dec : EqDecision ProgKind.
Proof. solve_decision. Defined.

(** The arguments of [load] and of [attach]. *)
Inductive LoadArgs := Load_plain | Load_btf (func : str).
Inductive AttachArgs :=
| Attach_plain
| Attach_symbol (symbol : str) (offset : Z)
| Attach_tracepoint (category tracepoint : str).

Class EbpfOps (B T X : Type) := {
  eb_map_mut : B → str → bool;                    (* [map_mut] finds the map *)
  eb_filter_map : B → str → option X;             (* [HashMap::try_from], FilterKey values *)
  eb_config_map : B → str → option X;             (* the same, FileModeFilter values *)
  eb_insert_filter : B → str → Z → FilterKey → option X * B;
  eb_insert_config : B → str → Z → FileModeFilter → option X * B;
  eb_program_mut : B → str → bool;                (* [program_mut] finds the program *)
  eb_try_into : B → str → ProgKind → option X;
  eb_load : B → T → str → ProgKind → LoadArgs → option X * B;
  eb_attach : B → str → ProgKind → AttachArgs → option X * B;
}.

Section attach.
Context {B T X : Type} `{!EbpfOps B T X}.

(** Code that changes the object and fails with an [Error]. *)
Abbreviation A := (stateM B (Error X)).

Definition try_op (wrap : X → Error X) (op : B → option X * B) : A unit := fun b =>
  match op b with
  | (None, b) => (Ok tt, b)
  | (Some e, b) => (Err (wrap e), b)
  end.

Definition try_read (wrap : X → Error X) (op : B → option X) : A unit :=
  try_op wrap (fun b => (op b, b)).

Definition ok_or (found : B → bool) (e : Error X) : A unit := fun b =>
  if found b then (Ok tt, b) else (Err e, b).

Definition unwrap_program (name : str) : A unit := fun b =>
  if eb_program_mut b name then (Ok tt, b) else (Panic, b).

Definition attach_fexit (btf : T) (prog_name func_name : str) : A unit :=
  ok_or (fun b => eb_program_mut b prog_name) Error_ProgramAccess;;
  try_read Error_Attach (fun b => eb_try_into b prog_name Prog_FExit);;
  try_op Error_Attach (fun b => eb_load b btf prog_name Prog_FExit (Load_btf func_name));;
  try_op Error_Attach (fun b => eb_attach b prog_name Prog_FExit Attach_plain).

Definition attach_kprobe (btf : T) (prog_name symbol : str) : A unit :=
  ok_or (fun b => eb_program_mut b prog_name) Error_ProgramAccess;;
  try_read Error_Attach (fun b => eb_try_into b prog_name Prog_KProbe);;
  try_op Error_Attach (fun b => eb_load b btf prog_name Prog_KProbe Load_plain);;
  try_op Error_Attach (fun b => eb_attach b prog_name Prog_KProbe (Attach_symbol symbol 0)).

Definition attach_fentry (btf : T) (prog_name symbol : str) : A unit :=
  ok_or (fun b => eb_program_mut b prog_name) Error_ProgramAccess;;
  try_read Error_Attach (fun b => eb_try_into b prog_name Prog_FEntry);;
  try_op Error_Attach (fun b => eb_load b btf prog_name Prog_FEntry (Load_btf symbol));;
  try_op Error_Attach (fun b => eb_attach b prog_name Prog_FEntry Attach_plain).

Definition attach_tracepoint (btf : T) (prog_name category tracepoint : str) : A unit :=
  ok_or (fun b => eb_program_mut b prog_name) Error_ProgramAccess;;
  try_read Error_Attach (fun b => eb_try_into b prog_name Prog_TracePoint);;
  try_op Error_Attach (fun b => eb_load b btf prog_name Prog_TracePoint Load_plain);;
  try_op Error_Attach
    (fun b => eb_attach b prog_name Prog_TracePoint (Attach_tracepoint category tracepoint)).

Definition attach_lsm_probe (btf : T) : A unit :=
  unwrap_program "file_open";;
  try_read Error_Attach (fun b => eb_try_into b "file_open" Prog_Lsm);;
  try_op Error_Attach (fun b => eb_load b btf "file_open" Prog_Lsm (Load_btf "file_open"));;
  try_op Error_Attach (fun b => eb_attach b "file_open" Prog_Lsm Attach_plain).

(** *** The maps *)

Inductive Filters :=
| Filters_Memory (f : MemoryFilter)
| Filters_File (f : FileFilter)
| Filters_Network (f : NetworkFilter)
| Filters_Process (f : ProcessFilter).

Definition Filters_key (f : Filters) : FilterKey :=
  match f with
  | Filters_Memory m => mf_filter m
  | Filters_File f => ff_filter f
  | Filters_Network n => nf_filter n
  | Filters_Process p => pf_filter p
  end.

Definition write_to_fiter_map (filter_type : Filters) (owner : FilterOwner) : A unit :=
  ok_or (fun b => eb_map_mut b "FILTER") Error_FilterMapAccess;;
  try_read Error_Map (fun b => eb_filter_map b "FILTER");;
  try_op Error_Map
    (fun b => eb_insert_filter b "FILTER" (FilterOwner_repr owner) (Filters_key filter_type)).

Definition write_to_map (filter : FileFilter) : A unit :=
  ok_or (fun b => eb_map_mut b "CONFIG") Error_ConfigMapAccess;;
  try_read Error_Map (fun b => eb_config_map b "CONFIG");;
  try_op Error_Map
    (fun b => eb_insert_config b "CONFIG" 0 (FileModeFilter_from (ff_file_mode filter))).

(** *** The four [attach_*_probe] *)

Definition TCP_CONNECT : list (str * str) :=
  [("tcp_v4_connect", "tcp_v4_connect"); ("tcp_v6_connect", "tcp_v6_connect")].
Definition TCP_ACCEPT : list (str * str) := [("inet_csk_accept", "inet_csk_accept")].
Definition TCP_CLOSE : str * str := ("tcp_close", "tcp_close").
Definition UDP_CONNECT : list (str * str) :=
  [("udp_connect", "udp_connect"); ("udpv6_connect", "udpv6_connect")].
Definition UDP_CLOSE : str * str := ("udp_destroy_sock", "udp_destroy_sock").

(** [for x in l { f(x)?; }]. *)
Fixpoint for_each {I} (f : I → A unit) (l : list I) : A unit :=
  match l with
  | [] => mret tt
  | x :: l => f x;; for_each f l
  end.

Definition when (b : bool) (m : A unit) : A unit := if b then m else mret tt.

Definition attach_network_probe (filter : NetworkFilter) (btf : T) : A unit :=
  let proto m := ProtocolMask_contains (nf_protocol_mask filter) m in
  let ev m := NetworkMask_contains (nf_event_mask filter) m in
  write_to_fiter_map (Filters_Network filter) FilterOwner_Network;;
  when (proto ProtocolMask_TCP && ev NetworkMask_CONNECT)
    (for_each (fun probe => attach_fexit btf probe.1 probe.2) TCP_CONNECT);;
  when (proto ProtocolMask_TCP && ev NetworkMask_ACCEPT)
    (for_each (fun probe => attach_kprobe btf probe.1 probe.2) TCP_ACCEPT);;
  when (proto ProtocolMask_TCP && ev NetworkMask_CLOSE)
    (attach_fexit btf TCP_CLOSE.1 TCP_CLOSE.2);;
  when (proto ProtocolMask_TCP && ev NetworkMask_BIND)
    (attach_fexit btf "inet_bind" "inet_bind");;
  when (proto ProtocolMask_TCP && ev NetworkMask_LISTEN)
    (attach_fexit btf "inet_listen" "inet_listen");;
  when (proto ProtocolMask_UDP && ev NetworkMask_CONNECT)
    (for_each (fun probe => attach_fexit btf probe.1 probe.2) UDP_CONNECT);;
  when (proto ProtocolMask_UDP && ev NetworkMask_CLOSE)
    (attach_fexit btf UDP_CLOSE.1 UDP_CLOSE.2).

Definition attach_process_probe (filter : ProcessFilter) (btf : T) : A unit :=
  write_to_fiter_map (Filters_Process filter) FilterOwner_Process;;
  when (ProcessMask_contains (pf_mask filter) ProcessMask_START)
    (attach_tracepoint btf "sched_process_exec" "sched" "sched_process_exec");;
  when (ProcessMask_contains (pf_mask filter) ProcessMask_FORK)
    (attach_tracepoint btf "sched_process_fork" "sched" "sched_process_fork");;
  when (ProcessMask_contains (pf_mask filter) ProcessMask_EXIT)
    (attach_fentry btf "do_group_exit" "do_group_exit").

Definition attach_file_probe (filter : FileFilter) (btf : T) : A unit :=
  let ev m := FileMask_contains (ff_event_type filter) m in
  write_to_fiter_map (Filters_File filter) FilterOwner_File;;
  write_to_map filter;;
  attach_lsm_probe btf;;
  attach_fexit btf "__fput" "__fput";;
  when (ev FileMask_OPEN) (attach_fexit btf "vfs_open" "vfs_open");;
  when (ev FileMask_CLOSE) (attach_fexit btf "filp_close" "filp_close");;
  when (ev FileMask_READ) (attach_fexit btf "vfs_read" "vfs_read");;
  when (ev FileMask_WRITE) (attach_fexit btf "vfs_write" "vfs_write");;
  when (ev FileMask_DELETE) (attach_fexit btf "vfs_unlink" "vfs_unlink");;
  when (ev FileMask_RENAME)
    (attach_fentry btf "vfs_rename" "vfs_rename";;
     attach_fexit btf "vfs_rename_retval" "vfs_rename").

Definition attach_mem_probe (filter : MemoryFilter) (btf : T) : A unit :=
  write_to_fiter_map (Filters_Memory filter) FilterOwner_Memory;;
  when (MemoryMask_contains (mf_mask filter) MemoryMask_MMAP)
    (attach_fexit btf "vm_mmap_pgoff" "vm_mmap_pgoff");;
  when (MemoryMask_contains (mf_mask filter) MemoryMask_UNMAP)
    (attach_fexit btf "__vm_munmap" "__vm_munmap").
End attach.

(** ** Subscribing

    The stream that [subscribe] returns is the other end of the channel of the
    registration. *)

Section subscribe.
Context {B T R X : Type} {Ch : Type → Type} `{!EbpfOps B T X, !ChannelOps Ch}.

Abbreviation S := (stateM (Bpfx B T R Ch) (Error X)).

(** [mpsc::channel(bpfx.config.channel_capacity)]. *)
Definition new_channel {Ev} : S (Ch Ev) := fun s =>
  match ch_channel (channel_capacity (config s)) with
  | Some c => (Ok c, s)
  | None => (Panic, s)
  end.

(** [f(&filter, &mut bpfx.bpf, &bpfx.btf)?]. *)
Definition on_bpf (f : T → stateM B (Error X) unit) : S unit := fun s =>
  let '(r, b) := f (btf s) (bpf s) in (r, set_bpf b s).

Definition register (f : Bpfx B T R Ch → Bpfx B T R Ch) : S unit := fun s => (Ok tt, f s).

Definition NetworkFilter_subscribe (self : NetworkFilter) : S unit :=
  tx ← new_channel;
  on_bpf (attach_network_probe self);;
  register (set_network (Some {| nr_filter := self; nr_tx := tx |})).

Definition ProcessFilter_subscribe (self : ProcessFilter) : S unit :=
  tx ← new_channel;
  on_bpf (attach_process_probe self);;
  register (set_process (Some {| pr_filter := self; pr_tx := tx |})).

Definition FileFilter_subscribe (self : FileFilter) : S unit :=
  tx ← new_channel;
  on_bpf (attach_file_probe self);;
  register (set_file (Some {| fr_filter := self; fr_tx := tx |})).

Definition MemoryFilter_subscribe (self : MemoryFilter) : S unit :=
  tx ← new_channel;
  on_bpf (attach_mem_probe self);;
  register (set_mem (Some {| mr_filter := self; mr_tx := tx |})).

(** [trait Subscription], and [Bpfx::subscribe]. *)
Class Subscription (F : Type) := subscribe : F → S unit.
#[global] Instance NetworkFilter_Subscription : Subscription NetworkFilter := NetworkFilter_subscribe.
#[global] Instance ProcessFilter_Subscription : Subscription ProcessFilter := ProcessFilter_subscribe.
#[global] Instance FileFilter_Subscription : Subscription FileFilter := FileFilter_subscribe.
#[global] Instance MemoryFilter_Subscription : Subscription MemoryFilter := MemoryFilter_subscribe.

Definition Bpfx_subscribe {F} `{!Subscription F} (filter : F) : S unit := subscribe filter.
End subscribe.
