(* ===== verification/AttachSpec.v ===== *)
(** * What a subscription attaches

    The attach functions against declarative plans: a plan is the list of
    programs a filter asks for, in order; attaching is to write the filter maps
    and go through the plan until something fails.  The plans name programs of
    [Ebpf.v], so the events a subscription can make the kernel produce are
    those of its masks. *)

From S2P Require Import Prelude Raw Layout Events Interfaces Ebpf KernelSpec.
From S2P Require Import Common Process Memory Network File Convert Runtime Attach.

#[local] Open Scope string_scope.
#[local] Open Scope Z_scope.

(** ** Plans *)

(** A program to attach: its name, how it is loaded and where it is attached. *)
Record Request := Req {
  rq_prog : str;
  rq_kind : ProgKind;
  rq_load : LoadArgs;
  rq_attach : AttachArgs;
}.

Definition req_fexit (prog func : str) : Request := Req prog Prog_FExit (Load_btf func) Attach_plain.
Definition req_fentry (prog func : str) : Request := Req prog Prog_FEntry (Load_btf func) Attach_plain.
Definition req_kprobe (prog sym : str) : Request :=
  Req prog Prog_KProbe Load_plain (Attach_symbol sym 0).
Definition req_tracepoint (prog cat tp : str) : Request :=
  Req prog Prog_TracePoint Load_plain (Attach_tracepoint cat tp).
Definition req_lsm (hook : str) : Request := Req hook Prog_Lsm (Load_btf hook) Attach_plain.

(** How the user side attaches each program of the object. *)
Definition probe_request (p : Probe) : Request :=
  match p with
  | P_tcp_v4_connect => req_fexit "tcp_v4_connect" "tcp_v4_connect"
  | P_tcp_v6_connect => req_fexit "tcp_v6_connect" "tcp_v6_connect"
  | P_inet_csk_accept => req_kprobe "inet_csk_accept" "inet_csk_accept"
  | P_tcp_close => req_fexit "tcp_close" "tcp_close"
  | P_udp_connect => req_fexit "udp_connect" "udp_connect"
  | P_udpv6_connect => req_fexit "udpv6_connect" "udpv6_connect"
  | P_udp_destroy_sock => req_fexit "udp_destroy_sock" "udp_destroy_sock"
  | P_inet_bind => req_fexit "inet_bind" "inet_bind"
  | P_inet_listen => req_fexit "inet_listen" "inet_listen"
  | P_sched_process_exec => req_tracepoint "sched_process_exec" "sched" "sched_process_exec"
  | P_sched_process_fork => req_tracepoint "sched_process_fork" "sched" "sched_process_fork"
  | P_do_group_exit => req_fentry "do_group_exit" "do_group_exit"
  | P_file_open => req_lsm "file_open"
  | P_fput => req_fexit "__fput" "__fput"
  | P_vfs_open => req_fexit "vfs_open" "vfs_open"
  | P_filp_close => req_fexit "filp_close" "filp_close"
  | P_vfs_read => req_fexit "vfs_read" "vfs_read"
  | P_vfs_write => req_fexit "vfs_write" "vfs_write"
  | P_vfs_unlink => req_fexit "vfs_unlink" "vfs_unlink"
  | P_vfs_rename => req_fentry "vfs_rename" "vfs_rename"
  | P_vfs_rename_retval => req_fexit "vfs_rename_retval" "vfs_rename"
  | P_vm_mmap_pgoff => req_fexit "vm_mmap_pgoff" "vm_mmap_pgoff"
  | P_vm_munmap => req_fexit "__vm_munmap" "__vm_munmap"
  end.

Definition if_ (b : bool) (l : list Probe) : list Probe := if b then l else [].

Definition network_plan (f : NetworkFilter) : list Probe :=
  let want p m := ProtocolMask_contains (nf_protocol_mask f) p
                  && NetworkMask_contains (nf_event_mask f) m in
  if_ (want ProtocolMask_TCP NetworkMask_CONNECT) [P_tcp_v4_connect; P_tcp_v6_connect]
  ++ if_ (want ProtocolMask_TCP NetworkMask_ACCEPT) [P_inet_csk_accept]
  ++ if_ (want ProtocolMask_TCP NetworkMask_CLOSE) [P_tcp_close]
  ++ if_ (want ProtocolMask_TCP NetworkMask_BIND) [P_inet_bind]
  ++ if_ (want ProtocolMask_TCP NetworkMask_LISTEN) [P_inet_listen]
  ++ if_ (want ProtocolMask_UDP NetworkMask_CONNECT) [P_udp_connect; P_udpv6_connect]
  ++ if_ (want ProtocolMask_UDP NetworkMask_CLOSE) [P_udp_destroy_sock].

Definition process_plan (f : ProcessFilter) : list Probe :=
  if_ (ProcessMask_contains (pf_mask f) ProcessMask_START) [P_sched_process_exec]
  ++ if_ (ProcessMask_contains (pf_mask f) ProcessMask_FORK) [P_sched_process_fork]
  ++ if_ (ProcessMask_contains (pf_mask f) ProcessMask_EXIT) [P_do_group_exit].

Definition file_plan (f : FileFilter) : list Probe :=
  let want m := FileMask_contains (ff_event_type f) m in
  [P_file_open; P_fput]
  ++ if_ (want FileMask_OPEN) [P_vfs_open]
  ++ if_ (want FileMask_CLOSE) [P_filp_close]
  ++ if_ (want FileMask_READ) [P_vfs_read]
  ++ if_ (want FileMask_WRITE) [P_vfs_write]
  ++ if_ (want FileMask_DELETE) [P_vfs_unlink]
  ++ if_ (want FileMask_RENAME) [P_vfs_rename; P_vfs_rename_retval].

Definition mem_plan (f : MemoryFilter) : list Probe :=
  if_ (MemoryMask_contains (mf_mask f) MemoryMask_MMAP) [P_vm_mmap_pgoff]
  ++ if_ (MemoryMask_contains (mf_mask f) MemoryMask_UNMAP) [P_vm_munmap].

(** *** The masks a record falls under *)

Definition protocol_mask_of (p : RawProtocol) : ProtocolMask :=
  match p with RawProtocol_Tcp => ProtocolMask_TCP | RawProtocol_Udp => ProtocolMask_UDP end.

Definition network_mask_of (t : EventType) : option NetworkMask :=
  match t with
  | EventType_Connect => Some NetworkMask_CONNECT
  | EventType_Accept => Some NetworkMask_ACCEPT
  | EventType_Close => Some NetworkMask_CLOSE
  | EventType_Bind => Some NetworkMask_BIND
  | EventType_Listen => Some NetworkMask_LISTEN
  | _ => None
  end.

(** A record is covered by a filter when its kind is in the filter's masks, which
    is what attaching goes by.  The masks are not all of a filter: which processes
    and which types of file it asks for is in [Session.agreed]. *)
Definition network_covers (f : NetworkFilter) (e : RawEvent) : Prop :=
  match e with
  | RawNet n =>
      ∃ m, network_mask_of (rh_event_type (pc_header n)) = Some m ∧
           NetworkMask_contains (nf_event_mask f) m = true ∧
           ProtocolMask_contains (nf_protocol_mask f) (protocol_mask_of (pc_protocol n)) = true
  | _ => False
  end.

Definition process_covers (f : ProcessFilter) (e : RawEvent) : Prop :=
  match e with
  | RawStart _ => ProcessMask_contains (pf_mask f) ProcessMask_START = true
  | RawFork _ => ProcessMask_contains (pf_mask f) ProcessMask_FORK = true
  | RawExit _ => ProcessMask_contains (pf_mask f) ProcessMask_EXIT = true
  | _ => False
  end.

(** A rename needs its return record. *)
Definition file_covers (f : FileFilter) (e : RawEvent) : Prop :=
  match e with
  | RawOpen _ => FileMask_contains (ff_event_type f) FileMask_OPEN = true
  | RawClose _ => FileMask_contains (ff_event_type f) FileMask_CLOSE = true
  | RawRead _ => FileMask_contains (ff_event_type f) FileMask_READ = true
  | RawWrite _ => FileMask_contains (ff_event_type f) FileMask_WRITE = true
  | RawDelete _ => FileMask_contains (ff_event_type f) FileMask_DELETE = true
  | RawRename _ | RawRtr _ => FileMask_contains (ff_event_type f) FileMask_RENAME = true
  | _ => False
  end.

Definition mem_covers (f : MemoryFilter) (e : RawEvent) : Prop :=
  match e with
  | RawMap _ => MemoryMask_contains (mf_mask f) MemoryMask_MMAP = true
  | RawUnmap _ => MemoryMask_contains (mf_mask f) MemoryMask_UNMAP = true
  | _ => False
  end.

#[global] Instance Probe_eq_dec : EqDecision Probe.
Proof. solve_decision. Defined.

(** Membership of a given program in a plan, group by group. *)
Lemma plan_miss p b l r : p ∉ l → (p ∈ (if_ b l ++ r)%list ↔ p ∈ r).
Proof. intros Hp. rewrite elem_of_app. destruct b; simpl; rewrite ?elem_of_nil; tauto. Qed.

Lemma plan_hit p b l r : p ∈ l → (p ∈ (if_ b l ++ r)%list ↔ b = true ∨ p ∈ r).
Proof.
  intros Hp. rewrite elem_of_app. destruct b; simpl; rewrite ?elem_of_nil; intuition congruence.
Qed.

Lemma plan_last p b l : p ∈ if_ b l ↔ p ∈ (if_ b l ++ [])%list.
Proof. by rewrite app_nil_r. Qed.

Lemma plan_skip (p q : Probe) r : p ≠ q → (p ∈ q :: r ↔ p ∈ r).
Proof. intros Hp. rewrite elem_of_cons. tauto. Qed.

Ltac by_eval := apply (bool_decide_unpack _); vm_compute; exact I.
Ltac plan_members :=
  repeat first
    [ rewrite plan_miss by by_eval | rewrite plan_hit by by_eval | rewrite plan_skip by by_eval
    | match goal with |- context [?p ∈ if_ ?b ?l] => rewrite (plan_last p b l) end ];
  rewrite ?elem_of_nil, ?andb_true_iff.

(** *** Protocol and type of the records of each network program *)

Definition net_class (p : Probe) : option (RawProtocol * EventType) :=
  match p with
  | P_tcp_v4_connect | P_tcp_v6_connect => Some (RawProtocol_Tcp, EventType_Connect)
  | P_udp_connect | P_udpv6_connect => Some (RawProtocol_Udp, EventType_Connect)
  | P_inet_csk_accept => Some (RawProtocol_Tcp, EventType_Accept)
  | P_tcp_close => Some (RawProtocol_Tcp, EventType_Close)
  | P_udp_destroy_sock => Some (RawProtocol_Udp, EventType_Close)
  | P_inet_bind => Some (RawProtocol_Tcp, EventType_Bind)
  | P_inet_listen => Some (RawProtocol_Tcp, EventType_Listen)
  | _ => None
  end.

Lemma probe_event_class {R H : Type} {M : Type → Type} `{!RingBufOps R H, !BpfMapOps M}
    p env (s : KState R M) n :
  probe_event p env s = Some (RawNet n) →
  net_class p = Some (pc_protocol n, rh_event_type (pc_header n)).
Proof.
  destruct p; simpl; unfold family_event, v4_event, v6_event, unless; intros He;
    repeat (simplify_option_eq || case_match); done.
Qed.

(** ** Carrying out a plan *)

Section exec.
Context {B T X : Type} `{!EbpfOps B T X}.

(** Attach one program; a missing [file_open] is a panic, any other missing
    program an error. *)
Definition exec_request (btf : T) (r : Request) : stateM B (Error X) unit :=
  (if bool_decide (rq_kind r = Prog_Lsm) then unwrap_program (rq_prog r)
   else ok_or (fun b => eb_program_mut b (rq_prog r)) Error_ProgramAccess);;
  try_read Error_Attach (fun b => eb_try_into b (rq_prog r) (rq_kind r));;
  try_op Error_Attach (fun b => eb_load b btf (rq_prog r) (rq_kind r) (rq_load r));;
  try_op Error_Attach (fun b => eb_attach b (rq_prog r) (rq_kind r) (rq_attach r)).

Definition exec_plan (btf : T) (l : list Probe) : stateM B (Error X) unit :=
  for_each (fun p => exec_request btf (probe_request p)) l.

(** *** Equations *)

Lemma for_each_app {I} (f : I → stateM B (Error X) unit) l1 l2 b :
  for_each f (l1 ++ l2) b = (for_each f l1;; for_each f l2) b.
Proof.
  revert b. induction l1 as [|x l1 IH]; intros b; [done|]. cbn [for_each app].
  rewrite stateM_bind_assoc. unfold mbind, stateM_bind at 1 2.
  destruct (f x b) as [[a|?| |] b']; [apply IH|done..].
Qed.

Lemma for_each_one {I} (f : I → stateM B (Error X) unit) x b : for_each f [x] b = f x b.
Proof.
  cbn [for_each]. unfold mbind, stateM_bind. by destruct (f x b) as [[[]|?| |] b'].
Qed.

Lemma bind_ext {A} (m m' : stateM B (Error X) A) (k k' : A → stateM B (Error X) unit) b :
  m b = m' b → (∀ a b', k a b' = k' a b') → (m ≫= k) b = (m' ≫= k') b.
Proof. intros Hm Hk. unfold mbind, stateM_bind. rewrite Hm. by destruct (m' b) as [[] ?]. Qed.

(** A guarded group of programs is its part of the plan. *)
Lemma when_plan btf (c : bool) l (m : stateM B (Error X) unit) b :
  (∀ b, m b = exec_plan btf l b) → when c m b = exec_plan btf (if_ c l) b.
Proof. intros Hm. destruct c; [apply Hm|done]. Qed.

Lemma exec_plan_app btf l1 l2 b :
  exec_plan btf (l1 ++ l2) b = (exec_plan btf l1;; exec_plan btf l2) b.
Proof. apply for_each_app. Qed.

Lemma exec_plan_one btf p b : exec_plan btf [p] b = exec_request btf (probe_request p) b.
Proof. apply (for_each_one (fun p => exec_request btf (probe_request p))). Qed.

(** A step and a rest of the plan. *)
Lemma plan_step btf (c : bool) l (m n : stateM B (Error X) unit) rest b :
  (∀ b, m b = exec_plan btf l b) → (∀ b, n b = exec_plan btf rest b) →
  (when c m;; n) b = exec_plan btf (if_ c l ++ rest) b.
Proof.
  intros Hm Hn. rewrite exec_plan_app. apply bind_ext; [by apply when_plan|]. intros [] b'. apply Hn.
Qed.

(** An action and the rest of the plan. *)
Lemma plan_cons btf p (m n : stateM B (Error X) unit) rest b :
  (∀ b, m b = exec_request btf (probe_request p) b) → (∀ b, n b = exec_plan btf rest b) →
  (m;; n) b = exec_plan btf (p :: rest) b.
Proof. intros Hm Hn. apply bind_ext; [apply Hm|]. intros [] b'. apply Hn. Qed.

Lemma plan_single btf p (m : stateM B (Error X) unit) b :
  (∀ b, m b = exec_request btf (probe_request p) b) → m b = exec_plan btf [p] b.
Proof. intros Hm. rewrite exec_plan_one. apply Hm. Qed.
End exec.
