(* ===== verification/AttachTheorems.v ===== *)
(** * What subscribing guarantees

    The attach functions carry out their plans; the plans are exactly the
    programs whose records the masks of a filter cover; [subscribe] registers a
    new channel when all of it succeeded and changes no registration otherwise. *)

From S2P Require Import Prelude Raw Layout Events Interfaces Ebpf KernelSpec KernelProofs KernelInv.
From S2P Require Import Common Process Memory Network File Convert Runtime Attach AttachSpec.

#[local] Open Scope string_scope.
#[local] Open Scope Z_scope.

Ltac one := intros; apply plan_single; intros; reflexivity.
Ltac step := apply plan_step; [intros|intros].

Section theorems.
Context {B T X : Type} `{!EbpfOps B T X}.

(** Attaching the network programs is: write the filter key under the
    network owner, then attach in order the programs of [network_plan],
    stopping at the first error, which is returned. *)
Lemma attach_network_plan filter btf b :
  attach_network_probe filter btf b
  = (write_to_fiter_map (Filters_Network filter) FilterOwner_Network;;
     exec_plan btf (network_plan filter)) b.
Proof.
  apply bind_ext; [done|]. intros [] b1. unfold network_plan.
  step. { apply plan_cons; [done|]. intros. by apply plan_cons. }
  step. { by apply plan_cons. }
  step; [one|]. step; [one|]. step; [one|].
  step. { apply plan_cons; [done|]. intros. by apply plan_cons. }
  apply when_plan. one.
Qed.

(** Attaching the file programs is: write the filter key, then the
    file types of the filter to CONFIG, then attach [file_open] and [__fput],
    which track paths, and the programs of the mask, rename taking two. *)
Lemma attach_file_plan filter btf b :
  attach_file_probe filter btf b
  = (write_to_fiter_map (Filters_File filter) FilterOwner_File;;
     write_to_map filter;; exec_plan btf (file_plan filter)) b.
Proof.
  apply bind_ext; [done|]. intros [] b1. apply bind_ext; [done|]. intros [] b2.
  unfold file_plan. apply plan_cons; [done|]. intros. apply plan_cons; [done|]. intros.
  step; [one|]. step; [one|]. step; [one|]. step; [one|]. step; [one|].
  apply when_plan. intros. apply plan_cons; [done|]. one.
Qed.

(** The same for the process and the memory programs. *)
Lemma attach_process_mem_plan pf mf btf b :
  attach_process_probe pf btf b
  = (write_to_fiter_map (Filters_Process pf) FilterOwner_Process;;
     exec_plan btf (process_plan pf)) b ∧
  attach_mem_probe mf btf b
  = (write_to_fiter_map (Filters_Memory mf) FilterOwner_Memory;;
     exec_plan btf (mem_plan mf)) b.
Proof.
  split; (apply bind_ext; [done|]); intros [] b1.
  - unfold process_plan. step; [one|]. step; [one|]. apply when_plan. one.
  - unfold mem_plan. step; [one|]. apply when_plan. one.
Qed.

(** (C20) Each attach function is its plan: it writes the filter key under the owner
    of its kind (a file subscription also its file types to CONFIG), then
    attaches the programs of the plan in order, stopping at the first error,
    which is returned. *)
Theorem attach_plans nf pf ff mf btf b :
  attach_network_probe nf btf b
  = (write_to_fiter_map (Filters_Network nf) FilterOwner_Network;;
     exec_plan btf (network_plan nf)) b ∧
  attach_process_probe pf btf b
  = (write_to_fiter_map (Filters_Process pf) FilterOwner_Process;;
     exec_plan btf (process_plan pf)) b ∧
  attach_file_probe ff btf b
  = (write_to_fiter_map (Filters_File ff) FilterOwner_File;;
     write_to_map ff;; exec_plan btf (file_plan ff)) b ∧
  attach_mem_probe mf btf b
  = (write_to_fiter_map (Filters_Memory mf) FilterOwner_Memory;;
     exec_plan btf (mem_plan mf)) b.
Proof.
  destruct (attach_process_mem_plan pf mf btf b) as [Hp Hm].
  split_and!; [apply attach_network_plan|exact Hp|apply attach_file_plan|exact Hm].
Qed.
End theorems.

Section coverage.
Context {R H : Type} {M : Type → Type} `{RingBufLaws R H, BpfMapLaws M}.
Implicit Types s : KState R M.

(** Plans against the record a program owes. *)
Lemma network_plan_probe f p env s e :
  probe_event p env s = Some e → (p ∈ network_plan f ↔ network_covers f e).
Proof.
  intros He. pose proof (probe_event_struct _ _ _ _ He) as Hs. unfold network_plan.
  destruct e as [n|e|e|e|e|e|e|e|e|e|e|e|e];
    try (destruct p; try done; plan_members; simpl; tauto).
  apply probe_event_class in He. unfold network_covers.
  destruct p; try done; simpl in He; injection He as <- <-; plan_members; simpl;
    (split; [intros; eexists; split; [reflexivity|]; tauto|intros (? & [= <-] & ?); tauto]).
Qed.

Lemma file_plan_probe f p env s e :
  probe_event p env s = Some e → (p ∈ file_plan f ↔ file_covers f e).
Proof.
  intros He. pose proof (probe_event_struct _ _ _ _ He) as Hs. unfold file_plan. cbn [app].
  destruct p, e; try done; plan_members; simpl; try tauto.
Qed.

Lemma process_plan_probe f p env s e :
  probe_event p env s = Some e → (p ∈ process_plan f ↔ process_covers f e).
Proof.
  intros He. pose proof (probe_event_struct _ _ _ _ He) as Hs. unfold process_plan.
  destruct p, e; try done; plan_members; simpl; try tauto.
Qed.

Lemma mem_plan_probe f p env s e :
  probe_event p env s = Some e → (p ∈ mem_plan f ↔ mem_covers f e).
Proof.
  intros He. pose proof (probe_event_struct _ _ _ _ He) as Hs. unfold mem_plan.
  destruct p, e; try done; plan_members; simpl; try tauto.
Qed.

(** (C9) The programs of a network subscription are exactly those whose
    records it asks for: a record of any program comes from a program of the
    plan if and only if the filter's masks cover its type and protocol. *)
Theorem network_plan_exact f p env s e :
  adds_record p env s e → (p ∈ network_plan f ↔ network_covers f e).
Proof. intros He%adds_record_event. by eapply network_plan_probe. Qed.

(** (C16) The same for file subscriptions; the two programs that every file
    subscription attaches produce no records. *)
Theorem file_plan_exact f p env s e :
  adds_record p env s e → (p ∈ file_plan f ↔ file_covers f e).
Proof. intros He%adds_record_event. by eapply file_plan_probe. Qed.

(** (C17) The same for process and memory subscriptions. *)
Theorem process_mem_plan_exact pf mf p env s e :
  adds_record p env s e →
  (p ∈ process_plan pf ↔ process_covers pf e) ∧ (p ∈ mem_plan mf ↔ mem_covers mf e).
Proof.
  intros He%adds_record_event. split; [by eapply process_plan_probe|by eapply mem_plan_probe].
Qed.
End coverage.

(** ** Subscribing *)

Section subscribing.
Context {B T R X : Type} {Ch : Type → Type}.
Context `{!EbpfOps B T X, ChannelLaws Ch}.
Implicit Types s : Bpfx B T R Ch.

(** A registration afterwards: the filter with a new channel on success, what
    it was otherwise. *)
Definition registers {Reg Ev} (old new : option Reg) (mk : Ch Ev → Reg) (capacity : Z)
    (r : outcome (Error X) unit) : Prop :=
  match r with
  | Ok _ => ∃ c, new = Some (mk c) ∧ ch_queue c = [] ∧ ch_capacity c = capacity ∧
                 ch_is_closed c = false
  | _ => new = old
  end.

(** What no subscription changes. *)
Definition same_runtime s s' : Prop :=
  btf s' = btf s ∧ ringbuf s' = ringbuf s ∧ pending_renames s' = pending_renames s ∧
  config s' = config s.

Ltac subscribing Hs attach s :=
  unfold mbind, stateM_bind, new_channel, on_bpf, register in Hs;
  match type of Hs with context [ch_channel (A := ?A) ?n] =>
    let Hc := fresh "Hc" in
    destruct (ch_channel (A := A) n) as [c|] eqn:Hc; [apply ch_channel_new in Hc|]
  end;
  [ destruct (attach (btf s) (bpf s)) as [[[]|?| |] ?] | ];
  simplify_eq/=; split_and!; try done; eexists; destruct_and?; split_and!; done.

(** (C19) Whatever its result, a subscription changes the eBPF object and its
    own registration only, and the registration only when everything
    succeeded: it then holds the filter and a new, empty, open channel of the
    configured capacity; after an error or a panic it is the previous one. *)
Theorem subscribe_registers nf pf ff mf s r s' :
  (NetworkFilter_subscribe nf s = (r, s') →
     registers (network s) (network s') (Build_NetworkRegister nf) (channel_capacity (config s)) r ∧
     process s' = process s ∧ file s' = file s ∧ mem_reg s' = mem_reg s ∧ same_runtime s s') ∧
  (ProcessFilter_subscribe pf s = (r, s') →
     registers (process s) (process s') (Build_ProcessRegister pf) (channel_capacity (config s)) r ∧
     network s' = network s ∧ file s' = file s ∧ mem_reg s' = mem_reg s ∧ same_runtime s s') ∧
  (FileFilter_subscribe ff s = (r, s') →
     registers (file s) (file s') (Build_FileRegister ff) (channel_capacity (config s)) r ∧
     network s' = network s ∧ process s' = process s ∧ mem_reg s' = mem_reg s ∧ same_runtime s s') ∧
  (MemoryFilter_subscribe mf s = (r, s') →
     registers (mem_reg s) (mem_reg s') (Build_MemRegister mf) (channel_capacity (config s)) r ∧
     network s' = network s ∧ process s' = process s ∧ file s' = file s ∧ same_runtime s s').
Proof.
  split_and!; intros Hs.
  - unfold NetworkFilter_subscribe in Hs. subscribing Hs (attach_network_probe nf) s.
  - unfold ProcessFilter_subscribe in Hs. subscribing Hs (attach_process_probe pf) s.
  - unfold FileFilter_subscribe in Hs. subscribing Hs (attach_file_probe ff) s.
  - unfold MemoryFilter_subscribe in Hs. subscribing Hs (attach_mem_probe mf) s.
Qed.

(** A runtime configured with a channel capacity of 0 panics in every
    [subscribe], before the eBPF object is touched. *)
Theorem subscribe_zero_capacity (nf : NetworkFilter) (pf : ProcessFilter) (ff : FileFilter)
    (mf : MemoryFilter) s :
  channel_capacity (config s) = 0 →
  Bpfx_subscribe nf s = (Panic, s) ∧ Bpfx_subscribe pf s = (Panic, s) ∧
  Bpfx_subscribe ff s = (Panic, s) ∧ Bpfx_subscribe mf s = (Panic, s).
Proof.
  intros Hz. unfold Bpfx_subscribe, subscribe, NetworkFilter_Subscription,
    ProcessFilter_Subscription, FileFilter_Subscription, MemoryFilter_Subscription,
    NetworkFilter_subscribe, ProcessFilter_subscribe, FileFilter_subscribe,
    MemoryFilter_subscribe, mbind, stateM_bind, new_channel.
  by rewrite Hz, !ch_channel_zero.
Qed.
End subscribing.

(** ** The theorems at a concrete object and runtime *)

(** An object that has every program and map and logs what is attached. *)
Definition attach_log : Type := list (str * AttachArgs).

Definition log_ebpf : EbpfOps attach_log unit unit := {|
  eb_map_mut _ _ := true;
  eb_filter_map _ _ := None;
  eb_config_map _ _ := None;
  eb_insert_filter b _ _ _ := (None, b);
  eb_insert_config b _ _ _ := (None, b);
  eb_program_mut _ _ := true;
  eb_try_into _ _ _ := None;
  eb_load b _ _ _ _ := (None, b);
  eb_attach b n _ a := (None, (b ++ [(n, a)])%list);
|}.
#[local] Existing Instance log_ebpf.

Definition idle_runtime (capacity : Z) : Bpfx attach_log unit list_ring chan_view :=
  fresh [] tt (ListRing 4096 [] []) {| channel_capacity := capacity |}.

Example process_programs_attached :
  bpf (ProcessFilter_subscribe ProcessFilter_ALL (idle_runtime 8)).2
  = [("sched_process_exec", Attach_tracepoint "sched" "sched_process_exec");
     ("sched_process_fork", Attach_tracepoint "sched" "sched_process_fork");
     ("do_group_exit", Attach_plain)].
Proof. vm_compute. reflexivity. Qed.

Lemma subscribe_registers_witness :
  ∃ c, process (ProcessFilter_subscribe ProcessFilter_ALL (idle_runtime 8)).2
       = Some {| pr_filter := ProcessFilter_ALL; pr_tx := c |} ∧
       ch_queue c = [] ∧ ch_capacity c = 8 ∧ ch_is_closed c = false.
Proof.
  destruct (subscribe_registers NetworkFilter_ALL ProcessFilter_ALL FileFilter_ALL
              MemoryFilter_ALL (idle_runtime 8) (Ok tt)
              (ProcessFilter_subscribe ProcessFilter_ALL (idle_runtime 8)).2)
    as (_ & Hp & _).
  destruct (Hp ltac:(vm_compute; reflexivity)) as [Hr _]. exact Hr.
Defined.

Lemma subscribe_zero_capacity_witness :
  Bpfx_subscribe NetworkFilter_ALL (idle_runtime 0) = (Panic, idle_runtime 0) ∧
  Bpfx_subscribe ProcessFilter_ALL (idle_runtime 0) = (Panic, idle_runtime 0) ∧
  Bpfx_subscribe FileFilter_ALL (idle_runtime 0) = (Panic, idle_runtime 0) ∧
  Bpfx_subscribe MemoryFilter_ALL (idle_runtime 0) = (Panic, idle_runtime 0).
Proof. apply subscribe_zero_capacity. reflexivity. Defined.

Definition plan_env : Env := sample_env 7 8 [4096; 0; 0; -115] 0 [].
Definition plan_state : KState list_ring fin_bpf_map := sample_state [] None.

(** The record a program owes in the sample environment. *)
Definition plan_record (p : Probe) : RawEvent :=
  default (RawRtr {| rt_header := zero_header; rt_retval := 0 |}) (probe_event p plan_env plan_state).

Lemma network_plan_exact_witness :
  P_tcp_v4_connect ∈ network_plan NetworkFilter_TCP
  ↔ network_covers NetworkFilter_TCP (plan_record P_tcp_v4_connect).
Proof.
  apply (network_plan_exact NetworkFilter_TCP P_tcp_v4_connect plan_env plan_state).
  apply adds_record_compute; [apply sample_state_maps_wf|vm_compute; reflexivity..].
Defined.

Lemma file_plan_exact_witness :
  P_vfs_rename_retval ∈ file_plan FileFilter_OPEN
  ↔ file_covers FileFilter_OPEN (plan_record P_vfs_rename_retval).
Proof.
  apply (file_plan_exact FileFilter_OPEN P_vfs_rename_retval plan_env plan_state).
  apply adds_record_compute; [apply sample_state_maps_wf|vm_compute; reflexivity..].
Defined.

Lemma process_mem_plan_exact_witness :
  (P_do_group_exit ∈ process_plan ProcessFilter_EXIT
   ↔ process_covers ProcessFilter_EXIT (plan_record P_do_group_exit)) ∧
  (P_do_group_exit ∈ mem_plan MemoryFilter_ALL
   ↔ mem_covers MemoryFilter_ALL (plan_record P_do_group_exit)).
Proof.
  apply (process_mem_plan_exact ProcessFilter_EXIT MemoryFilter_ALL P_do_group_exit plan_env plan_state).
  apply adds_record_compute; [apply sample_state_maps_wf|vm_compute; reflexivity..].
Defined.
