(* ===== verification/UserTheorems.v ===== *)
(** * Events, masks and filters

    Theorems about the types a subscriber sees ([Common.v], [Process.v],
    [Memory.v], [Network.v], [File.v]) and about the fields the converters
    fill in, from the kernel's value to the accessor's. *)

From Stdlib Require Import Ascii.
From S2P Require Import Prelude Utf8 Raw Layout Events Interfaces Ebpf KernelSpec KernelProofs KernelInv.
From S2P Require Import Common Process Memory Network File Convert ConvertSpec.
From S2P Require Import Runtime RuntimeProofs Attach AttachSpec.

#[local] Open Scope string_scope.
#[local] Open Scope Z_scope.

(** ** Headers *)

(** (C33) The text of a header determines the header: the lines that
    [Display] prints for two different headers differ. *)
Theorem EventHeader_fmt_injective h1 h2 : EventHeader_fmt h1 = EventHeader_fmt h2 ↔ h1 = h2.
Proof.
  split; [|by intros ->]. destruct h1, h2. unfold EventHeader_fmt. simpl. intros He.
  apply dec_field in He as [-> He].
  do 5 (injection He as He; apply dec_field in He as [-> He]).
  injection He as ->. done.
Qed.

(** [timestamp] loses nothing: the duration has less than a second of
    nanoseconds and stands for the header's count. *)
Theorem timestamp_exact h :
  0 ≤ d_nanos (EventHeader_timestamp h) < 1000000000 ∧
  Duration_as_nanos (EventHeader_timestamp h) = eh_timestamp_ns h.
Proof.
  unfold EventHeader_timestamp, Duration_from_nanos, Duration_as_nanos. simpl.
  pose proof (Z.mod_pos_bound (eh_timestamp_ns h) 1000000000 ltac:(lia)).
  pose proof (Z.div_mod (eh_timestamp_ns h) 1000000000 ltac:(lia)). lia.
Qed.

(** (C27) The command name of a converted header is valid UTF-8 without NUL
    whatever the kernel's bytes are, and it is the kernel's name when that is
    a NUL-terminated valid one. *)
Theorem convert_header_comm h name rest :
  (valid_string (eh_comm (convert_header h)) ∧ x00 ∉ string_bytes (eh_comm (convert_header h))) ∧
  (valid_string name → x00 ∉ string_bytes name →
   rh_comm h = (string_bytes name ++ x00 :: rest)%list → eh_comm (convert_header h) = name).
Proof.
  split; [split; [apply lossy_cstr_valid|apply lossy_cstr_no_nul]|].
  intros Hv Hn Hc. unfold convert_header. simpl. rewrite Hc. by apply lossy_cstr_padded.
Qed.

Lemma convert_header_comm_witness :
  eh_comm (convert_header {| rh_event_type := EventType_Connect; rh_timestamp_ns := 0; rh_pid := 0;
    rh_tid := 0; rh_ppid := 0; rh_uid := 0; rh_gid := 0;
    rh_comm := ([x73; x68] ++ replicate 14 x00)%list |}) = "sh".
Proof.
  refine (proj2 (convert_header_comm _ "sh" (replicate 13 x00)) _ _ _).
  - exists [115; 104]. split; [|reflexivity]. repeat constructor; vm_compute; try done; by left.
  - apply (bool_decide_unpack _). vm_compute. exact I.
  - reflexivity.
Defined.

(** ** Processes *)

(** [ProcessExitEvent::status] is 0 for every exit code: the code shifts
    the status out of the byte it then keeps. *)
Theorem exit_status_always_zero e : ProcessExitEvent_status e = 0.
Proof.
  unfold ProcessExitEvent_status.
  assert (Hz : Z.land (s_wrap 32 (Z.shiftl (pxe_exit_code e) 8)) 0xff = 0).
  { change 0xff with (Z.ones 8). rewrite Z.land_ones by lia. unfold s_wrap.
    rewrite Z.shiftl_mul_pow2 by lia. set (x := pxe_exit_code e).
    pose proof (Z.div_mod (x * 2 ^ 8 + 2 ^ (32 - 1)) (2 ^ 32) ltac:(lia)) as Hd.
    set (q := (x * 2 ^ 8 + 2 ^ (32 - 1)) / 2 ^ 32) in *.
    replace ((x * 2 ^ 8 + 2 ^ (32 - 1)) mod 2 ^ 32 - 2 ^ (32 - 1))
      with ((x - 2 ^ 24 * q) * 2 ^ 8) by lia.
    by apply Z.mod_mul. }
  by rewrite Hz.
Qed.

(** ** Masks and filters *)

(** Combining network filters keeps the first one's protocols: the
    combination of the TCP and UDP filters covers the records of the TCP
    filter only, none of UDP. *)
Theorem network_union_drops_protocol e :
  network_covers (NetworkFilter_bitor NetworkFilter_TCP NetworkFilter_UDP) e
  ↔ network_covers NetworkFilter_TCP e.
Proof. destruct e; reflexivity. Qed.

(** ** File types *)

(** (C28) The type of a file survives the trip from the inode to the event:
    the mode bits of the event's type are the type bits of the inode's mode,
    or 0 for a type the kernel side does not know. *)
Theorem file_type_round_trip m :
  FileType_mode_bits (FileType_from {| mode := file_type_bit m |})
  = if bool_decide (Z.land m S_IFMT ∈ [S_IFREG; S_IFDIR; S_IFCHR; S_IFBLK; S_IFIFO; S_IFLNK; S_IFSOCK])
    then Z.land m S_IFMT else 0.
Proof.
  unfold file_type_bit. generalize (Z.land m S_IFMT). intros t.
  rewrite (bool_decide_ext _ (t = S_IFREG ∨ t = S_IFDIR ∨ t = S_IFCHR ∨ t = S_IFBLK ∨ t = S_IFIFO ∨
                              t = S_IFLNK ∨ t = S_IFSOCK))
    by (rewrite !elem_of_cons, elem_of_nil; tauto).
  repeat match goal with
  | |- context [t =? ?k] => destruct (Z.eqb_spec t k) as [->|]; [reflexivity|]
  end.
  rewrite bool_decide_false by tauto. reflexivity.
Qed.

(** ** Open flags *)

(** Access modes: exactly one of read-only, write-only and read-write is
    reported unless both access bits are set, and [is_read]/[is_write] follow
    the two low bits of the flags. *)
Theorem access_mode_spec {T} `{!FileInfo T} (self : T) :
  FileInfo_is_read self = negb (Z.testbit (flags_raw self) 0) ∧
  FileInfo_is_write self
    = xorb (Z.testbit (flags_raw self) 0) (Z.testbit (flags_raw self) 1) ∧
  access_mode_name (flags_raw self)
    = match Z.testbit (flags_raw self) 0, Z.testbit (flags_raw self) 1 with
      | false, false => ["RDONLY"] | true, false => ["WRONLY"]
      | false, true => ["RDWR"] | true, true => []
      end.
Proof.
  set (f := flags_raw self).
  assert (Hl : Z.land f O_ACCMODE = Z.lor (if Z.testbit f 0 then 1 else 0) (if Z.testbit f 1 then 2 else 0)).
  { change O_ACCMODE with (Z.lor (2 ^ 0) (2 ^ 1)). by rewrite Z.land_lor_distr_r, !land_pow2. }
  unfold FileInfo_is_read, FileInfo_is_write, access_mode_name. fold f. rewrite Hl.
  by destruct (Z.testbit f 0), (Z.testbit f 1).
Qed.

(** A flag is set when all of its bits are: [O_SYNC] and [O_TMPFILE] have two. *)
Definition flag_set (f flag : Z) : Prop := Z.land f flag = flag.

(** The access modes and the flags of open(2) that have a name in [flags]. *)
Definition access_modes : list (Z * str) :=
  [(O_RDONLY, "RDONLY"); (O_WRONLY, "WRONLY"); (O_RDWR, "RDWR")].
Definition pushed_flags : list (Z * str) :=
  [(O_APPEND, "APPEND"); (O_ASYNC, "ASYNC"); (O_CLOEXEC, "CLOEXEC"); (O_CREAT, "CREAT");
   (O_DIRECT, "DIRECT"); (O_DIRECTORY, "DIRECTORY"); (O_DSYNC, "DSYNC"); (O_EXCL, "EXCL");
   (O_NOATIME, "NOATIME"); (O_NOCTTY, "NOCTTY"); (O_NOFOLLOW, "NOFOLLOW");
   (O_NONBLOCK, "NONBLOCK"); (O_PATH, "PATH"); (O_SYNC, "SYNC"); (O_TRUNC, "TRUNC")].
Definition open_flags : list (Z * str) := (pushed_flags ++ [(O_TMPFILE, "TMPFILE")])%list.

(** What the flags [f] of an open file mean. *)
Definition means (f : Z) (name : str) : Prop :=
  (∃ m, (m, name) ∈ access_modes ∧ Z.land f O_ACCMODE = m) ∨
  (∃ flag, (flag, name) ∈ open_flags ∧ flag_set f flag).

Lemma push_flag_elem (f fl : Z) (n n' : str) : n ∈ push_flag f fl n' ↔ Z.land f fl ≠ 0 ∧ n = n'.
Proof.
  unfold push_flag. destruct (Z.eqb_spec (Z.land f fl) 0); simpl;
    rewrite ?elem_of_cons, ?elem_of_nil; tauto.
Qed.

Lemma access_mode_elem (f : Z) (n : str) :
  n ∈ access_mode_name f ↔ ∃ m, (m, n) ∈ access_modes ∧ Z.land f O_ACCMODE = m.
Proof.
  unfold access_mode_name, access_modes. split.
  - repeat case_match; rewrite ?elem_of_cons, ?elem_of_nil; [..|done];
      intros [->|[]]; eexists; (split; [|by apply Z.eqb_eq]); by_eval.
  - intros (m & Hm & ->). rewrite !elem_of_cons, elem_of_nil in Hm.
    destruct_or? Hm; try done; injection Hm as Hm ->; rewrite Hm; by_eval.
Qed.

Lemma single_bit_set f flag name :
  (flag, name) ∈ pushed_flags → name ≠ "SYNC" → Z.land f flag ≠ 0 ↔ flag_set f flag.
Proof.
  intros Hf Hname. assert (∃ k, 0 ≤ k ∧ flag = 2 ^ k) as (k & Hk & ->).
  { unfold pushed_flags in Hf. rewrite !elem_of_cons, elem_of_nil in Hf.
    exists (Z.log2 flag). destruct_or? Hf; try done; by injection Hf as -> ->. }
  unfold flag_set. rewrite land_pow2 by done. destruct (Z.testbit f k); lia.
Qed.

Lemma sync_flag flag : (flag, "SYNC") ∈ pushed_flags → flag = O_SYNC.
Proof.
  unfold pushed_flags. rewrite !elem_of_cons, elem_of_nil. intros Hf.
  by destruct_or? Hf; simplify_eq.
Qed.

Lemma flag_names_elem f name :
  name ∈ flag_names f ↔
  (∃ m, (m, name) ∈ access_modes ∧ Z.land f O_ACCMODE = m) ∨
  (∃ flag, (flag, name) ∈ pushed_flags ∧ Z.land f flag ≠ 0) ∨
  name = "TMPFILE" ∧ flag_set f O_TMPFILE.
Proof.
  assert (flag_names f = access_mode_name f
    ++ (pushed_flags ≫= (fun p => push_flag f p.1 p.2))
    ++ (if Z.land f O_TMPFILE =? O_TMPFILE then ["TMPFILE"] else []))%list as ->.
  { unfold flag_names, pushed_flags. cbn [mbind list_bind fst snd]. by rewrite <- ?app_assoc. }
  rewrite !elem_of_app, access_mode_elem, list_elem_of_bind. apply or_iff_compat_l.
  apply Morphisms_Prop.or_iff_morphism.
  - split; [intros ([flag n] & [Hl ->]%push_flag_elem & Hf)|intros (flag & Hf & Hl)].
    + by exists flag.
    + exists (flag, name). by rewrite push_flag_elem.
  - unfold flag_set. destruct (Z.eqb_spec (Z.land f O_TMPFILE) O_TMPFILE);
      rewrite ?elem_of_cons, ?elem_of_nil; tauto.
Qed.

(** (C31) The names that [flags] lists are those of open(2) for the value: of its
    access mode, and of the flags all of whose bits are set, [TMPFILE] included.
    There is one exception: [SYNC] is listed as soon as one of its two bits is
    set, so that a file opened with [O_DSYNC] alone, which for open(2) is not
    [O_SYNC], is shown as [RDONLY|DSYNC|SYNC]. *)
Theorem flag_names_spec f name :
  (name ∈ flag_names f ↔ means f name ∨ name = "SYNC" ∧ Z.land f O_SYNC ≠ 0) ∧
  String.concat "|" (flag_names O_DSYNC) = "RDONLY|DSYNC|SYNC" ∧ ¬ means O_DSYNC "SYNC".
Proof.
  split_and!; [|reflexivity|].
  - rewrite flag_names_elem. unfold means, open_flags. split.
    + intros [Hm|[(flag & Hf & Hs)|[-> Ht]]].
      * by left; left.
      * destruct (decide (name = "SYNC")) as [->|Hn].
        { right. split; [done|]. by rewrite <- (sync_flag flag). }
        left. right. exists flag. rewrite elem_of_app. split; [by left|].
        by apply (single_bit_set _ _ _ Hf Hn).
      * left. right. exists O_TMPFILE. rewrite elem_of_app. split; [right; by_eval|done].
    + intros [[Hm|(flag & [Hf|Hf]%elem_of_app & Hs)]|[-> Hs]].
      * by left.
      * right. left. exists flag. split; [done|].
        destruct (decide (name = "SYNC")) as [->|Hn]; [|by apply (single_bit_set _ _ _ Hf Hn)].
        rewrite (sync_flag _ Hf) in *. by rewrite Hs.
      * apply list_elem_of_singleton in Hf as [= -> ->]. by right; right.
      * right. left. exists O_SYNC. split; [by_eval|done].
  - intros [(m & Hm & _)|(flag & Hf & Hs)].
    + unfold access_modes in Hm. rewrite !elem_of_cons, elem_of_nil in Hm. by destruct_or? Hm.
    + unfold open_flags in Hf. apply elem_of_app in Hf as [Hf|Hf%list_elem_of_singleton]; [|done].
      by rewrite (sync_flag _ Hf) in Hs.
Qed.

(** ** Paths *)

(** A text without slashes. *)
Fixpoint no_slash (s : str) : bool :=
  match s with
  | EmptyString => true
  | String c s => negb (bool_decide (c = "/"%char)) && no_slash s
  end.

Lemma app_cons_not_nil_r {A} (l : list A) x : l ≠ (l ++ [x])%list.
Proof.
  intros Hl. apply (f_equal length) in Hl. rewrite length_app in Hl. simpl in Hl. lia.
Qed.

Lemma path_split_no_slash cur s : no_slash s = true → path_split cur s = [cur +:+ s].
Proof.
  revert cur. induction s as [|c s IH]; intros cur Hs; simpl in *; [by rewrite str_app_nil_r|].
  apply andb_true_iff in Hs as [Hc Hs]. apply negb_true_iff in Hc. rewrite Hc.
  rewrite IH by done. by rewrite <- str_app_assoc.
Qed.

Lemma path_split_app cur dir s :
  ∃ l, path_split cur (dir +:+ String "/" s) = (l ++ path_split "" s)%list.
Proof.
  revert cur. induction dir as [|c dir IH]; intros cur; simpl.
  - by exists [cur].
  - case_bool_decide.
    + destruct (IH "") as [l Hl]. exists (cur :: l). by rewrite Hl.
    + apply IH.
Qed.

Lemma path_split_component cur s t :
  no_slash s = true → path_split cur (s +:+ String "/" t) = (cur +:+ s) :: path_split "" t.
Proof.
  revert cur. induction s as [|c s IH]; intros cur Hs; simpl in *; [by rewrite str_app_nil_r|].
  apply andb_true_iff in Hs as [Hc Hs]. apply negb_true_iff in Hc. rewrite Hc.
  rewrite IH by done. by rewrite <- str_app_assoc.
Qed.

(** (C32) [file_name] of a path is its last component: for any directory and a
    non-empty name without slash other than [.] and [..], the name of
    [directory/name] is [name]; so is the name of [name] alone and of
    [directory/name/]. *)
Theorem file_name_last_component dir name :
  no_slash name = true → name ≠ "" → name ≠ "." → name ≠ ".." →
  file_name_or_empty (dir +:+ String "/" name) = name ∧
  file_name_or_empty name = name ∧
  file_name_or_empty (dir +:+ String "/" (name +:+ "/")) = name.
Proof.
  intros Hs H0 H1 H2. unfold file_name_or_empty, path_file_name, path_components.
  assert (Hn : path_split "" name = [name]) by by apply path_split_no_slash.
  assert (Hlast : ∀ l r : list str, filter (fun c : str => c ≠ "" ∧ c ≠ ".") r = [] →
    list.last (filter (fun c : str => c ≠ "" ∧ c ≠ ".") (l ++ name :: r)%list) = Some name).
  { intros l r Hr. rewrite list.filter_app, list.filter_cons_True by done. rewrite Hr. apply last_snoc. }
  split_and!.
  - destruct (path_split_app "" dir name) as [l ->]. rewrite Hn, Hlast by done.
    by rewrite bool_decide_false.
  - rewrite Hn. pose proof (Hlast [] [] eq_refl) as Hl. simpl in Hl |- *. rewrite Hl.
    by rewrite bool_decide_false.
  - destruct (path_split_app "" dir (name +:+ "/")) as [l ->].
    rewrite path_split_component by done. rewrite Hlast by done. by rewrite bool_decide_false.
Qed.

Lemma file_name_last_component_witness : file_name_or_empty "/usr/lib/libc.so" = "libc.so".
Proof.
  refine (proj1 (file_name_last_component "/usr/lib" "libc.so" _ _ _ _)); (reflexivity || discriminate).
Defined.

(** ** File events *)

(** An event that a record added to a channel is the one it stands for. *)
Lemma delivered_file_event {Ch : Type → Type} `{ChannelLaws Ch} {X}
    (c c' : Ch FileEvent) p p' e ev :
  raw_ok e → @convert_file_events _ _ X c (raw_put e) p = Ok (c', p') →
  ch_queue c' = (ch_queue c ++ [ev])%list → file_event p e = Some ev.
Proof.
  intros Hok Hc Hq. rewrite convert_file_spec in Hc by done. injection Hc as <- _.
  destruct (file_event p e) as [ev'|]; simpl in Hq.
  - change (ch_queue (offer c ev')) with (cv_queue (ch_view (offer c ev'))) in Hq.
    rewrite ch_view_offer in Hq. unfold view_send in Hq.
    destruct (cv_closed _); [|destruct (_ <=? _)]; simpl in Hq;
      try (exfalso; by apply (app_cons_not_nil_r (ch_queue c) ev)).
    apply (inj _) in Hq. by injection Hq as ->.
  - exfalso. by apply (app_cons_not_nil_r (ch_queue c) ev).
Qed.

(** The raw return value of a file record. *)
Definition raw_retval (e : RawEvent) : option Z :=
  match e with
  | RawOpen e => Some (ro_retval e)
  | RawClose e => Some (rc_retval e)
  | RawRead e => Some (rr_retval e)
  | RawWrite e => Some (rw_retval e)
  | RawDelete e => Some (rd_retval e)
  | RawRtr e => Some (rt_retval e)
  | _ => None
  end.

(** (C29) The return value of a delivered file event is the kernel's, sign
    included, and [succeeded] holds exactly for the non-negative ones. *)
Theorem file_event_retval {Ch : Type → Type} `{ChannelLaws Ch} {X}
    (c c' : Ch FileEvent) p p' e ev :
  raw_ok e → @convert_file_events _ _ X c (raw_put e) p = Ok (c', p') →
  ch_queue c' = (ch_queue c ++ [ev])%list →
  ∃ r, raw_retval e = Some r ∧ FileEvent_retval ev = r ∧
       (FileEvent_succeeded ev = true ↔ 0 ≤ r) ∧ FileEvent_failed ev = (r <? 0).
Proof.
  intros Hok Hc Hq. assert (He : file_event p e = Some ev) by by eapply delivered_file_event.
  destruct Hok as [Hw _].
  assert (Hi : ∀ r, in_s 32 r → s_wrap 64 r = r).
  { intros r Hr. apply s_wrap_id; [lia|]. unfold in_s in *. lia. }
  assert (∃ r, raw_retval e = Some r ∧ FileEvent_retval ev = r) as (r & Hr & Hev).
  { destruct e; simplify_eq/=; try (eexists; split; [reflexivity|]; done);
      try (eexists; split; [reflexivity|]; apply Hi; cbn -[RawEventHeader_codec] in Hw;
           destruct_and?; done).
    apply fmap_Some in He as (r0 & _ & ->). eexists. split; [reflexivity|]. apply Hi.
    cbn -[RawEventHeader_codec] in Hw. destruct_and?. done. }
  exists r. unfold FileEvent_failed, FileEvent_succeeded. rewrite Hev. split_and!; [done|done| |].
  - apply Z.leb_le.
  - by rewrite Z.leb_antisym, negb_involutive.
Qed.

(** The deduplication key tells the kinds of events apart and contains
    what identifies an operation of its kind, the return value of a close
    included. *)
Theorem dedup_key_spec e1 e2 :
  FileEvent_dedup_key e1 = FileEvent_dedup_key e2 →
  FileEvent_event_type e1 = FileEvent_event_type e2 ∧
  FileEvent_inode e1 = FileEvent_inode e2 ∧
  (FileEvent_event_type e1 ≠ FileMask_OPEN → FileEvent_retval e1 = FileEvent_retval e2).
Proof.
  destruct e1, e2; simpl; intros H; simplify_eq; split_and!; try done; intros; f_equal; congruence.
Qed.

Definition sample_user_header (ty : EventType) : RawEventHeader := {|
  rh_event_type := ty; rh_timestamp_ns := 5; rh_pid := 7; rh_tid := 7; rh_ppid := 1;
  rh_uid := 0; rh_gid := 0; rh_comm := replicate 16 x00 |}.

Definition sample_close (retval : Z) : RawEvent := RawClose {|
  rc_header := sample_user_header EventType_FileClose; rc_file_path := replicate 256 x00;
  rc_file_mode := {| mode := FILE_REG |}; rc_inode := 42; rc_retval := retval; rc_flags := 0 |}.

Lemma sample_close_ok : raw_ok (sample_close (-9)).
Proof. split; [vm_compute; repeat split; discriminate|reflexivity]. Qed.

Definition sample_close_event : FileEvent := FileEvent_Close {|
  fce_header := convert_header (sample_user_header EventType_FileClose); fce_file_path := "";
  fce_file_type := FileType_Regular; fce_inode := 42; fce_retval := -9; fce_flags := 0 |}.

Lemma file_event_retval_witness :
  ∃ r, raw_retval (sample_close (-9)) = Some r ∧ FileEvent_retval sample_close_event = r ∧
       (FileEvent_succeeded sample_close_event = true ↔ 0 ≤ r) ∧
       FileEvent_failed sample_close_event = (r <? 0).
Proof.
  apply (file_event_retval (X := unit) (ChanView [] 8 false) (ChanView [sample_close_event] 8 false)
           ∅ ∅ (sample_close (-9)) sample_close_event sample_close_ok).
  - vm_compute. reflexivity.
  - reflexivity.
Defined.

Definition sample_delete_event (path : str) : FileEvent := FileEvent_Delete {|
  fde_header := convert_header (sample_user_header EventType_FileDelete); fde_filename := path;
  fde_file_type := FileType_Regular; fde_retval := 0 |}.

(** Two different deletions have one key. *)
Lemma dedup_key_spec_witness :
  FileEvent_event_type (sample_delete_event "a") = FileEvent_event_type (sample_delete_event "b") ∧
  FileEvent_inode (sample_delete_event "a") = FileEvent_inode (sample_delete_event "b") ∧
  (FileEvent_event_type (sample_delete_event "a") ≠ FileMask_OPEN →
   FileEvent_retval (sample_delete_event "a") = FileEvent_retval (sample_delete_event "b")).
Proof. apply (dedup_key_spec (sample_delete_event "a") (sample_delete_event "b")). reflexivity. Defined.

(** ** Endpoints *)

Lemma net_event_endpoints n ev :
  net_event (RawNet n) = Some ev → NetworkEvent_endpoints ev = event_endpoints n.
Proof.
  unfold net_event. intros He. repeat (case_match; simplify_eq/=; try done).
Qed.

Lemma v4_addr_octets o : length o = 4%nat → take 4 (v4_addr (le_int o)) = o.
Proof.
  intros Ho. unfold v4_addr. rewrite <- Ho at 2. rewrite le_bytes_int. by rewrite take_app_length'.
Qed.

Section endpoints.
Context {R H : Type} {M : Type → Type} `{RingBufLaws R H, BpfMapLaws M}.
Implicit Types s : KState R M.

Lemma connect_record_v4 p env s n :
  p = P_tcp_v4_connect ∨ p = P_udp_connect → adds_record p env s (RawNet n) →
  ∃ rv proto ty, v4_event env s (arg_ptr env 0) rv proto ty = Some (RawNet n).
Proof. intros [->| ->] [_ He]%adds_record_event%unless_Some; eauto. Qed.

(** The connect event of an IPv4 socket, as a subscriber gets it,
    carries the addresses of the socket, octet by octet as they lie in the
    socket (network order), and its local port. *)
Theorem v4_endpoints p env s n ev src dst :
  p = P_tcp_v4_connect ∨ p = P_udp_connect →
  adds_record p env s (RawNet n) → net_event (RawNet n) = Some ev →
  length src = 4%nat → length dst = 4%nat →
  skc_rcv_saddr env (arg_ptr env 0) = Some (le_int src) →
  skc_daddr env (arg_ptr env 0) = Some (le_int dst) →
  local_ip (NetworkEvent_endpoints ev) = IpAddr_V4 src ∧
  remote_ip (NetworkEvent_endpoints ev) = IpAddr_V4 dst ∧
  local_port (NetworkEvent_endpoints ev) = sock_num env (arg_ptr env 0).
Proof.
  intros Hp He Hev Hs Hd Es Ed. apply net_event_endpoints in Hev as ->.
  destruct (connect_record_v4 _ _ _ _ Hp He) as (rv & proto & ty & [_ [= <-]]%unless_Some).
  unfold event_endpoints, sock_rcv_saddr, sock_daddr.
  cbn [local_ip remote_ip local_port pc_ip_version pc_src_addr pc_dst_addr pc_src_port parse_ip].
  rewrite Es, Ed. cbn [default from_option id]. by rewrite !v4_addr_octets.
Qed.

(** The remote port is reported with its bytes exchanged: for a socket
    whose port is [256 * hi + lo], in network order, the event says
    [256 * lo + hi], which is the port only when the bytes are equal. *)
Theorem remote_port_swapped p env s n ev hi lo :
  p = P_tcp_v4_connect ∨ p = P_udp_connect →
  adds_record p env s (RawNet n) → net_event (RawNet n) = Some ev →
  skc_dport env (arg_ptr env 0) = Some (le_int [hi; lo]) →
  remote_port (NetworkEvent_endpoints ev) = 256 * byte_to_Z lo + byte_to_Z hi ∧
  (remote_port (NetworkEvent_endpoints ev) = 256 * byte_to_Z hi + byte_to_Z lo ↔ hi = lo).
Proof.
  intros Hp He Hev Ed. apply net_event_endpoints in Hev as ->.
  destruct (connect_record_v4 _ _ _ _ Hp He) as (rv & proto & ty & [_ [= <-]]%unless_Some).
  unfold event_endpoints, sock_dport. rewrite Ed. simpl.
  pose proof (byte_to_Z_range hi). pose proof (byte_to_Z_range lo).
  split; [lia|]. split; [|intros ->; lia]. intros He'. apply byte_to_Z_inj. lia.
Qed.

(** The socket a network program reports. *)
Definition probe_socket (p : Probe) (env : Env) : Z :=
  match p with
  | P_inet_csk_accept => default 0 (ctx_ret env)
  | P_inet_bind | P_inet_listen => socket_sk env (arg_ptr env 0)
  | _ => arg_ptr env 0
  end.

(** The version it reports it under: the programs on connects are each for one,
    the others ask the socket. *)
Definition probe_version (p : Probe) (env : Env) : option IpVersion :=
  match p with
  | P_tcp_v4_connect | P_udp_connect => Some IpVersion_V4
  | P_tcp_v6_connect | P_udpv6_connect => Some IpVersion_V6
  | P_inet_csk_accept | P_tcp_close | P_udp_destroy_sock | P_inet_bind | P_inet_listen =>
      family ← skc_family env (probe_socket p env);
      if family =? AF_INET then Some IpVersion_V4
      else if family =? AF_INET6 then Some IpVersion_V6 else None
  | _ => None
  end.

Lemma family_event_version env s sock rv proto ty e :
  family_event env s sock rv proto ty = Some e →
  ∃ f, skc_family env sock = Some f ∧
       ((f =? AF_INET = true ∧ v4_event env s sock rv proto ty = Some e) ∨
        (f =? AF_INET = false ∧ f =? AF_INET6 = true ∧ v6_event env s sock rv proto ty = Some e)).
Proof.
  unfold family_event. destruct (skc_family env sock) as [f|]; simpl; [|done].
  destruct (f =? AF_INET) eqn:E4; [intros He; exists f; by auto|].
  destruct (f =? AF_INET6) eqn:E6; [intros He; exists f; by auto|done].
Qed.

Lemma network_record p env s n :
  probe_event p env s = Some (RawNet n) →
  ∃ rv proto ty,
    (probe_version p env = Some IpVersion_V4 ∧
     v4_event env s (probe_socket p env) rv proto ty = Some (RawNet n)) ∨
    (probe_version p env = Some IpVersion_V6 ∧
     v6_event env s (probe_socket p env) rv proto ty = Some (RawNet n)).
Proof.
  intros He. pose proof (probe_event_struct _ _ _ _ He) as Hs.
  destruct p; try done; cbn [probe_event] in He; unfold probe_version, probe_socket.
  all: try match type of He with
           | context [ctx_ret] => apply bind_Some in He as (sk & Hsk & He)
           end.
  all: try (apply unless_Some in He as [_ He]).
  all: try (by do 3 eexists; first [left; split; [|exact He]|right; split; [|exact He]]).
  all: apply family_event_version in He as (f & Hf & He); rewrite ?Hsk; simpl; rewrite Hf; simpl.
  all: destruct He as [[-> He]|(-> & -> & He)]; do 3 eexists;
    first [left; split; [done|exact He]|right; split; [done|exact He]].
Qed.

(** (C25) Every network event shows the endpoints of the socket its program was
    called for: the local port, and, for the version of the socket, both
    addresses, octet by octet as they lie in it. *)
Theorem socket_endpoints p env s n ev :
  adds_record p env s (RawNet n) → net_event (RawNet n) = Some ev →
  let sock := probe_socket p env in
  let ep := NetworkEvent_endpoints ev in
  local_port ep = sock_num env sock ∧
  match probe_version p env with
  | Some IpVersion_V4 =>
      ∀ src dst, length src = 4%nat → length dst = 4%nat →
        skc_rcv_saddr env sock = Some (le_int src) → skc_daddr env sock = Some (le_int dst) →
        local_ip ep = IpAddr_V4 src ∧ remote_ip ep = IpAddr_V4 dst
  | Some IpVersion_V6 =>
      ∃ src dst, skc_v6_rcv_saddr env sock = Some src ∧ skc_v6_daddr env sock = Some dst ∧
        local_ip ep = IpAddr_V6 src ∧ remote_ip ep = IpAddr_V6 dst
  | None => False
  end.
Proof.
  intros He%adds_record_event Hev. cbv zeta. apply net_event_endpoints in Hev as ->.
  destruct (network_record _ _ _ _ He) as (rv & proto & ty & [[-> Hr]|[-> Hr]]);
    apply unless_Some in Hr as [_ Hr].
  - injection Hr as <-. split; [done|]. intros src dst Hs Hd Es Ed.
    unfold event_endpoints, sock_rcv_saddr, sock_daddr.
    cbn [local_ip remote_ip pc_ip_version pc_src_addr pc_dst_addr parse_ip].
    rewrite Es, Ed. cbn [default from_option id]. by rewrite !v4_addr_octets.
  - apply bind_Some in Hr as (dst & Hd & Hr). apply bind_Some in Hr as (src & Hs & Hr).
    injection Hr as <-. split; [done|]. by exists src, dst.
Qed.
End endpoints.

(** A connect to port 80 of 127.0.0.1. *)
Definition port_env : Env := sample_env 7 8 [4096; 0; 0; -115] 0 [].
Definition port_state : KState list_ring fin_bpf_map := sample_state [] None.
Definition port_connect : PendingConnect := {|
  pc_header := build_event_header port_env EventType_Connect; pc_protocol := RawProtocol_Tcp;
  pc_tid := 8; pc_src_port := 4660; pc_dst_port := 0x5000; pc_ip_version := IpVersion_V4;
  pc_src_addr := ([x7f; x00; x00; x02] ++ replicate 12 x00)%list;
  pc_dst_addr := ([x7f; x00; x00; x01] ++ replicate 12 x00)%list; pc_retval := Some (-115) |}.
Definition port_event : NetworkEvent := NetworkEvent_Connect {|
  ce_header := convert_header (pc_header port_connect); ce_protocol := Protocol_Tcp;
  ce_endpoints := event_endpoints port_connect; ce_retval := -115 |}.

Lemma port_connect_added : adds_record P_tcp_v4_connect port_env port_state (RawNet port_connect).
Proof. apply adds_record_compute; [apply sample_state_maps_wf|vm_compute; reflexivity..]. Qed.

Lemma remote_port_swapped_witness : remote_port (NetworkEvent_endpoints port_event) = 20480.
Proof.
  refine (proj1 (remote_port_swapped P_tcp_v4_connect port_env port_state port_connect port_event
                   x00 x50 (or_introl eq_refl) port_connect_added _ _)); reflexivity.
Defined.

Lemma v4_endpoints_witness :
  local_ip (NetworkEvent_endpoints port_event) = IpAddr_V4 [x7f; x00; x00; x02].
Proof.
  refine (proj1 (v4_endpoints P_tcp_v4_connect port_env port_state port_connect port_event
    [x7f; x00; x00; x02] [x7f; x00; x00; x01] (or_introl eq_refl) port_connect_added _ _ _ _ _));
    reflexivity.
Defined.

Lemma socket_endpoints_witness :
  local_port (NetworkEvent_endpoints port_event) = 4660 ∧
  local_ip (NetworkEvent_endpoints port_event) = IpAddr_V4 [x7f; x00; x00; x02].
Proof.
  destruct (socket_endpoints P_tcp_v4_connect port_env port_state port_connect port_event
              port_connect_added eq_refl) as [Hp Ha].
  split; [rewrite Hp; vm_compute; reflexivity|].
  exact (proj1 (Ha [x7f; x00; x00; x02] [x7f; x00; x00; x01] eq_refl eq_refl eq_refl eq_refl)).
Defined.

(** ** Raw types *)

(** *** [repr(C)]

    A field has an alignment, a size and its bytes.  The fields follow each other
    in the order in which they are declared, each at the next multiple of its
    alignment; the struct ends at a multiple of the greatest one. *)
Record Field := { f_align : N; f_size : N; f_bytes : mem }.

Definition gap (align off : N) : N := ((align - off mod align) mod align)%N.

(** The gap before each field, from an offset on, and the end of the last one. *)
Fixpoint gaps (off : N) (fields : list (N * N)) : list N * N :=
  match fields with
  | [] => ([], off)
  | (align, size) :: fields =>
      let g := gap align off in
      let (gs, last) := gaps (off + g + size)%N fields in
      (g :: gs, last)
  end.

Definition repr_C (fields : list Field) : mem :=
  let (gs, last) := gaps 0 ((fun f => (f_align f, f_size f)) <$> fields) in
  foldr (fun gf rest => pad (N.to_nat gf.1) ++ f_bytes gf.2 ++ rest)%list
    (pad (N.to_nat (gap (foldr N.max 1%N (f_align <$> fields)) last))) (zip gs fields).

Definition field {A} (align : N) (c : codec A) (a : A) : Field :=
  {| f_align := align; f_size := N.of_nat (size_of c); f_bytes := put c a |}.
Definition bytes_of (n : nat) (l : list byte) : Field := field 1 (array n) l.

(** The structs as [raw.rs] declares them. *)
Definition header_fields (h : RawEventHeader) : list Field :=
  [field 1 EventType_codec (rh_event_type h); field 8 u64 (rh_timestamp_ns h); field 4 u32 (rh_pid h);
   field 4 u32 (rh_tid h); field 4 u32 (rh_ppid h); field 4 u32 (rh_uid h); field 4 u32 (rh_gid h);
   bytes_of 16 (rh_comm h)].

Definition raw_fields (e : RawEvent) : list Field :=
  let header h := field 8 RawEventHeader_codec h in
  let mode m := field 2 FileModeFilter_codec m in
  match e with
  | RawNet x =>
      [header (pc_header x); field 1 RawProtocol_codec (pc_protocol x); field 4 u32 (pc_tid x);
       field 2 u16 (pc_src_port x); field 2 u16 (pc_dst_port x); field 4 IpVersion_codec (pc_ip_version x);
       bytes_of 16 (pc_src_addr x); bytes_of 16 (pc_dst_addr x); field 4 option_i32 (pc_retval x)]
  | RawStart x => [header (ps_header x); bytes_of 256 (ps_filename x)]
  | RawExit x => [header (pe_header x); field 4 i32 (pe_exit_code x)]
  | RawFork x => [header (pf_parent x); field 4 u32 (pf_child_pid x); bytes_of 16 (pf_child_comm x)]
  | RawOpen x =>
      [header (ro_header x); bytes_of 256 (ro_file_path x); mode (ro_file_mode x);
       field 8 u64 (ro_inode x); field 4 i32 (ro_retval x); field 4 u32 (ro_flags x)]
  | RawClose x =>
      [header (rc_header x); bytes_of 256 (rc_file_path x); mode (rc_file_mode x);
       field 8 u64 (rc_inode x); field 4 i32 (rc_retval x); field 4 u32 (rc_flags x)]
  | RawRead x =>
      [header (rr_header x); bytes_of 256 (rr_file_path x); mode (rr_file_mode x);
       field 8 u64 (rr_inode x); field 8 isize (rr_retval x); field 4 u32 (rr_flags x)]
  | RawWrite x =>
      [header (rw_header x); bytes_of 256 (rw_file_path x); mode (rw_file_mode x);
       field 8 u64 (rw_inode x); field 4 u32 (rw_flags x); field 8 isize (rw_retval x)]
  | RawDelete x =>
      [header (rd_header x); bytes_of 256 (rd_file_name x); mode (rd_file_mode x);
       field 4 i32 (rd_retval x)]
  | RawRename x =>
      [header (rn_header x); bytes_of 256 (rn_old_filename x); bytes_of 256 (rn_new_filename x);
       mode (rn_file_mode x); field 4 u32 (rn_flags x)]
  | RawRtr x => [header (rt_header x); field 4 i32 (rt_retval x)]
  | RawMap x =>
      [header (mm_header x); field 8 usize (mm_requested_address x); field 8 u64 (mm_length x);
       field 4 u32 (mm_protection x); field 4 u32 (mm_flags x); field 8 usize (mm_mapped_address x)]
  | RawUnmap x =>
      [header (mu_header x); field 8 usize (mu_requested_address x); field 8 u64 (mu_length x);
       field 8 usize (mu_mapped_address x)]
  end.

(** What [ptr::read] as the struct of the record gives. *)
Definition reads_as (e : RawEvent) (m : mem) : Prop :=
  match e with
  | RawNet x => @ptr_read () _ PendingConnect_codec m = Ok x
  | RawStart x => @ptr_read () _ RawProcessStartEvent_codec m = Ok x
  | RawExit x => @ptr_read () _ RawProcessExitEvent_codec m = Ok x
  | RawFork x => @ptr_read () _ RawProcessForkEvent_codec m = Ok x
  | RawOpen x => @ptr_read () _ RawFileOpenEvent_codec m = Ok x
  | RawClose x => @ptr_read () _ RawFileCloseEvent_codec m = Ok x
  | RawRead x => @ptr_read () _ RawFileReadEvent_codec m = Ok x
  | RawWrite x => @ptr_read () _ RawFileWriteEvent_codec m = Ok x
  | RawDelete x => @ptr_read () _ RawFileDeleteEvent_codec m = Ok x
  | RawRename x => @ptr_read () _ RawFileRenameEvent_codec m = Ok x
  | RawRtr x => @ptr_read () _ RawFileRtrEvent_codec m = Ok x
  | RawMap x => @ptr_read () _ RawMemoryMapEvent_codec m = Ok x
  | RawUnmap x => @ptr_read () _ RawMemoryUnmapEvent_codec m = Ok x
  end.

Lemma repr_C_gaps fields l gs last e :
  (fun f => (f_align f, f_size f)) <$> fields = l → gaps 0 l = (gs, last) →
  gap (foldr N.max 1%N l.*1) last = N.of_nat e →
  repr_C fields
  = foldr (fun gf rest => pad (N.to_nat gf.1) ++ f_bytes gf.2 ++ rest)%list (pad e) (zip gs fields).
Proof.
  intros <- Hg He. unfold repr_C. rewrite Hg. f_equal.
  rewrite <- list_fmap_compose in He. change (fst ∘ _) with f_align in He. by rewrite He, Nat2N.id.
Qed.

Lemma put_struct {A B} (mk : A → B) un c b : put (struct mk un c) b = put c (un b).
Proof. done. Qed.
Lemma put_pair {A B} (ca : codec A) (cb : codec B) a b : put (pair ca cb) (a, b) = (put ca a ++ put cb b)%list.
Proof. done. Qed.
Lemma put_padded {A} (c : codec A) n a : put (padded c n) a = (put c a ++ pad n)%list.
Proof. done. Qed.

(** Compute the gaps, and compare the parts. *)
Ltac layout c :=
  match goal with |- _ = repr_C ?fields =>
    let l := eval vm_compute in ((fun f => (f_align f, f_size f)) <$> fields) in
    let g := eval vm_compute in (gaps 0 l) in
    let e := eval vm_compute in (N.to_nat (gap (foldr N.max 1%N l.*1) g.2)) in
    match g with (?gs, ?last) =>
      rewrite (repr_C_gaps fields l gs last e) by (vm_compute; reflexivity)
    end
  end;
  unfold c; rewrite put_struct; cbv beta; repeat first [rewrite put_pair|rewrite put_padded];
  unfold header_fields, raw_fields; cbn [zip_with foldr fst snd f_bytes field bytes_of];
  cbn [N.to_nat Pos.to_nat Pos.iter_op Nat.add]; change (pad 0) with (@nil (option byte));
  rewrite ?app_nil_r, <- ?app_assoc; cbn [app]; reflexivity.

Lemma header_layout h : put RawEventHeader_codec h = repr_C (header_fields h).
Proof. layout RawEventHeader_codec. Qed.

Lemma raw_layout e : raw_put e = repr_C (raw_fields e).
Proof.
  destruct e; cbn [raw_put].
  - layout PendingConnect_codec.
  - layout RawProcessStartEvent_codec.
  - layout RawProcessExitEvent_codec.
  - layout RawProcessForkEvent_codec.
  - layout RawFileOpenEvent_codec.
  - layout RawFileCloseEvent_codec.
  - layout RawFileReadEvent_codec.
  - layout RawFileWriteEvent_codec.
  - layout RawFileDeleteEvent_codec.
  - layout RawFileRenameEvent_codec.
  - layout RawFileRtrEvent_codec.
  - layout RawMemoryMapEvent_codec.
  - layout RawMemoryUnmapEvent_codec.
Qed.

(** (C24) The structs in the ring buffer have the layout that [repr(C)]
    prescribes for their declarations in [raw.rs]: the fields in their order, each
    at the next multiple of its alignment, with unwritten bytes in between and up
    to a multiple of the greatest alignment at the end.  These are the bytes the
    programs write, and from them [ptr::read] gets the struct, or its header alone,
    back. *)
Theorem struct_layouts e rest :
  put RawEventHeader_codec (raw_header e) = repr_C (header_fields (raw_header e)) ∧
  raw_put e = repr_C (raw_fields e) ∧
  (raw_wf e →
   reads_as e (repr_C (raw_fields e) ++ rest)%list ∧
   @ptr_read () _ RawEventHeader_codec (repr_C (raw_fields e) ++ rest)%list = Ok (raw_header e)).
Proof.
  split; [apply header_layout|]. split; [apply raw_layout|]. rewrite <- raw_layout. intros Hw. split.
  - destruct e; cbn [raw_put raw_wf reads_as] in *; (apply ptr_read_put; [apply _|done]).
  - destruct (raw_put_header e) as [r ->]. rewrite <- (assoc_L (++)%list).
    apply ptr_read_put; [apply _|by apply raw_wf_header].
Qed.

Lemma struct_layouts_witness :
  reads_as (sample_close (-9)) (repr_C (raw_fields (sample_close (-9))) ++ [])%list.
Proof. refine (proj1 (proj2 (proj2 (struct_layouts (sample_close (-9)) [])) _)). apply sample_close_ok. Defined.

(** [EventType::try_from] inverts the discriminants of four variants
    only; 5, 6 and 7 give another variant than the one they number, and the
    discriminants from 8 on are rejected. *)
Theorem event_type_try_from t :
  (EventType_try_from (EventType_repr t) = Ok t ↔
     t ∈ [EventType_Connect; EventType_Accept; EventType_Close; EventType_ProcessStart]) ∧
  (EventType_try_from (EventType_repr t) = Err tt ↔ 8 ≤ EventType_repr t) ∧
  EventType_try_from (EventType_repr EventType_FileOpen) = Ok EventType_FileClose.
Proof.
  split_and!; [| |reflexivity].
  - rewrite !elem_of_cons, elem_of_nil. destruct t; simpl; intuition congruence.
  - destruct t; simpl; split; intros; (lia || congruence).
Qed.
