(* ===== verification/System.v ===== *)
(** * The whole pipeline

    The eBPF programs, the event loop and the subscribers, interleaved: one
    ring buffer, filled by the programs of all processors ([mstep]) and emptied by
    [loop_next], and channels that the subscribers read and close.
    [system_never_faults] composes the guarantees of both sides, and
    [system_catches_up] their progress. *)

From stdpp Require Import relations.
From S2P Require Import Prelude Raw Layout Events Interfaces Ebpf KernelSpec KernelProofs KernelInv Machine ProgramLogic MachineInv.
From S2P Require Import Common Process Memory Network File Convert ConvertSpec Runtime RuntimeProofs.
From S2P Require Import KernelTheorems RuntimeTheorems.

#[local] Open Scope Z_scope.

Section system.
Context {B T R H : Type} {M Ch : Type → Type} {X : Type}.
Context `{RingBufLaws R H, BpfMapLaws M, ChannelLaws Ch}.
Implicit Types s : Bpfx B T R Ch.
Implicit Types m : Machine R H M.
Implicit Types l : loop_state B T R Ch X.

(** What a subscriber does to its channel: take an event, or drop the
    receiver. *)
Inductive receive {A} (c : Ch A) : Ch A → Prop :=
| Recv x c' : ch_recv c = Some (x, c') → receive c c'
| Drop : receive c (ch_close c).

Inductive subscriber_step s : Bpfx B T R Ch → Prop :=
| Sub_network n c : network s = Some n → receive (nr_tx n) c →
    subscriber_step s (set_network (Some {| nr_filter := nr_filter n; nr_tx := c |}) s)
| Sub_process p c : process s = Some p → receive (pr_tx p) c →
    subscriber_step s (set_process (Some {| pr_filter := pr_filter p; pr_tx := c |}) s)
| Sub_file f c : file s = Some f → receive (fr_tx f) c →
    subscriber_step s (set_file (Some {| fr_filter := fr_filter f; fr_tx := c |}) s)
| Sub_mem r c : mem_reg s = Some r → receive (mr_tx r) c →
    subscriber_step s (set_mem (Some {| mr_filter := mr_filter r; mr_tx := c |}) s).

Definition map_loop (f : Bpfx B T R Ch → Bpfx B T R Ch) l : loop_state B T R Ch X :=
  match l with
  | LWait s => LWait (f s)
  | LDrain s => LDrain (f s)
  | LDone r => LDone r
  end.

Definition loop_runtime l : option (Bpfx B T R Ch) :=
  match l with LWait s | LDrain s => Some s | LDone _ => None end.

(** After a turn of the loop the kernel sees the buffer it left. *)
Definition consumed m l : Machine R H M :=
  match loop_runtime l with
  | Some s => with_kernel (set_EVENTS (ringbuf s) (kernel m)) m
  | None => m
  end.

Variable attached : Probe → Prop.

Abbreviation sys := (Machine R H M * loop_state B T R Ch X)%type.

Inductive sys_step : sys → sys → Prop :=
| SysProgram m m' l :
    mstep (fun p _ => attached p) m m' → sys_step (m, l) (m', map_loop (set_ringbuf (EVENTS (kernel m'))) l)
| SysLoop ready m l :
    sys_step (m, l) (consumed m (loop_next ready l), loop_next ready l)
| SysSubscriber m l s s' :
    loop_runtime l = Some s → subscriber_step s s' →
    sys_step (m, l) (m, map_loop (fun _ => s') l).

(** Started by [run], before a program ran; the first programs may well run
    before the first turn of the loop.  If there is a network subscription, all
    the attached programs are network programs: the code allows others beside
    it, but then the loop reads out of bounds ([network_reader_out_of_bounds]),
    and nothing is claimed. *)
Definition sys_init (x : sys) : Prop :=
  ∃ s, x.2 = LWait s ∧ ringbuf s = EVENTS (kernel x.1) ∧
       threads x.1 = [] ∧ rb_slots (EVENTS (kernel x.1)) = [] ∧
       maps_wf (kernel x.1) ∧ pending_renames s = ∅ ∧
       (is_Some (network s) → ∀ p, attached p → probe_owner p = Some FilterOwner_Network).

Definition sys_reach (x : sys) : Prop := ∃ x0, sys_init x0 ∧ rtc sys_step x0 x.

(** *** The invariant; [net] says whether there is a network subscription, [IF]
    and [IC] what FILTER and CONFIG hold. *)

Section inv.
Variable IF : M FilterKey → Prop.
Variable IC : M FileModeFilter → Prop.

Definition record_ok (net : bool) (e : RawEvent) : Prop := net = true → is_network e = true.

Definition runtime_ok (net : bool) m s : Prop :=
  ringbuf s = EVENTS (kernel m) ∧ (is_Some (network s) → net = true) ∧
  (size (pending_renames s) ≤ MAX_PENDING_RENAMES)%nat.

Definition sys_inv (net : bool) (x : sys) : Prop :=
  machine_inv (filters_inv IF IC) (record_ok net) x.1 ∧
  match x.2 with
  | LWait s | LDrain s => runtime_ok net x.1 s
  | LDone r => r ≠ Panic ∧ r ≠ UB
  end.

Definition net_attached (net : bool) : Prop :=
  net = true → ∀ p, attached p → probe_owner p = Some FilterOwner_Network.

Lemma probe_network_record {M'} `{!BpfMapOps M'} p env (k : KState R M') e :
  probe_event p env k = Some e → probe_owner p = Some FilterOwner_Network → is_network e = true.
Proof.
  intros He Ho. apply probe_event_struct in He. destruct p; try discriminate Ho; by destruct e.
Qed.

Lemma map_loop_runtime f l s :
  loop_runtime (map_loop f l) = Some s → ∃ s0, loop_runtime l = Some s0 ∧ s = f s0.
Proof. destruct l; intros; simplify_eq/=; by eexists. Qed.

Lemma map_loop_ring r r' l :
  map_loop (set_ringbuf r') (map_loop (set_ringbuf r) l) = map_loop (set_ringbuf r') l.
Proof. by destruct l. Qed.

Lemma sys_inv_program net m m' l :
  net_attached net → mstep (fun p _ => attached p) m m' → sys_inv net (m, l) →
  sys_inv net (m', map_loop (set_ringbuf (EVENTS (kernel m'))) l).
Proof.
  intros Hnet Hs (Hm & Hl). split; simpl in *.
  - eapply mstep_inv; [|exact Hs|exact Hm]. intros p env v e Hat _ _ He Hn.
    apply (probe_network_record p env v); [exact He|by apply Hnet].
  - destruct l as [s|s|r]; [by destruct Hl as (_ & ? & ?)..|exact Hl].
Qed.

(** What the loop does with a record of the machine. *)
Lemma dispatch_record net s r e :
  (is_Some (network s) → net = true) → raw_ok e → record_ok net e →
  ∃ s', @dispatch B T R Ch X _ (raw_put e) (set_ringbuf r s) = Ok s' ∧
        view_of s' = spec_dispatch (view_of s) e ∧ ringbuf s' = r ∧ same_rest (set_ringbuf r s) s'.
Proof.
  intros Hn Hok He.
  destruct (dispatch_spec (X := X) (set_ringbuf r s) e) as (s' & Hd & Hv & Hs).
  { split; [done|]. intros Hs. apply He, Hn, Hs. }
  exists s'. split_and!; [done|done|by destruct Hs as (_ & _ & -> & _)|done].
Qed.

Lemma runtime_ok_dispatch net m s r s' e :
  runtime_ok net m s → same_rest (set_ringbuf r s) s' → view_of s' = spec_dispatch (view_of s) e →
  runtime_ok net (with_kernel (set_EVENTS r (kernel m)) m) s'.
Proof.
  intros (_ & Hn & Hp) (_ & _ & Hring & _ & Hnet & _) Hv. split_and!; [done| |].
  - intros [n' Hs']. apply Hn. rewrite Hs' in Hnet. simpl in Hnet.
    destruct (network s); [by eexists|done].
  - change (pending_renames s') with (v_pending (view_of s')). rewrite Hv. simpl.
    destruct (file s); simpl; [|done]. by apply pending_after_bound.
Qed.

Lemma consumed_same m l s :
  loop_runtime l = Some s → ringbuf s = EVENTS (kernel m) → consumed m l = m.
Proof. unfold consumed. intros -> ->. by destruct m as [[] ?]. Qed.

(** A turn that reads a record. *)
Lemma drain_turn net (ready : unit + X) m s x r :
  sys_inv net (m, LDrain s) → rb_next (EVENTS (kernel m)) = Some (x, r) →
  ∃ s' e, x = raw_put e ∧ raw_ok e ∧ record_ok net e ∧ loop_next ready (LDrain s) = (LDrain s' : loop_state B T R Ch X) ∧
    consumed m (LDrain s' : loop_state B T R Ch X) = with_kernel (set_EVENTS r (kernel m)) m ∧
    view_of s' = spec_dispatch (view_of s) e ∧ same_rest (set_ringbuf r s) s'.
Proof.
  intros (Hm & Hr & Hn & _) Hnx. simpl in *.
  pose proof (mi_items _ _ _ Hm) as Hi. rewrite (rb_next_items _ _ _ Hnx) in Hi.
  inversion Hi as [|?? (e & -> & Hok & He) _]; subst. rewrite Hr, Hnx.
  destruct (dispatch_record net s r e Hn Hok He) as (s' & -> & Hv & Hring & Hsame).
  exists s', e. split_and!; try done. unfold consumed. simpl. by rewrite Hring.
Qed.

(** A turn of the loop: the task ends, or nothing is read, or a record is. *)
Lemma loop_turn net ready m l :
  sys_inv net (m, l) →
  (∃ r, loop_next ready l = LDone r ∧ r ≠ Panic ∧ r ≠ UB ∧ consumed m (loop_next ready l) = m) ∨
  (∃ s, loop_runtime l = Some s ∧ (loop_next ready l = LWait s ∨ loop_next ready l = LDrain s) ∧
        consumed m (loop_next ready l) = m) ∨
  (∃ s s' r e, l = LDrain s ∧ loop_next ready l = LDrain s' ∧
     rb_next (EVENTS (kernel m)) = Some (raw_put e, r) ∧ raw_ok e ∧ record_ok net e ∧
     consumed m (loop_next ready l) = with_kernel (set_EVENTS r (kernel m)) m ∧
     view_of s' = spec_dispatch (view_of s) e ∧ same_rest (set_ringbuf r s) s').
Proof.
  intros (Hm & Hl). destruct l as [s|s|r]; simpl in *.
  - destruct Hl as (Hr & _). destruct ready as [u|x]; [|by left; eexists].
    destruct (has_subscribers s); [|by left; eexists]. right. left. exists s.
    split_and!; [done|by right|by apply (consumed_same m (LDrain s) s)].
  - pose proof Hl as (Hr & _). rewrite Hr.
    destruct (rb_next (EVENTS (kernel m))) as [[x r]|] eqn:Hnx.
    + destruct (drain_turn net ready m s x r) as (s' & e & -> & Hok & He & Ht & Hc & Hv & Hsame); [by split|done|].
      simpl in Ht. rewrite Hr, Hnx in Ht. rewrite Ht. right. right. by exists s, s', r, e.
    + right. left. exists s. split_and!; [done|by left|by apply (consumed_same m (LWait s) s)].
  - left. exists r. by destruct Hl.
Qed.

Lemma sys_inv_loop net ready m l :
  sys_inv net (m, l) → sys_inv net (consumed m (loop_next ready l), loop_next ready l).
Proof.
  intros Hi. pose proof Hi as (Hm & Hl).
  destruct (loop_turn net ready m l Hi)
    as [(r & -> & Hp & Hu & ->)|[(s & Hs & Hl' & ->)|(s & s' & r & e & -> & -> & Hnx & Hok & He & -> & Hv & Hsame)]].
  - by split.
  - assert (runtime_ok net m s) by (destruct l; simplify_eq/=; done). destruct Hl' as [->| ->]; by split.
  - split; [by eapply consume_inv|]. simpl in *. by eapply runtime_ok_dispatch.
Qed.

Lemma sys_inv_subscriber net m l s s' :
  loop_runtime l = Some s → subscriber_step s s' → sys_inv net (m, l) →
  sys_inv net (m, map_loop (fun _ => s') l).
Proof.
  intros Hl Hs (Hm & Hl'). split; [done|].
  assert (Hok : runtime_ok net m s → runtime_ok net m s').
  { intros (Hr & Hn & Hp). destruct Hs as [n c Hnet _|p c _ _|f c _ _|e c _ _]; split_and!; try done.
    intros _. apply Hn. rewrite Hnet. by eexists. }
  destruct l; simplify_eq/=; auto.
Qed.

Lemma sys_step_inv net x y : net_attached net → sys_step x y → sys_inv net x → sys_inv net y.
Proof.
  intros Hnet [m m' l Hs|ready m l|m l s s' Hl Hs] Hi.
  - by eapply sys_inv_program.
  - by apply sys_inv_loop.
  - by eapply sys_inv_subscriber.
Qed.

Lemma sys_steps_inv net x y : net_attached net → rtc sys_step x y → sys_inv net x → sys_inv net y.
Proof. intros Hnet. induction 1; eauto using sys_step_inv. Qed.

(** The programs on their own. *)
Lemma sys_programs m m' l :
  rtc (mstep (fun p _ => attached p)) m m' → (∀ s, loop_runtime l = Some s → ringbuf s = EVENTS (kernel m)) →
  rtc sys_step (m, l) (m', map_loop (set_ringbuf (EVENTS (kernel m'))) l).
Proof.
  intros Hs. revert l. induction Hs as [m|m m1 m' Hs _ IH]; intros l Hl.
  - replace (map_loop _ l) with l; [done|].
    destruct l as [s|s|r]; simpl; [| |done]; rewrite <- (Hl s eq_refl); by destruct s.
  - eapply rtc_l; [by apply SysProgram|].
    replace (map_loop (set_ringbuf (EVENTS (kernel m'))) l)
      with (map_loop (set_ringbuf (EVENTS (kernel m'))) (map_loop (set_ringbuf (EVENTS (kernel m1))) l))
      by apply map_loop_ring.
    apply IH. by intros s (s0 & _ & ->)%map_loop_runtime.
Qed.

Lemma sys_run_alone p env v k k' l :
  attached p → Env_wf env → run_probe p env k = (Ok v, k') →
  (∀ s, loop_runtime l = Some s → ringbuf s = EVENTS k) →
  rtc sys_step (mkMachine k [], l) (mkMachine k' [], map_loop (set_ringbuf (EVENTS k')) l).
Proof.
  intros Hat Hw Hr Hl. apply (sys_programs _ (mkMachine k' [])); [|done].
  eapply run_alone; [done|done| |done]. by intros (th & Hth%not_elem_of_nil & _).
Qed.

Lemma sys_init_inv x :
  IF (FILTER (kernel x.1)) → IC (CONFIG (kernel x.1)) → sys_init x →
  ∃ net, net_attached net ∧ sys_inv net x.
Proof.
  destruct x as [[k ts] l]. intros Hif Hic (s & Hl & Hr & Ht & Hs & Hm & Hp & Ha). simpl in *. subst.
  exists (bool_decide (is_Some (network s))). split; [|split; simpl].
  - intros Hn%bool_decide_eq_true. by apply Ha.
  - by apply machine_inv_start.
  - split_and!; [done| |].
    + intros Hn. by apply bool_decide_eq_true.
    + rewrite Hp. vm_compute. lia.
Qed.

End inv.

Lemma sys_reach_inv x :
  sys_reach x → ∃ net, net_attached net ∧ sys_inv (fun _ => True) (fun _ => True) net x.
Proof.
  intros (x0 & (net & Hnet & Hi)%(sys_init_inv (fun _ => True) (fun _ => True)) & Hs); [|done..].
  exists net. split; [done|]. by eapply sys_steps_inv.
Qed.

(** (C1) The pipeline never faults: whatever programs run (network programs
    only, if there is a network subscription), on however many processors, and
    however their operations on the maps, the turns of the loop and the actions
    of the subscribers interleave, the task never panics and never performs an
    undefined read; while it runs, the buffer it reads is the kernel's, and at
    most [MAX_PENDING_RENAMES] renames are pending. *)
Theorem system_never_faults m l :
  sys_reach (m, l) →
  l ≠ LDone Panic ∧ l ≠ LDone UB ∧
  ∀ s, loop_runtime l = Some s →
       ringbuf s = EVENTS (kernel m) ∧ (size (pending_renames s) ≤ MAX_PENDING_RENAMES)%nat.
Proof.
  intros (net & _ & _ & Hl)%sys_reach_inv. simpl in Hl. destruct l as [s|s|r].
  - split_and!; [done..|]. intros s' [= <-]. by destruct Hl as (? & _ & ?).
  - split_and!; [done..|]. intros s' [= <-]. by destruct Hl as (? & _ & ?).
  - destruct Hl as [Hp Hu]. split_and!; [congruence..|done].
Qed.

(** Left alone, the loop empties what it can read: from its draining state with
    [n] well-formed records in front of the first reserved entry, [n + 1] turns
    bring it back to waiting with all of them delivered to the abstract queues
    in order. *)
Theorem loop_catches_up es s ready :
  rb_visible (ringbuf s) = raw_put <$> es → Forall (readable_by s) es →
  ∃ s', Nat.iter (S (length es)) (loop_next ready) (LDrain s : loop_state B T R Ch X) = LWait s' ∧
        rb_visible (ringbuf s') = [] ∧ view_of s' = foldl spec_dispatch (view_of s) es.
Proof.
  revert s. induction es as [|e es IH]; intros s Hi Hr.
  - exists s. simpl. by rewrite rb_next_nil.
  - inversion Hr as [|?? He Hes]; subst. csimpl in Hi.
    destruct (rb_next_cons _ _ _ Hi) as (r & Hnext & Hr').
    destruct (dispatch_spec (X := X) (set_ringbuf r s) e) as (s1 & Hd & Hv & Hs1);
      [done|].
    destruct (IH s1) as (s' & Hd' & Hi' & Hv').
    { by destruct Hs1 as (_ & _ & -> & _). }
    { eapply Forall_impl; [|exact Hes]. intros e' He'. by eapply same_rest_readable. }
    exists s'. rewrite Hv', Hv. split_and!; [|done|done].
    cbn [length]. rewrite Nat.iter_succ_r. simpl loop_next. by rewrite Hnext, Hd.
Qed.

(** The same as steps of the system, when no entry is reserved. *)
Lemma sys_drain es m s :
  ringbuf s = EVENTS (kernel m) → busy (rb_slots (EVENTS (kernel m))) = [] →
  rb_items (EVENTS (kernel m)) = raw_put <$> es → Forall (readable_by s) es →
  ∃ k s', rtc sys_step (m, LDrain s) (with_kernel k m, LWait s') ∧
          rb_slots (EVENTS k) = [] ∧ view_of s' = foldl spec_dispatch (view_of s) es.
Proof.
  revert m s. induction es as [|e es IH]; intros m s Hr Hb Hi Hes.
  - assert (Hs0 : rb_slots (EVENTS (kernel m)) = []) by by apply committed_nil.
    exists (kernel m), s. split_and!; [|done|done].
    apply rtc_once. pose proof (SysLoop (inl tt) m (LDrain s)) as Hs. simpl in Hs.
    rewrite rb_next_empty in Hs by by rewrite Hr.
    rewrite (consumed_same m (LWait s) s) in Hs by done. by destruct m.
  - inversion Hes as [|?? He Hes']; subst. csimpl in Hi.
    destruct (rb_next_cases (EVENTS (kernel m))) as [[_ Hv]|(x & xs & r & Hnx & Hs & Hs')].
    { unfold rb_visible in Hv. rewrite readable_committed in Hv by done. unfold rb_items in Hi. congruence. }
    unfold rb_items in Hi. rewrite Hs in Hi. injection Hi as -> Hi. rewrite Hs in Hb.
    destruct (dispatch_spec (X := X) (set_ringbuf r s) e) as (s1 & Hd & Hv & Hsame); [done|].
    assert (Hring : ringbuf s1 = r) by by destruct Hsame as (_ & _ & -> & _).
    destruct (IH (with_kernel (set_EVENTS r (kernel m)) m) s1) as (k & s' & Hst & Hk & Hv').
    { done. }
    { simpl. by rewrite Hs'. }
    { unfold rb_items. simpl. by rewrite Hs'. }
    { eapply Forall_impl; [|exact Hes']. intros e' He'. by eapply same_rest_readable. }
    exists k, s'. split_and!; [|done|by rewrite Hv', Hv].
    eapply rtc_l; [apply (SysLoop (inl tt))|]. simpl. rewrite Hr, Hnx, Hd. unfold consumed. simpl.
    by rewrite Hring.
Qed.

(** With no program running, the loop empties the buffer and waits. *)
Lemma sys_catch_up IF IC net k l s :
  sys_inv IF IC net (mkMachine k [], l) → loop_runtime l = Some s →
  (l = LWait s → has_subscribers s = true) →
  ∃ es k' s',
    rb_items (EVENTS k) = raw_put <$> es ∧ Forall (readable_by s) es ∧
    rtc sys_step (mkMachine k [], l) (mkMachine k' [], LWait s') ∧ rb_slots (EVENTS k') = [] ∧
    view_of s' = foldl spec_dispatch (view_of s) es.
Proof.
  intros (Hm & Hrt) Hl Hsub. simpl in *.
  destruct (machine_idle _ _ _ Hm eq_refl) as [Hb _]. pose proof (mi_items _ _ _ Hm) as Hi.
  simpl in Hb, Hi.
  assert (Hok : runtime_ok net (mkMachine k []) s) by (destruct l; simplify_eq/=; done). clear Hrt.
  destruct Hok as (Hr & Hnt & _).
  destruct (list_preimage raw_put (readable_by s) (rb_items (EVENTS k))) as (es & Hes & Hre).
  { intros x Hx. rewrite Forall_forall in Hi. destruct (Hi x) as (e & -> & Hok & He);
      [by apply list_elem_of_In|]. exists e. split; [done|]. split; [done|]. auto. }
  destruct (sys_drain es (mkMachine k []) s) as (k' & s' & Hst & Hk' & Hv); [done|done|done|done|].
  exists es, k', s'. split_and!; [done|done| |done|exact Hv].
  destruct l as [s2|s2|r]; simplify_eq/=; [|exact Hst].
  eapply rtc_l; [|exact Hst]. pose proof (SysLoop (inl tt) (mkMachine k []) (LWait s)) as Hs.
  simpl in Hs. rewrite Hsub in Hs by done. by rewrite (consumed_same (mkMachine k []) (LDrain s) s) in Hs.
Qed.

(** (C14) The pipeline can always catch up, if the attached programs are network
    programs only or there is no network subscription ([sys_init]; otherwise the
    loop may read out of bounds, see [network_reader_out_of_bounds]): in every
    reachable state in which the task still runs and, if it waits, has a
    subscriber with an open channel, and in which no running program is bound to
    load a null pointer, the running programs can end, and the loop then empties
    the ring buffer: the task waits again, nothing is left in the buffer, and
    every record was dispatched in the order of the buffer. *)
Theorem system_catches_up m l s :
  sys_reach (m, l) → loop_runtime l = Some s → (l = LWait s → has_subscribers s = true) →
  (∀ th, th ∈ threads m → ¬ null_deref (th_probe th) (th_env th)) →
  ∃ k es k' s',
    rtc (mstep (fun _ _ => False)) m (mkMachine k []) ∧ rb_items (EVENTS k) = raw_put <$> es ∧
    rtc sys_step (m, l) (mkMachine k' [], LWait s') ∧ rb_slots (EVENTS k') = [] ∧
    view_of s' = foldl spec_dispatch (view_of s) es.
Proof.
  intros (net & Hnet & Hinv)%sys_reach_inv Hl Hsub Hn. pose proof Hinv as (Hm & Hrt). simpl in *.
  destruct (finish_all _ _ m Hn Hm) as [k Hk].
  assert (Hx : rtc sys_step (m, l) (mkMachine k [], map_loop (set_ringbuf (EVENTS k)) l)).
  { apply (sys_programs _ (mkMachine k [])).
    - eapply rtc_subrel; [|exact Hk]. intros m1 m2. by apply mstep_mono.
    - intros s2 Hs2. destruct l; simplify_eq/=; apply Hrt. }
  destruct (sys_catch_up (fun _ => True) (fun _ => True) net k (map_loop (set_ringbuf (EVENTS k)) l) (set_ringbuf (EVENTS k) s))
    as (es & k' & s' & Hes & _ & Hst & Hk' & Hv).
  - by eapply sys_steps_inv.
  - by destruct l; simplify_eq/=.
  - destruct l; simplify_eq/=; intros ?; [by apply Hsub|done].
  - exists k, es, k', s'. split_and!; [done|done|by etrans|done|exact Hv].
Qed.

End system.

(** ** A concrete run of the pipeline *)

Definition pipe_env : Env := sample_env 7 8 [256] 0 [].
Definition pipe_kernel : KState list_ring fin_bpf_map := sample_state [] None.
Definition pipe_runtime : Bpfx unit unit list_ring chan_view := {|
  bpf := tt; btf := tt; ringbuf := EVENTS pipe_kernel; network := None;
  process := Some {| pr_filter := ProcessFilter_ALL; pr_tx := ChanView [] 8 false |};
  file := None; mem_reg := None; pending_renames := ∅; config := BpfxConfig_default |}.

Definition pipe_kernel_exit : KState list_ring fin_bpf_map :=
  (run_probe P_do_group_exit pipe_env pipe_kernel).2.
Definition pipe_machine : Machine list_ring nat fin_bpf_map := mkMachine pipe_kernel_exit [].
Definition pipe_ready : loop_state unit unit list_ring chan_view unit :=
  LDrain (set_ringbuf (EVENTS pipe_kernel_exit) pipe_runtime).

Lemma pipe_reach : sys_reach (fun _ => True) (pipe_machine, pipe_ready).
Proof.
  exists (mkMachine pipe_kernel [], LWait pipe_runtime). split.
  - exists pipe_runtime. split_and!; try done. intros [n Hn]. discriminate Hn.
  - etrans.
    { apply (sys_run_alone _ P_do_group_exit pipe_env 0 pipe_kernel pipe_kernel_exit);
        [done|apply sample_env_wf|vm_compute; reflexivity|by intros s [= <-]]. }
    eapply rtc_l; [apply (SysLoop _ (inl tt))|]. vm_compute. apply rtc_refl.
Qed.

Lemma system_never_faults_witness :
  pipe_ready ≠ LDone Panic ∧ pipe_ready ≠ LDone UB ∧
  ∀ s, loop_runtime pipe_ready = Some s →
       ringbuf s = EVENTS pipe_kernel_exit ∧
       (size (pending_renames s) ≤ MAX_PENDING_RENAMES)%nat.
Proof. apply (system_never_faults (fun _ => True) pipe_machine pipe_ready). apply pipe_reach. Defined.

(** A connect that an exit interrupted, from the start of the pipeline. *)
Definition interrupted_loop : loop_state unit unit list_ring chan_view unit :=
  LWait (set_ringbuf (EVENTS (kernel interrupted)) pipe_runtime).

Lemma interrupted_sys : sys_reach (fun _ => True) (interrupted, interrupted_loop).
Proof.
  exists (mkMachine pipe_kernel [], LWait pipe_runtime). split.
  - exists pipe_runtime. split_and!; try done. intros [n Hn]. discriminate Hn.
  - apply (sys_programs _ _ interrupted (LWait pipe_runtime)); [apply interrupted_run|].
    by intros s [= <-].
Qed.

Lemma system_catches_up_witness :
  ∃ k es k' s',
    rtc (mstep (fun _ _ => False)) interrupted (mkMachine k []) ∧
    rb_items (EVENTS k) = raw_put <$> es ∧
    rtc (sys_step (X := unit) (fun _ => True)) (interrupted, interrupted_loop)
      (mkMachine k' [], LWait s') ∧
    rb_slots (EVENTS k') = [] ∧
    view_of s' = foldl spec_dispatch (view_of (set_ringbuf (EVENTS (kernel interrupted)) pipe_runtime)) es.
Proof.
  apply (system_catches_up (fun _ => True) interrupted interrupted_loop
           (set_ringbuf (EVENTS (kernel interrupted)) pipe_runtime)).
  - apply interrupted_sys.
  - reflexivity.
  - reflexivity.
  - apply interrupted_no_null.
Defined.

Lemma loop_catches_up_witness :
  ∃ s', Nat.iter 4 (loop_next (inl tt))
          (LDrain (sample_rt_local local_events) : loop_state unit unit list_ring chan_view unit)
        = LWait s' ∧
        rb_visible (ringbuf s') = [] ∧
        view_of s' = foldl spec_dispatch (view_of (sample_rt_local local_events)) local_events.
Proof.
  apply (loop_catches_up local_events (sample_rt_local local_events) (inl tt)); [reflexivity|].
  constructor; [|constructor; [|constructor; [|constructor]]]; (split; [|by intros [? Hn]]).
  - apply sample_rename_ok.
  - apply sample_exit_ok.
  - apply sample_rtr_ok.
Defined.
