(* ===== verification/Delivery.v ===== *)
(** * From the kernel to the subscriber

    What a subscriber can find in its channel, over runs of the pipeline of
    [System.v]: every event comes from a record with a property [P] that holds of
    all that the attached programs owe under what FILTER and CONFIG may hold
    ([delivery_reach]).  The second half says what an event in a channel shows of
    its record.  [Session.v] puts the two together for the records that a filter
    asks for. *)

From stdpp Require Import relations.
From S2P Require Import Prelude Utf8 Raw Layout Events Interfaces Ebpf KernelSpec KernelProofs KernelInv Machine ProgramLogic MachineInv.
From S2P Require Import Common Process Memory Network File Convert ConvertSpec Runtime RuntimeProofs.
From S2P Require Import KernelTheorems Attach AttachSpec AttachTheorems System.

#[local] Open Scope Z_scope.

(** ** What a filter promises about an event *)

Definition header_matches (key : FilterKey) (h : EventHeader) : Prop :=
  match key with
  | FilterKey_None => True
  | FilterKey_Pid pid => eh_pid h = pid
  | FilterKey_Tid tid => eh_tid h = tid
  | FilterKey_Ppid ppid => eh_ppid h = ppid
  | FilterKey_Uid uid => eh_uid h = uid
  | FilterKey_Gid gid => eh_gid h = gid
  end.

Lemma header_matches_convert key h : key_matches key h → header_matches key (convert_header h).
Proof. by destruct key. Qed.

Definition network_kind (e : NetworkEvent) : NetworkMask :=
  match e with
  | NetworkEvent_Connect _ => NetworkMask_CONNECT
  | NetworkEvent_Accept _ => NetworkMask_ACCEPT
  | NetworkEvent_Close _ => NetworkMask_CLOSE
  | NetworkEvent_Bind _ => NetworkMask_BIND
  | NetworkEvent_Listen _ => NetworkMask_LISTEN
  end.

Definition network_wants (f : NetworkFilter) (e : NetworkEvent) : Prop :=
  NetworkMask_contains (nf_event_mask f) (network_kind e) = true ∧
  ProtocolMask_contains (nf_protocol_mask f)
    (if NetworkEvent_is_tcp e then ProtocolMask_TCP else ProtocolMask_UDP) = true.

Definition process_wants (f : ProcessFilter) (e : ProcessEvent) : Prop :=
  ProcessMask_contains (pf_mask f)
    match e with
    | ProcessEvent_Start _ => ProcessMask_START
    | ProcessEvent_Fork _ => ProcessMask_FORK
    | ProcessEvent_Exit _ => ProcessMask_EXIT
    end = true.

Definition file_wants (f : FileFilter) (e : FileEvent) : Prop :=
  FileMask_contains (ff_event_type f) (FileEvent_event_type e) = true.

Definition mem_wants (f : MemoryFilter) (e : MemoryEvent) : Prop :=
  MemoryMask_contains (mf_mask f)
    (if MemoryEvent_is_mmap e then MemoryMask_MMAP else MemoryMask_UNMAP) = true.

Section delivery.
Context {B T R H : Type} {M Ch : Type → Type} {X : Type}.
Context `{RingBufLaws R H, BpfMapLaws M, ChannelLaws Ch}.
Implicit Types s : Bpfx B T R Ch.
Implicit Types k : KState R M.
Implicit Types l : loop_state B T R Ch X.

(** ** Where events come from

    [P] is a property of records; [delivered P] says of the queues that their
    events come from records with that property. *)

Section origin.
Variable P : RawEvent → Prop.

Definition rename_origins (pd : pending) : Prop := map_Forall (fun _ r => P (RawRename r)) pd.

Definition file_origin (ev : FileEvent) : Prop :=
  ∃ e pd, P e ∧ rename_origins pd ∧ file_event pd e = Some ev.

Definition queued {A} (Q : A → Prop) (o : option (chan_view A)) : Prop :=
  ∀ c, o = Some c → Forall Q (cv_queue c).

Definition delivered (v : view) : Prop :=
  queued (fun ev => ∃ e, P e ∧ net_event e = Some ev) (v_network v) ∧
  queued (fun ev => ∃ e, P e ∧ process_event e = Some ev) (v_process v) ∧
  queued file_origin (v_file v) ∧
  queued (fun ev => ∃ e, P e ∧ mem_event e = Some ev) (v_mem v) ∧
  rename_origins (v_pending v).

Lemma queued_send {A} (Q : A → Prop) o x :
  queued Q o → (∀ ev, x = Some ev → Q ev) → queued Q ((fun c => send_opt c x) <$> o).
Proof.
  intros Ho Hx c' (c & -> & ->)%fmap_Some. specialize (Ho c eq_refl).
  destruct x as [ev|]; simpl; [|done]. unfold view_send. case_match; [done|].
  case_match; [done|]. simpl. apply Forall_app. split; [done|]. constructor; [by apply Hx|done].
Qed.

Lemma queued_elem {A Reg} (Q : A → Prop) (o : option Reg) (c : Reg → Ch A) r ev :
  queued Q ((fun r => ch_view (c r)) <$> o) → o = Some r → ev ∈ ch_queue (c r) → Q ev.
Proof.
  intros Hq -> Hev. specialize (Hq _ eq_refl). simpl in Hq. rewrite Forall_forall in Hq.
  by apply Hq, list_elem_of_In.
Qed.

Lemma queued_nil {A Reg} (Q : A → Prop) (o : option Reg) (c : Reg → Ch A) :
  (∀ r, o = Some r → ch_queue (c r) = []) → queued Q ((fun r => ch_view (c r)) <$> o).
Proof. intros Hc v (r & -> & ->)%fmap_Some. simpl. by rewrite Hc. Qed.

Lemma rename_origins_after pd e : rename_origins pd → P e → rename_origins (pending_after pd e).
Proof.
  intros Hp He. destruct e; simpl; try done.
  - case_match; [done|]. by apply map_Forall_insert_2.
  - by apply map_Forall_delete.
Qed.

Lemma delivered_dispatch v e : delivered v → P e → delivered (spec_dispatch v e).
Proof.
  intros (Hn & Hp & Hf & Hm & Hr) He. unfold spec_dispatch. split_and!; simpl.
  - apply queued_send; [done|]. eauto.
  - apply queued_send; [done|]. eauto.
  - apply queued_send; [done|]. intros ev Hev. by exists e, (v_pending v).
  - apply queued_send; [done|]. eauto.
  - destruct (v_file v); [|done]. by apply rename_origins_after.
Qed.

(** A subscriber only shortens the queues. *)
Lemma queued_receive {A} (Q : A → Prop) (c c' : Ch A) :
  queued Q (Some (ch_view c)) → receive c c' → queued Q (Some (ch_view c')).
Proof.
  intros Hq Hr ? [= <-]. specialize (Hq _ eq_refl). destruct Hr as [x c' Hr|]; simpl in *.
  - destruct (ch_queue c) as [|y ys] eqn:Hc; [by rewrite ch_recv_nil in Hr|].
    destruct (ch_recv_cons _ _ _ _ Hc) as (c1 & Hr' & Hq' & _).
    rewrite Hr in Hr'. injection Hr' as -> ->. rewrite Hq'. by inversion Hq.
  - by rewrite (proj2 (ch_close_closed _ c)).
Qed.

Lemma delivered_subscriber s s' :
  delivered (view_of s) → subscriber_step s s' → delivered (view_of s').
Proof.
  intros (Hn & Hp & Hf & Hm & Hr) Hs.
  unfold view_of in *. destruct Hs as [n c E Hc|p c E Hc|f c E Hc|m c E Hc]; simpl in *.
  - rewrite E in Hn. split_and!; try done. exact (queued_receive _ _ _ Hn Hc).
  - rewrite E in Hp. split_and!; try done. exact (queued_receive _ _ _ Hp Hc).
  - rewrite E in Hf. split_and!; try done. exact (queued_receive _ _ _ Hf Hc).
  - rewrite E in Hm. split_and!; try done. exact (queued_receive _ _ _ Hm Hc).
Qed.

(** ** The invariant of the pipeline

    The records that the attached programs owe under what FILTER and CONFIG may
    hold have the property. *)

Variable attached : Probe → Prop.
Variable IF : M FilterKey → Prop.
Variable IC : M FileModeFilter → Prop.

Hypothesis P_owed : ∀ p env (v : KState R seen) e,
  attached p → Env_wf env → view_ok (filters_inv IF IC) v → probe_event p env v = Some e → P e.

Definition delivery_inv (x : Machine R H M * loop_state B T R Ch X) : Prop :=
  machine_inv (filters_inv IF IC) P x.1 ∧ ∀ s, loop_runtime x.2 = Some s → delivered (view_of s).

Lemma delivery_program m m' l :
  mstep (fun p _ => attached p) m m' → delivery_inv (m, l) →
  delivery_inv (m', map_loop (set_ringbuf (EVENTS (kernel m'))) l).
Proof.
  intros Hs (Hm & Hd). split; [eapply mstep_inv; [exact P_owed|exact Hs|exact Hm]|].
  intros s (s0 & Hs0 & ->)%map_loop_runtime. exact (Hd s0 Hs0).
Qed.

Lemma delivery_loop net ready m l :
  sys_inv IF IC net (m, l) → delivery_inv (m, l) →
  delivery_inv (consumed m (loop_next ready l), loop_next ready l).
Proof.
  intros Hi (Hm & Hd). simpl in *.
  destruct (loop_turn IF IC net ready m l Hi)
    as [(r & -> & _ & _ & ->)|[(s & Hs & Hl & ->)|(s & s' & r & e & -> & -> & Hnx & Hok & _ & -> & Hv & _)]].
  - by split.
  - split; [done|]. intros s' Hs'. apply Hd. by destruct Hl as [Hl|Hl]; rewrite Hl in Hs'; simplify_eq/=.
  - split; [by eapply consume_inv|]. intros ? [= <-]. rewrite Hv.
    apply delivered_dispatch; [exact (Hd s eq_refl)|].
    pose proof (mi_items _ _ _ Hm) as Hit. rewrite (rb_next_items _ _ _ Hnx) in Hit.
    inversion Hit as [|?? (e' & Heq & Hok' & He) _]; subst. by apply raw_put_inj in Heq as <-.
Qed.

Lemma delivery_subscriber m l s s' :
  loop_runtime l = Some s → subscriber_step s s' → delivery_inv (m, l) →
  delivery_inv (m, map_loop (fun _ => s') l).
Proof.
  intros Hl Hs (Hm & Hd). split; [done|]. intros s1 (s0 & Hs0 & ->)%map_loop_runtime.
  eapply delivered_subscriber; [|done]. by apply Hd.
Qed.

Lemma delivery_reach net x0 x :
  net_attached attached net → sys_inv IF IC net x0 → delivery_inv x0 → rtc (sys_step attached) x0 x →
  delivery_inv x.
Proof.
  intros Hnet Hi Hd Hx. revert Hi Hd. induction Hx as [x|x y z Hxy _ IH]; [done|]. intros Hi Hd.
  apply IH; [by eapply sys_step_inv|].
  destruct Hxy as [m m' l Hs|ready m l|m l s1 s2 Hl1 Hs1].
  - by eapply delivery_program.
  - by eapply delivery_loop.
  - by eapply delivery_subscriber.
Qed.
End origin.

(** New channels hold nothing. *)
Definition new_channels s : Prop :=
  (∀ n, network s = Some n → ch_queue (nr_tx n) = []) ∧
  (∀ p, process s = Some p → ch_queue (pr_tx p) = []) ∧
  (∀ f, file s = Some f → ch_queue (fr_tx f) = []) ∧
  (∀ r, mem_reg s = Some r → ch_queue (mr_tx r) = []).

Lemma delivered_new P s : new_channels s → pending_renames s = ∅ → delivered P (view_of s).
Proof.
  intros (Hn & Hpr & Hf & Hme) Hp. unfold view_of. split_and!; simpl; try (by apply queued_nil).
  rewrite Hp. apply map_Forall_empty.
Qed.

(** ** What a queued event says about its record *)

Definition record_owner (e : RawEvent) : option FilterOwner :=
  match e with
  | RawNet _ => Some FilterOwner_Network
  | RawStart _ | RawExit _ | RawFork _ => Some FilterOwner_Process
  | RawOpen _ | RawClose _ | RawRead _ | RawWrite _ | RawDelete _ | RawRename _ =>
      Some FilterOwner_File
  | RawMap _ => Some FilterOwner_Memory
  | RawRtr _ | RawUnmap _ => None
  end.

Lemma net_event_header e ev :
  net_event e = Some ev →
  record_owner e = Some FilterOwner_Network ∧ NetworkEvent_header ev = convert_header (raw_header e).
Proof.
  destruct e as [n| | | | | | | | | | | |]; try done. simpl. intros He. split; [done|].
  destruct (rh_event_type (pc_header n)), (pc_retval n); by simplify_eq/=.
Qed.

Lemma process_event_header e ev :
  process_event e = Some ev →
  record_owner e = Some FilterOwner_Process ∧ ProcessEvent_header ev = convert_header (raw_header e).
Proof. by destruct e; intros; simplify_eq/=. Qed.

Lemma mem_event_header e ev :
  mem_event e = Some ev → MemoryEvent_is_mmap ev = true →
  record_owner e = Some FilterOwner_Memory ∧ MemoryEvent_header ev = convert_header (raw_header e).
Proof. by destruct e; intros; simplify_eq/=. Qed.

(** A rename event has the header and the type of its first record. *)
Lemma file_origin_record P ev :
  file_origin P ev →
  ∃ e m, P e ∧ record_owner e = Some FilterOwner_File ∧ raw_file_mode e = Some m ∧
         FileEvent_header ev = convert_header (raw_header e) ∧
         FileEvent_file_type ev = FileType_from m ∧ (∀ f, file_covers f e ↔ file_wants f ev).
Proof.
  intros (e & pd & He & Hp & Hev). destruct e as [ | | | |e|e|e|e|e|e|t| | ]; try done; simpl in Hev.
  all: try (simplify_eq; eexists _, _; split_and!; [exact He|done..]).
  apply fmap_Some in Hev as (r & Hr & ->). specialize (Hp _ _ Hr).
  by exists (RawRename r), (rn_file_mode r).
Qed.

(** The protocol and the kind of a record are those its event shows, for the
    classes the programs produce. *)
Lemma class_protocol p n ev :
  net_class p = Some (pc_protocol n, rh_event_type (pc_header n)) →
  net_event (RawNet n) = Some ev →
  NetworkEvent_protocol ev = event_protocol (pc_protocol n) ∧
  network_mask_of (rh_event_type (pc_header n)) = Some (network_kind ev).
Proof.
  intros He Hev. simpl in Hev.
  destruct p; try done; simpl in He; injection He as Hp Ht; rewrite <- Hp, <- Ht in *;
    destruct (pc_retval n); by simplify_eq/=.
Qed.

Lemma class_covers_wants f p n ev :
  net_class p = Some (pc_protocol n, rh_event_type (pc_header n)) →
  net_event (RawNet n) = Some ev → network_covers f (RawNet n) → network_wants f ev.
Proof.
  intros He Hev (m & Hm' & Hk & Hc). destruct (class_protocol _ _ _ He Hev) as [Hp Hm].
  rewrite Hm in Hm'. injection Hm' as <-. split; [done|]. unfold NetworkEvent_is_tcp.
  rewrite Hp. by destruct (pc_protocol n).
Qed.

End delivery.

(** ** A read, from the kernel to the channel *)

(** A subscription to reads of process 7; the file is opened, then read, and the
    loop makes two turns. *)
Definition read_runtime : Bpfx unit unit list_ring chan_view := {|
  bpf := tt; btf := tt; ringbuf := EVENTS open_state; network := None; process := None;
  file := Some {| fr_filter := FileFilter_READ; fr_tx := ChanView [] 8 false |};
  mem_reg := None; pending_renames := ∅; config := BpfxConfig_default |}.
Definition read_attached (p : Probe) : Prop := p ∈ file_plan FileFilter_READ.

Definition read_loop (n : nat) : loop_state unit unit list_ring chan_view unit :=
  Nat.iter n (loop_next (inl tt)) (LWait (set_ringbuf (EVENTS read_state) read_runtime)).
Definition read_machine : Machine list_ring nat fin_bpf_map :=
  consumed (mkMachine read_state []) (read_loop 2).
Definition read_end : Bpfx unit unit list_ring chan_view :=
  default read_runtime (loop_runtime (read_loop 2)).
Definition read_channel : FileRegister chan_view :=
  default {| fr_filter := FileFilter_READ; fr_tx := ChanView [] 8 false |} (file read_end).
Definition read_delivered : FileEvent :=
  FileEvent_Read {| fre_header := convert_header (build_event_header open_env EventType_FileRead);
                    fre_file_path := "a/b"; fre_file_type := FileType_from {| mode := 1 |};
                    fre_inode := 4097; fre_retval := 100; fre_flags := 0 |}.

Lemma read_started : sys_init read_attached (mkMachine (H := nat) open_state [], LWait (X := unit) read_runtime).
Proof.
  exists read_runtime. split_and!; [done|done|done|done|apply open_state_wf|done|].
  intros [n Hn]. discriminate Hn.
Qed.

Lemma read_reach :
  rtc (sys_step read_attached) (mkMachine open_state [], LWait (X := unit) read_runtime)
    (read_machine, read_loop 2).
Proof.
  etrans.
  { apply (sys_run_alone _ P_file_open open_env 0 open_state opened_state);
      [|apply open_env_wf|apply opened_run|by intros s [= <-]].
    apply (bool_decide_unpack _). vm_compute. exact I. }
  etrans.
  { apply (sys_run_alone _ P_vfs_read open_env 0 opened_state read_state);
      [|apply open_env_wf|apply read_run|by intros s [= <-]].
    apply (bool_decide_unpack _). vm_compute. exact I. }
  eapply rtc_l; [apply (SysLoop _ (inl tt))|]. eapply rtc_l; [apply (SysLoop _ (inl tt))|].
  vm_compute. apply rtc_refl.
Qed.
