(* ===== verification/Object.v ===== *)
(** * The loaded eBPF object

    What the operations of aya's [Ebpf] object ([EbpfOps]) do to the things the
    rest of the system sees of it: the entries of the FILTER and CONFIG maps,
    the loaded programs and the attached ones ([EbpfView]).  [EbpfLaws] states
    the documented behaviour; the lemmas say what carrying out a plan and
    subscribing make of the view. *)

From S2P Require Import Prelude Raw Layout Events Interfaces Ebpf.
From S2P Require Import Common Process Memory Network File Convert Runtime Attach AttachSpec.
From S2P Require Import AttachTheorems.

#[local] Open Scope string_scope.
#[local] Open Scope Z_scope.

(** ** The view of an object *)

Class EbpfView (B X : Type) := {
  ev_filter : B → gmap Z FilterKey;
  ev_config : B → gmap Z FileModeFilter;
  ev_loaded : B → gset str;
  ev_attached : B → gset str;
  already_loaded : X;                   (* [ProgramError::AlreadyLoaded] *)
}.

Section view.
Context {B X : Type} `{!EbpfView B X}.

Definition same_object (b b' : B) : Prop :=
  ev_filter b' = ev_filter b ∧ ev_config b' = ev_config b ∧
  ev_loaded b' = ev_loaded b ∧ ev_attached b' = ev_attached b.

(** As [Ebpf::load] returns it: empty maps, nothing loaded or attached. *)
Definition fresh_object (b : B) : Prop :=
  ev_filter b = ∅ ∧ ev_config b = ∅ ∧ ev_loaded b = ∅ ∧ ev_attached b = ∅.
End view.

(** An operation that fails changes nothing; a program can be loaded once. *)
Class EbpfLaws (B T X : Type) `{!EbpfOps B T X, !EbpfView B X} : Prop := {
  law_insert_filter : ∀ (b b' : B) k v,
    eb_insert_filter b "FILTER" k v = (None, b') →
    ev_filter b' = <[k := v]> (ev_filter b) ∧ ev_config b' = ev_config b ∧
    ev_loaded b' = ev_loaded b ∧ ev_attached b' = ev_attached b;
  law_insert_filter_err : ∀ (b b' : B) k v e,
    eb_insert_filter b "FILTER" k v = (Some e, b') → same_object b b';
  law_insert_config : ∀ (b b' : B) k v,
    eb_insert_config b "CONFIG" k v = (None, b') →
    ev_filter b' = ev_filter b ∧ ev_config b' = <[k := v]> (ev_config b) ∧
    ev_loaded b' = ev_loaded b ∧ ev_attached b' = ev_attached b;
  law_insert_config_err : ∀ (b b' : B) k v e,
    eb_insert_config b "CONFIG" k v = (Some e, b') → same_object b b';
  law_load : ∀ (b b' : B) (t : T) n kind a,
    eb_load b t n kind a = (None, b') →
    ev_filter b' = ev_filter b ∧ ev_config b' = ev_config b ∧
    ev_loaded b' = {[n]} ∪ ev_loaded b ∧ ev_attached b' = ev_attached b;
  law_load_err : ∀ (b b' : B) (t : T) n kind a e,
    eb_load b t n kind a = (Some e, b') → same_object b b';
  law_load_again : ∀ (b : B) (t : T) n kind a,
    n ∈ ev_loaded b → (eb_load b t n kind a).1 = Some already_loaded;
  law_attach : ∀ (b b' : B) n kind a,
    eb_attach b n kind a = (None, b') →
    ev_filter b' = ev_filter b ∧ ev_config b' = ev_config b ∧
    ev_loaded b' = ev_loaded b ∧ ev_attached b' = {[n]} ∪ ev_attached b;
  law_attach_err : ∀ (b b' : B) n kind a e,
    eb_attach b n kind a = (Some e, b') → same_object b b';
}.

(** ** Programs by name *)

Definition prog_name (p : Probe) : str := rq_prog (probe_request p).

Lemma prog_name_inj : Inj (=) (=) prog_name.
Proof.
  assert (∀ p q, bool_decide (prog_name p = prog_name q) = bool_decide (p = q)) as Hd
    by (intros [] []; vm_compute; reflexivity).
  intros p q Hpq. specialize (Hd p q). rewrite bool_decide_eq_true_2 in Hd by done.
  by apply (bool_decide_eq_true_1 (p = q)).
Qed.

Definition names (l : list Probe) : gset str := list_to_set (prog_name <$> l).

Lemma elem_of_names p l : prog_name p ∈ names l ↔ p ∈ l.
Proof.
  unfold names. rewrite elem_of_list_to_set, list_elem_of_fmap. split; [|by eauto].
  by intros (q & ->%prog_name_inj & Hq).
Qed.

Section object.
Context {B T X : Type} `{EbpfLaws B T X}.
Implicit Types b : B.

Definition attached_of (b : B) (p : Probe) : Prop := prog_name p ∈ ev_attached b.

(** ** Steps that can fail *)

(** From [b] to [b'] by attaching the programs [l], with result [r]. *)
Record carried_out (l : list Probe) (b b' : B) (r : outcome (Error X) unit) : Prop := {
  co_filter : ev_filter b' = ev_filter b;
  co_config : ev_config b' = ev_config b;
  co_loaded : ev_loaded b ⊆ ev_loaded b';
  co_attached : ev_attached b ⊆ ev_attached b' ∧ ev_attached b' ⊆ ev_attached b ∪ names l;
  co_ok : r = Ok tt →
    ev_attached b' = ev_attached b ∪ names l ∧ ev_loaded b' = ev_loaded b ∪ names l ∧
    ∀ p, p ∈ l → prog_name p ∉ ev_loaded b;
}.

Lemma same_carried_out l b b' r :
  r ≠ Ok tt → same_object b b' → carried_out l b b' r.
Proof.
  intros Hr (Hf & Hc & Hl & Ha). split; [done|done|by rewrite Hl| |done].
  rewrite Ha. set_solver.
Qed.

Lemma same_object_refl b : same_object b b.
Proof. done. Qed.

Lemma try_op_run (wrap : X → Error X) op b r b' :
  try_op wrap op b = (r, b') →
  (r = Ok tt ∧ op b = (None, b')) ∨ ∃ e, r = Err (wrap e) ∧ op b = (Some e, b').
Proof.
  unfold try_op. destruct (op b) as [[e|] b1]; intros [= <- <-]; eauto.
Qed.

Lemma exec_request_effect btf p b r b' :
  exec_request btf (probe_request p) b = (r, b') → carried_out [p] b b' r.
Proof.
  unfold exec_request, mbind, stateM_bind.
  assert (Hfind : ∀ r1 b1,
    (if bool_decide (rq_kind (probe_request p) = Prog_Lsm)
     then unwrap_program (rq_prog (probe_request p))
     else ok_or (fun b => eb_program_mut b (rq_prog (probe_request p))) Error_ProgramAccess) b
    = (r1, b1) → b1 = b).
  { intros r1 b1. case_bool_decide; unfold unwrap_program, ok_or; case_match; by intros [= _ <-]. }
  match type of Hfind with ∀ r1 b1, ?m b = _ → _ => destruct (m b) as [r1 b1] end.
  rewrite (Hfind r1 b1 eq_refl).
  destruct r1 as [[]|e| |]; try (intros [= <- <-]; apply same_carried_out; done).
  destruct (try_read _ _ b) as [r2 b2] eqn:E2. unfold try_read in E2. apply try_op_run in E2 as [(-> & [= _ <-])|(e & -> & [= _ <-])];
    [|intros [= <- <-]; by apply same_carried_out].
  destruct (try_op _ _ b) as [r3 b3] eqn:E3. apply try_op_run in E3 as [(-> & E3)|(e & -> & E3)];
    [|intros [= <- <-]; apply same_carried_out; [done|by eapply law_load_err]].
  assert (Hn : prog_name p ∉ ev_loaded b).
  { intros Hn. apply (law_load_again b btf _ (rq_kind (probe_request p)) (rq_load (probe_request p))) in Hn.
    unfold prog_name in Hn. by rewrite E3 in Hn. }
  apply law_load in E3 as (Hf3 & Hc3 & Hl3 & Ha3).
  destruct (try_op _ _ b3) as [r4 b4] eqn:E4. intros [= <- <-].
  apply try_op_run in E4 as [(-> & E4)|(e & -> & E4)].
  - apply law_attach in E4 as (Hf & Hc & Hl & Ha).
    split; [congruence|congruence|rewrite Hl, Hl3; set_solver| |].
    + rewrite Ha, Ha3. unfold names. simpl. set_solver.
    + intros _. rewrite Ha, Ha3, Hl, Hl3. unfold names. simpl. split_and!; [set_solver..|].
      by intros q ->%list_elem_of_singleton.
  - apply law_attach_err in E4 as (Hf & Hc & Hl & Ha).
    split; [congruence|congruence|rewrite Hl, Hl3; set_solver| |done].
    rewrite Ha, Ha3. set_solver.
Qed.

Lemma exec_plan_effect btf l b r b' :
  NoDup l → exec_plan btf l b = (r, b') → carried_out l b b' r.
Proof.
  intros Hnd. revert b. induction Hnd as [|p l Hp Hnd IH]; intros b.
  { intros [= <- <-]. split; [done|done|done|set_solver|]. intros _. unfold names. simpl.
    split_and!; [set_solver..|]. by intros q ?%not_elem_of_nil. }
  unfold exec_plan in *. cbn [for_each]. unfold mbind, stateM_bind.
  destruct (exec_request btf (probe_request p) b) as [r1 b1] eqn:E1.
  apply exec_request_effect in E1 as [Hf1 Hc1 Hl1 [Ha1 Ha1'] Hok1].
  assert (Hnames : names (p :: l) = {[prog_name p]} ∪ names l) by done.
  assert (Hone : names [p] = {[prog_name p]}) by (unfold names; simpl; set_solver).
  rewrite Hone in *. destruct r1 as [[]|e| |];
    try (intros [= <- <-]; split; [done|done|done|rewrite Hnames; set_solver|done]).
  intros E2. apply IH in E2 as [Hf2 Hc2 Hl2 [Ha2 Ha2'] Hok2].
  destruct (Hok1 eq_refl) as (Hat & Hlo & Hfresh). rewrite Hat, Hlo in *.
  split; [congruence|congruence|set_solver|rewrite Hnames; set_solver|].
  intros Hr. destruct (Hok2 Hr) as (Hat2 & Hlo2 & Hfresh2). rewrite Hnames, Hat2, Hlo2.
  split_and!; [set_solver|set_solver|].
  intros q [->|Hq]%elem_of_cons; [apply Hfresh; set_solver|]. specialize (Hfresh2 q Hq). set_solver.
Qed.

(** ** The attach functions *)

Definition wrote_filter (o : FilterOwner) (key : FilterKey) (b b' : B) : Prop :=
  ev_filter b' = <[FilterOwner_repr o := key]> (ev_filter b) ∧ ev_config b' = ev_config b ∧
  ev_loaded b' = ev_loaded b ∧ ev_attached b' = ev_attached b.

Definition not_attach_error (r : outcome (Error X) unit) : Prop :=
  r ≠ Ok tt ∧ ∀ e, r ≠ Err (Error_Attach e).

Lemma write_filter_run f o b r b' :
  write_to_fiter_map f o b = (r, b') →
  (r = Ok tt ∧ wrote_filter o (Filters_key f) b b') ∨ (not_attach_error r ∧ same_object b b').
Proof.
  unfold write_to_fiter_map, mbind, stateM_bind, ok_or, try_read.
  destruct (eb_map_mut b "FILTER"); [|intros [= <- <-]; by right].
  destruct (try_op _ _ b) as [r2 b2] eqn:E2.
  apply try_op_run in E2 as [(-> & [= _ <-])|(e & -> & [= _ <-])]; [|intros [= <- <-]; by right].
  intros E3. apply try_op_run in E3 as [(-> & E3)|(e & -> & E3)].
  - left. split; [done|]. by apply law_insert_filter.
  - right. split; [done|]. by eapply law_insert_filter_err.
Qed.

Lemma write_config_run f b r b' :
  write_to_map f b = (r, b') →
  (r = Ok tt ∧ ev_filter b' = ev_filter b ∧
   ev_config b' = <[0 := FileModeFilter_from (ff_file_mode f)]> (ev_config b) ∧
   ev_loaded b' = ev_loaded b ∧ ev_attached b' = ev_attached b) ∨
  (not_attach_error r ∧ same_object b b').
Proof.
  unfold write_to_map, mbind, stateM_bind, ok_or, try_read.
  destruct (eb_map_mut b "CONFIG"); [|intros [= <- <-]; by right].
  destruct (try_op _ _ b) as [r2 b2] eqn:E2.
  apply try_op_run in E2 as [(-> & [= _ <-])|(e & -> & [= _ <-])]; [|intros [= <- <-]; by right].
  intros E3. apply try_op_run in E3 as [(-> & E3)|(e & -> & E3)].
  - left. split; [done|]. by apply law_insert_config.
  - right. split; [done|]. by eapply law_insert_config_err.
Qed.

(** Entries of the maps after the writes of a subscription. *)
Definition written (o : FilterOwner) (key : FilterKey) (cfg : option FileModeFilter) (b b' : B) : Prop :=
  ev_filter b' = <[FilterOwner_repr o := key]> (ev_filter b) ∧
  ev_config b' = match cfg with Some c => <[0 := c]> (ev_config b) | None => ev_config b end.

(** What attaching for a filter makes of the object: on success the entries are
    written and the programs of the plan, none of them loaded before, are
    attached; once an attach step was reached the entries are written. *)
Record attach_effect (o : FilterOwner) (key : FilterKey) (cfg : option FileModeFilter)
    (l : list Probe) (b b' : B) (r : outcome (Error X) unit) : Prop := {
  ae_ok : r = Ok tt →
    written o key cfg b b' ∧ ev_attached b' = ev_attached b ∪ names l ∧
    ev_loaded b' = ev_loaded b ∪ names l ∧ ∀ p, p ∈ l → prog_name p ∉ ev_loaded b;
  ae_err : ∀ e, r = Err (Error_Attach e) → written o key cfg b b';
}.

Lemma plan_effect o f l btf b r b' :
  NoDup l → (write_to_fiter_map f o;; exec_plan btf l) b = (r, b') →
  attach_effect o (Filters_key f) None l b b' r.
Proof.
  intros Hl. unfold mbind, stateM_bind. destruct (write_to_fiter_map f o b) as [r1 b1] eqn:E1.
  apply write_filter_run in E1 as [(-> & Hf & Hc & Hlo & Ha)|[[Hr Hr'] _]].
  - intros [Hf2 Hc2 Hl2 Ha2 Hok2]%exec_plan_effect; [|done]. split.
    + intros Hr. destruct (Hok2 Hr) as (Hat & Hld & Hfresh). rewrite Ha, Hlo in *.
      split; [split; simpl; congruence|by split_and!].
    + intros e _. split; simpl; congruence.
  - destruct r1 as [[]|e| |]; try done; intros [= <- <-]; split; try done.
    intros e' [= ->]. by destruct (Hr' e').
Qed.

Lemma file_plan_effect f l btf b r b' :
  NoDup l →
  (write_to_fiter_map (Filters_File f) FilterOwner_File;; write_to_map f;; exec_plan btf l) b
  = (r, b') →
  attach_effect FilterOwner_File (ff_filter f) (Some (FileModeFilter_from (ff_file_mode f))) l b b' r.
Proof.
  intros Hl. unfold mbind, stateM_bind.
  destruct (write_to_fiter_map _ _ b) as [r1 b1] eqn:E1.
  apply write_filter_run in E1 as [(-> & Hf & Hc & Hlo & Ha)|[[Hr Hr'] _]].
  - destruct (write_to_map f b1) as [r2 b2] eqn:E2.
    apply write_config_run in E2 as [(-> & Hf2 & Hc2 & Hlo2 & Ha2)|[[Hr Hr'] _]].
    + intros [Hf3 Hc3 Hl3 Ha3 Hok3]%exec_plan_effect; [|done].
      assert (Hw : written FilterOwner_File (ff_filter f)
                     (Some (FileModeFilter_from (ff_file_mode f))) b b').
      { split; [rewrite Hf3, Hf2, Hf; done|rewrite Hc3, Hc2, Hc; done]. }
      split; [|done]. intros Hr. destruct (Hok3 Hr) as (Hat & Hld & Hfresh).
      rewrite Ha2, Hlo2, Ha, Hlo in *. by split_and!.
    + destruct r2 as [[]|e| |]; try done; intros [= <- <-]; split; try done.
      intros e' [= ->]. by destruct (Hr' e').
  - destruct r1 as [[]|e| |]; try done; intros [= <- <-]; split; try done.
    intros e' [= ->]. by destruct (Hr' e').
Qed.
End object.

(** *** The plans name no program twice *)

Ltac nodup_plan :=
  repeat match goal with |- context [if_ ?b _] => destruct b; simpl end;
  apply (bool_decide_unpack _); vm_compute; exact I.

Lemma network_plan_NoDup f : NoDup (network_plan f).
Proof. unfold network_plan. nodup_plan. Qed.
Lemma process_plan_NoDup f : NoDup (process_plan f).
Proof. unfold process_plan. nodup_plan. Qed.
Lemma file_plan_NoDup f : NoDup (file_plan f).
Proof. unfold file_plan. simpl. nodup_plan. Qed.
Lemma mem_plan_NoDup f : NoDup (mem_plan f).
Proof. unfold mem_plan. nodup_plan. Qed.

(** ** Subscribing *)

Section subscribe.
Context {B T R X : Type} {Ch : Type → Type}.
Context `{EbpfLaws B T X, ChannelLaws Ch}.
Implicit Types s : Bpfx B T R Ch.

(** A subscription of one kind: it fails before the object is touched, or the
    attach function ran and, on success, the registration is set. *)
Definition subscription_run {A} (attach : T → stateM B (Error X) unit)
    (reg : Ch A → Bpfx B T R Ch → Bpfx B T R Ch) s r s' : Prop :=
  (r = Panic ∧ s' = s) ∨
  ∃ (c : Ch A) b', ch_channel (channel_capacity (config s)) = Some c ∧
    attach (btf s) (bpf s) = (r, b') ∧
    s' = match r with Ok _ => reg c (set_bpf b' s) | _ => set_bpf b' s end.

Ltac subscription attach s :=
  unfold mbind, stateM_bind, new_channel, on_bpf, register;
  match goal with |- context [ch_channel (A := ?A) ?n] =>
    destruct (ch_channel (A := A) n) eqn:?; [|by intros [= <- <-]; left]
  end;
  destruct (attach (btf s) (bpf s)) as [[[]|?| |] ?] eqn:?; intros [= <- <-];
  right; eexists _, _; (split; [eassumption|split; [eassumption|done]]).

Lemma network_subscribe_run f s r s' :
  NetworkFilter_subscribe f s = (r, s') →
  subscription_run (attach_network_probe f)
    (fun c => set_network (Some {| nr_filter := f; nr_tx := c |})) s r s'.
Proof. unfold NetworkFilter_subscribe. subscription (attach_network_probe f) s. Qed.

Lemma process_subscribe_run f s r s' :
  ProcessFilter_subscribe f s = (r, s') →
  subscription_run (attach_process_probe f)
    (fun c => set_process (Some {| pr_filter := f; pr_tx := c |})) s r s'.
Proof. unfold ProcessFilter_subscribe. subscription (attach_process_probe f) s. Qed.

Lemma file_subscribe_run f s r s' :
  FileFilter_subscribe f s = (r, s') →
  subscription_run (attach_file_probe f)
    (fun c => set_file (Some {| fr_filter := f; fr_tx := c |})) s r s'.
Proof. unfold FileFilter_subscribe. subscription (attach_file_probe f) s. Qed.

Lemma mem_subscribe_run f s r s' :
  MemoryFilter_subscribe f s = (r, s') →
  subscription_run (attach_mem_probe f)
    (fun c => set_mem (Some {| mr_filter := f; mr_tx := c |})) s r s'.
Proof. unfold MemoryFilter_subscribe. subscription (attach_mem_probe f) s. Qed.

Lemma attach_network_effect f (t : T) (b b' : B) r :
  attach_network_probe f t b = (r, b') →
  attach_effect FilterOwner_Network (nf_filter f) None (network_plan f) b b' r.
Proof.
  rewrite attach_network_plan. intros Ha. eapply plan_effect in Ha; [exact Ha|].
  apply network_plan_NoDup.
Qed.

Lemma attach_process_effect f (t : T) (b b' : B) r :
  attach_process_probe f t b = (r, b') →
  attach_effect FilterOwner_Process (pf_filter f) None (process_plan f) b b' r.
Proof.
  rewrite (proj1 (attach_process_mem_plan f MemoryFilter_ALL t b)). intros Ha.
  eapply plan_effect in Ha; [exact Ha|]. apply process_plan_NoDup.
Qed.

Lemma attach_mem_effect f (t : T) (b b' : B) r :
  attach_mem_probe f t b = (r, b') →
  attach_effect FilterOwner_Memory (mf_filter f) None (mem_plan f) b b' r.
Proof.
  rewrite (proj2 (attach_process_mem_plan ProcessFilter_ALL f t b)). intros Ha.
  eapply plan_effect in Ha; [exact Ha|]. apply mem_plan_NoDup.
Qed.

Lemma attach_file_effect f (t : T) (b b' : B) r :
  attach_file_probe f t b = (r, b') →
  attach_effect FilterOwner_File (ff_filter f) (Some (FileModeFilter_from (ff_file_mode f)))
    (file_plan f) b b' r.
Proof.
  rewrite attach_file_plan. intros Ha. eapply file_plan_effect in Ha; [exact Ha|].
  apply file_plan_NoDup.
Qed.
End subscribe.
