(* ===== verification/Steps.v ===== *)
(** * The steps of a subscription

    [subscribe] changes the loaded object in several system calls: it writes to
    FILTER, for files also to CONFIG, and loads and attaches one program after the
    other; the programs attached so far run meanwhile.  To see the objects in
    between, the code of [Attach.v] is run on an object that keeps a log of itself
    ([logged]).  [logged_*] say that this changes nothing, [*_states] what the
    objects in between are: the maps are written before anything is attached. *)

From S2P Require Import Prelude Raw Layout Events Interfaces Ebpf.
From S2P Require Import Common Process Memory Network File Convert Runtime Attach AttachSpec.
From S2P Require Import AttachTheorems Object.

#[local] Open Scope Z_scope.

(** ** An object with a log *)

Record logged (B : Type) := Logged { now : B; states : list B }.
#[global] Arguments Logged {B}.
#[global] Arguments now {B}.
#[global] Arguments states {B}.

Section log.
Context {B T X : Type} `{!EbpfOps B T X}.

(** Each operation that can change the object adds the outcome to the log. *)
Definition log (x : logged B) (y : option X * B) : option X * logged B :=
  (y.1, Logged y.2 (states x ++ [y.2])).

#[export] Instance logged_ops : EbpfOps (logged B) T X := {|
  eb_map_mut x := eb_map_mut (now x);
  eb_filter_map x := eb_filter_map (now x);
  eb_config_map x := eb_config_map (now x);
  eb_insert_filter x n i key := log x (eb_insert_filter (now x) n i key);
  eb_insert_config x n i c := log x (eb_insert_config (now x) n i c);
  eb_program_mut x := eb_program_mut (now x);
  eb_try_into x := eb_try_into (now x);
  eb_load x t n kind a := log x (eb_load (now x) t n kind a);
  eb_attach x n kind a := log x (eb_attach (now x) n kind a);
|}.

(** The objects that [attach] leads through. *)
Definition object_states (attach : T → stateM (logged B) (Error X) unit) (t : T) (b : B) : list B :=
  states (attach t (Logged b [])).2.

(** ** The log changes nothing *)

Definition sim {A} (m' : stateM (logged B) (Error X) A) (m : stateM B (Error X) A) : Prop :=
  ∀ x, (m' x).1 = (m (now x)).1 ∧ now (m' x).2 = (m (now x)).2.

Lemma sim_ret {A} (a : A) : sim (mret a) (mret a).
Proof. done. Qed.

Lemma sim_bind {A A'} (m' : stateM (logged B) (Error X) A) m (f' : A → stateM (logged B) (Error X) A') f :
  sim m' m → (∀ a, sim (f' a) (f a)) → sim (m' ≫= f') (m ≫= f).
Proof.
  intros Hm Hf x. unfold mbind, stateM_bind. destruct (Hm x) as [Hr Hb].
  destruct (m' x) as [r' x'], (m (now x)) as [r b]; simpl in *; subst. destruct r; try done. apply Hf.
Qed.

Lemma sim_try_op wrap (op' : logged B → option X * logged B) op :
  (∀ x, (op' x).1 = (op (now x)).1 ∧ now (op' x).2 = (op (now x)).2) →
  sim (try_op wrap op') (try_op wrap op).
Proof.
  intros Ho x. unfold try_op. destruct (Ho x) as [Hr Hb].
  destruct (op' x) as [[] ?], (op (now x)) as [[] ?]; simpl in *; by simplify_eq.
Qed.

Lemma sim_ok_or (found : B → bool) e : sim (ok_or (fun x => found (now x)) e) (ok_or found e).
Proof. intros x. unfold ok_or. by destruct (found (now x)). Qed.

Lemma sim_unwrap n : sim (unwrap_program n) (unwrap_program n).
Proof. intros x. unfold unwrap_program. cbn. by destruct (eb_program_mut (now x) n). Qed.

Lemma sim_write_filter f o : sim (write_to_fiter_map f o) (write_to_fiter_map f o).
Proof.
  apply sim_bind; [apply (sim_ok_or (fun b => eb_map_mut b "FILTER"%string))|]. intros _.
  apply sim_bind; [by apply sim_try_op|]. intros _. by apply sim_try_op.
Qed.

Lemma sim_write_config f : sim (write_to_map f) (write_to_map f).
Proof.
  apply sim_bind; [apply (sim_ok_or (fun b => eb_map_mut b "CONFIG"%string))|]. intros _.
  apply sim_bind; [by apply sim_try_op|]. intros _. by apply sim_try_op.
Qed.

Lemma sim_request t r : sim (exec_request t r) (exec_request t r).
Proof.
  apply sim_bind.
  { case_bool_decide; [apply sim_unwrap|apply (sim_ok_or (fun b => eb_program_mut b (rq_prog r)))]. }
  intros _. apply sim_bind; [by apply sim_try_op|]. intros _.
  apply sim_bind; [by apply sim_try_op|]. intros _. by apply sim_try_op.
Qed.

Lemma sim_plan t l : sim (exec_plan t l) (exec_plan t l).
Proof.
  induction l as [|p l IH]; [apply sim_ret|].
  apply (sim_bind _ _ _ _ (sim_request t (probe_request p))). intros _. exact IH.
Qed.

(** Computations that are the same as others. *)
Lemma sim_ext {A} (m' n' : stateM (logged B) (Error X) A) m n :
  (∀ x, m' x = n' x) → (∀ b, m b = n b) → sim n' n → sim m' m.
Proof. intros Hm' Hm Hn x. rewrite Hm', Hm. apply Hn. Qed.

Lemma logged_network f t : sim (attach_network_probe f t) (attach_network_probe f t).
Proof.
  eapply sim_ext; [intros x; apply attach_network_plan|intros b; apply attach_network_plan|].
  apply sim_bind; [apply sim_write_filter|]. intros _. apply sim_plan.
Qed.

Lemma logged_file f t : sim (attach_file_probe f t) (attach_file_probe f t).
Proof.
  eapply sim_ext; [intros x; apply attach_file_plan|intros b; apply attach_file_plan|].
  apply sim_bind; [apply sim_write_filter|]. intros _.
  apply sim_bind; [apply sim_write_config|]. intros _. apply sim_plan.
Qed.

Lemma logged_process f t : sim (attach_process_probe f t) (attach_process_probe f t).
Proof.
  eapply sim_ext; [intros x; apply (proj1 (attach_process_mem_plan f MemoryFilter_ALL t x))
                  |intros b; apply (proj1 (attach_process_mem_plan f MemoryFilter_ALL t b))|].
  apply sim_bind; [apply sim_write_filter|]. intros _. apply sim_plan.
Qed.

Lemma logged_mem f t : sim (attach_mem_probe f t) (attach_mem_probe f t).
Proof.
  eapply sim_ext; [intros x; apply (proj2 (attach_process_mem_plan ProcessFilter_ALL f t x))
                  |intros b; apply (proj2 (attach_process_mem_plan ProcessFilter_ALL f t b))|].
  apply sim_bind; [apply sim_write_filter|]. intros _. apply sim_plan.
Qed.
End log.

(** ** The objects in between *)

Section between.
Context {B T X : Type} `{EbpfLaws B T X}.
Implicit Types b : B.
Implicit Types x : logged B.
Implicit Types J : B → Prop.

(** [m] only goes through objects with [J]. *)
Definition keeps J (m : stateM (logged B) (Error X) unit) : Prop :=
  ∀ x r x', m x = (r, x') → J (now x) →
  ∃ l, states x' = states x ++ l ∧ Forall J l ∧ default (now x) (list.last l) = now x'.

Lemma keeps_end J x l x' :
  J (now x) → Forall J l → default (now x) (list.last l) = now x' → J (now x').
Proof.
  intros Hx Hl <-. destruct (list.last l) as [b|] eqn:Hb; [|done]. simpl.
  rewrite Forall_forall in Hl. by apply Hl, list_elem_of_In, last_Some_elem_of.
Qed.

Lemma keeps_ret J : keeps J (mret tt).
Proof. intros x r x' [= <- <-] _. exists []. by rewrite app_nil_r. Qed.

Lemma keeps_bind J m (f : unit → stateM (logged B) (Error X) unit) :
  keeps J m → (∀ a, keeps J (f a)) → keeps J (m ≫= f).
Proof.
  intros Hm Hf x r x'. unfold mbind, stateM_bind. destruct (m x) as [r1 x1] eqn:E1. intros E2 HJ.
  destruct (Hm _ _ _ E1 HJ) as (l1 & Hs1 & Hl1 & Hn1). pose proof (keeps_end _ _ _ _ HJ Hl1 Hn1) as HJ1.
  destruct r1 as [a|e| |]; [|by injection E2 as <- <-; exists l1..].
  destruct (Hf a _ _ _ E2 HJ1) as (l2 & Hs2 & Hl2 & Hn2). exists (l1 ++ l2).
  rewrite Hs2, Hs1, <- (assoc_L (++)). split; [done|]. split; [by apply Forall_app|].
  rewrite last_app. destruct (list.last l2) eqn:E; simpl in *; [done|congruence].
Qed.

Lemma keeps_same J (m : stateM (logged B) (Error X) unit) : (∀ x, (m x).2 = x) → keeps J m.
Proof.
  intros Hm x r x' E _. specialize (Hm x). rewrite E in Hm. simpl in Hm. subst.
  exists []. by rewrite app_nil_r.
Qed.

Lemma keeps_try_op J wrap (op : B → option X * B) :
  (∀ b, J b → J (op b).2) → keeps J (try_op wrap (fun x => log x (op (now x)))).
Proof.
  intros Ho x r x' E HJ. specialize (Ho _ HJ). unfold try_op, log in E.
  destruct (op (now x)) as [[e|] b]; injection E as <- <-; exists [b]; simpl in *;
    (split_and!; [done|by constructor|done]).
Qed.

(** The filter maps are those of [b0], and only programs of [ps] are attached. *)
Definition within (ps : gset str) b0 b : Prop :=
  ev_filter b = ev_filter b0 ∧ ev_config b = ev_config b0 ∧ ev_attached b ⊆ ps.

Lemma within_same ps b0 b b' : same_object b b' → within ps b0 b → within ps b0 b'.
Proof. intros (Hf & Hc & _ & Ha) (? & ? & ?). unfold within. by rewrite Hf, Hc, Ha. Qed.

Lemma keeps_request ps b0 t p :
  prog_name p ∈ ps → keeps (within ps b0) (exec_request t (probe_request p)).
Proof.
  intros Hp. apply keeps_bind.
  { apply keeps_same. intros x. case_bool_decide; unfold unwrap_program, ok_or; by case_match. }
  intros _. apply keeps_bind.
  { apply keeps_same. intros x. unfold try_read, try_op. by case_match. }
  intros _. apply keeps_bind.
  - apply (keeps_try_op _ _ (fun b => eb_load b t _ _ _)). intros b Hb. destruct (eb_load b _ _ _ _) as [[e|] b'] eqn:E; simpl.
    + apply law_load_err in E. by eapply within_same.
    + apply law_load in E as (Hf & Hc & _ & Ha). unfold within. by rewrite Hf, Hc, Ha.
  - intros _. apply (keeps_try_op _ _ (fun b => eb_attach b _ _ _)). intros b Hb.
    destruct (eb_attach b _ _ _) as [[e|] b'] eqn:E; simpl.
    + apply law_attach_err in E. by eapply within_same.
    + apply law_attach in E as (Hf & Hc & _ & Ha). destruct Hb as (? & ? & ?). unfold within.
      rewrite Hf, Hc, Ha. split_and!; [done|done|]. unfold prog_name in Hp. set_solver.
Qed.

Lemma keeps_plan ps b0 t l : names l ⊆ ps → keeps (within ps b0) (exec_plan t l).
Proof.
  induction l as [|p l IH]; intros Hl; [apply keeps_ret|].
  assert (prog_name p ∈ ps) by (apply Hl, elem_of_names; left).
  apply (keeps_bind _ _ _ (keeps_request ps b0 t p ltac:(done))). intros _.
  apply IH. etrans; [|exact Hl]. unfold names. simpl. set_solver.
Qed.

Lemma logged_write_filter f o x x' :
  write_to_fiter_map f o x = (Ok tt, x') →
  states x' = states x ++ [now x'] ∧ wrote_filter o (Filters_key f) (now x) (now x').
Proof.
  unfold write_to_fiter_map, mbind, stateM_bind, ok_or, try_read, try_op. cbn.
  destruct (eb_map_mut _ _); [|done]. destruct (eb_filter_map _ _); [done|].
  unfold log. destruct (eb_insert_filter _ _ _ _) as [[e|] b] eqn:E; simpl; intros [= <-].
  split; [done|]. by apply law_insert_filter.
Qed.

Lemma logged_write_config f x x' :
  write_to_map f x = (Ok tt, x') →
  states x' = states x ++ [now x'] ∧ ev_filter (now x') = ev_filter (now x) ∧
  ev_config (now x') = <[0 := FileModeFilter_from (ff_file_mode f)]> (ev_config (now x)) ∧
  ev_attached (now x') = ev_attached (now x).
Proof.
  unfold write_to_map, mbind, stateM_bind, ok_or, try_read, try_op. cbn.
  destruct (eb_map_mut _ _); [|done]. destruct (eb_config_map _ _); [done|].
  unfold log. destruct (eb_insert_config _ _ _ _) as [[e|] b] eqn:E; simpl; intros [= <-].
  apply law_insert_config in E as (Hf & Hc & _ & Ha). by split_and!.
Qed.

(** The objects of a successful subscription from [b] to [b']: at first, if CONFIG
    is to be written too, one with the entry of FILTER only; from then on the
    entries of both maps are written, while programs of the plan are attached. *)
Definition subscription_states (o : FilterOwner) (key : FilterKey) (cfg : option FileModeFilter)
    (plan : list Probe) b (l : list B) b' : Prop :=
  ∃ l1 l2, l = l1 ++ l2 ∧ list.last l2 = Some b' ∧
    Forall (fun b1 => cfg ≠ None ∧ wrote_filter o key b b1) l1 ∧
    Forall (fun b2 => written o key cfg b b2 ∧ ev_attached b2 ⊆ ev_attached b ∪ names plan) l2.

(** After the last write. *)
Lemma plan_states o key cfg plan b x t x' :
  written o key cfg b (now x) → ev_attached (now x) = ev_attached b → exec_plan t plan x = (Ok tt, x') →
  ∃ l, states x' = states x ++ l ∧ list.last (now x :: l) = Some (now x') ∧
    Forall (fun b2 => written o key cfg b b2 ∧ ev_attached b2 ⊆ ev_attached b ∪ names plan) (now x :: l).
Proof.
  intros Hw Ha E.
  destruct (keeps_plan (ev_attached b ∪ names plan) (now x) t plan ltac:(set_solver) x _ x' E)
    as (l & Hs & Hl & Hn).
  { split_and!; [done|done|]. rewrite Ha. set_solver. }
  exists l. split; [done|]. split; [rewrite last_cons; destruct (list.last l); simpl in *; congruence|].
  constructor; [split; [done|]; rewrite Ha; set_solver|]. eapply Forall_impl; [|exact Hl].
  intros b2 (Hf & Hc & Ha2). split; [|done]. destruct Hw as [Hw1 Hw2]. split; congruence.
Qed.

Lemma filter_plan_states f o plan t b x' :
  (write_to_fiter_map f o;; exec_plan t plan) (Logged b []) = (Ok tt, x') →
  subscription_states o (Filters_key f) None plan b (states x') (now x').
Proof.
  unfold mbind, stateM_bind. destruct (write_to_fiter_map f o _) as [[[]| | |] x1] eqn:E1; try done.
  apply logged_write_filter in E1 as (Hs1 & Hf & Hc & _ & Ha). intros E2.
  destruct (plan_states o (Filters_key f) None plan b x1 t x') as (l & Hs2 & Hlast & Hl); [by split|done|done|].
  exists [], (now x1 :: l). split_and!; [by rewrite Hs2, Hs1|done|done|done].
Qed.

Lemma file_plan_states f plan t b x' :
  (write_to_fiter_map (Filters_File f) FilterOwner_File;; write_to_map f;; exec_plan t plan) (Logged b [])
  = (Ok tt, x') →
  subscription_states FilterOwner_File (ff_filter f) (Some (FileModeFilter_from (ff_file_mode f))) plan b
    (states x') (now x').
Proof.
  unfold mbind, stateM_bind.
  destruct (write_to_fiter_map _ _ _) as [[[]| | |] x1] eqn:E1; try done.
  apply logged_write_filter in E1 as (Hs1 & Hf & Hc & Hl1 & Ha).
  destruct (write_to_map f x1) as [[[]| | |] x2] eqn:E2; try done.
  apply logged_write_config in E2 as (Hs2 & Hf2 & Hc2 & Ha2). intros E3.
  destruct (plan_states FilterOwner_File (ff_filter f) (Some (FileModeFilter_from (ff_file_mode f)))
              plan b x2 t x') as (l & Hs3 & Hlast & Hl); [| |done|].
  { split; simpl in *; [by rewrite Hf2, Hf|by rewrite Hc2, Hc]. }
  { by rewrite Ha2, Ha. }
  exists [now x1], (now x2 :: l). split_and!; [by rewrite Hs3, Hs2, Hs1|done| |done].
  constructor; [|done]. by split_and!.
Qed.

(** The four attach functions. *)
Lemma sim_Ok (m' : stateM (logged B) (Error X) unit) (m : stateM B (Error X) unit) b b' :
  sim m' m → m b = (Ok tt, b') → ∃ x', m' (Logged b []) = (Ok tt, x') ∧ now x' = b'.
Proof.
  intros Hs E. destruct (Hs (Logged b [])) as [Hr Hn]. simpl in *. rewrite E in Hr, Hn.
  destruct (m' _) as [r x']. simpl in *. subst. by exists x'.
Qed.

Lemma network_states f (t : T) b b' :
  attach_network_probe f t b = (Ok tt, b') →
  subscription_states FilterOwner_Network (nf_filter f) None (network_plan f) b
    (object_states (attach_network_probe f) t b) b'.
Proof.
  intros (x' & E & <-)%(sim_Ok _ _ _ _ (logged_network f t)). unfold object_states. rewrite E.
  rewrite attach_network_plan in E. by apply filter_plan_states in E.
Qed.

Lemma process_states f (t : T) b b' :
  attach_process_probe f t b = (Ok tt, b') →
  subscription_states FilterOwner_Process (pf_filter f) None (process_plan f) b
    (object_states (attach_process_probe f) t b) b'.
Proof.
  intros (x' & E & <-)%(sim_Ok _ _ _ _ (logged_process f t)). unfold object_states. rewrite E.
  rewrite (proj1 (attach_process_mem_plan f MemoryFilter_ALL t _)) in E. by apply filter_plan_states in E.
Qed.

Lemma mem_states f (t : T) b b' :
  attach_mem_probe f t b = (Ok tt, b') →
  subscription_states FilterOwner_Memory (mf_filter f) None (mem_plan f) b
    (object_states (attach_mem_probe f) t b) b'.
Proof.
  intros (x' & E & <-)%(sim_Ok _ _ _ _ (logged_mem f t)). unfold object_states. rewrite E.
  rewrite (proj2 (attach_process_mem_plan ProcessFilter_ALL f t _)) in E. by apply filter_plan_states in E.
Qed.

Lemma file_states f (t : T) b b' :
  attach_file_probe f t b = (Ok tt, b') →
  subscription_states FilterOwner_File (ff_filter f) (Some (FileModeFilter_from (ff_file_mode f)))
    (file_plan f) b (object_states (attach_file_probe f) t b) b'.
Proof.
  intros (x' & E & <-)%(sim_Ok _ _ _ _ (logged_file f t)). unfold object_states. rewrite E.
  rewrite attach_file_plan in E. by apply file_plan_states in E.
Qed.
End between.
