(* ===== verification/Session.v ===== *)
(** * From [subscribe] to the events

    A session: a new [Bpfx] and successful subscriptions of different kinds, each
    made up of its system calls ([Steps.v]), with programs that run from the
    moment they are attached, also between two calls of one [subscribe]
    ([session_step]); then the pipeline of [System.v] from there.  The theorem at
    the end is what a user of the crate relies on: whatever arrives in a channel is
    what the filter that was passed to [subscribe] asked for. *)

From stdpp Require Import relations.
From S2P Require Import Prelude Utf8 Raw Layout Events Interfaces Ebpf KernelSpec KernelProofs KernelInv Machine ProgramLogic MachineInv.
From S2P Require Import Common Process Memory Network File Convert ConvertSpec Runtime RuntimeProofs.
From S2P Require Import KernelTheorems Attach AttachSpec AttachTheorems System Delivery Object Steps.

#[local] Open Scope Z_scope.

(** ** What was agreed with the subscribers *)

(** The filters of the subscriptions. *)
Record Filters_of := {
  fo_network : option NetworkFilter;
  fo_process : option ProcessFilter;
  fo_file : option FileFilter;
  fo_mem : option MemoryFilter;
}.

Definition filters_of {B T R Ch} (s : Bpfx B T R Ch) : Filters_of := {|
  fo_network := nr_filter <$> network s;
  fo_process := pr_filter <$> process s;
  fo_file := fr_filter <$> file s;
  fo_mem := mr_filter <$> mem_reg s;
|}.

(** The type bit of a file record is selected by the filter. *)
Definition selects (f : FileFilter) (m : FileModeFilter) : Prop :=
  mode m ∈ type_bits ∧ mode m ≠ 0 ∧
  Z.land (mode (FileModeFilter_from (ff_file_mode f))) (mode m) = mode m.

(** A record that one of the subscriptions asked for.  The return record of a
    rename and the record of an unmap are not filtered by process. *)
Definition agreed (F : Filters_of) (e : RawEvent) : Prop :=
  match e with
  | RawNet n => ∃ f, fo_network F = Some f ∧ network_covers f e ∧
      key_matches (nf_filter f) (raw_header e) ∧
      ∃ p, net_class p = Some (pc_protocol n, rh_event_type (pc_header n))
  | RawStart _ | RawExit _ | RawFork _ => ∃ f, fo_process F = Some f ∧ process_covers f e ∧
      key_matches (pf_filter f) (raw_header e)
  | RawOpen _ | RawClose _ | RawRead _ | RawWrite _ | RawDelete _ | RawRename _ =>
      ∃ f, fo_file F = Some f ∧ file_covers f e ∧ key_matches (ff_filter f) (raw_header e) ∧
      ∃ m, raw_file_mode e = Some m ∧ selects f m
  | RawRtr _ => ∃ f, fo_file F = Some f ∧ file_covers f e
  | RawMap _ => ∃ f, fo_mem F = Some f ∧ mem_covers f e ∧ key_matches (mf_filter f) (raw_header e)
  | RawUnmap _ => ∃ f, fo_mem F = Some f ∧ mem_covers f e
  end.

(** A program of one of the plans. *)
Definition planned (F : Filters_of) (p : Probe) : Prop :=
  (∃ f, fo_network F = Some f ∧ p ∈ network_plan f) ∨
  (∃ f, fo_process F = Some f ∧ p ∈ process_plan f) ∨
  (∃ f, fo_file F = Some f ∧ p ∈ file_plan f) ∨
  (∃ f, fo_mem F = Some f ∧ p ∈ mem_plan f).

(** [F'] has the subscriptions of [F], and maybe others. *)
Definition extends (F F' : Filters_of) : Prop :=
  (∀ f, fo_network F = Some f → fo_network F' = Some f) ∧
  (∀ f, fo_process F = Some f → fo_process F' = Some f) ∧
  (∀ f, fo_file F = Some f → fo_file F' = Some f) ∧
  (∀ f, fo_mem F = Some f → fo_mem F' = Some f).

Lemma agreed_extends F F' e : extends F F' → agreed F e → agreed F' e.
Proof.
  intros (Hn & Hp & Hf & Hm) He.
  destruct e; destruct He as (f & Hfo & He); exists f; (split; [auto|exact He]).
Qed.

(** *** Combining filters *)

(** The agreement with a single subscriber. *)
Definition one_network (f : NetworkFilter) : Filters_of :=
  {| fo_network := Some f; fo_process := None; fo_file := None; fo_mem := None |}.
Definition one_process (f : ProcessFilter) : Filters_of :=
  {| fo_network := None; fo_process := Some f; fo_file := None; fo_mem := None |}.
Definition one_file (f : FileFilter) : Filters_of :=
  {| fo_network := None; fo_process := None; fo_file := Some f; fo_mem := None |}.
Definition one_mem (f : MemoryFilter) : Filters_of :=
  {| fo_network := None; fo_process := None; fo_file := None; fo_mem := Some f |}.

(** The kinds of the filter [g] for the processes (and the protocols, and the
    types of file) of the filter [f]. *)
Definition network_like (f g : NetworkFilter) : NetworkFilter :=
  {| nf_protocol_mask := nf_protocol_mask f; nf_event_mask := nf_event_mask g; nf_filter := nf_filter f |}.
Definition process_like (f g : ProcessFilter) : ProcessFilter :=
  {| pf_mask := pf_mask g; pf_filter := pf_filter f |}.
Definition file_like (f g : FileFilter) : FileFilter :=
  {| ff_event_type := ff_event_type g; ff_file_mode := ff_file_mode f; ff_filter := ff_filter f |}.
Definition mem_like (f g : MemoryFilter) : MemoryFilter :=
  {| mf_mask := mf_mask g; mf_filter := mf_filter f |}.

(** Each kind is one bit of its mask. *)
Lemma network_mask_of_bit t m :
  network_mask_of t = Some m → ∃ k, 0 ≤ k ∧ network_mask m = 2 ^ k.
Proof.
  destruct t; simpl; intros; simplify_eq;
    [by exists 0|by exists 1|by exists 2|by exists 3|by exists 4].
Qed.

Lemma network_covers_bitor f g e :
  network_covers (NetworkFilter_bitor f g) e ↔ network_covers f e ∨ network_covers (network_like f g) e.
Proof.
  destruct e as [n| | | | | | | | | | | |]; simpl; try tauto. split.
  - intros (m & Hm & He & Hp). destruct (network_mask_of_bit _ _ Hm) as (k & Hk & Hb).
    rewrite (NetworkMask_contains_bitor _ _ _ k), orb_true_iff in He by done.
    destruct He; [left|right]; by exists m.
  - intros [(m & Hm & He & Hp)|(m & Hm & He & Hp)]; exists m; (split_and!; [done| |done]);
      destruct (network_mask_of_bit _ _ Hm) as (k & Hk & Hb);
      rewrite (NetworkMask_contains_bitor _ _ _ k), orb_true_iff by done; tauto.
Qed.

Lemma process_covers_bitor f g e :
  process_covers (ProcessFilter_bitor f g) e ↔ process_covers f e ∨ process_covers (process_like f g) e.
Proof.
  destruct e; simpl; try tauto;
    [rewrite (ProcessMask_contains_bitor _ _ _ 0)|rewrite (ProcessMask_contains_bitor _ _ _ 2)
    |rewrite (ProcessMask_contains_bitor _ _ _ 1)]; try done; by rewrite orb_true_iff.
Qed.

Lemma mem_covers_bitor f g e :
  mem_covers (MemoryFilter_bitor f g) e ↔ mem_covers f e ∨ mem_covers (mem_like f g) e.
Proof.
  destruct e; simpl; try tauto;
    [rewrite (MemoryMask_contains_bitor _ _ _ 0)|rewrite (MemoryMask_contains_bitor _ _ _ 1)];
    try done; by rewrite orb_true_iff.
Qed.

Lemma file_covers_bitor f g e :
  file_covers (FileFilter_bitor f g) e ↔ file_covers f e ∨ file_covers (file_like f g) e.
Proof.
  destruct e; simpl; try tauto;
    [rewrite (FileMask_contains_bitor _ _ _ 0)|rewrite (FileMask_contains_bitor _ _ _ 1)
    |rewrite (FileMask_contains_bitor _ _ _ 2)|rewrite (FileMask_contains_bitor _ _ _ 3)
    |rewrite (FileMask_contains_bitor _ _ _ 4)|rewrite (FileMask_contains_bitor _ _ _ 5)
    |rewrite (FileMask_contains_bitor _ _ _ 5)]; try done; by rewrite orb_true_iff.
Qed.

Lemma one_filter {F} (f : F) (P : F → Prop) : (∃ g, Some f = Some g ∧ P g) ↔ P f.
Proof. split; [by intros (g & [= <-] & Hg)|by exists f]. Qed.

(** The records of one kind: of the filter at hand, or of no subscriber. *)
Ltac by_kind :=
  simpl in *; rewrite ?one_filter;
  try (split; [intros (? & ? & _)|intros [(? & ? & _)|(? & ? & _)]]; done);
  unfold selects in *; simpl; tauto.

(** (C30) What the combination [f | g] of two filters asks for: what [f] asks
    for, and the kinds of [g], but for the processes of [f], for a network also
    the protocols of [f], for files also the types of file of [f].  It is not
    the union: with [START] of process 1 and [EXIT] of process 2 no exit of
    process 2 is asked for but the exits of process 1 are, which neither filter
    asked for, and [OPEN] of regular files with [OPEN] of directories asks for
    what the first of them does. *)
Theorem filter_union n1 n2 p1 p2 f1 f2 m1 m2 e :
  (agreed (one_network (NetworkFilter_bitor n1 n2)) e
   ↔ agreed (one_network n1) e ∨ agreed (one_network (network_like n1 n2)) e) ∧
  (agreed (one_process (ProcessFilter_bitor p1 p2)) e
   ↔ agreed (one_process p1) e ∨ agreed (one_process (process_like p1 p2)) e) ∧
  (agreed (one_file (FileFilter_bitor f1 f2)) e
   ↔ agreed (one_file f1) e ∨ agreed (one_file (file_like f1 f2)) e) ∧
  (agreed (one_mem (MemoryFilter_bitor m1 m2)) e
   ↔ agreed (one_mem m1) e ∨ agreed (one_mem (mem_like m1 m2)) e) ∧
  (let start := {| pf_mask := ProcessMask_START; pf_filter := FilterKey_Pid 1 |} in
   let exit := {| pf_mask := ProcessMask_EXIT; pf_filter := FilterKey_Pid 2 |} in
   ∀ x, ¬ agreed (one_process start) (RawExit x) ∧
        (agreed (one_process exit) (RawExit x) ↔ rh_pid (raw_header (RawExit x)) = 2) ∧
        (agreed (one_process (ProcessFilter_bitor start exit)) (RawExit x)
         ↔ rh_pid (raw_header (RawExit x)) = 1)) ∧
  (let opens t := {| ff_event_type := FileMask_OPEN; ff_file_mode := t; ff_filter := FilterKey_None |} in
   let reg := opens FileTypeFilter_FILE_REG in
   let dir := opens FileTypeFilter_FILE_DIR in
   ∀ o, agreed (one_file (FileFilter_bitor reg dir)) (RawOpen o) ↔ agreed (one_file reg) (RawOpen o)).
Proof.
  pose proof (network_covers_bitor n1 n2 e) as Hn. pose proof (process_covers_bitor p1 p2 e) as Hp.
  pose proof (file_covers_bitor f1 f2 e) as Hf. pose proof (mem_covers_bitor m1 m2 e) as Hm.
  split_and!.
  - destruct e; by_kind.
  - destruct e; by_kind.
  - destruct e; by_kind.
  - destruct e; by_kind.
  - intros start exit x. simpl. rewrite !one_filter. simpl. split; [by intros []|]. naive_solver.
  - intros opens reg dir o. simpl. rewrite !one_filter. done.
Qed.

Section maps.
Context {R H : Type} {M : Type → Type} `{RingBufLaws R H, BpfMapLaws M}.
Implicit Types k : KState R M.

(** The filter maps hold what the filters say. *)
Definition filter_ok (F : Filters_of) (fm : M FilterKey) : Prop :=
  (∀ f, fo_network F = Some f →
     bm_get fm (FilterOwner_repr FilterOwner_Network) = Some (nf_filter f)) ∧
  (∀ f, fo_process F = Some f →
     bm_get fm (FilterOwner_repr FilterOwner_Process) = Some (pf_filter f)) ∧
  (∀ f, fo_file F = Some f →
     bm_get fm (FilterOwner_repr FilterOwner_File) = Some (ff_filter f)) ∧
  (∀ f, fo_mem F = Some f →
     bm_get fm (FilterOwner_repr FilterOwner_Memory) = Some (mf_filter f)).

Definition config_ok (F : Filters_of) (c : M FileModeFilter) : Prop :=
  ∀ f, fo_file F = Some f → bm_get c 0 = Some (FileModeFilter_from (ff_file_mode f)).

Lemma filter_ok_extends F F' fm : extends F F' → filter_ok F' fm → filter_ok F fm.
Proof. intros (Hn & Hp & Hf & Hm) (Kn & Kp & Kf & Km). split_and!; auto. Qed.

Lemma config_ok_extends F F' c : extends F F' → config_ok F' c → config_ok F c.
Proof. intros (_ & _ & Hf & _) Hc f. auto. Qed.

Definition maps_ok (F : Filters_of) : MapInv M := filters_inv (filter_ok F) (config_ok F).

Lemma maps_ok_extends F F' : extends F F' → narrows (maps_ok F') (maps_ok F).
Proof.
  intros HF. split_and!; simpl; intros; [by eapply filter_ok_extends|by eapply config_ok_extends].
Qed.

Lemma owner_key k p env e owner key :
  probe_event p env k = Some e → probe_owner p = Some owner →
  bm_get (FILTER k) (FilterOwner_repr owner) = Some key → key_matches key (raw_header e).
Proof.
  intros He Ho Hk. apply key_drops_spec. eapply probe_event_filter in He; [|done].
  unfold dropped in He. by rewrite Hk in He.
Qed.

(** A program of a plan, run on such maps, only adds what was agreed. *)
Lemma planned_agreed F k p env e :
  planned F p → filter_ok F (FILTER k) → config_ok F (CONFIG k) →
  probe_event p env k = Some e → agreed F e.
Proof.
  intros Hpl (Hn & Hp & Hf & Hm) Hc He. pose proof (probe_event_struct _ _ _ _ He) as Hs.
  destruct Hpl as [(f & Hfo & Hpl)|[(f & Hfo & Hpl)|[(f & Hfo & Hpl)|(f & Hfo & Hpl)]]].
  - apply (network_plan_probe _ _ _ _ _ He) in Hpl. destruct e as [n| | | | | | | | | | | |]; try done.
    exists f. split_and!; [done|done| |].
    + eapply owner_key; [exact He| |by apply Hn]. by destruct p.
    + exists p. by apply probe_event_class in He.
  - apply (process_plan_probe _ _ _ _ _ He) in Hpl.
    destruct e; try done; exists f; (split_and!; [done|done|]);
      (eapply owner_key; [exact He| |by apply Hp]); by destruct p.
  - apply (file_plan_probe _ _ _ _ _ He) in Hpl. pose proof (Hf f Hfo) as Hk. specialize (Hc f Hfo).
    assert (Hsel : ∀ m, raw_file_mode e = Some m → selects f m).
    { intros m Hr. destruct (probe_event_mode _ _ _ _ _ He Hr) as (im & Hsel).
      destruct (selected_type_config _ _ _ Hsel) as (config & Hc' & Hz & Hb).
      rewrite Hc in Hc'. injection Hc' as <-. destruct (type_bit_land _ _ Hb Hz). by split_and!. }
    destruct e; try done; exists f; (split; [done|]); try exact Hpl; (split; [exact Hpl|]);
      (split; [|by eexists; eauto]); (eapply owner_key; [exact He| |exact Hk]); by destruct p.
  - apply (mem_plan_probe _ _ _ _ _ He) in Hpl.
    destruct e; try done; exists f; (split_and!; try done).
    eapply owner_key; [exact He| |by apply Hm]. by destruct p.
Qed.
End maps.

(** ** Sessions *)

Section session.
Context {B T R H : Type} {M Ch : Type → Type} {X : Type}.
Context `{EbpfLaws B T X, RingBufLaws R H, BpfMapLaws M, ChannelLaws Ch}.
Implicit Types s : Bpfx B T R Ch.
Implicit Types k : KState R M.
Implicit Types l : loop_state B T R Ch X.

(** The maps of the kernel are those of the object. *)
Definition kernel_of k (b : B) : Prop :=
  (∀ i, bm_get (FILTER k) i = ev_filter b !! i) ∧ (∀ i, bm_get (CONFIG k) i = ev_config b !! i).

(** [subscribe] writes to the filter maps only. *)
Definition map_writes k k' (b : B) : Prop :=
  kernel_of k' b ∧ EVENTS k' = EVENTS k ∧ TEMP k' = TEMP k ∧
  FILE_PATH_MAP k' = FILE_PATH_MAP k ∧ PATH_BUF k' = PATH_BUF k.

(** The machine and the [Bpfx]; while [subscribe] is running also the objects
    that it still leads through, and the [Bpfx] that it is going to leave. *)
Abbreviation session_state := (Machine R H M * Bpfx B T R Ch * option (list B * Bpfx B T R Ch))%type.

Inductive session_step : session_state → session_state → Prop :=
| SessProgram m m' s w :
    mstep (fun p _ => attached_of (bpf s) p) m m' →
    session_step (m, s, w) (m', set_ringbuf (EVENTS (kernel m')) s, w)
| SessNetwork f m s s' :
    network s = None → NetworkFilter_subscribe f s = (Ok tt, s') →
    session_step (m, s, None)
      (m, s, Some (object_states (attach_network_probe f) (btf s) (bpf s), s'))
| SessProcess f m s s' :
    process s = None → ProcessFilter_subscribe f s = (Ok tt, s') →
    session_step (m, s, None)
      (m, s, Some (object_states (attach_process_probe f) (btf s) (bpf s), s'))
| SessFile f m s s' :
    file s = None → FileFilter_subscribe f s = (Ok tt, s') →
    session_step (m, s, None)
      (m, s, Some (object_states (attach_file_probe f) (btf s) (bpf s), s'))
| SessMem f m s s' :
    mem_reg s = None → MemoryFilter_subscribe f s = (Ok tt, s') →
    session_step (m, s, None)
      (m, s, Some (object_states (attach_mem_probe f) (btf s) (bpf s), s'))
| SessObject b rest m k s s' :
    map_writes (kernel m) k b →
    session_step (m, s, Some (b :: rest, s')) (with_kernel k m, set_bpf b s, Some (rest, s'))
| SessReturn m s s' :
    session_step (m, s, Some ([], s')) (m, set_ringbuf (ringbuf s) s', None).

(** What [Bpfx::new] returns, next to the maps of the kernel; no program runs. *)
Definition session_start (x : Machine R H M * Bpfx B T R Ch) : Prop :=
  fresh_object (bpf x.2) ∧ kernel_of (kernel x.1) (bpf x.2) ∧ ringbuf x.2 = EVENTS (kernel x.1) ∧
  threads x.1 = [] ∧ rb_slots (EVENTS (kernel x.1)) = [] ∧ maps_wf (kernel x.1) ∧
  pending_renames x.2 = ∅ ∧
  network x.2 = None ∧ process x.2 = None ∧ file x.2 = None ∧ mem_reg x.2 = None.

(** No [subscribe] is running. *)
Definition session (x : Machine R H M * Bpfx B T R Ch) : Prop :=
  ∃ x0, session_start x0 ∧ rtc session_step (x0, None) (x, None).

(** Programs, and the objects of a subscription when [sync] writes to the maps of
    the kernel what they say. *)
Lemma session_programs m m' s w :
  rtc (mstep (fun p _ => attached_of (bpf s) p)) m m' → ringbuf s = EVENTS (kernel m) →
  rtc session_step (m, s, w) (m', set_ringbuf (EVENTS (kernel m')) s, w).
Proof.
  intros Hs Hr. assert (Hall : ∀ r, rtc session_step (m, set_ringbuf r s, w) (m', set_ringbuf (EVENTS (kernel m')) s, w)
    ∨ m = m').
  { clear Hr. induction Hs as [m|m m1 m' Hs _ IH]; intros r; [by right|]. left.
    eapply rtc_l; [by apply (SessProgram m m1 (set_ringbuf r s))|].
    destruct (IH (EVENTS (kernel m1))) as [IH'| ->]; [exact IH'|done]. }
  destruct (Hall (ringbuf s)) as [Hx| ->]; [by destruct s|]. rewrite <- Hr. by destruct s.
Qed.

Lemma session_objects (sync : KState R M → B → KState R M) (l rest : list B) m s s' :
  (∀ k b, map_writes k (sync k b) b) →
  rtc session_step (m, s, Some (l ++ rest, s'))
    (with_kernel (foldl sync (kernel m) l) m, foldl (fun s b => set_bpf b s) s l, Some (rest, s')).
Proof.
  intros Hsync. revert m s. induction l as [|b l IH]; intros m s; [by destruct m|].
  eapply rtc_l; [by apply (SessObject b (l ++ rest) m (sync (kernel m) b))|].
  apply (IH (with_kernel (sync (kernel m) b) m) (set_bpf b s)).
Qed.

(** A subscription with nothing in between. *)
Lemma session_alone (sync : KState R M → B → KState R M) m s (l : list B) s' :
  (∀ k b, map_writes k (sync k b) b) → session (m, s) →
  session_step (m, s, None) (m, s, Some (l, s')) → ringbuf s' = ringbuf s →
  session (with_kernel (foldl sync (kernel m) l) m, s').
Proof.
  intros Hsync (x0 & Hx0 & Hx) Hb Hr. exists x0. split; [done|]. etrans; [exact Hx|].
  eapply rtc_l; [exact Hb|]. pose proof (session_objects sync l [] m s s' Hsync) as Ho.
  rewrite app_nil_r in Ho. etrans; [exact Ho|]. apply rtc_once.
  assert (Hring : ringbuf (foldl (fun s b => set_bpf b s) s l) = ringbuf s').
  { rewrite Hr. clear. revert s. induction l as [|b l IH]; intros s; [done|]. apply (IH (set_bpf b s)). }
  pose proof (SessReturn (with_kernel (foldl sync (kernel m) l) m) (foldl (fun s b => set_bpf b s) s l) s') as Hs.
  rewrite Hring in Hs. by destruct s'.
Qed.

(** *** Construction *)

(** What aya and its logger do while [Bpfx] is built: the object is new, and
    taking the ring buffer out of it leaves the rest alone. *)
Class LoaderLaws (ld : Loader B T R X) : Prop := {
  load_fresh : ∀ b, ebpf_load ld = inl b → fresh_object b;
  logger_same : ∀ b, same_object b (logger_init ld b);
  take_map_same : ∀ b r b', take_map ld b = Some (r, b') → same_object b b';
}.

(** [e] is the error of the first step of the construction that fails. *)
Definition construction_error (ld : Loader B T R X) (init : B → B) (e : Error X) : Prop :=
  (∃ x, ebpf_load ld = inr x ∧ e = Error_Load x) ∨
  ∃ b, ebpf_load ld = inl b ∧
    ((∃ x, btf_from_sys_fs ld = inr x ∧ e = Error_Btf x) ∨
     ∃ t, btf_from_sys_fs ld = inl t ∧
       ((take_map ld (init b) = None ∧ e = Error_EventsMapAccess) ∨
        ∃ x b', take_map ld (init b) = Some (inr x, b') ∧ e = Error_Map x)).

Lemma with_config_from_run ld init c r :
  LoaderLaws ld → (∀ b, same_object b (init b)) → with_config_from (Ch := Ch) ld init c = r →
  match r with
  | Ok s => fresh_object (bpf s) ∧ s = fresh (bpf s) (btf s) (ringbuf s) c
  | Err e => construction_error ld init e
  | Panic | UB => False
  end.
Proof.
  intros Hld Hinit <-. unfold with_config_from, construction_error.
  destruct (ebpf_load ld) as [b|x] eqn:Hb; [|by left; exists x].
  destruct (btf_from_sys_fs ld) as [t|x] eqn:Ht; [|by right; exists b; split; [|left; exists x]].
  destruct (take_map ld (init b)) as [[[ring|x] b']|] eqn:Hm.
  - split; [|done]. simpl. apply load_fresh in Hb as (Hf & Hc & Hl & Ha).
    apply take_map_same in Hm as (Hf2 & Hc2 & Hl2 & Ha2).
    destruct (Hinit b) as (Hf1 & Hc1 & Hl1 & Ha1). unfold fresh_object. split_and!; congruence.
  - right. exists b. split; [done|]. right. exists t. split; [done|]. right. by exists x, b'.
  - right. exists b. split; [done|]. right. exists t. split; [done|]. by left.
Qed.

(** (C26) A constructed runtime starts a session: nothing is subscribed, attached or
    pending and the configured capacity is kept ([new] takes 1024), so that,
    with the maps of the loaded object in the kernel and no record yet, the
    guarantees of sessions hold from there.  A constructor that fails returns
    the error of the first step that failed, and never panics. *)
Theorem construction ld c k :
  LoaderLaws ld →
  (match Bpfx_with_config (Ch := Ch) ld c with
   | Ok s =>
       config s = c ∧
       (kernel_of k (bpf s) → EVENTS k = ringbuf s → rb_slots (EVENTS k) = [] → maps_wf k →
        session_start (mkMachine k [], s))
   | Err e => construction_error ld id e
   | Panic | UB => False
   end) ∧
  (match Bpfx_new (Ch := Ch) ld with
   | Ok s =>
       config s = BpfxConfig_default ∧
       (kernel_of k (bpf s) → EVENTS k = ringbuf s → rb_slots (EVENTS k) = [] → maps_wf k →
        session_start (mkMachine k [], s))
   | Err e => construction_error ld (logger_init ld) e
   | Panic | UB => False
   end).
Proof.
  intros Hld.
  pose proof (with_config_from_run ld id c _ Hld (fun b => same_object_refl b) eq_refl) as Hc.
  pose proof (with_config_from_run ld (logger_init ld) BpfxConfig_default _ Hld logger_same eq_refl) as Hn.
  unfold Bpfx_with_config, Bpfx_new. fold BpfxConfig_default. split.
  - destruct (with_config_from ld id c) as [s| | |]; try done. destruct Hc as [Hf Hs].
    split; [by rewrite Hs|]. intros Hk Hr Hi Hm. split_and!; try done; by rewrite Hs.
  - destruct (with_config_from ld (logger_init ld) BpfxConfig_default) as [s| | |]; try done.
    destruct Hn as [Hf Hs]. split; [by rewrite Hs|].
    intros Hk Hr Hi Hm. split_and!; try done; by rewrite Hs.
Qed.

(** *** Its invariant *)

Record session_inv (x : Machine R H M * Bpfx B T R Ch) : Prop := {
  si_kernel : kernel_of (kernel x.1) (bpf x.2);
  si_ring : ringbuf x.2 = EVENTS (kernel x.1);
  si_pending : pending_renames x.2 = ∅;
  si_channels : new_channels x.2;
  si_planned : ∀ p, attached_of (bpf x.2) p ↔ planned (filters_of x.2) p;
  si_machine : machine_inv (maps_ok (filters_of x.2)) (agreed (filters_of x.2)) x.1;
}.

Lemma session_start_inv x : session_start x → session_inv x.
Proof.
  destruct x as [[k ts] s].
  intros ((Hf & Hc & _ & Ha) & Hk & Hr & Ht & Hs & Hm & Hp & Hn & Hpr & Hfi & Hme).
  simpl in *. subst ts. split; simpl; try done.
  - split_and!; intros ? Heq; congruence.
  - intros p. unfold attached_of, planned, filters_of. rewrite Ha, Hn, Hpr, Hfi, Hme. simpl. set_solver.
  - apply machine_inv_start; [|done]. unfold filters_of. rewrite Hn, Hpr, Hfi, Hme.
    by split_and!.
Qed.

(** A program of a plan owes what was agreed. *)
Lemma planned_owes F p env (v : KState R seen) e :
  planned F p → view_ok (maps_ok F) v → probe_event p env v = Some e → agreed F e.
Proof.
  intros Hp (_ & (f & Hf & Hfv) & (c & Hc & Hcv)). apply (planned_agreed F v); [done| |].
  - rewrite Hfv. exact Hf.
  - rewrite Hcv. exact Hc.
Qed.

(** The object is in step with the filters [F]: only programs of their plans are
    attached, and FILTER and CONFIG hold what they say. *)
Definition object_ok (F : Filters_of) (b : B) : Prop :=
  (∀ p, attached_of b p → planned F p) ∧
  filter_ok (M := seen) F (fun i => ev_filter b !! i) ∧
  config_ok (M := seen) F (fun i => ev_config b !! i).

Record running (F : Filters_of) m s : Prop := {
  rn_kernel : kernel_of (kernel m) (bpf s);
  rn_ring : ringbuf s = EVENTS (kernel m);
  rn_object : object_ok F (bpf s);
  rn_machine : machine_inv (maps_ok F) (agreed F) m;
}.

Lemma session_running m s : session_inv (m, s) → running (filters_of s) m s.
Proof.
  intros [Hk Hr Hp Hch Hpl Hm]. simpl in *. split; try done.
  pose proof (mi_kernel _ _ _ Hm) as (_ & (Hn & Hpr & Hf & Hme) & Hc). destruct Hk as [Hkf Hkc].
  split; [by intros p ?%Hpl|]. split.
  - split_and!; intros f Hfo; simpl; rewrite <- Hkf; auto.
  - intros f Hfo. simpl. rewrite <- Hkc. by apply Hc.
Qed.

Lemma running_program F m m' s :
  mstep (fun p _ => attached_of (bpf s) p) m m' → running F m s →
  running F m' (set_ringbuf (EVENTS (kernel m')) s).
Proof.
  intros Hs [Hk Hring Hob Hm]. destruct (mstep_filters _ _ _ Hs) as [Hf Hc]. split; simpl; try done.
  - unfold kernel_of. by rewrite Hf, Hc.
  - eapply mstep_inv; [|exact Hs|exact Hm]. intros p env v e Hat _ Hv He.
    eapply planned_owes; [by apply Hob|exact Hv|exact He].
Qed.

Lemma object_ok_maps F k b :
  object_ok F b → kernel_of k b → filter_ok F (FILTER k) ∧ config_ok F (CONFIG k).
Proof.
  intros (_ & (Hn & Hpr & Hf & Hme) & Hc) [Hkf Hkc]. split.
  - split_and!; intros f Hfo; rewrite Hkf; auto.
  - intros f Hfo. rewrite Hkc. by apply Hc.
Qed.

(** The next object of a subscription, which is in step with the same filters or
    with more. *)
Lemma running_object F F' m k s b :
  extends F F' → object_ok F' b → map_writes (kernel m) k b → running F m s →
  running F' (with_kernel k m) (set_bpf b s).
Proof.
  intros HF Hb (Hk' & Hev & Ht & Hfp & Hpb) [Hk Hr _ Hm]. destruct (object_ok_maps _ _ _ Hb Hk') as [Hf' Hc'].
  split; simpl; [done|by rewrite Hev|done|]. eapply machine_inv_write; [..|exact Hm].
  - by apply maps_ok_extends.
  - intros e. by apply agreed_extends.
  - pose proof (mi_kernel _ _ _ Hm) as (Hmw & _). split; [|done].
    unfold maps_wf in *. by rewrite Ht, Hfp, Hpb.
  - done.
Qed.

(** While [subscribe] is running: the objects in [l1] are in step with the
    filters before it, those in [l2] with the filters after it. *)
Record subscribing_inv m s (rest : list B) (s' : Bpfx B T R Ch) : Prop := {
  su_extends : extends (filters_of s) (filters_of s');
  su_pending : pending_renames s' = ∅;
  su_channels : new_channels s';
  su_planned : ∀ p, attached_of (bpf s') p ↔ planned (filters_of s') p;
  su_last : list.last (bpf s :: rest) = Some (bpf s');
  su_objects : ∃ l1 l2 : list B, rest = l1 ++ l2 ∧
    Forall (object_ok (filters_of s)) l1 ∧ Forall (object_ok (filters_of s')) l2 ∧
    (running (filters_of s) m s ∧ l2 ≠ [] ∨ running (filters_of s') m s ∧ l1 = []);
}.

Definition state_inv (x : session_state) : Prop :=
  match x with
  | (m, s, None) => session_inv (m, s)
  | (m, s, Some (rest, s')) => subscribing_inv m s rest s'
  end.

Lemma extends_refl F : extends F F.
Proof. by split_and!. Qed.

Lemma subscribing_object m k s b rest s' :
  map_writes (kernel m) k b → subscribing_inv m s (b :: rest) s' →
  subscribing_inv (with_kernel k m) (set_bpf b s) rest s'.
Proof.
  intros Hw [Hext Hp Hch Hpl Hlast (l1 & l2 & Hl & Ho1 & Ho2 & Hr)]. split; try done.
  destruct l1 as [|b1 l1]; simpl in Hl.
  - destruct l2 as [|b2 l2]; [done|]. injection Hl as <- ->. inversion Ho2 as [|?? Hb Ho2']; subst.
    exists [], l2. split_and!; [done|done|done|]. right. split; [|done].
    destruct Hr as [[Hr _]|[Hr _]]; [by apply (running_object (filters_of s))|].
    apply (running_object (filters_of s')); [apply extends_refl|done..].
  - injection Hl as <- ->. inversion Ho1 as [|?? Hb Ho1']; subst. exists l1, l2.
    split_and!; [done|done|done|]. destruct Hr as [[Hr Hne]|[_ Hno]]; [|done]. left. split; [|done].
    apply (running_object (filters_of s)); [apply extends_refl|done..].
Qed.

Lemma subscribing_return m s s' :
  subscribing_inv m s [] s' → session_inv (m, set_ringbuf (ringbuf s) s').
Proof.
  intros [Hext Hp Hch Hpl Hlast (l1 & l2 & Hl & _ & _ & Hr)].
  apply eq_sym, app_eq_nil in Hl as [-> ->]. destruct Hr as [[_ ?]|[[Hk Hring Hob Hm] _]]; [done|].
  simpl in Hlast. injection Hlast as Hb. split; simpl; try done. by rewrite <- Hb.
Qed.

(** The entry of one owner is written, the entries of the others stay. *)
Lemma written_lookup o key cfg (b b' : B) i :
  written o key cfg b b' →
  ev_filter b' !! i = if decide (FilterOwner_repr o = i) then Some key else ev_filter b !! i.
Proof. intros [-> _]. rewrite lookup_insert. by case_decide. Qed.

Lemma written_config o key cfg (b b' : B) :
  written o key cfg b b' →
  ev_config b' !! 0 = match cfg with Some c => Some c | None => ev_config b !! 0 end.
Proof. intros [_ ->]. destruct cfg; [by rewrite lookup_insert_eq|done]. Qed.

(** A [subscribe] that succeeds, at its start. *)
Lemma subscribing_start o key cfg plan m s s' (l : list B) :
  session_inv (m, s) → subscription_states o key cfg plan (bpf s) l (bpf s') →
  ev_attached (bpf s') = ev_attached (bpf s) ∪ names plan →
  extends (filters_of s) (filters_of s') →
  (∀ p, planned (filters_of s') p ↔ planned (filters_of s) p ∨ p ∈ plan) →
  pending_renames s' = pending_renames s → new_channels s' →
  (∀ b, object_ok (filters_of s) (bpf s) → cfg ≠ None → wrote_filter o key (bpf s) b →
        object_ok (filters_of s) b) →
  (∀ b, object_ok (filters_of s) (bpf s) → written o key cfg (bpf s) b →
        filter_ok (M := seen) (filters_of s') (fun i => ev_filter b !! i) ∧
        config_ok (M := seen) (filters_of s') (fun i => ev_config b !! i)) →
  subscribing_inv m s l s'.
Proof.
  intros Hi (l1 & l2 & -> & Hlast & Ho1 & Ho2) Hat Hext Hplan Hpend Hch Hhalf Hfull.
  pose proof (session_running _ _ Hi) as Hr. pose proof (rn_object _ _ _ Hr) as Hob. split.
  - done.
  - rewrite Hpend. apply (si_pending _ Hi).
  - done.
  - intros p. unfold attached_of. rewrite Hat, elem_of_union, elem_of_names, Hplan.
    by rewrite <- (si_planned _ Hi).
  - rewrite last_cons, last_app, Hlast. done.
  - exists l1, l2. split; [done|]. split; [|split].
    + eapply Forall_impl; [|exact Ho1]. intros b [? ?]. by apply Hhalf.
    + eapply Forall_impl; [|exact Ho2]. intros b [Hw Ha]. split; [|by apply Hfull].
      intros p Hp%Ha. apply Hplan. apply elem_of_union in Hp as [Hp|Hp]; [left|right].
      * by apply Hob.
      * by apply elem_of_names.
    + left. split; [done|]. by destruct l2.
Qed.

(** The four kinds differ in their names only. *)
Ltac subscribed_case Hrun effect sts :=
  destruct Hrun as [[? _]|(c & b' & Hc & Ha & ->)]; [done|];
  pose proof (sts _ _ _ _ Ha) as Hsts; apply effect in Ha;
  destruct (ae_ok _ _ _ _ _ _ _ Ha eq_refl) as (_ & Hat & _ & _);
  apply ch_channel_new in Hc as (Hc & _ & _);
  match goal with Hi : session_inv _ |- _ => pose proof (si_channels _ Hi) as (?&?&?&?) end;
  eapply subscribing_start; [done|exact Hsts|exact Hat|..]; try done.
Ltac plan_case Hnone :=
  intros p; unfold planned, filters_of; simpl; rewrite Hnone; naive_solver.
Ltac entries_case :=
  intros b (_ & (Hn & Hp & Hf & Hm) & Hc') Hw; unfold filter_ok, config_ok, filters_of in *; simpl in *;
  rewrite ?(written_config _ _ _ _ _ Hw); split_and!; intros f' Hf';
  rewrite ?(written_lookup _ _ _ _ _ _ Hw); simplify_eq/=; auto.

Lemma state_step_inv x y : state_inv x → session_step x y → state_inv y.
Proof.
  intros Hi Hs. destruct Hs as [m m' s w Hs|f m s s' Hnone Hrun|f m s s' Hnone Hrun|f m s s' Hnone Hrun
    |f m s s' Hnone Hrun|b rest m k s s' Hw|m s s']; simpl in Hi |- *.
  - destruct w as [[rest s']|].
    + destruct Hi as [Hext Hp Hch Hpl Hlast (l1 & l2 & Hl & Ho1 & Ho2 & Hr)]. split; try done.
      exists l1, l2. split_and!; try done.
      destruct Hr as [[Hr ?]|[Hr ?]]; [left|right]; (split; [|done]); by apply (running_program _ m).
    + pose proof (running_program _ _ _ _ Hs (session_running _ _ Hi)) as [Hk Hr _ Hm].
      destruct Hi as [_ _ Hp Hch Hpl _]. by split.
  - apply network_subscribe_run in Hrun. subscribed_case Hrun (@attach_network_effect B T X _ _ _) (@network_states B T X _ _ _).
    + unfold filters_of, extends. simpl. rewrite Hnone. by split_and!.
    + plan_case Hnone.
    + split_and!; simpl; try done. by intros n [= <-].
    + entries_case.
  - apply process_subscribe_run in Hrun. subscribed_case Hrun (@attach_process_effect B T X _ _ _) (@process_states B T X _ _ _).
    + unfold filters_of, extends. simpl. rewrite Hnone. by split_and!.
    + plan_case Hnone.
    + split_and!; simpl; try done. by intros n [= <-].
    + entries_case.
  - apply file_subscribe_run in Hrun. subscribed_case Hrun (@attach_file_effect B T X _ _ _) (@file_states B T X _ _ _).
    + unfold filters_of, extends. simpl. rewrite Hnone. by split_and!.
    + plan_case Hnone.
    + split_and!; simpl; try done. by intros n [= <-].
    + intros b (Hat' & (Hn & Hp & Hf & Hm) & Hc') _ (Hwf & Hwc & _ & Hwa). split_and!.
      * intros p. unfold attached_of. rewrite Hwa. apply Hat'.
      * unfold filter_ok. rewrite Hwf. unfold filters_of in *. simpl in *. rewrite Hnone.
        split_and!; intros f' Hf'; rewrite ?lookup_insert_ne by done; auto. done.
      * intros f'. unfold filters_of. simpl. by rewrite Hnone.
    + entries_case.
  - apply mem_subscribe_run in Hrun. subscribed_case Hrun (@attach_mem_effect B T X _ _ _) (@mem_states B T X _ _ _).
    + unfold filters_of, extends. simpl. rewrite Hnone. by split_and!.
    + plan_case Hnone.
    + split_and!; simpl; try done. by intros n [= <-].
    + entries_case.
  - by eapply subscribing_object.
  - by apply subscribing_return.
Qed.

Lemma session_inv_reach x : session x → session_inv x.
Proof.
  assert (Hsteps : ∀ y z, rtc session_step y z → state_inv y → state_inv z).
  { intros y z Hyz. induction Hyz; eauto using state_step_inv. }
  destruct x as [m s]. intros ([m0 s0] & Hx0%session_start_inv & Hx). exact (Hsteps _ _ Hx Hx0).
Qed.

(** ** Running what a session set up *)

(** A network subscription is the only one.  The code allows others beside it, but
    its reader takes every record for a [PendingConnect], and so reads out of the
    bounds of the shorter ones ([network_reader_out_of_bounds]). *)
Definition network_alone s : Prop :=
  is_Some (network s) → process s = None ∧ file s = None ∧ mem_reg s = None.

Lemma planned_network s p :
  network_alone s → is_Some (network s) → planned (filters_of s) p →
  probe_owner p = Some FilterOwner_Network.
Proof.
  intros Ha Hn Hpl. destruct (Ha Hn) as (Hp & Hf & Hm). unfold planned, filters_of in Hpl.
  simpl in Hpl. rewrite Hp, Hf, Hm in Hpl.
  destruct Hpl as [(f & _ & Hpl)|[(f & Hno & _)|[(f & Hno & _)|(f & Hno & _)]]]; try done.
  revert Hpl. unfold network_plan.
  by destruct p; try done; plan_members; intros; destruct_or?.
Qed.

Lemma agreed_network s e :
  network_alone s → is_Some (network s) → agreed (filters_of s) e → is_network e = true.
Proof.
  intros Ha Hn He. destruct (Ha Hn) as (Hp & Hf & Hm). unfold filters_of in He.
  destruct e; try done; destruct He as (f & Hno & _); simpl in Hno; by rewrite ?Hp, ?Hf, ?Hm in Hno.
Qed.

Lemma session_sys_inv m s :
  session_inv (m, s) → network_alone s → ∃ net,
    net_attached (attached_of (bpf s)) net ∧
    sys_inv (X := X) (filter_ok (filters_of s)) (config_ok (filters_of s)) net (m, LWait s) ∧
    delivery_inv (X := X) (agreed (filters_of s)) (filter_ok (filters_of s)) (config_ok (filters_of s))
      (m, LWait s).
Proof.
  intros [Hk Hr Hp Hch Hpl Hm] Ha. simpl in *. exists (bool_decide (is_Some (network s))).
  split_and!.
  - intros Hn%bool_decide_eq_true p Hat. eapply planned_network; [done..|by apply Hpl].
  - split; simpl.
    + eapply (machine_inv_write _ _ _ _ _ (kernel m)) in Hm; [by destruct m|apply narrows_refl| |by apply Hm|done].
      intros e He Hn%bool_decide_eq_true. by eapply agreed_network.
    + split_and!; [done| |rewrite Hp; vm_compute; lia]. intros Hn. by apply bool_decide_eq_true.
  - split; [done|]. intros ? [= <-]. by apply delivered_new.
Qed.

(** The loop and the subscribers leave the filters alone. *)
Lemma loop_step_filters IF IC net attached m l y :
  sys_inv IF IC net (m, l) → sys_step attached (m, l) y →
  ∀ s', loop_runtime y.2 = Some s' →
        ∃ s, loop_runtime l = Some s ∧ filters_of s' = filters_of s.
Proof.
  intros Hinv Hstep s' Hs'. remember (m, l) as x eqn:Hx.
  destruct Hstep as [m1 m2 l1 Hs|ready m1 l1|m1 l1 s1 s2 Hl1 Hs1]; simplify_eq; simpl in *.
  - apply map_loop_runtime in Hs' as (s & Hs' & ->). by exists s.
  - destruct (loop_turn IF IC net ready m l Hinv)
      as [(r & Hl & _)|[(s & Hs & Hl & _)|(s & s2 & r & e & -> & Hl & _ & _ & _ & _ & _ & Hsame)]].
    + by rewrite Hl in Hs'.
    + exists s. split; [done|]. by destruct Hl as [Hl|Hl]; rewrite Hl in Hs'; simplify_eq/=.
    + rewrite Hl in Hs'. simplify_eq/=. exists s. split; [done|].
      destruct Hsame as (_ & _ & _ & _ & Hfn & Hfp & Hff & Hfm). unfold filters_of.
      by rewrite Hfn, Hfp, Hff, Hfm.
  - apply map_loop_runtime in Hs' as (s & Hs' & ->). exists s1. split; [done|].
    destruct Hs1 as [n c E _|p c E _|f c E _|r c E _]; unfold filters_of; simpl; by rewrite E.
Qed.

Lemma sys_filters IF IC net attached (x y : Machine R H M * loop_state B T R Ch X) :
  net_attached attached net → sys_inv IF IC net x → rtc (sys_step attached) x y →
  ∀ s', loop_runtime y.2 = Some s' → ∃ s, loop_runtime x.2 = Some s ∧ filters_of s' = filters_of s.
Proof.
  intros Hnet Hi Hx. revert Hi. induction Hx as [x|x y z Hxy _ IH]; intros Hi s' Hs'; [by exists s'|].
  destruct (IH (sys_step_inv _ _ _ _ _ _ Hnet Hxy Hi) s' Hs') as (s1 & Hs1 & ->). destruct x as [m l].
  by eapply loop_step_filters.
Qed.

Lemma done_stays attached m r m' (l : loop_state B T R Ch X) :
  rtc (sys_step attached) (m, LDone r) (m', l) → loop_runtime l = None.
Proof.
  intros Hx. remember (m, LDone r) as x eqn:Hxk. remember (m', l) as y eqn:Hyl.
  revert m r Hxk. induction Hx as [x|x y z Hxy _ IH]; intros m r ->; [by simplify_eq|].
  inversion Hxy as [m1 m2 l1 Hs|ready m1 l1|m1 l1 s1 s2 Hl1 Hs1]; subst;
    [by eapply IH|by eapply IH|done].
Qed.

(** (C2) What a user of the crate relies on, for a network subscription alone or
    for any subscriptions of the other kinds, at most one of each and all of them
    successful (a network subscription beside others is out of bounds, see
    [network_reader_out_of_bounds]).  Programs run from the moment each is
    attached, also between the system calls of a [subscribe].  However programs,
    loop and subscribers then interleave after [run], every event in a channel
    matches the process filter that was passed to [subscribe], has a kind (and
    for the network a protocol) of its masks, and, for a file, a type the filter
    selects.  Unmaps are the exception: they are not filtered by process. *)
Theorem subscribed_events opened m s m' l s' :
  session (m, s) → network_alone s →
  rtc (sys_step (attached_of (bpf s))) (m, run opened s) (m', l) → loop_runtime (X := X) l = Some s' →
  filters_of s' = filters_of s ∧
  (∀ n ev, network s' = Some n → ev ∈ ch_queue (nr_tx n) →
     header_matches (nf_filter (nr_filter n)) (NetworkEvent_header ev) ∧
     network_wants (nr_filter n) ev) ∧
  (∀ p ev, process s' = Some p → ev ∈ ch_queue (pr_tx p) →
     header_matches (pf_filter (pr_filter p)) (ProcessEvent_header ev) ∧
     process_wants (pr_filter p) ev) ∧
  (∀ f ev, file s' = Some f → ev ∈ ch_queue (fr_tx f) →
     header_matches (ff_filter (fr_filter f)) (FileEvent_header ev) ∧
     file_wants (fr_filter f) ev ∧
     ∃ m, FileEvent_file_type ev = FileType_from m ∧ selects (fr_filter f) m) ∧
  (∀ m ev, mem_reg s' = Some m → ev ∈ ch_queue (mr_tx m) →
     (MemoryEvent_is_mmap ev = true →
      header_matches (mf_filter (mr_filter m)) (MemoryEvent_header ev)) ∧
     mem_wants (mr_filter m) ev).
Proof.
  intros Hs%session_inv_reach Ha Hx Hl.
  destruct opened as [u|e]; [|apply done_stays in Hx; simpl in Hx; congruence].
  destruct (session_sys_inv _ _ Hs Ha) as (net & Hnet & Hinv & Hdel).
  destruct (sys_filters _ _ _ _ _ _ Hnet Hinv Hx _ Hl) as (s0 & Hs0 & Hfil).
  simpl in Hs0. injection Hs0 as <-. split; [done|].
  eapply delivery_reach in Hx as (_ & Hd); [|clear Hx|exact Hnet|exact Hinv|exact Hdel].
  2: { intros p env v e Hat _ Hv He.
       eapply planned_owes; [by apply (si_planned _ Hs)|exact Hv|exact He]. }
  destruct (Hd s' Hl) as (Hn & Hp & Hf & Hm & _). rewrite <- Hfil in *.
  split_and!; intros r ev Hr Hev.
  - eapply queued_elem in Hn as (e & He & Hev'); [|done..].
    destruct (net_event_header _ _ Hev') as [_ ->]. destruct e as [n| | | | | | | | | | | |]; try done.
    destruct He as (f & Hfo & Hc & Hk & p & Hcl). unfold filters_of in Hfo. simpl in Hfo.
    rewrite Hr in Hfo. injection Hfo as <-. split; [by apply header_matches_convert|].
    by eapply class_covers_wants.
  - eapply queued_elem in Hp as (e & He & Hev'); [|done..].
    destruct (process_event_header _ _ Hev') as [_ ->].
    destruct e; try done; destruct He as (f & Hfo & Hc & Hk); unfold filters_of in Hfo; simpl in Hfo;
      rewrite Hr in Hfo; injection Hfo as <-; simplify_eq/=;
      (split; [by apply header_matches_convert|done]).
  - eapply queued_elem in Hf as (e & ty & He & Ho & Hm' & -> & -> & Hcov)%file_origin_record; [|done..].
    destruct e; try done; destruct He as (f & Hfo & Hc & Hk & ty' & Hm'' & Hsel); unfold filters_of in Hfo;
      simpl in Hfo; rewrite Hr in Hfo; injection Hfo as <-; rewrite Hm' in Hm''; injection Hm'' as <-;
      (split_and!; [by apply header_matches_convert|by apply Hcov|by exists ty]).
  - eapply queued_elem in Hm as (e & He & Hev'); [|done..]. split.
    + intros Hmm. destruct (mem_event_header _ _ Hev' Hmm) as [Ho ->].
      destruct e; try done. destruct He as (f & Hfo & Hc & Hk). unfold filters_of in Hfo. simpl in Hfo.
      rewrite Hr in Hfo. injection Hfo as <-. by apply header_matches_convert.
    + destruct e; try done; destruct He as (f & Hfo & Hc); unfold filters_of in Hfo; simpl in Hfo;
        rewrite Hr in Hfo; injection Hfo as <-; simplify_eq/=; try apply Hc; done.
Qed.
End session.
