(* ===== verification/Resubscribe.v ===== *)
(** * Subscribing twice, and the theorems at a concrete object

    A second subscription of a kind: for files it always fails, and the failure
    leaves its entries in the filter maps of the running subscription; for
    processes it can succeed, and then the programs of the first one go on
    feeding the channel of the second.  The end of the file runs a session on
    an object that satisfies [EbpfLaws]. *)

From stdpp Require Import relations.
From S2P Require Import Prelude Utf8 Raw Layout Events Interfaces Ebpf KernelSpec KernelProofs KernelInv Machine ProgramLogic MachineInv.
From S2P Require Import Common Process Memory Network File Convert ConvertSpec Runtime RuntimeProofs.
From S2P Require Import KernelTheorems Attach AttachSpec AttachTheorems System Delivery Object Steps Session.

#[local] Open Scope string_scope.
#[local] Open Scope Z_scope.

Section twice.
Context {B T R H X : Type} {M Ch : Type → Type}.
Context `{EbpfLaws B T X, RingBufLaws R H, BpfMapLaws M, ChannelLaws Ch}.
Implicit Types s : Bpfx B T R Ch.
Implicit Types k : KState R M.

(** (C36) A second file subscription never succeeds: [file_open] is loaded already.
    The registration stays that of the first filter, but once an attach step
    was reached, FILTER and CONFIG hold what the second filter asked for, so
    the running subscription is filtered by a filter nobody holds a stream
    for. *)
Theorem second_file_subscription f1 f2 s s1 r s2 :
  FileFilter_subscribe f1 s = (Ok tt, s1) → FileFilter_subscribe f2 s1 = (r, s2) →
  r ≠ Ok tt ∧ fr_filter <$> file s2 = Some f1 ∧
  ∀ e, r = Err (Error_Attach e) →
    ev_filter (bpf s2) !! FilterOwner_repr FilterOwner_File = Some (ff_filter f2) ∧
    ev_config (bpf s2) !! 0 = Some (FileModeFilter_from (ff_file_mode f2)).
Proof.
  intros Hs1%file_subscribe_run Hs2%file_subscribe_run.
  destruct Hs1 as [[? _]|(c1 & b1 & _ & Ha1%attach_file_effect & ->)]; [done|].
  destruct (ae_ok _ _ _ _ _ _ _ Ha1 eq_refl) as (_ & _ & Hl & _).
  destruct Hs2 as [[-> ->]|(c2 & b2 & _ & Ha2%attach_file_effect & ->)]; [done|]. simpl in *.
  assert (Hr : r ≠ Ok tt).
  { intros Hr. destruct (ae_ok _ _ _ _ _ _ _ Ha2 Hr) as (_ & _ & _ & Hfresh).
    apply (Hfresh P_file_open); [apply list_elem_of_here|]. rewrite Hl.
    apply elem_of_union_r, elem_of_names, list_elem_of_here. }
  split; [done|]. split; [by destruct r as [[]|?| |]|].
  intros e ->. destruct (ae_err _ _ _ _ _ _ _ Ha2 e eq_refl) as [Hf Hc]. simpl in *.
  by rewrite Hf, Hc, !lookup_insert_eq.
Qed.

(** (C37) After a second process subscription that succeeded, the programs of the
    first one are still attached, and what they report is put into the channel
    of the second one although its mask excludes it. *)
Theorem resubscribe_keeps_programs f1 f2 s s1 s2 p env k e :
  ProcessFilter_subscribe f1 s = (Ok tt, s1) → ProcessFilter_subscribe f2 s1 = (Ok tt, s2) →
  p ∈ process_plan f1 → probe_event p env k = Some e → raw_ok e →
  network s = None → 1 ≤ channel_capacity (config s) →
  attached_of (bpf s2) p ∧
  ∃ r r' s3 ev, process s2 = Some r ∧ pr_filter r = f2 ∧
    @dispatch B T R Ch X _ (raw_put e) s2 = Ok s3 ∧
    process s3 = Some r' ∧ ch_queue (pr_tx r') = [ev] ∧ ¬ process_wants f2 ev.
Proof.
  intros Hs1%process_subscribe_run Hs2%process_subscribe_run Hp He Hok Hn Hcap.
  destruct Hs1 as [[? _]|(c1 & b1 & _ & Ha1%attach_process_effect & ->)]; [done|].
  destruct (ae_ok _ _ _ _ _ _ _ Ha1 eq_refl) as (_ & _ & Hl1 & _).
  destruct Hs2 as [[? _]|(c2 & b2 & Hc2 & Ha2%attach_process_effect & ->)]; [done|].
  simpl in Hc2, Ha2.
  destruct (ae_ok _ _ _ _ _ _ _ Ha2 eq_refl) as (_ & Hat & _ & Hfresh).
  apply ch_channel_new in Hc2 as (Hq & Hcp & Hcl). split.
  { unfold attached_of. simpl. rewrite Hat. destruct (ae_ok _ _ _ _ _ _ _ Ha1 eq_refl) as (_ & Hat1 & _).
    rewrite Hat1. rewrite !elem_of_union, elem_of_names. tauto. }
  assert (Hnot : ¬ process_covers f2 e).
  { rewrite <- (process_plan_probe f2 p env k e He). intros Hp2.
    apply (Hfresh p Hp2). rewrite Hl1. by apply elem_of_union_r, elem_of_names. }
  set (reg := {| pr_filter := f2; pr_tx := c2 |}).
  match goal with |- ∃ _ _ _ _, process ?t = _ ∧ _ => set (s2 := t) end.
  destruct (dispatch_spec (X := X) s2 e) as (s3 & Hd & Hv & _).
  { split; [done|]. unfold s2. simpl. rewrite Hn. by intros [? ?]. }
  destruct (process_event e) as [ev|] eqn:Hev.
  2: { exfalso. apply (process_plan_probe f1 p env k e He) in Hp.
       destruct e; simpl in *; done. }
  assert (Hvp : v_process (view_of s3) = Some (ChanView [ev] (ch_capacity c2) false)).
  { rewrite Hv. simpl. rewrite Hev. simpl. unfold view_send, ch_view. simpl. rewrite Hcl, Hcp, Hq.
    by rewrite (proj2 (Z.leb_gt _ _)) by (simpl; lia). }
  unfold view_of in Hvp. simpl in Hvp. apply fmap_Some in Hvp as (r' & Hr' & Hch).
  exists reg, r', s3, ev. split; [done|]. split; [done|]. split; [exact Hd|].
  split; [exact Hr'|]. split; [by injection Hch|].
  intros Hw. apply Hnot. destruct e; try done; by simplify_eq/=.
Qed.
End twice.

(** ** An object that satisfies the laws *)

(** The maps as finite maps, the programs as sets of names.  Every program and
    map exists, and an operation fails only to load a program twice. *)
Record table := {
  t_filter : gmap Z FilterKey;
  t_config : gmap Z FileModeFilter;
  t_loaded : gset str;
  t_attached : gset str;
}.

Definition empty_table : table :=
  {| t_filter := ∅; t_config := ∅; t_loaded := ∅; t_attached := ∅ |}.

#[export] Instance table_ops : EbpfOps table unit str := {|
  eb_map_mut _ _ := true;
  eb_filter_map _ _ := None;
  eb_config_map _ _ := None;
  eb_insert_filter b _ i key :=
    (None, {| t_filter := <[i := key]> (t_filter b); t_config := t_config b;
              t_loaded := t_loaded b; t_attached := t_attached b |});
  eb_insert_config b _ i c :=
    (None, {| t_filter := t_filter b; t_config := <[i := c]> (t_config b);
              t_loaded := t_loaded b; t_attached := t_attached b |});
  eb_program_mut _ _ := true;
  eb_try_into _ _ _ := None;
  eb_load b _ n _ _ :=
    if decide (n ∈ t_loaded b) then (Some "the program is already loaded", b)
    else (None, {| t_filter := t_filter b; t_config := t_config b;
                   t_loaded := {[n]} ∪ t_loaded b; t_attached := t_attached b |});
  eb_attach b n _ _ :=
    (None, {| t_filter := t_filter b; t_config := t_config b;
              t_loaded := t_loaded b; t_attached := {[n]} ∪ t_attached b |});
|}.

#[export] Instance table_view : EbpfView table str := {|
  ev_filter := t_filter; ev_config := t_config; ev_loaded := t_loaded; ev_attached := t_attached;
  already_loaded := "the program is already loaded" |}.

#[export] Instance table_laws : EbpfLaws table unit str.
Proof.
  split; try by (intros; simpl in *; simplify_eq).
  - intros b b' t n kind a. simpl. by case_decide; intros [= <-].
  - intros b b' t n kind a e. simpl. by case_decide; intros [= _ <-].
  - intros b t n kind a Hn. simpl. by rewrite decide_True.
Qed.

(** *** A session: one subscription to the reads of process 7 *)

Definition pid_filter : FileFilter :=
  {| ff_event_type := FileMask_READ; ff_file_mode := FileTypeFilter_ALL;
     ff_filter := FilterKey_Pid 7 |}.

Abbreviation Runtime := (Bpfx table unit list_ring chan_view).

Definition new_runtime : Runtime :=
  fresh empty_table tt (ListRing 4096 [] []) {| channel_capacity := 8 |}.
Definition reading : Runtime := Eval vm_compute in (FileFilter_subscribe pid_filter new_runtime).2.

Definition sample_loader : Loader table unit list_ring str := {|
  ebpf_load := inl empty_table;
  logger_init := id;
  btf_from_sys_fs := inl tt;
  take_map b := Some (inl (ListRing 4096 [] []), b);
|}.

Lemma construction_witness :
  ∃ s, Bpfx_new (Ch := chan_view) sample_loader = Ok s ∧ config s = BpfxConfig_default ∧
       session_start (mkMachine (H := nat) (sample_state [] None) [], s).
Proof.
  assert (Hld : LoaderLaws sample_loader).
  { split; [by intros b [= <-]|done|by intros b r b' [= _ <-]]. }
  destruct (construction (Ch := chan_view) sample_loader BpfxConfig_default (sample_state [] None) Hld)
    as [_ [Hc Hs]].
  eexists. split; [reflexivity|]. split; [exact Hc|]. by apply Hs; split.
Defined.

(** The maps of the kernel follow those of the object. *)
Definition sync (k : KState list_ring fin_bpf_map) (b : table) : KState list_ring fin_bpf_map :=
  set_CONFIG (FinBpfMap 1 (t_config b)) (set_FILTER (FinBpfMap 4 (t_filter b)) k).

Lemma sync_writes k (b : table) : map_writes k (sync k b) b.
Proof. by split_and!. Qed.

Lemma reading_session : session (mkMachine open_state [], reading).
Proof.
  assert (Hstart : session (mkMachine (H := nat) (sample_state [] None) [], new_runtime)).
  { eexists. split; [|apply rtc_refl]. by split_and!. }
  set (l := object_states (attach_file_probe pid_filter) tt (bpf new_runtime)).
  assert (Hk : open_state = foldl sync (sample_state [] None) l) by (vm_compute; reflexivity).
  rewrite Hk. apply (session_alone sync (mkMachine (sample_state [] None) []) new_runtime l);
    [apply sync_writes|exact Hstart| |reflexivity].
  apply (SessFile pid_filter (mkMachine (sample_state [] None) []) new_runtime reading); [done|].
  vm_compute. reflexivity.
Qed.

(** The same, but a file is opened while [subscribe] is running, when [file_open] is
    attached and the other programs are not. *)
Definition objects : list table := Eval vm_compute in object_states (attach_file_probe pid_filter) tt (bpf new_runtime).
Definition half_subscribed : Runtime := foldl (fun s b => set_bpf b s) new_runtime (take 4 objects).
Definition half_state : S_ := foldl sync (sample_state [] None) (take 4 objects).
Definition half_opened : S_ := (run_probe P_file_open open_env half_state).2.

Lemma half_attached : attached_of (bpf half_subscribed) P_file_open ∧ ¬ attached_of (bpf half_subscribed) P_vfs_read.
Proof. unfold attached_of. split; apply (bool_decide_unpack _); vm_compute; exact I. Qed.

Lemma opened_meanwhile : session (mkMachine (H := nat) opened_state [], set_ringbuf (EVENTS opened_state) reading).
Proof.
  exists (mkMachine (sample_state [] None) [], new_runtime). split; [by split_and!|].
  eapply rtc_l; [apply (SessFile pid_filter _ new_runtime reading); [done|vm_compute; reflexivity]|].
  change (object_states _ _ _) with (take 4 objects ++ drop 4 objects)%list.
  etrans; [apply (session_objects sync _ _ _ _ _ sync_writes)|].
  etrans; [apply (session_programs _ (mkMachine half_opened [])); [|vm_compute; reflexivity]|].
  { apply (run_alone _ P_file_open open_env half_state [] 0).
    - apply half_attached.
    - apply open_env_wf.
    - by intros (th & Hth%not_elem_of_nil & _).
    - vm_compute. reflexivity. }
  rewrite <- (app_nil_r (drop 4 objects)).
  etrans; [apply (session_objects sync _ _ _ _ _ sync_writes)|].
  assert (Hk : foldl sync half_opened (drop 4 objects) = opened_state) by (vm_compute; reflexivity).
  simpl kernel. rewrite Hk. apply rtc_once. exact (SessReturn (mkMachine opened_state []) _ reading).
Qed.

Definition reading_loop (n : nat) : loop_state table unit list_ring chan_view str :=
  Nat.iter n (loop_next (inl tt)) (LWait (set_ringbuf (EVENTS read_state) reading)).
Definition reading_machine : Machine list_ring nat fin_bpf_map :=
  consumed (mkMachine read_state []) (reading_loop 2).
Definition reading_end : Runtime := default reading (loop_runtime (reading_loop 2)).
Definition reading_channel : FileRegister chan_view :=
  default {| fr_filter := pid_filter; fr_tx := ChanView [] 8 false |} (file reading_end).

Lemma reading_reach :
  rtc (sys_step (attached_of (bpf reading)))
    (mkMachine opened_state [], LWait (X := str) (set_ringbuf (EVENTS opened_state) reading))
    (reading_machine, reading_loop 2).
Proof.
  etrans.
  { apply (sys_run_alone _ P_vfs_read open_env 0 opened_state read_state);
      [|apply open_env_wf|apply read_run|by intros s [= <-]].
    unfold attached_of. apply (bool_decide_unpack _). vm_compute. exact I. }
  eapply rtc_l; [apply (SysLoop _ (inl tt))|]. eapply rtc_l; [apply (SysLoop _ (inl tt))|].
  vm_compute. apply rtc_refl.
Qed.

Lemma subscribed_events_witness :
  read_delivered ∈ ch_queue (fr_tx reading_channel) ∧
  header_matches (FilterKey_Pid 7) (FileEvent_header read_delivered) ∧
  file_wants pid_filter read_delivered ∧
  ∃ m, FileEvent_file_type read_delivered = FileType_from m ∧ selects pid_filter m.
Proof.
  assert (Hev : read_delivered ∈ ch_queue (fr_tx reading_channel))
    by (vm_compute; apply list_elem_of_here).
  split; [exact Hev|].
  destruct (subscribed_events (inl tt) (mkMachine opened_state []) (set_ringbuf (EVENTS opened_state) reading)
              reading_machine (reading_loop 2) reading_end)
    as (_ & _ & _ & Hf & _).
  - apply opened_meanwhile.
  - intros [n Hn]. discriminate Hn.
  - apply reading_reach.
  - vm_compute. reflexivity.
  - apply (Hf reading_channel read_delivered); [vm_compute; reflexivity|exact Hev].
Defined.

(** *** Subscribing again *)

Lemma second_file_subscription_witness :
  (FileFilter_subscribe FileFilter_ALL reading).1 ≠ Ok tt ∧
  fr_filter <$> file (FileFilter_subscribe FileFilter_ALL reading).2 = Some pid_filter ∧
  t_filter (bpf (FileFilter_subscribe FileFilter_ALL reading).2)
    !! FilterOwner_repr FilterOwner_File = Some FilterKey_None.
Proof.
  destruct (second_file_subscription pid_filter FileFilter_ALL new_runtime reading
              (FileFilter_subscribe FileFilter_ALL reading).1
              (FileFilter_subscribe FileFilter_ALL reading).2) as (Hr & Hf & Hm).
  - vm_compute. reflexivity.
  - apply surjective_pairing.
  - split; [exact Hr|]. split; [exact Hf|].
    eapply (fun e He => proj1 (Hm e He)). vm_compute. reflexivity.
Defined.

Definition exiting : Runtime := (ProcessFilter_subscribe ProcessFilter_EXIT new_runtime).2.
Definition restarted : Runtime := (ProcessFilter_subscribe ProcessFilter_START exiting).2.

Lemma resubscribe_keeps_programs_witness :
  attached_of (bpf restarted) P_do_group_exit ∧
  ∃ r r' s ev, process restarted = Some r ∧ pr_filter r = ProcessFilter_START ∧
    @dispatch table unit list_ring chan_view str _ (raw_put (plan_record P_do_group_exit)) restarted
    = Ok s ∧
    process s = Some r' ∧ ch_queue (pr_tx r') = [ev] ∧ ¬ process_wants ProcessFilter_START ev.
Proof.
  apply (resubscribe_keeps_programs ProcessFilter_EXIT ProcessFilter_START new_runtime exiting restarted
           P_do_group_exit plan_env plan_state (plan_record P_do_group_exit)).
  - vm_compute. reflexivity.
  - vm_compute. reflexivity.
  - apply (bool_decide_unpack _). vm_compute. exact I.
  - vm_compute. reflexivity.
  - apply (probe_event_ok P_do_group_exit plan_env plan_state).
    all: try apply sample_env_wf; try apply sample_state_maps_wf. vm_compute. reflexivity.
  - reflexivity.
  - vm_compute. discriminate.
Defined.
