(* ===== verification/Completeness.v ===== *)
(** * Nothing that was asked for is missed

    [Session.v] shows that a channel only gets what its filter asked for; this
    file has the other direction.  A run of a program adds exactly those of the
    records it would add without any filter that the filter maps admit
    ([filters_exact]); and a record that the filters of a session ask for is
    attached for, written and dispatched ([asked_event_arrives]). *)

From stdpp Require Import relations.
From S2P Require Import Prelude Utf8 Raw Layout Events Interfaces Ebpf KernelSpec KernelProofs KernelInv Machine ProgramLogic MachineInv.
From S2P Require Import Common Process Memory Network File Convert ConvertSpec Runtime RuntimeProofs.
From S2P Require Import KernelTheorems Attach AttachSpec AttachTheorems System Delivery Object Session Resubscribe.

#[local] Open Scope Z_scope.

(** ** The filter maps, exactly *)

Section filters.
Context {R H : Type} {M : Type → Type}.
Context `{!RingBufOps R H, !BpfMapOps M}.
Implicit Types k : KState R M.

(** [k0] is [k] without process filters, and with every file type selected. *)
Definition unfiltered k k0 : Prop :=
  (EVENTS k0 = EVENTS k ∧ FILE_PATH_MAP k0 = FILE_PATH_MAP k ∧ TEMP k0 = TEMP k ∧ PATH_BUF k0 = PATH_BUF k) ∧
  (∀ owner, bm_get (FILTER k0) (FilterOwner_repr owner) = None) ∧
  ∃ c, bm_get (CONFIG k0) 0 = Some c ∧ Forall (fun b => Z.land (mode c) b = b) type_bits.

(** What FILTER and CONFIG say about a record of [p]. *)
Definition admitted k (p : Probe) (e : RawEvent) : Prop :=
  (∀ owner key, probe_owner p = Some owner → bm_get (FILTER k) (FilterOwner_repr owner) = Some key →
     key_matches key (raw_header e)) ∧
  (∀ ty, raw_file_mode e = Some ty →
     ∃ c, bm_get (CONFIG k) 0 = Some c ∧ Z.land (mode c) (mode ty) ≠ 0).

Lemma unfiltered_dropped k k0 owner h : unfiltered k k0 → dropped k0 owner h = false.
Proof. intros (_ & Hf & _). unfold dropped. by rewrite Hf. Qed.

Lemma unfiltered_maps_wf k k0 : unfiltered k k0 → maps_wf k → maps_wf k0.
Proof. intros ((_ & Hf & Ht & Hb) & _). unfold maps_wf. by rewrite Hf, Ht, Hb. Qed.

Lemma admitted_dropped k p e owner :
  admitted k p e → probe_owner p = Some owner → dropped k owner (raw_header e) = false.
Proof.
  intros [Hk _] Ho. unfold dropped. destruct (bm_get _ _) as [key|] eqn:Hg; [|done].
  apply key_drops_spec. by eapply Hk.
Qed.

Lemma selected_type_Some k m ty :
  selected_type k m = Some ty ↔
  ty = {| mode := file_type_bit m |} ∧ ∃ c, bm_get (CONFIG k) 0 = Some c ∧ Z.land (mode c) (mode ty) ≠ 0.
Proof.
  unfold selected_type. destruct (bm_get _ _) as [c|]; simpl; [|naive_solver].
  rewrite unless_Some, Z.eqb_neq. naive_solver.
Qed.

Lemma selected_type_exact k k0 m ty :
  unfiltered k k0 →
  selected_type k m = Some ty ↔
  selected_type k0 m = Some ty ∧ ∃ c, bm_get (CONFIG k) 0 = Some c ∧ Z.land (mode c) (mode ty) ≠ 0.
Proof.
  intros (_ & _ & c0 & Hc0 & Hall). rewrite !selected_type_Some. split; [|naive_solver].
  intros (-> & c & Hc & Hz). split; [|by exists c]. split; [done|]. exists c0. split; [done|]. simpl in *.
  rewrite Forall_forall in Hall. rewrite Hall by (apply list_elem_of_In, file_type_bit_cases).
  intros Hb. rewrite Hb, Z.land_0_r in Hz. done.
Qed.

(** The tests on the way to a record. *)
Ltac peel He :=
  repeat match type of He with
  | unless _ _ = Some _ => apply unless_Some in He as [? He]
  | (_ ≫= _) = Some _ => apply bind_Some in He as (? & ? & He)
  | (_ <$> _) = Some _ => apply fmap_Some in He as (? & He & ->)
  | (if ?b then _ else _) = Some _ => destruct b eqn:?
  end;
  simplify_eq/=.
Ltac follow :=
  repeat match goal with
  | E : ?x = ?y |- context [?x] =>
      lazymatch x with
      | selected_type _ _ => rewrite E | file_info _ _ _ => rewrite E | dropped _ _ _ => rewrite E
      | _ =? _ => rewrite E | negb _ => rewrite E
      | ctx_ret _ => rewrite E | skc_family _ _ => rewrite E | read_at_u32 _ _ => rewrite E
      | skc_v6_daddr _ _ => rewrite E | skc_v6_rcv_saddr _ _ => rewrite E
      end; cbn [unless mbind option_bind fmap option_fmap option_map]
  end.

Lemma file_info_exact env k k0 file x :
  unfiltered k k0 →
  file_info env k file = Some x ↔
  file_info env k0 file = Some x ∧ ∃ c, bm_get (CONFIG k) 0 = Some c ∧ Z.land (mode c) (mode x.1) ≠ 0.
Proof.
  intros Hu. pose proof Hu as ((_ & Hp & _) & _). unfold file_info. rewrite Hp. split.
  - intros He. peel He.
    match goal with E : selected_type k _ = Some _ |- _ => apply (selected_type_exact _ _ _ _ Hu) in E as [E ?] end.
    follow. by match goal with E : bm_get _ _ = Some _ |- _ => rewrite E end.
  - intros [He Hc]. peel He.
    match goal with E : selected_type k0 ?m = Some ?t |- _ =>
      assert (selected_type k m = Some t) by by apply (selected_type_exact _ _ _ _ Hu) end.
    follow. by match goal with E : bm_get _ _ = Some _ |- _ => rewrite E end.
Qed.

Lemma unfiltered_owed k k0 p env e :
  unfiltered k k0 → probe_event p env k = Some e → probe_event p env k0 = Some e.
Proof.
  intros Hu He. pose proof Hu as ((_ & _ & Ht & _) & _).
  destruct p; simpl in *; unfold family_event, v4_event, v6_event, rename_event in *;
    rewrite ?(unfiltered_dropped _ _ _ _ Hu), ?Ht; cbn [unless]; peel He;
    repeat match goal with
    | E : selected_type k _ = Some _ |- _ => apply (selected_type_exact _ _ _ _ Hu) in E as [E _]
    | E : file_info _ k _ = Some _ |- _ => apply (file_info_exact _ _ _ _ _ Hu) in E as [E _]
    end; by follow.
Qed.

Lemma owed_unfiltered k k0 p env e :
  unfiltered k k0 → probe_event p env k0 = Some e → admitted k p e → probe_event p env k = Some e.
Proof.
  intros Hu He Ha. pose proof Hu as ((_ & _ & Ht & _) & _).
  destruct p; simpl in *; unfold family_event, v4_event, v6_event, rename_event in *;
    rewrite ?(unfiltered_dropped _ _ _ _ Hu), ?Ht in He; cbn [unless] in He; peel He;
    try (pose proof (admitted_dropped _ _ _ _ Ha eq_refl); simpl in * );
    try (pose proof (proj2 Ha _ eq_refl); simpl in * );
    repeat match goal with
    | E : selected_type k0 ?m = Some ?ty |- _ =>
        assert (selected_type k m = Some ty) by (by apply (selected_type_exact _ _ _ _ Hu)); clear E
    | E : file_info ?env k0 ?f = Some ?x |- _ =>
        assert (file_info env k f = Some x) by (by apply (file_info_exact _ _ _ _ _ Hu)); clear E
    end; by follow.
Qed.

Lemma owed_admitted k p env e : probe_event p env k = Some e → admitted k p e.
Proof.
  intros He. split.
  - intros owner key Ho Hk. apply key_drops_spec. eapply probe_event_filter in He; [|done].
    unfold dropped in He. by rewrite Hk in He.
  - intros ty Hty. destruct (probe_event_mode _ _ _ _ _ He Hty) as (m & Hs).
    destruct (selected_type_config _ _ _ Hs) as (c & ? & ? & _). by exists c.
Qed.

End filters.

Section exact.
Context {R H : Type} {M : Type → Type}.
Context `{RingBufLaws R H, BpfMapLaws M}.
Implicit Types k : KState R M.

(** With room in the ring buffer, a run adds what its program owes. *)
Lemma owed_added k p env e :
  Env_wf env → maps_wf k → ¬ null_deref p env → is_Some (rb_reserve (EVENTS k) (probe_size p)) →
  probe_event p env k = Some e →
  ∃ k', run_probe p env k = (Ok 0, k') ∧ kernel_post p env k k' ∧
        rb_items (EVENTS k') = rb_items (EVENTS k) ++ [raw_put e].
Proof.
  intros Hw Hm Hn [hr Hr] He. destruct (run_probe_cases p env k Hw Hm) as [(k' & Hrun & Hp)|[_ ?]]; [|done].
  exists k'. split_and!; [done|done|]. destruct Hp as (Hi & _). rewrite Hi. unfold submitted.
  by rewrite Hr, He.
Qed.

(** (C8) The filters are exact: when the ring buffer has room and no null pointer
    is met, a run of a program adds a record under the maps as they are if and
    only if it adds that same record without any filter and the key of its owner
    in FILTER matches the header and, for a record of a file, CONFIG selects the
    file type. *)
Theorem filters_exact k k0 p env e :
  Env_wf env → maps_wf k → ¬ null_deref p env → is_Some (rb_reserve (EVENTS k) (probe_size p)) →
  unfiltered k k0 →
  adds_record p env k e ↔ adds_record p env k0 e ∧ admitted k p e.
Proof.
  intros Hw Hm Hn Hr Hu. pose proof (unfiltered_maps_wf _ _ Hu Hm) as Hm0.
  assert (Hr0 : is_Some (rb_reserve (EVENTS k0) (probe_size p))) by by rewrite (proj1 (proj1 Hu)).
  assert (Hadds : ∀ k1, maps_wf k1 → is_Some (rb_reserve (EVENTS k1) (probe_size p)) →
            probe_event p env k1 = Some e → adds_record p env k1 e).
  { intros k1 Hm1 Hr1 He. destruct (owed_added k1 p env e) as (k' & Hrun & _ & Hi); [done..|].
    split_and!; [done|done|by apply (probe_event_ok p env k1)|]. exists 0, k', [raw_put e].
    split_and!; [done|done|by apply list_elem_of_singleton]. }
  split.
  - intros He%adds_record_event. split; [|by eapply owed_admitted].
    apply Hadds; [done|done|]. by apply (unfiltered_owed k).
  - intros [He%adds_record_event Ha]. apply Hadds; [done|done|]. by apply (owed_unfiltered k k0).
Qed.
End exact.

(** ** From the filters to the channels *)

Section asked.
Context {B T R H : Type} {M Ch : Type → Type} {X : Type}.
Context `{EbpfLaws B T X, RingBufLaws R H, BpfMapLaws M, ChannelLaws Ch}.
Implicit Types s : Bpfx B T R Ch.
Implicit Types k : KState R M.
Implicit Types l : loop_state B T R Ch X.

(** A record that the filters ask for: a program of their plans owes it. *)
Lemma agreed_planned F k0 p env e :
  probe_event p env k0 = Some e → agreed F e → planned F p.
Proof.
  intros He Ha. destruct e; destruct Ha as (f & Hf & Ha).
  1: left. 2-4: right; left. 5-11: do 2 right; left. 12-13: do 3 right.
  all: exists f; split; [done|].
  all: first [apply (network_plan_probe _ _ _ _ _ He) | apply (process_plan_probe _ _ _ _ _ He)
             |apply (file_plan_probe _ _ _ _ _ He) | apply (mem_plan_probe _ _ _ _ _ He)];
    first [exact Ha | exact (proj1 Ha)].
Qed.

(** The filter maps of a session admit it. *)
Lemma agreed_admitted F k k0 p env e :
  kernel_ok (maps_ok F) k → probe_event p env k0 = Some e → agreed F e → admitted k p e.
Proof.
  intros (_ & (Hn & Hp & Hf & Hm) & Hc) He Ha. pose proof (probe_event_struct _ _ _ _ He) as Hs.
  split.
  - intros owner key Ho Hk. clear He.
    destruct e, p; try done; simplify_eq/=; destruct Ha as (f & Hfo & _ & Hma);
      match goal with
      | Hk : bm_get _ ?i = Some key, Hx : ∀ f, _ = Some f → bm_get _ ?i = _ |- _ =>
          rewrite (Hx _ Hfo) in Hk; simplify_eq
      end; apply Hma.
  - intros ty Hty. destruct e; simplify_eq/=; destruct Ha as (f & Hfo & _ & _ & m & [= <-] & _ & Hz & Hsel);
      exists (FileModeFilter_from (ff_file_mode f)); (split; [by apply Hc|]); by rewrite Hsel.
Qed.

(** (C3) Nothing that was asked for is missed.  Take a running session in which a
    network subscription, if there is one, is the only subscription (beside
    others its reader is out of bounds, see [network_reader_out_of_bounds]), at a
    moment when no program is in between and the task, if it waits, still has a
    subscriber with an open channel; and a program that meets no null pointer,
    for which the ring buffer has room, and that would owe, without any filter, a
    record the subscriptions ask for: kind and protocol are in the masks, the
    header matches the process filter and the type of the file is selected.  The
    program is attached, and if it runs now, it adds this record, and the loop
    then dispatches it, after those that were there before, and waits again. *)
Theorem asked_event_arrives opened m s k l s' p env k0 e :
  session (m, s) → network_alone s →
  rtc (sys_step (attached_of (bpf s))) (m, run opened s) (mkMachine k [], l) →
  loop_runtime (X := X) l = Some s' → (l = LWait s' → has_subscribers s' = true) →
  Env_wf env → ¬ null_deref p env →
  unfiltered k k0 → probe_event p env k0 = Some e → agreed (filters_of s) e →
  is_Some (rb_reserve (EVENTS k) (probe_size p)) →
  attached_of (bpf s) p ∧
  ∃ k1 es k' s'',
    run_probe p env k = (Ok 0, k1) ∧ rb_items (EVENTS k) = raw_put <$> es ∧
    rb_items (EVENTS k1) = raw_put <$> es ++ [e] ∧
    rtc (sys_step (attached_of (bpf s))) (mkMachine k [], l)
      (mkMachine k1 [], map_loop (set_ringbuf (EVENTS k1)) l) ∧
    rtc (sys_step (attached_of (bpf s))) (mkMachine k1 [], map_loop (set_ringbuf (EVENTS k1)) l)
      (mkMachine k' [], LWait s'') ∧
    rb_slots (EVENTS k') = [] ∧
    view_of s'' = spec_dispatch (foldl spec_dispatch (view_of s') es) e.
Proof.
  intros Hs%session_inv_reach Ha Hx Hl Hsub Hw Hnd Hu He0 Hag Hres.
  destruct opened as [u|x]; [|apply done_stays in Hx; simpl in Hx; congruence].
  destruct (session_sys_inv _ _ Hs Ha) as (net & Hnet & Hinv & _).
  pose proof (sys_steps_inv _ _ _ _ _ _ Hnet Hx Hinv) as Hinv'.
  pose proof Hinv' as (Hm & Hrt). pose proof (mi_kernel _ _ _ Hm) as Hk. simpl in Hk.
  assert (Hat : attached_of (bpf s) p) by by apply (si_planned _ Hs), (agreed_planned _ _ _ _ _ He0).
  split; [exact Hat|].
  assert (He : probe_event p env k = Some e).
  { eapply owed_unfiltered; [done..|]. by eapply agreed_admitted. }
  destruct (owed_added k p env e Hw (proj1 Hk) Hnd Hres He) as (k1 & Hr & _ & Hit).
  assert (Hst : rtc (sys_step (attached_of (bpf s))) (mkMachine k [], l)
                  (mkMachine k1 [], map_loop (set_ringbuf (EVENTS k1)) l)).
  { eapply sys_run_alone; [done..|]. intros s2 Hs2. destruct l; simplify_eq/=; apply Hrt. }
  destruct (sys_catch_up (attached_of (bpf s)) (filter_ok (filters_of s)) (config_ok (filters_of s)) net k1
              (map_loop (set_ringbuf (EVENTS k1)) l) (set_ringbuf (EVENTS k1) s'))
    as (es1 & k' & s'' & Hes & Hre & Hst' & Hk' & Hv).
  - by eapply sys_steps_inv.
  - by destruct l; simplify_eq/=.
  - destruct l; simplify_eq/=; intros ?; [by apply Hsub|done].
  - rewrite Hes in Hit. pose proof Hit as Hit'. apply fmap_app_inv in Hit as (es & es2 & Hes1 & He2 & ->).
    apply eq_sym, fmap_cons_inv in He2 as (e' & es3 & Heq & Hnil & ->).
    apply eq_sym, fmap_nil_inv in Hnil as ->.
    apply Forall_app in Hre as [_ He']. inversion He' as [|?? [Hok' _] _]; subst.
    apply raw_put_inj in Heq as <-; [|by eapply probe_event_ok; [..|exact He]; [|exact (proj1 Hk)]|done].
    exists k1, es, k', s''. split_and!; try done. by rewrite Hv, foldl_app.
Qed.
End asked.

(** ** The theorems at concrete runs *)

(** The maps when the file is open, without the filter for process 7. *)
Definition opened_unfiltered : S_ := set_FILTER (FILTER (sample_state [] None)) opened_state.

Lemma opened_unfiltered_ok : unfiltered opened_state opened_unfiltered.
Proof.
  split_and!; [done|done|done|done|by intros []|]. exists {| mode := 127 |}. split; [reflexivity|].
  apply (bool_decide_unpack _). vm_compute. exact I.
Qed.

Lemma opened_room p : is_Some (rb_reserve (EVENTS opened_state) (probe_size p)).
Proof. destruct p; vm_compute; by eexists. Qed.

Lemma filters_exact_witness : adds_record P_vfs_read open_env opened_state read_event.
Proof.
  apply (filters_exact opened_state opened_unfiltered P_vfs_read open_env read_event).
  - apply open_env_wf.
  - apply opened_state_wf.
  - vm_compute. discriminate.
  - apply opened_room.
  - apply opened_unfiltered_ok.
  - split; [|split].
    + apply (adds_record_compute P_vfs_read); [apply (unfiltered_maps_wf opened_state);
        [apply opened_unfiltered_ok|apply opened_state_wf]|vm_compute; reflexivity..].
    + intros owner key [= <-] [= <-]. reflexivity.
    + intros ty [= <-]. exists {| mode := 127 |}. split; [reflexivity|done].
Defined.

(** The loop, waiting when the file has been opened, and after the read. *)
Abbreviation Loop := (loop_state table unit list_ring chan_view str).
Definition waiting : Loop := LWait (set_ringbuf (EVENTS opened_state) reading).

Lemma asked_event_arrives_witness :
  attached_of (bpf reading) P_vfs_read ∧
  ∃ k1 es k' s'',
    run_probe P_vfs_read open_env opened_state = (Ok 0, k1) ∧
    rb_items (EVENTS opened_state) = raw_put <$> es ∧
    rb_items (EVENTS k1) = raw_put <$> es ++ [read_event] ∧
    rtc (sys_step (attached_of (bpf reading))) (mkMachine opened_state [], waiting)
      (mkMachine k1 [], map_loop (set_ringbuf (EVENTS k1)) waiting) ∧
    rtc (sys_step (attached_of (bpf reading))) (mkMachine k1 [], map_loop (set_ringbuf (EVENTS k1)) waiting)
      (mkMachine k' [], LWait s'') ∧
    rb_slots (EVENTS k') = [] ∧
    view_of s'' = spec_dispatch (foldl spec_dispatch (view_of (set_ringbuf (EVENTS opened_state) reading)) es)
                    read_event.
Proof.
  apply (asked_event_arrives (inl tt) (mkMachine open_state []) reading opened_state waiting
           (set_ringbuf (EVENTS opened_state) reading) P_vfs_read open_env opened_unfiltered read_event).
  - apply reading_session.
  - intros [n Hn]. discriminate Hn.
  - apply (sys_run_alone _ P_file_open open_env 0 open_state opened_state (LWait reading));
      [|apply open_env_wf|apply opened_run|by intros s [= <-]].
    unfold attached_of. apply (bool_decide_unpack _). vm_compute. exact I.
  - reflexivity.
  - reflexivity.
  - apply open_env_wf.
  - vm_compute. discriminate.
  - apply opened_unfiltered_ok.
  - vm_compute. reflexivity.
  - exists pid_filter. split; [vm_compute; reflexivity|]. split; [vm_compute; reflexivity|].
    split; [vm_compute; reflexivity|]. exists {| mode := 1 |}. split; [reflexivity|].
    split_and!; [apply (bool_decide_unpack _); vm_compute; exact I|done|reflexivity].
  - apply opened_room.
Defined.
