(* ===== verification/Order.v ===== *)
(** * What happens to every record

    Runs of the pipeline of [System.v] with a trace of what was reported and
    what the subscribers received.  [delivered_in_order]: each subscriber gets
    the events of the records in the order in which the programs reserved
    their entries, none twice and none invented, and, if it keeps its receiver and its
    channel is never full when the loop reads a record, every one of them. *)

From stdpp Require Import relations.
From S2P Require Import Prelude Raw Layout Events Interfaces Ebpf KernelSpec KernelProofs KernelInv Machine ProgramLogic MachineInv.
From S2P Require Import Common Process Memory Network File Convert ConvertSpec Runtime RuntimeProofs.
From S2P Require Import KernelTheorems System Delivery.

#[local] Open Scope Z_scope.

(** ** Traces *)

(** Whether each channel was open and had room for an event. *)
Record Rooms := {
  room_network : bool;
  room_process : bool;
  room_file : bool;
  room_mem : bool;
}.

Inductive label (H : Type) :=
| Program (a : ring_act H RawEvent)           (* a program started, ended or did an operation *)
| Turn (r : Rooms)                   (* of the event loop, with room as [r] says *)
| Got_network (ev : NetworkEvent)
| Got_process (ev : ProcessEvent)
| Got_file (ev : FileEvent)
| Got_mem (ev : MemoryEvent)
| Dropped.                           (* a subscriber dropped its receiver *)
Arguments Program {H}.
Arguments Turn {H}.
Arguments Got_network {H}.
Arguments Got_process {H}.
Arguments Got_file {H}.
Arguments Got_mem {H}.
Arguments Dropped {H}.

Section traces.
Context {H : Type}.
Implicit Types tr : list (label H).

(** The entries that were reserved, in that order, without the discarded ones;
    and the records that were submitted for them. *)
Definition history `{EqDecision H} tr : list (slot H RawEvent) :=
  foldl (fun hist a => match a with Program a => ring_history hist a | _ => hist end) [] tr.
Definition records `{EqDecision H} tr : list RawEvent := values (history tr).

Definition got_network tr : list NetworkEvent :=
  omap (fun a => match a with Got_network ev => Some ev | _ => None end) tr.
Definition got_process tr : list ProcessEvent :=
  omap (fun a => match a with Got_process ev => Some ev | _ => None end) tr.
Definition got_file tr : list FileEvent :=
  omap (fun a => match a with Got_file ev => Some ev | _ => None end) tr.
Definition got_mem tr : list MemoryEvent :=
  omap (fun a => match a with Got_mem ev => Some ev | _ => None end) tr.

(** At every turn there was room in a channel. *)
Definition kept_up (room : Rooms → bool) tr : bool :=
  forallb (fun a => match a with Turn r => room r | _ => true end) tr.

Lemma kept_up_snoc room tr a :
  kept_up room (tr ++ [a]) = kept_up room tr && match a with Turn r => room r | _ => true end.
Proof. unfold kept_up. rewrite forallb_app. simpl. by rewrite andb_true_r. Qed.

Lemma history_snoc `{EqDecision H} tr a :
  history (tr ++ [a])
  = match a with Program a => ring_history (history tr) a | _ => history tr end.
Proof. unfold history. by rewrite foldl_app. Qed.
End traces.

Lemma omap_snoc {A B} (f : A → option B) l x : omap f (l ++ [x]) = omap f l ++ option_list (f x).
Proof. rewrite omap_app. simpl. by destruct (f x). Qed.

(** ** A queue and the events meant for it *)

(** [all] was offered to the queue, [got] was taken from it; [ok] if there was
    always room. *)
Definition tracked {A} (ok : bool) (got all : list A) (c : chan_view A) : Prop :=
  got ++ cv_queue c `sublist_of` all ∧ (ok = true → got ++ cv_queue c = all).

Definition has_room {A} (c : chan_view A) : bool :=
  negb (cv_closed c) && (Z.of_nat (length (cv_queue c)) <? cv_capacity c).

Lemma view_send_room {A} (c : chan_view A) x :
  has_room c = true → view_send c x = ChanView (cv_queue c ++ [x]) (cv_capacity c) false.
Proof.
  unfold has_room, view_send. intros [Hc%negb_true_iff Hr%Z.ltb_lt]%andb_true_iff.
  rewrite Hc. by rewrite (proj2 (Z.leb_gt _ _)) by done.
Qed.

Lemma tracked_send {A} ok (got all : list A) c x :
  tracked ok got all c → tracked (ok && has_room c) got (all ++ option_list x) (send_opt c x).
Proof.
  intros [Hs He]. destruct x as [x|]; simpl.
  2: { rewrite app_nil_r. split; [done|]. by intros [? _]%andb_true_iff; apply He. }
  destruct (has_room c) eqn:Hr.
  - rewrite view_send_room by done. unfold tracked. simpl. rewrite (assoc_L (++)), andb_true_r.
    split; [by apply sublist_app|]. intros Hok. by rewrite He.
  - rewrite andb_false_r. split; [|done].
    unfold has_room, view_send in *. destruct (cv_closed c); [by apply sublist_inserts_r|].
    simpl in Hr. apply Z.ltb_ge in Hr. rewrite (proj2 (Z.leb_le _ _)) by done.
    by apply sublist_inserts_r.
Qed.

Definition tracked_opt {A} (ok : bool) (got all : list A) (o : option (chan_view A)) : Prop :=
  ∀ c, o = Some c → tracked ok got all c.

Definition opt_room {A} (o : option (chan_view A)) : bool :=
  match o with Some c => has_room c | None => true end.

Lemma tracked_opt_send {A} ok (got all : list A) o x :
  tracked_opt ok got all o →
  tracked_opt (ok && opt_room o) got (all ++ option_list x) ((fun c => send_opt c x) <$> o).
Proof. intros Ho c (c' & -> & ->)%fmap_Some. by apply tracked_send, Ho. Qed.

Lemma tracked_opt_less {A} ok ok' (got all : list A) o :
  tracked_opt ok got all o → tracked_opt (ok && ok') got all o.
Proof.
  intros Ho c Hc. destruct (Ho c Hc) as [Hs He]. split; [done|].
  by intros [? _]%andb_true_iff; apply He.
Qed.

Section channel.
Context {Ch : Type → Type} `{ChannelLaws Ch}.

Lemma tracked_recv {A} ok (got all : list A) (c c' : Ch A) x :
  tracked ok got all (ch_view c) → ch_recv c = Some (x, c') → tracked ok (got ++ [x]) all (ch_view c').
Proof.
  unfold tracked. simpl. intros Ht Hr. destruct (ch_queue c) as [|y ys] eqn:Hq.
  - by rewrite ch_recv_nil in Hr.
  - destruct (ch_recv_cons _ _ _ _ Hq) as (c1 & Hr' & Hq1 & _).
    rewrite Hr in Hr'. injection Hr' as -> <-. by rewrite Hq1, <- (assoc_L (++)).
Qed.

Lemma tracked_close {A} ok (got all : list A) (c : Ch A) :
  tracked ok got all (ch_view c) → tracked ok got all (ch_view (ch_close c)).
Proof. unfold tracked. simpl. by rewrite (proj2 (ch_close_closed _ c)). Qed.

Lemma tracked_new {A} ok (c : Ch A) : ch_queue c = [] → tracked ok [] [] (ch_view c).
Proof. unfold tracked. simpl. by intros ->. Qed.
End channel.

Section order.
Context {B T R H : Type} {M Ch : Type → Type} {X : Type}.
Context `{RingBufLaws R H, BpfMapLaws M, ChannelLaws Ch, EqDecision H}.
Implicit Types s : Bpfx B T R Ch.
Implicit Types k : KState R M.
Implicit Types tr : list (label H).
Implicit Types l : loop_state B T R Ch X.

Variable attached : Probe → Prop.

(** ** The labelled steps *)

Inductive takes : label H → Bpfx B T R Ch → Bpfx B T R Ch → Prop :=
| Takes_network s n ev c : network s = Some n → ch_recv (nr_tx n) = Some (ev, c) →
    takes (Got_network ev) s (set_network (Some {| nr_filter := nr_filter n; nr_tx := c |}) s)
| Takes_process s p ev c : process s = Some p → ch_recv (pr_tx p) = Some (ev, c) →
    takes (Got_process ev) s (set_process (Some {| pr_filter := pr_filter p; pr_tx := c |}) s)
| Takes_file s f ev c : file s = Some f → ch_recv (fr_tx f) = Some (ev, c) →
    takes (Got_file ev) s (set_file (Some {| fr_filter := fr_filter f; fr_tx := c |}) s)
| Takes_mem s m ev c : mem_reg s = Some m → ch_recv (mr_tx m) = Some (ev, c) →
    takes (Got_mem ev) s (set_mem (Some {| mr_filter := mr_filter m; mr_tx := c |}) s)
| Drops_network s n : network s = Some n →
    takes Dropped s (set_network (Some {| nr_filter := nr_filter n; nr_tx := ch_close (nr_tx n) |}) s)
| Drops_process s p : process s = Some p →
    takes Dropped s (set_process (Some {| pr_filter := pr_filter p; pr_tx := ch_close (pr_tx p) |}) s)
| Drops_file s f : file s = Some f →
    takes Dropped s (set_file (Some {| fr_filter := fr_filter f; fr_tx := ch_close (fr_tx f) |}) s)
| Drops_mem s m : mem_reg s = Some m →
    takes Dropped s (set_mem (Some {| mr_filter := mr_filter m; mr_tx := ch_close (mr_tx m) |}) s).

Abbreviation sys := (Machine R H M * loop_state B T R Ch X)%type.

(** The room there is when the loop reads a record. *)
Definition rooms_of l : Rooms :=
  match l with
  | LDrain s =>
      let v := view_of s in
      {| room_network := opt_room (v_network v); room_process := opt_room (v_process v);
         room_file := opt_room (v_file v); room_mem := opt_room (v_mem v) |}
  | _ => {| room_network := true; room_process := true; room_file := true; room_mem := true |}
  end.

Inductive program_step : ring_act H RawEvent → Machine R H M → Machine R H M → Prop :=
| PStart p env k ts :
    attached p → Env_wf env → may_enter p env ts →
    program_step Quiet (mkMachine k ts) (mkMachine k (ts ++ [mkThread p env (probe_code p env)]))
| PAct a k ts1 th ts2 o c x k' :
    th_code th = Act o c → acts o k x k' → op_act o x a →
    program_step a (mkMachine k (ts1 ++ th :: ts2)) (mkMachine k' (ts1 ++ resume th (c x) :: ts2))
| PEnd k ts1 th ts2 r :
    th_code th = Done (Ok r) →
    program_step Quiet (mkMachine k (ts1 ++ th :: ts2)) (mkMachine k (ts1 ++ ts2)).

Inductive obs : label H → sys → sys → Prop :=
| ObsProgram a m m' l :
    program_step a m m' → obs (Program a) (m, l) (m', map_loop (set_ringbuf (EVENTS (kernel m'))) l)
| ObsLoop ready m l :
    obs (Turn (rooms_of l)) (m, l) (consumed m (loop_next ready l), loop_next ready l)
| ObsSubscriber a m l s s' :
    loop_runtime l = Some s → takes a s s' → obs a (m, l) (m, map_loop (fun _ => s') l).

Inductive traced (x0 : sys) : list (label H) → sys → Prop :=
| TracedNil : traced x0 [] x0
| TracedSnoc tr a x y : traced x0 tr x → obs a x y → traced x0 (tr ++ [a]) y.

(** The labelled steps are the steps of [System.v]. *)
Lemma takes_subscriber a s s' : takes a s s' → subscriber_step s s'.
Proof. destruct 1; econstructor; try done; by econstructor. Qed.

Lemma subscriber_takes s s' : subscriber_step s s' → ∃ a, takes a s s'.
Proof.
  destruct 1 as [n c E []|p c E []|f c E []|m c E []]; eexists;
    first [by eapply Takes_network|by eapply Takes_process|by eapply Takes_file|by eapply Takes_mem
          |by apply Drops_network|by apply Drops_process|by apply Drops_file|by apply Drops_mem].
Qed.

Lemma program_mstep a m m' : program_step a m m' → mstep (fun p _ => attached p) m m'.
Proof. intros []; [by apply MStart|by eapply MAct|by eapply MEnd]. Qed.

Lemma mstep_program J P m m' :
  machine_inv J P m → mstep (fun p _ => attached p) m m' → ∃ a, program_step a m m'.
Proof.
  intros Hm Hs. destruct Hs as [p env k ts Hat Hw Hent|k ts1 th ts2 o c x k' Hc Hx|k ts1 th ts2 r Hc].
  - eexists. by apply PStart.
  - destruct (mact_sound _ _ _ _ _ _ _ _ _ _ Hm Hc Hx) as (_ & a & hd & hd' & Ha & _).
    exists a. by eapply PAct.
  - eexists. by eapply PEnd.
Qed.

(** What a step of a program does to the ring buffer. *)
Lemma program_ring J P m m' a :
  machine_inv J P m → program_step a m m' →
  ∃ hd hd', ring_step P a (rb_slots (EVENTS (kernel m))) hd (rb_slots (EVENTS (kernel m'))) hd'.
Proof.
  intros Hm Hs. destruct Hs as [p env k ts _ _ _|a k ts1 th ts2 o c x k' Hc Hx Ha|k ts1 th ts2 r _].
  - exists None, None. constructor.
  - destruct (mact_sound _ _ _ _ _ _ _ _ _ _ Hm Hc Hx) as (_ & a' & hd & hd' & Ha' & Hr).
    rewrite (op_act_fun _ _ _ _ Ha' Ha) in Hr. by exists hd, hd'.
  - exists None, None. constructor.
Qed.

Lemma program_history J P m m' a hist :
  machine_inv J P m → program_step a m m' →
  rb_slots (EVENTS (kernel m)) = slot_map raw_put <$> hist →
  rb_slots (EVENTS (kernel m')) = slot_map raw_put <$> ring_history hist a ∧
  (Forall raw_ok (values hist) → Forall raw_ok (values (ring_history hist a))).
Proof.
  intros Hm Hs Hh. destruct (program_ring _ _ _ _ _ Hm Hs) as (hd & hd' & Hr).
  rewrite Hh in Hr. by eapply ring_step_history.
Qed.

Lemma obs_step a x y : obs a x y → sys_step attached x y.
Proof.
  destruct 1 as [a m m' l Hs|ready m l|a m l s s' Hl Hs].
  - by eapply SysProgram, program_mstep.
  - apply SysLoop.
  - eapply SysSubscriber; [done|]. by eapply takes_subscriber.
Qed.

Lemma step_obs net x y :
  sys_inv (fun _ => True) (fun _ => True) net x → sys_step attached x y → ∃ a, obs a x y.
Proof.
  intros (Hm & _). destruct 1 as [m m' l Hs|ready m l|m l s s' Hl Hs].
  - destruct (mstep_program _ _ _ _ Hm Hs) as [a Ha]. eexists. by apply ObsProgram.
  - eexists. apply ObsLoop.
  - apply subscriber_takes in Hs as [a Hs]. exists a. by eapply ObsSubscriber.
Qed.

Lemma traced_reach x0 tr x : traced x0 tr x → rtc (sys_step attached) x0 x.
Proof. induction 1; [done|]. eapply rtc_r; [done|]. by eapply obs_step. Qed.

Lemma reach_traced x0 x : sys_init attached x0 → rtc (sys_step attached) x0 x → ∃ tr, traced x0 tr x.
Proof.
  intros Hi Hx. revert x Hx. refine (rtc_ind_r _ _ _ _); [eexists; constructor|].
  intros y z Hy Hyz [tr Htr].
  destruct (sys_reach_inv attached y) as (net & _ & Hinv); [by exists x0|].
  destruct (step_obs net y z Hinv Hyz) as [a Ha]. exists (tr ++ [a]). by econstructor.
Qed.

Lemma obs_program a m m' l :
  program_step a m m' →
  obs (Program a) (m, map_loop (set_ringbuf (EVENTS (kernel m))) l)
    (m', map_loop (set_ringbuf (EVENTS (kernel m'))) l).
Proof.
  intros Hs. apply (ObsProgram _ _ _ (map_loop (set_ringbuf (EVENTS (kernel m))) l)) in Hs.
  by rewrite map_loop_ring in Hs.
Qed.

(** A program that has the machine for itself, and what its operations do. *)
Fixpoint code_bytes {A} (c : K H A) k : list (ring_act H mem) :=
  match c with
  | Done _ => []
  | Act o c => op_bytes o (kact o k).1 :: code_bytes (c (kact o k).1) (kact o k).2
  end.

Lemma traced_code x0 tr p env (c : K H Z) k ts r k' l acts :
  run_code c k = (Ok r, k') → code_bytes c k = act_bytes <$> acts → Forall act_ok acts →
  traced x0 tr (mkMachine k (ts ++ [mkThread p env c]), map_loop (set_ringbuf (EVENTS k)) l) →
  traced x0 (tr ++ (Program <$> acts ++ [Quiet])) (mkMachine k' ts, map_loop (set_ringbuf (EVENTS k')) l).
Proof.
  revert tr k acts. induction c as [o|o c IH]; intros tr k acts Hr Ha Hok Ht; simpl in Hr.
  - destruct acts; [|done]. injection Hr as -> ->. eapply TracedSnoc; [exact Ht|].
    apply (obs_program _ (mkMachine k' _) (mkMachine k' ts)). rewrite <- (app_nil_r ts) at 2.
    by eapply PEnd.
  - destruct acts as [|a acts]; [done|]. csimpl in Ha. injection Ha as Ha Has.
    inversion Hok as [|?? Hok1 Hok2]; subst.
    destruct (kact o k) as [x k1] eqn:Hx. simpl in *. rewrite (cons_middle (Program a)), (assoc_L (++)).
    eapply (IH x); [exact Hr|exact Has|exact Hok2|]. eapply TracedSnoc; [exact Ht|].
    apply (obs_program _ (mkMachine k _) (mkMachine k1 _)).
    apply (PAct a k ts (mkThread p env (Act o c)) [] o c x k1); [done|by left|done].
Qed.

Lemma traced_alone x0 tr p env k r k' l acts :
  attached p → Env_wf env → run_probe p env k = (Ok r, k') →
  code_bytes (probe_code p env) k = act_bytes <$> acts → Forall act_ok acts →
  traced x0 tr (mkMachine k [], map_loop (set_ringbuf (EVENTS k)) l) →
  traced x0 (tr ++ (Program <$> Quiet :: acts ++ [Quiet]))
    (mkMachine k' [], map_loop (set_ringbuf (EVENTS k')) l).
Proof.
  intros Hat Hw Hr Ha Hok Ht. csimpl. rewrite (cons_middle (Program Quiet)), (assoc_L (++)).
  apply (traced_code _ _ p env (probe_code p env) k [] r); [done..|].
  eapply TracedSnoc; [exact Ht|].
  apply (obs_program _ (mkMachine k []) (mkMachine k _)), PStart; [done..|].
  right. by intros (th & Hth%not_elem_of_nil & _).
Qed.

(** ** The invariant *)

(** The channels against the records that were dispatched. *)
Definition followed (tr : list (label H)) (es : list RawEvent) (v : view) : Prop :=
  tracked_opt (kept_up room_network tr) (got_network tr) (omap net_event es) (v_network v) ∧
  tracked_opt (kept_up room_process tr) (got_process tr) (omap process_event es) (v_process v) ∧
  tracked_opt (kept_up room_file tr) (got_file tr) (file_events ∅ es) (v_file v) ∧
  tracked_opt (kept_up room_mem tr) (got_mem tr) (omap mem_event es) (v_mem v) ∧
  (is_Some (v_file v) → v_pending v = pendings_after ∅ es).

Ltac unfold_followed :=
  unfold followed, got_network, got_process, got_file, got_mem in *;
  rewrite ?omap_snoc, ?kept_up_snoc.

Lemma followed_dispatch tr es s v e :
  v = view_of s → followed tr es v →
  followed (tr ++ [Turn (rooms_of (LDrain s))]) (es ++ [e]) (spec_dispatch v e).
Proof.
  intros -> (Hn & Hp & Hf & Hm & Hpd). unfold_followed. rewrite file_events_app.
  cbn [file_events option_list]. rewrite !app_nil_r. unfold spec_dispatch, rooms_of.
  cbn [room_network room_process room_file room_mem v_network v_process v_file v_mem v_pending].
  split_and!; try by apply tracked_opt_send.
  - destruct (v_file (view_of s)) as [c|] eqn:E; [|done]. rewrite Hpd by by eexists.
    by apply (tracked_opt_send _ _ _ (Some c)).
  - intros [c Hc]%fmap_is_Some. rewrite Hc, Hpd by by eexists.
    unfold pendings_after. by rewrite foldl_app.
Qed.

Lemma followed_label tr a es v :
  match a with Program _ | Turn _ | Dropped => True | _ => False end →
  followed tr es v → followed (tr ++ [a]) es v.
Proof.
  intros Ha (Hn & Hp & Hf & Hm & Hpd). unfold_followed.
  destruct a; try done; simpl; rewrite !app_nil_r; split_and!; try done; by apply tracked_opt_less.
Qed.

Lemma followed_takes tr a es s s' :
  takes a s s' → followed tr es (view_of s) → followed (tr ++ [a]) es (view_of s').
Proof.
  unfold_followed. unfold tracked_opt, view_of.
  destruct 1 as [s n ev c E Hc|s n ev c E Hc|s n ev c E Hc|s n ev c E Hc|s n E|s n E|s n E|s n E];
    simpl; rewrite E, ?app_nil_r, ?andb_true_r; intros (Hn & Hp & Hf & Hm & Hpd); split_and!; try done.
  all: try (intros ? [= <-];
            first [eapply tracked_recv; [|exact Hc]; by eauto|apply tracked_close; by eauto]).
  all: intros _; apply Hpd; by eexists.
Qed.

Definition order_inv (tr : list (label H)) (x : sys) : Prop :=
  ∃ dispatched left,
    history tr = (Committed <$> dispatched) ++ left ∧ Forall raw_ok (values left) ∧
    rb_slots (EVENTS (kernel x.1)) = slot_map raw_put <$> left ∧
    ∀ s, loop_runtime x.2 = Some s → followed tr dispatched (view_of s).

Abbreviation inv net := (sys_inv (B := B) (T := T) (R := R) (H := H) (M := M) (Ch := Ch) (X := X)
                           (fun _ => True) (fun _ => True) net).

Lemma order_program net tr a m m' l :
  inv net (m, l) → order_inv tr (m, l) → program_step a m m' →
  order_inv (tr ++ [Program a]) (m', map_loop (set_ringbuf (EVENTS (kernel m'))) l).
Proof.
  intros (Hm & _) (dispatched & left & Hh & Hok & Hs & Hf) Ha. simpl in *.
  destruct (program_history _ _ _ _ _ _ Hm Ha Hs) as [Hs' Hok'].
  exists dispatched, (ring_history left a). rewrite history_snoc, Hh.
  split_and!; [apply ring_history_committed|by apply Hok'|done|].
  intros s (s0 & Hs0 & ->)%map_loop_runtime. apply followed_label; [done|]. exact (Hf s0 Hs0).
Qed.

Lemma order_loop net tr ready m l :
  inv net (m, l) → order_inv tr (m, l) →
  order_inv (tr ++ [Turn (rooms_of l)]) (consumed m (loop_next ready l), loop_next ready l).
Proof.
  intros Hi (dispatched & left & Hh & Hok & Hs & Hf). unfold order_inv. rewrite history_snoc.
  destruct (loop_turn _ _ net ready m l Hi)
    as [(r & -> & _ & _ & ->)|[(s & Hl & Hl' & ->)|(s & s' & r & e & -> & -> & Hnx & He & _ & -> & Hv & _)]].
  - exists dispatched, left. by split_and!.
  - exists dispatched, left. split_and!; [done..|]. intros s' Hs'. apply followed_label; [done|].
    assert (s' = s) as -> by (simpl in Hs'; destruct Hl' as [Hl'|Hl']; rewrite Hl' in Hs'; by simplify_eq/=).
    by apply Hf.
  - simpl in *. destruct (rb_next_cases (EVENTS (kernel m))) as [[Hnx' _]|(x & xs & r' & Hnx' & Hc & Hr)];
      [congruence|]. rewrite Hnx in Hnx'. injection Hnx' as <- <-. rewrite Hs in Hc.
    apply fmap_cons_inv in Hc as ([h n|e'] & left' & He' & Hxs & ->); [done|].
    injection He' as He'. inversion Hok as [|?? Hok1 Hok2]; subst.
    apply raw_put_inj in He' as <-; [|done..].
    exists (dispatched ++ [e]), left'. split_and!; [|done|done|].
    + by rewrite Hh, fmap_app, <- (assoc_L (++)).
    + intros ? [= <-]. rewrite Hv. eapply followed_dispatch; [done|]. by apply Hf.
Qed.

Lemma order_obs net tr a x y :
  inv net x → order_inv tr x → obs a x y → order_inv (tr ++ [a]) y.
Proof.
  intros Hinv Ho. destruct 1 as [a m m' l Hs|ready m l|a m l s s' Hl Hs].
  - by eapply order_program.
  - by eapply order_loop.
  - destruct Ho as (dispatched & left & Hh & Hok & Hi & Hf). exists dispatched, left.
    rewrite history_snoc. simpl in *. split_and!; [by destruct Hs|done|done|].
    intros s1 (s0 & _ & ->)%map_loop_runtime. eapply followed_takes; [done|]. by apply Hf.
Qed.

Lemma order_traced m0 s0 tr x :
  sys_init (X := X) attached (m0, LWait s0) → new_channels s0 →
  traced (m0, LWait s0) tr x → order_inv tr x.
Proof.
  intros Hinit (Hn & Hp & Hf & Hm) Htr. induction Htr as [|tr a x y Htr IH Ha].
  - destruct Hinit as (s & Hl & _ & _ & Hs & _ & Hpd & _). simpl in *. injection Hl as <-.
    exists [], []. split_and!; [done..|]. intros s [= <-].
    split_and!; [..|done]; intros c (r & Hr & ->)%fmap_Some; simpl; apply tracked_new; auto.
  - destruct (sys_reach_inv attached x) as (net & _ & Hinv).
    { eexists. split; [exact Hinit|]. by eapply traced_reach. }
    by eapply order_obs.
Qed.

(** What a subscriber has received, with what waits for it, against the events
    of all records that were reported. *)
Definition in_order {A} (got all : list A) (complete : Prop) (c : Ch A) : Prop :=
  got ++ ch_queue c `sublist_of` all ∧ (complete → got ++ ch_queue c = all).

Lemma tracked_in_order {A} ok (got all all' : list A) (drained : Prop) (c : Ch A) :
  tracked ok got all (ch_view c) → all `sublist_of` all' → (drained → all' = all) →
  in_order got all' (drained ∧ ok = true) c.
Proof.
  intros [Hs He] Hsub Hall. split; [by etrans|].
  intros [Hdr Hok]. rewrite (Hall Hdr). by apply He.
Qed.

(** (C6) Whatever the interleaving, each subscriber receives the events of the
    submitted records in the order in which their entries were reserved: what it
    received followed by what waits in its channel is a subsequence of them, so
    that no event comes twice, out of order, or without its record.  Once the
    buffer holds no record nothing is missing for a subscriber that kept up: one
    whose channel was open and had room at every turn in which the loop read a
    record. *)
Theorem delivered_in_order m0 s0 tr m l s :
  sys_init (X := X) attached (m0, LWait s0) → new_channels s0 →
  traced (m0, LWait s0) tr (m, l) → loop_runtime l = Some s →
  let es := records tr in
  let drained := rb_items (EVENTS (kernel m)) = [] in
  (∀ r, network s = Some r →
     in_order (got_network tr) (omap net_event es)
       (drained ∧ kept_up room_network tr = true) (nr_tx r)) ∧
  (∀ r, process s = Some r →
     in_order (got_process tr) (omap process_event es)
       (drained ∧ kept_up room_process tr = true) (pr_tx r)) ∧
  (∀ r, file s = Some r →
     in_order (got_file tr) (file_events ∅ es) (drained ∧ kept_up room_file tr = true) (fr_tx r)) ∧
  (∀ r, mem_reg s = Some r →
     in_order (got_mem tr) (omap mem_event es) (drained ∧ kept_up room_mem tr = true) (mr_tx r)).
Proof.
  intros Hinit Hch Htr Hl es drained.
  destruct (order_traced _ _ _ _ Hinit Hch Htr) as (dispatched & left & Hh & _ & Hleft & Hf).
  assert (Hes : es = dispatched ++ values left).
  { unfold es, records. by rewrite Hh, values_app, values_committed. }
  rewrite Hes. clear es Hes.
  assert (Hdr : drained → values left = []).
  { unfold drained, rb_items. simpl in Hleft. rewrite Hleft, values_map. by intros ?%fmap_nil_inv. }
  specialize (Hf s Hl). destruct Hf as (Hn & Hp & Hf & Hm & _). unfold view_of in *. simpl in *.
  rewrite !omap_app, file_events_app.
  split_and!; intros r Hr; rewrite Hr in *; simpl in *;
    (eapply tracked_in_order;
      [by first [apply Hn|apply Hp|apply Hf|apply Hm]|apply sublist_inserts_r; reflexivity|
       intros Hd; rewrite (Hdr Hd); simpl; by rewrite app_nil_r]).
Qed.
End order.

(** ** A read, received *)

Definition read_received : Bpfx unit unit list_ring chan_view :=
  set_file (Some {| fr_filter := fr_filter read_channel; fr_tx := ChanView [] 8 false |}) read_end.

Definition all_room : Rooms :=
  {| room_network := true; room_process := true; room_file := true; room_mem := true |}.
Definition read_acts : list (ring_act nat RawEvent) :=
  [Reserve 0%nat (size_of RawFileReadEvent_codec); Quiet; Quiet; Quiet; Quiet; Submit 0%nat read_event].
Definition read_trace : list (label nat) :=
  (((([] ++ (Program <$> Quiet :: [Quiet; Quiet; Quiet] ++ [Quiet])) ++ (Program <$> Quiet :: read_acts ++ [Quiet])) ++
    [Turn all_room]) ++ [Turn all_room]) ++ [Got_file read_delivered].

Lemma read_event_ok : raw_ok read_event.
Proof.
  apply (probe_event_ok P_vfs_read open_env opened_state); [apply open_env_wf|apply opened_state_wf|].
  vm_compute. reflexivity.
Qed.

Abbreviation read_start := (mkMachine open_state [], LWait (X := unit) read_runtime).

Lemma opened_traced :
  traced read_attached read_start ([] ++ (Program <$> Quiet :: [Quiet; Quiet; Quiet] ++ [Quiet]))
    (mkMachine opened_state [], map_loop (set_ringbuf (EVENTS opened_state)) (LWait read_runtime)).
Proof.
  apply (traced_alone read_attached read_start [] P_file_open open_env open_state 0 opened_state
           (LWait read_runtime) [Quiet; Quiet; Quiet]).
  - apply (bool_decide_unpack _). vm_compute. exact I.
  - apply open_env_wf.
  - apply opened_run.
  - reflexivity.
  - by repeat constructor.
  - apply TracedNil.
Qed.

Lemma read_traced :
  traced read_attached read_start read_trace (read_machine, LDrain read_received).
Proof.
  eapply TracedSnoc; [eapply TracedSnoc; [eapply TracedSnoc; [|]|]|].
  - apply (traced_alone read_attached read_start _ P_vfs_read open_env opened_state 0 read_state
             (LWait read_runtime) read_acts).
    + apply (bool_decide_unpack _). vm_compute. exact I.
    + apply open_env_wf.
    + apply read_run.
    + vm_compute. reflexivity.
    + repeat constructor; apply read_event_ok.
    + apply opened_traced.
  - apply (ObsLoop read_attached (inl tt) (mkMachine read_state []) (read_loop 0)).
  - exact (ObsLoop read_attached (inl tt) (consumed (mkMachine read_state []) (read_loop 1)) (read_loop 1)).
  - match goal with |- obs _ _ ?x ?y =>
      replace x with (read_machine, read_loop 2) by (vm_compute; reflexivity);
      replace y with (read_machine, map_loop (fun _ => read_received) (read_loop 2))
        by (vm_compute; reflexivity)
    end.
    apply (ObsSubscriber _ _ _ _ read_end); [vm_compute; reflexivity|].
    apply (Takes_file read_end read_channel read_delivered (ChanView [] 8 false));
      vm_compute; reflexivity.
Qed.

Lemma delivered_in_order_witness : [read_delivered] = file_events ∅ [read_event].
Proof.
  destruct (delivered_in_order (X := unit) read_attached (mkMachine open_state []) read_runtime read_trace
              read_machine (LDrain read_received) read_received) as (_ & _ & Hf & _).
  - apply read_started.
  - by split_and!; intros ? [= <-].
  - exact read_traced.
  - reflexivity.
  - destruct (Hf {| fr_filter := FileFilter_READ; fr_tx := ChanView [] 8 false |} eq_refl) as [_ He].
    apply He. split; vm_compute; reflexivity.
Defined.
