(* ===== verification/Typing.v ===== *)
(** * The types of the events

    In the model an integer field is a [Z] and a [String] a sequence of bytes;
    the predicates of this file say which of them are values of the Rust types
    ([EventHeader] of [src/common.rs], the event structs of [src/network.rs],
    [src/process.rs], [src/file.rs] and [src/memory.rs]).  The converters only
    build such values ([*_typed] for the event of a record), so every event in
    a channel is one ([events_typed]). *)

From stdpp Require Import relations.
From S2P Require Import Prelude Utf8 Raw Layout Events Interfaces Ebpf KernelSpec KernelProofs KernelInv Machine ProgramLogic MachineInv.
From S2P Require Import Common Process Memory Network File Convert ConvertSpec Runtime RuntimeProofs.
From S2P Require Import KernelTheorems System Delivery.

#[local] Open Scope Z_scope.

(** ** Values of the Rust types *)

Definition header_typed (h : EventHeader) : Prop :=
  in_u 64 (eh_timestamp_ns h) ∧ in_u 32 (eh_pid h) ∧ in_u 32 (eh_tid h) ∧ in_u 32 (eh_ppid h) ∧
  in_u 32 (eh_uid h) ∧ in_u 32 (eh_gid h) ∧ valid_string (eh_comm h).

Definition ip_typed (a : IpAddr) : Prop :=
  match a with IpAddr_V4 o => length o = 4%nat | IpAddr_V6 o => length o = 16%nat end.

Definition endpoints_typed (e : SocketEndpoints) : Prop :=
  ip_typed (local_ip e) ∧ in_u 16 (local_port e) ∧ ip_typed (remote_ip e) ∧ in_u 16 (remote_port e).

Definition network_typed (e : NetworkEvent) : Prop :=
  header_typed (NetworkEvent_header e) ∧ endpoints_typed (NetworkEvent_endpoints e) ∧
  match e with
  | NetworkEvent_Connect e => in_s 32 (ce_retval e)
  | NetworkEvent_Bind e => in_s 32 (be_retval e)
  | NetworkEvent_Listen e => in_s 32 (le_retval e)
  | NetworkEvent_Accept _ | NetworkEvent_Close _ => True
  end.

Definition process_typed (e : ProcessEvent) : Prop :=
  header_typed (ProcessEvent_header e) ∧
  match e with
  | ProcessEvent_Start e => valid_string (pse_filename e)
  | ProcessEvent_Fork e => in_u 32 (pfe_child_pid e) ∧ valid_string (pfe_child_comm e)
  | ProcessEvent_Exit e => in_s 32 (pxe_exit_code e)
  end.

Definition file_typed (e : FileEvent) : Prop :=
  header_typed (FileEvent_header e) ∧
  match e with
  | FileEvent_Open e =>
      valid_string (foe_file_path e) ∧ in_u 64 (foe_inode e) ∧ in_s 32 (foe_retval e) ∧
      in_u 32 (foe_flags e)
  | FileEvent_Close e =>
      valid_string (fce_file_path e) ∧ in_u 64 (fce_inode e) ∧ in_s 32 (fce_retval e) ∧
      in_u 32 (fce_flags e)
  | FileEvent_Read e =>
      valid_string (fre_file_path e) ∧ in_u 64 (fre_inode e) ∧ in_s 64 (fre_retval e) ∧
      in_u 32 (fre_flags e)
  | FileEvent_Write e =>
      valid_string (fwe_file_path e) ∧ in_u 64 (fwe_inode e) ∧ in_s 64 (fwe_retval e) ∧
      in_u 32 (fwe_flags e)
  | FileEvent_Delete e => valid_string (fde_filename e) ∧ in_s 32 (fde_retval e)
  | FileEvent_Rename e =>
      valid_string (fne_old_filename e) ∧ valid_string (fne_new_filename e) ∧
      in_u 32 (fne_flags e) ∧ in_s 32 (fne_retval e)
  end.

Definition mem_typed (e : MemoryEvent) : Prop :=
  header_typed (MemoryEvent_header e) ∧
  match e with
  | MemoryEvent_MemoryMap e =>
      in_u 64 (mme_requested_address e) ∧ in_u 64 (mme_length e) ∧ in_u 32 (mme_protection e) ∧
      in_u 32 (mme_flags e) ∧ in_u 64 (mme_mapped_address e)
  | MemoryEvent_MemoryUnMap e =>
      in_u 64 (mue_requested_address e) ∧ in_u 64 (mue_length e) ∧ in_u 64 (mue_mapped_address e)
  end.

(** ** The events of well-formed records *)

Lemma convert_header_typed h : wf RawEventHeader_codec h → header_typed (convert_header h).
Proof.
  intros Hw. cbn in Hw. destruct_and! Hw. unfold header_typed. simpl.
  split_and!; try done. apply lossy_cstr_valid.
Qed.

Lemma event_endpoints_typed e : raw_wf (RawNet e) → endpoints_typed (event_endpoints e).
Proof.
  intros Hw. cbn in Hw. destruct_and! Hw. unfold endpoints_typed, event_endpoints. simpl.
  split_and!; try done; destruct (pc_ip_version e); simpl; try done; rewrite length_take; lia.
Qed.

Lemma pc_retval_typed e r : raw_wf (RawNet e) → pc_retval e = Some r → in_s 32 r.
Proof. intros Hw Hr. cbn in Hw. destruct_and! Hw. by rewrite Hr in *. Qed.

Lemma net_event_typed e ev : raw_ok e → net_event e = Some ev → network_typed ev.
Proof.
  destruct e as [e| | | | | | | | | | | |]; try done. intros [Hw _] Hev.
  pose proof (convert_header_typed _ (raw_wf_header _ Hw)) as Hh.
  pose proof (event_endpoints_typed _ Hw) as He. pose proof (pc_retval_typed e) as Hr.
  simpl in Hev. destruct (rh_event_type (pc_header e)), (pc_retval e) as [r|]; simplify_eq;
    (split; [exact Hh|split; [exact He|]]); simpl; auto.
Qed.

Ltac typed_event :=
  intros [Hw _] Hev; pose proof (convert_header_typed _ (raw_wf_header _ Hw)) as Hh;
  simpl in Hev; simplify_eq; split; [exact Hh|]; cbn in Hw; destruct_and! Hw; simpl;
  split_and?; try done; apply lossy_cstr_valid.

Lemma process_event_typed e ev : raw_ok e → process_event e = Some ev → process_typed ev.
Proof. destruct e; try done; typed_event. Qed.

Lemma mem_event_typed e ev : raw_ok e → mem_event e = Some ev → mem_typed ev.
Proof. destruct e; try done; typed_event. Qed.

Lemma paired_rename_typed r t :
  raw_ok (RawRename r) → raw_ok (RawRtr t) → file_typed (paired_rename r t).
Proof.
  intros [Hr _] [Ht _]. pose proof (convert_header_typed _ (raw_wf_header _ Hr)) as Hh.
  split; [exact Hh|]. cbn in Hr, Ht. destruct_and! Hr. destruct_and! Ht. simpl.
  split_and!; try done; apply lossy_cstr_valid.
Qed.

Lemma file_event_typed e pd ev :
  raw_ok e → rename_origins raw_ok pd → file_event pd e = Some ev → file_typed ev.
Proof.
  intros He Hpd. revert He. destruct e as [ | | | |e|e|e|e|e|e|t| | ]; try done; try typed_event.
  intros Ht (r & Hr & ->)%fmap_Some. apply paired_rename_typed; [|done]. by apply (Hpd _ _ Hr).
Qed.

Section typing.
Context {B T R H : Type} {M Ch : Type → Type} {X : Type}.
Context `{RingBufLaws R H, BpfMapLaws M, ChannelLaws Ch}.
Implicit Types s : Bpfx B T R Ch.
Implicit Types k : KState R M.
Implicit Types l : loop_state B T R Ch X.

(** (C12) Every event in a channel is a value of its Rust type: each integer is in
    the range of its field, each string is valid UTF-8 and each address has its
    4 or 16 octets, whatever bytes the programs found in the kernel. *)
Theorem events_typed attached m0 s0 m l s :
  sys_init (X := X) attached (m0, LWait s0) → new_channels s0 →
  rtc (sys_step (H := H) (M := M) attached) (m0, LWait s0) (m, l) → loop_runtime l = Some s →
  (∀ r ev, network s = Some r → ev ∈ ch_queue (nr_tx r) → network_typed ev) ∧
  (∀ r ev, process s = Some r → ev ∈ ch_queue (pr_tx r) → process_typed ev) ∧
  (∀ r ev, file s = Some r → ev ∈ ch_queue (fr_tx r) → file_typed ev) ∧
  (∀ r ev, mem_reg s = Some r → ev ∈ ch_queue (mr_tx r) → mem_typed ev).
Proof.
  intros Hinit Hch Hx Hl.
  pose proof Hinit as (net & Hnet & Hinv)%(sys_init_inv _ (fun _ => True) (fun _ => True)); [|done..].
  eapply (delivery_reach raw_ok attached (fun _ => True) (fun _ => True)) in Hx as (_ & Hd);
    [|clear Hx|exact Hnet|exact Hinv|].
  2: { intros p env k e _ Hw (Hm & _). by apply probe_event_ok. }
  2: { destruct m0 as [k ts]. destruct Hinit as (s1 & [= <-] & _ & Ht & Hs & Hm & Hpd & _). simpl in *. subst.
       split; [by apply machine_inv_start|]. intros ? [= <-]. by apply delivered_new. }
  destruct (Hd s Hl) as (Hn & Hp & Hf & Hm & _).
  split_and!; intros r ev Hr Hev.
  - eapply queued_elem in Hn as (e & He & Hev'); [|done..]. by eapply net_event_typed.
  - eapply queued_elem in Hp as (e & He & Hev'); [|done..]. by eapply process_event_typed.
  - eapply queued_elem in Hf as (e & pd & He & Hpd & Hev'); [|done..]. by eapply file_event_typed.
  - eapply queued_elem in Hm as (e & He & Hev'); [|done..]. by eapply mem_event_typed.
Qed.
End typing.

Lemma events_typed_witness : file_typed read_delivered.
Proof.
  destruct (events_typed (X := unit) read_attached (mkMachine open_state []) read_runtime read_machine (read_loop 2)
              read_end) as (_ & _ & Hf & _).
  - apply read_started.
  - by split_and!; intros ? [= <-].
  - apply read_reach.
  - vm_compute. reflexivity.
  - apply (Hf read_channel); [vm_compute; reflexivity|vm_compute; apply list_elem_of_here].
Defined.
