(* ===== verification/Wakeup.v ===== *)
(** * No lost wake-up

    [System.v] lets the task take a turn at any time.  In the program it sleeps
    in [async_fd.readable().await], and goes on when the kernel has signalled the
    ring buffer and the I/O driver of tokio has passed that on; after it emptied
    the buffer it calls [ready.clear_ready()] and sleeps again.  This file adds
    that protocol: whatever the interleaving, if the task sleeps while a record is
    readable, then a wake-up is owed to it ([no_lost_wakeup]), so that the loop
    gets to every readable record by itself. *)

From stdpp Require Import relations.
From S2P Require Import Prelude Utf8 Raw Layout Events Interfaces Ebpf KernelSpec KernelProofs KernelInv Machine ProgramLogic MachineInv.
From S2P Require Import Common Process Memory Network File Convert ConvertSpec Runtime RuntimeProofs.
From S2P Require Import KernelTheorems Attach AttachSpec AttachTheorems System Delivery Object Session Resubscribe Order.

#[local] Open Scope Z_scope.

(** ** The positions of the ring buffer

    The entries between the position of the consumer and that of the producers.
    A discarded entry stays until the consumer passes it; [rb_slots] are the
    other ones. *)

Inductive mark (H : Type) := MBusy (h : H) | MDone | MGone.
#[global] Arguments MBusy {H}.
#[global] Arguments MDone {H}.
#[global] Arguments MGone {H}.

#[global] Instance mark_eq_dec {H} `{EqDecision H} : EqDecision (mark H).
Proof. solve_decision. Defined.

Section marks.
Context {H : Type} `{EqDecision H}.
Implicit Types l : list (mark H).

Fixpoint mark_settle (h : H) (new : mark H) l : list (mark H) :=
  match l with
  | [] => []
  | x :: l => if decide (x = MBusy h) then new :: l else x :: mark_settle h new l
  end.

Definition mark_act {A} (a : ring_act H A) l : list (mark H) :=
  match a with
  | Reserve h _ => l ++ [MBusy h]
  | Submit h _ => mark_settle h MDone l
  | Discard h => mark_settle h MGone l
  | Quiet => l
  end.

(** [RingBuf::next]: the consumer passes what was discarded, and a committed
    entry, which it returns. *)
Fixpoint mark_next l : list (mark H) :=
  match l with
  | MGone :: l => mark_next l
  | MDone :: l => l
  | _ => l
  end.

(** The consumer has caught up: it is at the end, or at an entry that is still
    reserved. *)
Definition caught_up l : Prop :=
  match l with [] => True | MBusy _ :: _ => True | _ => False end.

Definition slot_mark {A} (x : slot H A) : mark H :=
  match x with Busy h _ => MBusy h | Committed _ => MDone end.
Definition kept_mark (x : mark H) : option (mark H) :=
  match x with MGone => None | _ => Some x end.

(** The marks stand for the slots. *)
Definition marks_of {A} (slots : list (slot H A)) l : Prop := omap kept_mark l = slot_mark <$> slots.

Lemma mark_settle_middle h new l1 l2 :
  MBusy h ∉ l1 → mark_settle h new (l1 ++ MBusy h :: l2) = l1 ++ new :: l2.
Proof.
  induction l1 as [|x l1 IH]; simpl; [by rewrite decide_True|]. intros [Hx Hl]%not_elem_of_cons.
  rewrite decide_False, IH; congruence.
Qed.

Lemma omap_middle_inv l (l1 l2 : list (mark H)) x :
  omap kept_mark l = l1 ++ x :: l2 →
  ∃ k1 k2, l = k1 ++ x :: k2 ∧ omap kept_mark k1 = l1 ∧ omap kept_mark k2 = l2.
Proof.
  revert l1. induction l as [|y l IH]; intros l1; simpl; [by destruct l1|].
  assert (Hk : kept_mark y = Some y ∨ y = MGone) by (destruct y; auto).
  destruct Hk as [Hk| ->]; [rewrite Hk|]; intros Hl.
  - destruct l1 as [|w l1]; injection Hl as <- Hl; [by exists [], l|].
    apply IH in Hl as (k1 & k2 & -> & <- & <-). exists (y :: k1), k2. simpl. by rewrite Hk.
  - apply IH in Hl as (k1 & k2 & -> & <- & <-). by exists (MGone :: k1), k2.
Qed.

Lemma marks_middle {A} (s1 s2 : list (slot H A)) h n l :
  marks_of (s1 ++ Busy h n :: s2) l → h ∉ (busy s1).*1 →
  ∃ l1 l2, l = l1 ++ MBusy h :: l2 ∧ MBusy h ∉ l1 ∧ marks_of s1 l1 ∧ marks_of s2 l2.
Proof.
  unfold marks_of. rewrite fmap_app. csimpl. intros (l1 & l2 & -> & H1 & H2)%omap_middle_inv Hn.
  exists l1, l2. split_and!; [done| |done|done]. intros Hin. apply Hn.
  assert (Hx : MBusy h ∈ slot_mark <$> s1).
  { rewrite <- H1. apply list_elem_of_omap. by exists (MBusy h). }
  apply list_elem_of_fmap in Hx as ([h' n'|] & Hh & Hx); simplify_eq/=.
  apply list_elem_of_fmap. exists (h', n'). split; [done|].
  apply list_elem_of_omap. by exists (Busy h' n').
Qed.

Lemma marks_app {A} (s1 s2 : list (slot H A)) l1 l2 :
  marks_of s1 l1 → marks_of s2 l2 → marks_of (s1 ++ s2) (l1 ++ l2).
Proof. unfold marks_of. rewrite omap_app, fmap_app. congruence. Qed.

Lemma marks_done {A} (a : A) s l : marks_of s l → marks_of (Committed a :: s) (MDone :: l).
Proof.
  unfold marks_of. intros Hl. change (MDone :: omap kept_mark l = MDone :: (slot_mark <$> s)).
  by rewrite Hl.
Qed.

Lemma marks_act (P : RawEvent → Prop) a (s s' : list (slot H mem)) hd hd' l :
  ring_step P a s hd s' hd' → marks_of s l → marks_of s' (mark_act a l).
Proof.
  destruct 1 as [s hd|s h n _|s1 s2 h n e _ _ Hn|s1 s2 h n Hn]; simpl; intros Hl.
  - done.
  - by apply marks_app.
  - destruct (marks_middle _ _ _ _ _ Hl Hn) as (l1 & l2 & -> & Hm & H1 & H2).
    rewrite mark_settle_middle by done. by apply marks_app, marks_done.
  - destruct (marks_middle _ _ _ _ _ Hl Hn) as (l1 & l2 & -> & Hm & H1 & H2).
    rewrite mark_settle_middle by done. by apply marks_app.
Qed.

(** What [next] finds. *)
Lemma marks_next {A} (s : list (slot H A)) l :
  marks_of s l →
  match s with
  | Committed _ :: s => marks_of s (mark_next l)
  | _ => marks_of s (mark_next l) ∧ caught_up (mark_next l)
  end.
Proof.
  unfold marks_of. induction l as [|[h| |] l IH]; simpl; intros Hl.
  - by destruct s as [|[]].
  - by destruct s as [|[]].
  - destruct s as [|[]]; simplify_eq/=. done.
  - by apply IH.
Qed.

Lemma caught_up_visible {A} (s : list (slot H A)) l : marks_of s l → caught_up l → readable s = [].
Proof.
  unfold marks_of. destruct l as [|[h| |] l]; simpl; try done; destruct s as [|[]]; done.
Qed.

Lemma caught_up_reserve l h : caught_up l → caught_up (l ++ [MBusy h]).
Proof. by destruct l as [|[]]. Qed.

Lemma caught_up_settle l h new :
  caught_up l → caught_up (mark_settle h new l) ∨ head l = Some (MBusy h).
Proof. destruct l as [|[h'| |] l]; simpl; try (by auto). case_decide; simplify_eq; auto. Qed.
End marks.

(** ** Signals and readiness

    The wait queue of the ring buffer, the epoll instance, and tokio's [AsyncFd]
    with its guards: a state [W] with the operations of each, and the documented
    promises that the loop relies on. *)

Class WakeOps (W G : Type) := {
  (** The kernel signals the waiters of the ring buffer. *)
  wk_signal : W → W;
  (** The I/O driver takes a turn; the argument says whether the file descriptor
      is readable then. *)
  wk_driver : bool → W → W;
  (** Whether [readable()] goes on, the guard it gives, and [clear_ready]. *)
  wk_ready : W → bool;
  wk_guard : W → G;
  wk_clear : G → W → W;
  (** A guard made in the past, a signal that was not cleared, and one that came
      after a guard. *)
  wk_held : G → W → Prop;
  wk_owed : W → Prop;
  wk_since : G → W → Prop;
}.

Class WakeLaws (W G : Type) `{!WakeOps W G} : Prop := {
  wk_signal_owed : ∀ w, wk_owed (wk_signal w);
  wk_signal_since : ∀ g w, wk_held g w → wk_since g (wk_signal w);
  wk_guard_held : ∀ w, wk_held (wk_guard w) w;
  wk_signal_held : ∀ g w, wk_held g w → wk_held g (wk_signal w);
  wk_driver_held : ∀ b g w, wk_held g w → wk_held g (wk_driver b w);
  (** The driver does not lose a signal while there is something to read. *)
  wk_driver_owed : ∀ w, wk_owed w → wk_owed (wk_driver true w);
  wk_driver_since : ∀ g w, wk_held g w → wk_since g w → wk_since g (wk_driver true w);
  wk_driver_ready : ∀ w, wk_owed w → wk_ready (wk_driver true w) = true;
  (** [clear_ready] only clears what came before the guard. *)
  wk_clear_since : ∀ g w, wk_since g w → wk_owed (wk_clear g w);
}.

(** When an entry is committed or discarded, the kernel signals if the consumer
    has caught up right up to this entry; it may do so in other cases. *)
Definition settles {H A} (a : ring_act H A) (h : H) : Prop :=
  match a with Submit h' _ | Discard h' => h' = h | _ => False end.

Class NotifyOps (H : Type) := notifies : ∀ {A}, ring_act H A → list (mark H) → bool.
Class NotifyLaws (H : Type) `{!NotifyOps H} : Prop :=
  notifies_caught_up : ∀ A (a : ring_act H A) h l,
    settles a h → head l = Some (MBusy h) → notifies a l = true.

(** ** The pipeline with sleeping and waking *)

Section wakeup.
Context {B T R H : Type} {M Ch : Type → Type} {X W G : Type}.
Context `{RingBufLaws R H, BpfMapLaws M, ChannelLaws Ch, EqDecision H, WakeLaws W G, NotifyLaws H}.
Implicit Types s : Bpfx B T R Ch.
Implicit Types m : Machine R H M.
Implicit Types l : loop_state B T R Ch X.
Implicit Types ms : list (mark H).
Implicit Types w : W.

(** The task: where its loop is, and the guard it holds.  In [LWait] with a guard
    it has emptied the buffer and not called [clear_ready] yet. *)
Definition task : Type := loop_state B T R Ch X * option G.

(** One step of [event_loop]; [err] is what [readable()] fails with, if it does.
    No result: the task sleeps. *)
Definition task_turn (err : option X) (t : task) w : option (task * W) :=
  match t with
  | (LWait s, Some ready) => Some ((LWait s, None), wk_clear ready w)
  | (LWait s, None) =>
      match err with
      | Some e => Some ((loop_next (inr e) (LWait s), None), w)
      | None =>
          if wk_ready w then Some ((loop_next (inl tt) (LWait s), Some (wk_guard w)), w) else None
      end
  | (LDrain s, ready) => Some ((loop_next (inl tt) (LDrain s), ready), w)
  | (LDone r, ready) => Some ((LDone r, ready), w)
  end.

(** The marks after a step of the task. *)
Definition task_marks (t : task) ms : list (mark H) :=
  match t.1 with LDrain _ => mark_next ms | _ => ms end.

Record world := mkWorld {
  w_machine : Machine R H M;
  w_task : task;
  w_marks : list (mark H);
  w_wake : W;
}.

Variable attached : Probe → Prop.
Variable IF : M FilterKey → Prop.
Variable IC : M FileModeFilter → Prop.

Inductive wake_step : world → world → Prop :=
| WakeProgram a m m' l g ms w :
    program_step attached a m m' →
    wake_step (mkWorld m (l, g) ms w)
      (mkWorld m' (map_loop (set_ringbuf (EVENTS (kernel m'))) l, g) (mark_act a ms)
         (if notifies a ms then wk_signal w else w))
| WakeDriver m t ms w :
    wake_step (mkWorld m t ms w) (mkWorld m t ms (wk_driver (bool_decide (ms ≠ [])) w))
| WakeTask err m t ms w t' w' :
    task_turn err t w = Some (t', w') →
    wake_step (mkWorld m t ms w) (mkWorld (consumed m t'.1) t' (task_marks t ms) w')
| WakeSubscriber m l g ms w s s' :
    loop_runtime l = Some s → subscriber_step s s' →
    wake_step (mkWorld m (l, g) ms w) (mkWorld m (map_loop (fun _ => s') l, g) ms w).

(** Without the waking, this is a run of [System.v]. *)
Definition system_of (x : world) : Machine R H M * loop_state B T R Ch X := (w_machine x, (w_task x).1).

Lemma task_turn_system err t w t' w' :
  task_turn err t w = Some (t', w') →
  t'.1 = t.1 ∨ ∃ ready, t'.1 = loop_next ready t.1.
Proof.
  destruct t as [[s|s|r] [g|]]; simpl.
  - intros [= <- <-]. by left.
  - destruct err as [e|]; [intros [= <- <-]; right; by exists (inr e)|].
    destruct (wk_ready w); [|done]. intros [= <- <-]. right. by exists (inl tt).
  - intros [= <- <-]. right. by exists (inl tt).
  - intros [= <- <-]. right. by exists (inl tt).
  - intros [= <- <-]. by left.
  - intros [= <- <-]. by left.
Qed.

Lemma wake_system net x y :
  net_attached attached net → sys_inv IF IC net (system_of x) →
  wake_step x y → rtc (sys_step attached) (system_of x) (system_of y).
Proof.
  intros Hnet Hi Hs. destruct Hs as [a m m' l g ms w Ha|m t ms w|err m t ms w t' w' Ht|m l g ms w s s' Hl Hs].
  - apply rtc_once, SysProgram. by eapply program_mstep.
  - done.
  - apply task_turn_system in Ht. destruct t as [l g], t' as [l' g']. unfold system_of in *. simpl in *.
    destruct Ht as [->|[ready ->]].
    + replace (consumed m l) with m; [done|]. destruct (loop_runtime l) as [s|] eqn:Hl;
        [|unfold consumed; by rewrite Hl].
      symmetry. apply (consumed_same m l s Hl). destruct Hi as [_ Hi]. destruct l; simplify_eq/=; apply Hi.
    + apply rtc_once, SysLoop.
  - by eapply rtc_once, SysSubscriber.
Qed.

(** ** The invariant

    When the task may go to sleep, the consumer has caught up or a signal is
    there that it will be woken by. *)
Definition awake (t : task) ms w : Prop :=
  match t with
  | (LWait _, None) => caught_up ms ∨ wk_owed w
  | (LWait _, Some g) => wk_held g w ∧ (caught_up ms ∨ wk_since g w)
  | (LDrain _, Some g) => wk_held g w
  | _ => True
  end.

Definition wake_inv (x : world) : Prop :=
  marks_of (rb_slots (EVENTS (kernel (w_machine x)))) (w_marks x) ∧ awake (w_task x) (w_marks x) (w_wake x).

Lemma awake_program {A} (a : ring_act H A) f l g ms w :
  awake (l, g) ms w →
  awake (map_loop f l, g) (mark_act a ms) (if notifies a ms then wk_signal w else w).
Proof.
  intros Ha.
  assert (Hc : caught_up ms → caught_up (mark_act a ms) ∨ notifies a ms = true).
  { intros Hc. destruct a as [h n|h e|h|]; simpl; [left; by apply caught_up_reserve| | |by left].
    - destruct (caught_up_settle ms h MDone Hc); [by left|right]. by eapply notifies_caught_up.
    - destruct (caught_up_settle ms h MGone Hc); [by left|right]. by eapply notifies_caught_up. }
  destruct l as [s|s|r], g as [g|]; simpl in *; try done.
  - destruct Ha as [Hh Ha]. split; [destruct (notifies a ms); auto using wk_signal_held|].
    destruct (notifies a ms); [right; by apply wk_signal_since|].
    destruct Ha as [Ha|Ha]; [destruct (Hc Ha); [by left|done]|by right].
  - destruct (notifies a ms); [right; apply wk_signal_owed|].
    destruct Ha as [Ha|Ha]; [destruct (Hc Ha); [by left|done]|by right].
  - destruct (notifies a ms); auto using wk_signal_held.
Qed.

Lemma awake_driver t ms w : awake t ms w → awake t ms (wk_driver (bool_decide (ms ≠ [])) w).
Proof.
  destruct t as [[s|s|r] [g|]]; simpl; try done; [intros [Hh Ha]; split; [by apply wk_driver_held|]|intros Ha|].
  - destruct ms as [|x ms]; [by left|]. destruct Ha; [by left|right; by apply wk_driver_since].
  - destruct ms as [|x ms]; [by left|]. destruct Ha; [by left|right; by apply wk_driver_owed].
  - apply wk_driver_held.
Qed.

Lemma awake_task err net m t ms w t' w' :
  sys_inv IF IC net (m, t.1) →
  marks_of (rb_slots (EVENTS (kernel m))) ms → task_turn err t w = Some (t', w') → awake t ms w →
  marks_of (rb_slots (EVENTS (kernel (consumed m t'.1)))) (task_marks t ms) ∧ awake t' (task_marks t ms) w'.
Proof.
  intros Hi Hm Ht Ha.
  assert (Hsame : ∀ l s, loop_runtime t.1 = Some s → loop_runtime l = Some s → consumed m l = m).
  { intros l s Hl Hl'. apply (consumed_same m l s Hl'). destruct Hi as [_ Hi].
    destruct t as [[] ?]; simplify_eq/=; apply Hi. }
  destruct t as [[s|s|r] g].
  - unfold task_marks. simpl. destruct g as [g|]; simpl in Ht, Ha.
    + injection Ht as <- <-. rewrite (Hsame _ s) by done. split; [done|]. simpl.
      destruct Ha as [_ []]; auto using wk_clear_since.
    + destruct err as [e|]; [injection Ht as <- <-; done|].
      destruct (wk_ready w); [|done]. injection Ht as <- <-. simpl.
      destruct (has_subscribers s); [|done]. rewrite (Hsame (LDrain s) s) by done.
      split; [done|apply wk_guard_held].
  - unfold task_marks. simpl fst. cbn [task_turn] in Ht.
    assert (Heq : t' = (loop_next (inl tt) (LDrain s), g)) by congruence.
    assert (w' = w) as -> by congruence. rewrite Heq. cbn [fst].
    pose proof (marks_next _ _ Hm) as Hn.
    destruct (rb_next_cases (EVENTS (kernel m))) as [[Hnx Hv]|(x & xs & r & Hnx & Hs & Hs')].
    + assert (Hl : loop_next (inl tt) (LDrain s) = (LWait s : loop_state B T R Ch X)).
      { simpl. destruct Hi as (_ & Hr & _). simpl in Hr. by rewrite Hr, Hnx. }
      rewrite Hl, (Hsame (LWait s) s) by done. simpl.
      unfold rb_visible in Hv. destruct (rb_slots _) as [|[]]; [|..]; try done.
      * destruct g; naive_solver.
      * destruct g; naive_solver.
    + destruct (drain_turn _ _ net (inl tt) m s x r Hi Hnx) as (s' & e & _ & _ & _ & -> & -> & _).
      simpl. rewrite Hs in Hn. rewrite Hs'. by destruct g.
  - cbn [task_turn] in Ht. injection Ht as <- <-. done.
Qed.

Lemma wake_step_inv net x y :
  net_attached attached net → sys_inv IF IC net (system_of x) → wake_inv x → wake_step x y → wake_inv y.
Proof.
  intros Hnet Hi (Hm & Ha) Hs.
  destruct Hs as [a m m' l g ms w Hp|m t ms w|err m t ms w t' w' Ht|m l g ms w s s' Hl Hs]; simpl in *.
  - destruct Hi as [Hi _]. destruct (program_ring _ _ _ _ _ _ Hi Hp) as (hd & hd' & Hr).
    split; simpl; [by eapply marks_act|by apply awake_program].
  - split; [done|by apply awake_driver].
  - by eapply awake_task.
  - split; [done|]. by destruct l, g.
Qed.

Lemma wake_reach_inv net x y :
  net_attached attached net → sys_inv IF IC net (system_of x) → wake_inv x → rtc wake_step x y →
  sys_inv IF IC net (system_of y) ∧ wake_inv y ∧ rtc (sys_step attached) (system_of x) (system_of y).
Proof.
  intros Hnet Hi Hw Hs. induction Hs as [x|x y z Hxy _ IH]; [done|].
  pose proof (wake_system _ _ _ Hnet Hi Hxy) as Hsys.
  destruct IH as (Hiz & Hwz & Hz); [by eapply sys_steps_inv|by eapply wake_step_inv|].
  split_and!; [done|done|by etrans].
Qed.

(** The programs on their own. *)
Lemma wake_programs net m m' l g ms w :
  net_attached attached net → sys_inv IF IC net (m, l) →
  rtc (mstep (fun p _ => attached p)) m m' → (∀ s, loop_runtime l = Some s → ringbuf s = EVENTS (kernel m)) →
  ∃ ms' w', rtc wake_step (mkWorld m (l, g) ms w)
              (mkWorld m' (map_loop (set_ringbuf (EVENTS (kernel m'))) l, g) ms' w').
Proof.
  intros Hnet Hi Hs. revert l ms w Hi. induction Hs as [m|m m1 m' Hs _ IH]; intros l ms w Hi Hl.
  - exists ms, w. replace (map_loop _ l) with l; [done|].
    destruct l as [s|s|r]; simpl; [| |done]; rewrite <- (Hl s eq_refl); by destruct s.
  - destruct (mstep_program _ _ _ _ _ (proj1 Hi) Hs) as [a Ha].
    pose proof (sys_inv_program _ _ _ _ _ _ _ Hnet Hs Hi) as Hi1.
    edestruct (IH (map_loop (set_ringbuf (EVENTS (kernel m1))) l)) as (ms' & w' & Hw); [exact Hi1| |].
    { by intros s (s0 & _ & ->)%map_loop_runtime. }
    exists ms', w'. eapply rtc_l; [by apply (WakeProgram a)|]. rewrite map_loop_ring in Hw. exact Hw.
Qed.

(** *** The task gets to what it can read *)

(** Only the driver and the task, and [readable()] does not fail. *)
Inductive runtime_step : world → world → Prop :=
| RuntimeDriver m t ms w :
    runtime_step (mkWorld m t ms w) (mkWorld m t ms (wk_driver (bool_decide (ms ≠ [])) w))
| RuntimeTask m t ms w t' w' :
    task_turn None t w = Some (t', w') →
    runtime_step (mkWorld m t ms w) (mkWorld (consumed m t'.1) t' (task_marks t ms) w').

Lemma runtime_wake x y : runtime_step x y → wake_step x y.
Proof. intros []; [apply WakeDriver|by eapply WakeTask]. Qed.

Lemma runtime_drain net xs m s g ms w :
  sys_inv IF IC net (m, LDrain s : loop_state B T R Ch X) → rb_visible (EVENTS (kernel m)) = xs →
  ∃ es m' s' ms',
    xs = raw_put <$> es ∧ rtc runtime_step (mkWorld m (LDrain s, g) ms w) (mkWorld m' (LWait s', g) ms' w) ∧
    rb_visible (EVENTS (kernel m')) = [] ∧ ringbuf s' = EVENTS (kernel m') ∧
    view_of s' = foldl spec_dispatch (view_of s) es.
Proof.
  revert m s ms. induction xs as [|x xs IH]; intros m s ms Hi Hv.
  - pose proof Hi as (_ & Hr & _). exists [], m, s, (mark_next ms). split_and!; try done. apply rtc_once.
    pose proof (RuntimeTask m (LDrain s, g) ms w (loop_next (inl tt) (LDrain s), g) w eq_refl) as Hs.
    simpl in Hs, Hr. rewrite Hr, (rb_next_nil _ Hv) in Hs. by rewrite (consumed_same m (LWait s) s) in Hs.
  - destruct (rb_next_cons _ _ _ Hv) as (r & Hn & Hv').
    destruct (drain_turn _ _ net (inl tt) m s x r Hi Hn) as (s1 & e & -> & _ & _ & Hl & Hc & Hv1 & _).
    destruct (IH (with_kernel (set_EVENTS r (kernel m)) m) s1 (mark_next ms))
      as (es & m' & s' & ms' & -> & Hs & Hz & Hr & Hvw); [|done|].
    { rewrite <- Hc, <- Hl. by apply (sys_inv_loop _ _ net (inl tt) m (LDrain s)). }
    exists (e :: es), m', s', ms'. split_and!; [done| |done|done|by rewrite Hvw, Hv1].
    eapply rtc_l; [|exact Hs].
    pose proof (RuntimeTask m (LDrain s, g) ms w (loop_next (inl tt) (LDrain s), g) w eq_refl) as Hs1.
    rewrite Hl in Hs1. cbn [fst] in Hs1. by rewrite Hc in Hs1.
Qed.

Lemma runtime_clear m s g ms w :
  ringbuf s = EVENTS (kernel m) →
  rtc runtime_step (mkWorld m (LWait s, g) ms w)
    (mkWorld m (LWait s, None) ms (match g with Some ready => wk_clear ready w | None => w end)).
Proof.
  intros Hr. destruct g as [g|]; [|done]. apply rtc_once.
  pose proof (RuntimeTask m (LWait s, Some g) ms w _ _ eq_refl) as Hs. simpl in Hs.
  by rewrite (consumed_same m (LWait s) s) in Hs.
Qed.

(** Asleep, or about to be. *)
Lemma runtime_wakes net m s g ms w :
  sys_inv IF IC net (system_of (mkWorld m (LWait s, g) ms w)) → wake_inv (mkWorld m (LWait s, g) ms w) →
  rb_visible (EVENTS (kernel m)) ≠ [] → has_subscribers s = true →
  ∃ ready w', rtc runtime_step (mkWorld m (LWait s, g) ms w) (mkWorld m (LDrain s, Some ready) ms w').
Proof.
  intros Hi (Hm & Ha) Hv Hsub. unfold system_of in Hi. simpl in *.
  assert (Hr : ringbuf s = EVENTS (kernel m)) by apply Hi.
  assert (Hc : ¬ caught_up ms) by (intros Hc; by apply Hv, (caught_up_visible _ _ Hm)).
  assert (Hne : ms ≠ []) by by intros ->.
  set (w1 := match g with Some ready => wk_clear ready w | None => w end).
  assert (Hw1 : wk_owed w1).
  { destruct g; [destruct Ha as [_ []]; [done|by apply wk_clear_since]|by destruct Ha]. }
  set (w2 := wk_driver (bool_decide (ms ≠ [])) w1). exists (wk_guard w2), w2.
  etrans; [by apply runtime_clear|]. eapply rtc_l; [apply RuntimeDriver|]. apply rtc_once.
  pose proof (RuntimeTask m (LWait s, None) ms w2 (LDrain s, Some (wk_guard w2)) w2) as Hs.
  cbn [fst] in Hs. rewrite (consumed_same m (LDrain s) s) in Hs by done. apply Hs.
  unfold w2. simpl. by rewrite bool_decide_eq_true_2, wk_driver_ready, Hsub.
Qed.

Lemma runtime_reads net m l g s ms w :
  sys_inv IF IC net (system_of (mkWorld m (l, g) ms w)) → wake_inv (mkWorld m (l, g) ms w) →
  loop_runtime l = Some s → rb_visible (EVENTS (kernel m)) ≠ [] → (l = LWait s → has_subscribers s = true) →
  ∃ es m' s' ms' w',
    rb_visible (EVENTS (kernel m)) = raw_put <$> es ∧
    rtc runtime_step (mkWorld m (l, g) ms w) (mkWorld m' (LWait s', None) ms' w') ∧
    rb_visible (EVENTS (kernel m')) = [] ∧ view_of s' = foldl spec_dispatch (view_of s) es.
Proof.
  intros Hi Hw Hl Hv Hsub.
  assert (∃ g1 w1, rtc runtime_step (mkWorld m (l, g) ms w) (mkWorld m (LDrain s, g1) ms w1)) as (g1 & w1 & Hs1).
  { destruct l as [s1|s1|r]; simplify_eq/=; [|by exists g, w].
    destruct (runtime_wakes _ _ _ _ _ _ Hi Hw Hv (Hsub eq_refl)) as (ready & w1 & Hs). by exists (Some ready), w1. }
  assert (Hid : sys_inv IF IC net (m, LDrain s : loop_state B T R Ch X)).
  { destruct l; simplify_eq/=; exact Hi. }
  destruct (runtime_drain net _ m s g1 ms w1 Hid eq_refl) as (es & m' & s' & ms' & Hes & Hs2 & Hv' & Hr' & Hvw).
  do 5 eexists. split_and!; [exact Hes| |exact Hv'|exact Hvw].
  etrans; [exact Hs1|]. etrans; [exact Hs2|]. by apply runtime_clear.
Qed.
End wakeup.

(** ** Sessions *)

Section sessions.
Context {B T R H : Type} {M Ch : Type → Type} {X W G : Type}.
Context `{EbpfLaws B T X, RingBufLaws R H, BpfMapLaws M, ChannelLaws Ch, EqDecision H, WakeLaws W G, NotifyLaws H}.
Implicit Types s : Bpfx B T R Ch.
Implicit Types w : W.

(** (C15) The loop never sleeps over a record: in a running session in which a
    network subscription, if there is one, is the only subscription (beside
    others its reader is out of bounds, see [network_reader_out_of_bounds]), and
    however programs, the I/O driver, the task and the subscribers interleave,
    whenever the consumer can read a record and the task, if it waits, has a
    subscriber with an open channel (without one it ends when it is woken), the
    driver and the task on their own, without any further program, get to the end
    of what is readable: every such record is dispatched, in order, and the task
    waits again with its guard cleared.  At the start the epoll registration
    reports a buffer that is readable already. *)
Theorem no_lost_wakeup opened m s ms w x l g s' :
  session (m, s) → network_alone s →
  marks_of (rb_slots (EVENTS (kernel m))) ms → caught_up ms ∨ wk_owed w →
  rtc (wake_step (attached_of (bpf s))) (mkWorld m (run opened s, None) ms w) x → w_task x = (l, g) →
  loop_runtime (X := X) l = Some s' → (l = LWait s' → has_subscribers s' = true) →
  rb_visible (EVENTS (kernel (w_machine x))) ≠ [] →
  ∃ es m' s'' ms' w',
    rb_visible (EVENTS (kernel (w_machine x))) = raw_put <$> es ∧
    rtc runtime_step x (mkWorld m' (LWait s'', None) ms' w') ∧
    rb_visible (EVENTS (kernel m')) = [] ∧ view_of s'' = foldl spec_dispatch (view_of s') es.
Proof.
  intros Hs%session_inv_reach Ha Hm Hw Hx Ht Hl Hsub Hv.
  destruct (session_sys_inv (X := X) _ _ Hs Ha) as (net & Hnet & Hinv & _).
  destruct x as [mx tx msx wx]. simpl in *. subst tx.
  set (x0 := mkWorld m (run opened s, None) ms w) in Hx.
  assert (Hi0 : sys_inv (filter_ok (filters_of s)) (config_ok (filters_of s)) net (system_of x0)).
  { destruct opened; [exact Hinv|]. by split; [apply Hinv|]. }
  assert (Hw0 : wake_inv x0) by (split; [done|]; by destruct opened).
  destruct (wake_reach_inv _ _ _ _ _ _ Hnet Hi0 Hw0 Hx) as (Hix & Hwx & Hsys).
  destruct opened as [u|e]; [|apply done_stays in Hsys; simpl in Hsys; congruence].
  by eapply runtime_reads.
Qed.
End sessions.

(** ** A reference implementation *)

(** A signal on its way, tokio's readiness, and the number of times it was set. *)
Record tick_wake := TickWake { tw_coming : bool; tw_ready : bool; tw_tick : nat }.

#[export] Instance tick_wake_ops : WakeOps tick_wake nat := {|
  wk_signal w := TickWake true (tw_ready w) (tw_tick w);
  wk_driver readable w :=
    if tw_coming w && readable then TickWake false true (S (tw_tick w))
    else TickWake false (tw_ready w) (tw_tick w);
  wk_ready := tw_ready;
  wk_guard := tw_tick;
  wk_clear g w := if (g =? tw_tick w)%nat then TickWake (tw_coming w) false (tw_tick w) else w;
  wk_held g w := (g ≤ tw_tick w)%nat;
  wk_owed w := tw_coming w = true ∨ tw_ready w = true;
  wk_since g w := tw_coming w = true ∨ (tw_ready w = true ∧ (g < tw_tick w)%nat);
|}.

#[export] Instance tick_wake_laws : WakeLaws tick_wake nat.
Proof.
  split; simpl.
  - by left.
  - by left.
  - done.
  - done.
  - intros b g w Hg. destruct (tw_coming w && b); simpl; lia.
  - intros w. destruct (tw_coming w); simpl; [by right|by intros [?|?]; [|right]].
  - intros g w Hg. destruct (tw_coming w); simpl; [|by intros [?|?]; [|right]]. intros _. right. split; [done|lia].
  - intros w. destruct (tw_coming w); simpl; [done|by intros [?|?]].
  - intros g w [Hc|[Hr Hg]]; [destruct (_ =? _)%nat; by left|].
    rewrite (proj2 (Nat.eqb_neq _ _)) by lia. by right.
Qed.

(** The kernel signals just when the consumer has caught up. *)
#[export] Instance list_notify : NotifyOps nat := fun A a l =>
  match a, head l with
  | (Submit h _ | Discard h), Some (MBusy h') => bool_decide (h = h')
  | _, _ => false
  end.

#[export] Instance list_notify_laws : NotifyLaws nat.
Proof.
  intros A a h l Ha Hl. unfold notifies, list_notify. rewrite Hl.
  destruct a; simpl in Ha; try done; subst; by apply bool_decide_eq_true_2.
Qed.

(** ** The theorem at a concrete run

    A file is opened and read, and the task, asleep, reports the read. *)

Abbreviation Loop := (loop_state table unit list_ring chan_view str).
Definition awaited : Runtime := set_ringbuf (EVENTS read_state) reading.

Lemma reading_alone : network_alone reading.
Proof. intros [n Hn]. discriminate Hn. Qed.

Lemma reading_attached p : bool_decide (prog_name p ∈ ev_attached (bpf reading)) = true → attached_of (bpf reading) p.
Proof. apply bool_decide_eq_true_1. Qed.

Lemma read_programs :
  rtc (mstep (fun p _ => attached_of (bpf reading) p)) (mkMachine open_state []) (mkMachine read_state []).
Proof.
  assert (Hn : ∀ p, ¬ entered (H := nat) p open_env []) by (intros p (th & Hth%not_elem_of_nil & _); done).
  assert (Hopen : attached_of (bpf reading) P_file_open) by (apply reading_attached; vm_compute; reflexivity).
  assert (Hread : attached_of (bpf reading) P_vfs_read) by (apply reading_attached; vm_compute; reflexivity).
  transitivity (mkMachine (H := nat) opened_state []).
  - exact (run_alone (fun p _ => attached_of (bpf reading) p) P_file_open open_env open_state [] 0 opened_state
             Hopen open_env_wf (Hn _) opened_run).
  - exact (run_alone (fun p _ => attached_of (bpf reading) p) P_vfs_read open_env opened_state [] 0 read_state
             Hread open_env_wf (Hn _) read_run).
Qed.

Lemma read_world (w : tick_wake) :
  ∃ ms w', rtc (wake_step (attached_of (bpf reading)))
    (mkWorld (mkMachine open_state []) (run (X := str) (inl tt) reading, None) [] w)
    (mkWorld (mkMachine read_state []) (LWait awaited, None) ms w').
Proof.
  destruct (session_sys_inv (X := str) _ _ (session_inv_reach _ reading_session) reading_alone) as (net & Hnet & Hi & _).
  apply (wake_programs _ _ _ _ _ _ _ None [] w Hnet Hi read_programs). by intros s [= <-].
Qed.

Lemma no_lost_wakeup_witness :
  rb_visible (EVENTS read_state) ≠ [] ∧
  ∃ (ms : list (mark nat)) (w : tick_wake) es m' s'' ms' w',
    rb_visible (EVENTS read_state) = raw_put <$> es ∧
    rtc runtime_step (mkWorld (mkMachine read_state []) (LWait awaited : Loop, None) ms w)
      (mkWorld m' (LWait s'', None) ms' w') ∧
    rb_visible (EVENTS (kernel m')) = [] ∧ view_of s'' = foldl spec_dispatch (view_of awaited) es.
Proof.
  assert (Hv : rb_visible (EVENTS read_state) ≠ []) by (vm_compute; discriminate).
  split; [exact Hv|]. destruct (read_world (TickWake false false 0)) as (ms & w & Hw). exists ms, w.
  apply (no_lost_wakeup (inl tt) (mkMachine open_state []) reading [] (TickWake false false 0)
           (mkWorld (mkMachine read_state []) (LWait awaited : Loop, None) ms w) (LWait awaited) None awaited reading_session reading_alone).
  - reflexivity.
  - by left.
  - exact Hw.
  - reflexivity.
  - reflexivity.
  - intros _. vm_compute. reflexivity.
  - exact Hv.
Defined.
