(* ===== verification/Examples.v ===== *)
(** * The example programs

    [examples/network.rs], [examples/process.rs], [examples/memory.rs] and
    [examples/file.rs]: each makes a [Bpfx], subscribes to everything of its kind,
    starts the loop, and prints lines for the events of the stream, one after the
    other.  [examples_print] says which, [examples_watch] in what session. *)

From stdpp Require Import relations.
From S2P Require Import Prelude Raw Layout Events Interfaces Ebpf KernelSpec KernelProofs KernelInv Machine.
From S2P Require Import Common Process Memory Network File Convert Stream Runtime Attach Object Steps Session.

#[local] Open Scope string_scope.
#[local] Open Scope Z_scope.

(** ** [str::contains] *)

Fixpoint contains (pat s : str) : bool :=
  String.prefix pat s || match s with EmptyString => false | String _ s => contains pat s end.

(** [pat] is a part of [s]. *)
Definition part_of (pat s : str) : Prop := ∃ a b, s = a +:+ pat +:+ b.

Lemma prefix_spec pat s : String.prefix pat s = true ↔ ∃ b, s = pat +:+ b.
Proof.
  revert s. induction pat as [|c pat IH]; intros s; [split; [intros _; by exists s|by destruct s]|].
  destruct s as [|d s]; simpl; [split; [done|by intros [? ?]]|].
  destruct (Ascii.ascii_dec c d) as [->|Hne]; [|split; [done|by intros [? [= ?]]]].
  rewrite IH. split; [by intros [b ->]; exists b|intros [b [= ->]]; by exists b].
Qed.

Lemma contains_spec pat s : contains pat s = true ↔ part_of pat s.
Proof.
  unfold part_of. induction s as [|c s IH]; cbn [contains]; rewrite orb_true_iff, prefix_spec.
  - split; [intros [[b Hb]|?]; [by exists "", b|done]|].
    intros (a & b & Hs). left. destruct a; [by exists b|done].
  - rewrite IH. split.
    + intros [[b Hb]|(a & b & ->)]; [by exists "", b|by exists (String c a), b].
    + intros (a & b & Hs). destruct a as [|d a]; [left; by exists b|]. right.
      injection Hs as _ Hs. by exists a, b.
Qed.

Lemma part_of_trans a b c : part_of a b → part_of b c → part_of a c.
Proof.
  intros (a1 & b1 & ->) (a2 & b2 & ->). exists (a2 +:+ a1), (b1 +:+ b2). by rewrite !str_app_assoc.
Qed.

Lemma path_split_part cur s c : c ∈ path_split cur s → part_of c (cur +:+ s).
Proof.
  revert cur. induction s as [|d s IH]; intros cur; simpl.
  - intros ->%list_elem_of_singleton. by exists "", "".
  - case_bool_decide as Hd.
    + intros [->|Hc]%elem_of_cons; [by exists "", (String d s)|].
      destruct (IH _ Hc) as (a & b & Hs). change ("" +:+ s) with s in Hs. exists (cur +:+ String d a), b.
      rewrite <- str_app_assoc. by rewrite Hs.
    + intros (a & b & Hs)%IH. exists a, b. rewrite <- Hs. by rewrite <- str_app_assoc.
Qed.

(** A file name is a part of its path. *)
Lemma file_name_part path : part_of (file_name_or_empty path) path.
Proof.
  unfold file_name_or_empty, path_file_name.
  destruct (list.last _) as [c|] eqn:Hc; [|by exists "", path].
  case_bool_decide; simpl; [by exists "", path|]. apply (path_split_part "" path).
  apply last_Some_elem_of, list_elem_of_filter in Hc. apply Hc.
Qed.

(** ** What [main] does *)

(** [let mut bpfx = Bpfx::new()?; let mut events = bpfx.subscribe(filter)?;]: the
    runtime that [run] is called on, or the error that [main] returns. *)
Section setup.
Context {B T R H X : Type} {Ch : Type → Type} `{!RingBufOps R H, !EbpfOps B T X, !ChannelOps Ch}.

Definition set_up (subscribe : stateM (Bpfx B T R Ch) (Error X) unit) (ld : Loader B T R X) :
    outcome (Error X) (Bpfx B T R Ch) :=
  bpfx ← Bpfx_new ld;
  let (r, bpfx) := subscribe bpfx in
  r;; mret bpfx.

Definition network_main : Loader B T R X → outcome (Error X) (Bpfx B T R Ch) :=
  set_up (Bpfx_subscribe NetworkFilter_ALL).
Definition process_main : Loader B T R X → outcome (Error X) (Bpfx B T R Ch) :=
  set_up (Bpfx_subscribe ProcessFilter_ALL).
Definition memory_main : Loader B T R X → outcome (Error X) (Bpfx B T R Ch) :=
  set_up (Bpfx_subscribe MemoryFilter_ALL).
Definition file_main : Loader B T R X → outcome (Error X) (Bpfx B T R Ch) :=
  set_up (Bpfx_subscribe FileFilter_ALL).
End setup.

(** [while let Some(event) = events.next().await { body }], over [n] polls: the
    lines that [body] prints.  A pending poll is tried again. *)
Fixpoint watch {S Item} `{!Stream S Item} (body : Item → list str) (n : nat) (events : S) : list str :=
  match n with
  | O => []
  | Datatypes.S n =>
      let (r, events) := poll_next events in
      match r with
      | Ready (Some event) => (body event ++ watch body n events)%list
      | Ready None => []
      | Pending => watch body n events
      end
  end.

Definition network_body (event : NetworkEvent) : list str :=
  match event with
  | NetworkEvent_Connect e => [ConnectEvent_fmt e]
  | NetworkEvent_Accept e => [AcceptEvent_fmt e]
  | NetworkEvent_Bind e => [BindEvent_fmt e]
  | NetworkEvent_Listen e => [ListenEvent_fmt e]
  | NetworkEvent_Close e => [CloseEvent_fmt e]
  end.

Definition process_body (event : ProcessEvent) : list str :=
  match event with
  | ProcessEvent_Start s => [ProcessStartEvent_fmt s]
  | ProcessEvent_Exit s => [ProcessExitEvent_fmt s]
  | ProcessEvent_Fork s => [ProcessForkEvent_fmt s]
  end.

Definition memory_body (event : MemoryEvent) : list str :=
  if MemoryEvent_is_kernel_thread event then [] else
  match event with
  | MemoryEvent_MemoryMap mmap => [MemoryMapEvent_fmt mmap]
  | MemoryEvent_MemoryUnMap unmap => [MemoryUnmapEvent_fmt unmap]
  end.

Definition file_body (event : FileEvent) : list str :=
  if FileEvent_failed event then [] else
  match event with
  | FileEvent_Open e =>
      if contains "passwd" (FileOpenEvent_file_name e) || contains "passwd" (foe_file_path e)
      then [FileOpenEvent_fmt e] else []
  | FileEvent_Rename e => [FileRenameEvent_fmt e]
  | _ => []
  end.

(** ** What they set up *)

Section sessions.
Context {B T R H : Type} {M Ch : Type → Type} {X : Type}.
Context `{EbpfLaws B T X, RingBufLaws R H, BpfMapLaws M, ChannelLaws Ch}.
Implicit Types s : Bpfx B T R Ch.
Implicit Types k : KState R M.
Implicit Types ld : Loader B T R X.

(** From a new object and an empty ring buffer, when the maps of the kernel follow
    the object ([sync]), the runtime [s] is that of a session; the subscription is
    the only one. *)
Definition watches ld s (F : Filters_of) : Prop :=
  filters_of s = F ∧ network_alone s ∧
  ∃ s0, Bpfx_new ld = Ok s0 ∧
    ∀ (sync : KState R M → B → KState R M) k0,
      (∀ k b, map_writes k (sync k b) b) → kernel_of k0 (bpf s0) → EVENTS k0 = ringbuf s0 →
      rb_slots (EVENTS k0) = [] → maps_wf k0 →
      ∃ k, session (H := H) (mkMachine k [], s).

Lemma set_up_Ok (subscribe : stateM (Bpfx B T R Ch) (Error X) unit) ld s :
  set_up (Ch := Ch) subscribe ld = Ok s → ∃ s0, Bpfx_new ld = Ok s0 ∧ subscribe s0 = (Ok tt, s).
Proof.
  unfold set_up. destruct (Bpfx_new ld) as [s0|e| |]; try done. simpl.
  destruct (subscribe s0) as [[[]|e| |] s1] eqn:Hs; try done. intros [= <-]. by exists s0.
Qed.

Lemma new_session ld s0 k :
  LoaderLaws ld → Bpfx_new (Ch := Ch) ld = Ok s0 → kernel_of k (bpf s0) → EVENTS k = ringbuf s0 →
  rb_slots (EVENTS k) = [] → maps_wf k → session_start (H := H) (mkMachine k [], s0).
Proof.
  intros Hld Hs0 Hk Hr Hi Hm.
  pose proof (with_config_from_run ld (logger_init ld) BpfxConfig_default _ Hld logger_same Hs0) as [Hf Hs].
  split_and!; try done; by rewrite Hs.
Qed.

Lemma new_empty ld s0 :
  LoaderLaws ld → Bpfx_new (Ch := Ch) ld = Ok s0 →
  network s0 = None ∧ process s0 = None ∧ file s0 = None ∧ mem_reg s0 = None.
Proof.
  intros Hld Hs0.
  pose proof (with_config_from_run ld (logger_init ld) BpfxConfig_default _ Hld logger_same Hs0) as [_ Hs].
  by rewrite Hs.
Qed.

Lemma watches_one ld s0 s F (l : list B) :
  LoaderLaws ld → Bpfx_new ld = Ok s0 → filters_of s = F → network_alone s → ringbuf s = ringbuf s0 →
  (∀ k0 : KState R M, session_step (H := H) (mkMachine k0 [], s0, None) (mkMachine k0 [], s0, Some (l, s))) →
  watches ld s F.
Proof.
  intros Hld Hnew HF Ha Hr Hstep. split; [done|]. split; [done|]. exists s0. split; [done|].
  intros sync k0 Hsync Hk Hring Hi Hm. exists (foldl sync k0 l).
  apply (session_alone sync (mkMachine k0 []) s0 l s Hsync); [|apply Hstep|done].
  exists (mkMachine k0 [], s0). split; [by apply (new_session ld)|apply rtc_refl].
Qed.

(** Each example, if it does not end with an error, runs in a session with one
    subscription, to everything of its kind. *)
Theorem examples_watch ld s :
  LoaderLaws ld →
  (network_main ld = Ok s → watches ld s {| fo_network := Some NetworkFilter_ALL; fo_process := None;
                                            fo_file := None; fo_mem := None |}) ∧
  (process_main ld = Ok s → watches ld s {| fo_network := None; fo_process := Some ProcessFilter_ALL;
                                            fo_file := None; fo_mem := None |}) ∧
  (memory_main ld = Ok s → watches ld s {| fo_network := None; fo_process := None;
                                           fo_file := None; fo_mem := Some MemoryFilter_ALL |}) ∧
  (file_main ld = Ok s → watches ld s {| fo_network := None; fo_process := None;
                                         fo_file := Some FileFilter_ALL; fo_mem := None |}).
Proof.
  intros Hld. split_and!; intros (s0 & Hnew & Hsub)%set_up_Ok;
    pose proof (new_empty _ _ Hld Hnew) as (Hn & Hp & Hf & Hm).
  - pose proof (network_subscribe_run _ _ _ _ Hsub) as [[? _]|(c & b & _ & _ & Hs)]; [done|].
    eapply (watches_one _ s0); [done|done|by rewrite Hs; unfold filters_of; simpl; rewrite Hp, Hf, Hm
      |by rewrite Hs|by rewrite Hs|]. intros k0. by apply SessNetwork.
  - pose proof (process_subscribe_run _ _ _ _ Hsub) as [[? _]|(c & b & _ & _ & Hs)]; [done|].
    eapply (watches_one _ s0); [done|done|by rewrite Hs; unfold filters_of; simpl; rewrite Hn, Hf, Hm
      | |by rewrite Hs|].
    + rewrite Hs. intros [? Hno]. simpl in Hno. congruence.
    + intros k0. by apply SessProcess.
  - pose proof (mem_subscribe_run _ _ _ _ Hsub) as [[? _]|(c & b & _ & _ & Hs)]; [done|].
    eapply (watches_one _ s0); [done|done|by rewrite Hs; unfold filters_of; simpl; rewrite Hn, Hp, Hf
      | |by rewrite Hs|].
    + rewrite Hs. intros [? Hno]. simpl in Hno. congruence.
    + intros k0. by apply SessMem.
  - pose proof (file_subscribe_run _ _ _ _ Hsub) as [[? _]|(c & b & _ & _ & Hs)]; [done|].
    eapply (watches_one _ s0); [done|done|by rewrite Hs; unfold filters_of; simpl; rewrite Hn, Hp, Hm
      | |by rewrite Hs|].
    + rewrite Hs. intros [? Hno]. simpl in Hno. congruence.
    + intros k0. by apply SessFile.
Qed.
End sessions.

(** ** What they print *)

(** The lines for the events received. *)
Lemma watch_received {Rx : Type → Type} `{ReceiverLaws Rx} {S Item} `{!Stream S Item} (rx : S → Rx Item)
    `{!Wraps rx} (body : Item → list str) n self :
  watch body n self = mjoin (body <$> received n self).
Proof.
  revert self. induction n as [|n IH]; intros self; [done|]. rewrite received_S. cbn [watch].
  destruct (wraps_poll rx self) as [_ Hp]. specialize (IH (poll_next self).2).
  pose proof (received_end rx n (poll_next self).2) as Hend.
  destruct (poll_next self) as [r self']. simpl in *. destruct Hp as [[-> _]|Hp]; [exact IH|].
  destruct (rx_queue (rx self)) as [|x xs]; [destruct Hp as (_ & -> & Hq)|destruct Hp as (-> & _)]; simpl.
  - by rewrite Hend.
  - by rewrite IH.
Qed.

Lemma mjoin_single {A B} (f : A → list B) (g : A → B) l :
  (∀ x, f x = [g x]) → mjoin (f <$> l) = g <$> l.
Proof. intros Hf. induction l as [|x l IH]; [done|]. csimpl. by rewrite Hf, IH. Qed.

Lemma mjoin_option {A B} (f : A → list B) (g : A → option B) l :
  (∀ x, f x = option_list (g x)) → mjoin (f <$> l) = omap g l.
Proof. intros Hf. induction l as [|x l IH]; [done|]. csimpl. rewrite Hf, IH. by destruct (g x). Qed.

(** The line for an event; of an open, the path alone decides. *)
Definition file_line (event : FileEvent) : option str :=
  match event with
  | FileEvent_Open e =>
      if FileEvent_succeeded event && contains "passwd" (foe_file_path e)
      then Some (FileOpenEvent_fmt e) else None
  | FileEvent_Rename e => if FileEvent_succeeded event then Some (FileRenameEvent_fmt e) else None
  | _ => None
  end.

Definition memory_line (event : MemoryEvent) : option str :=
  if MemoryEvent_is_kernel_thread event then None else Some (MemoryEvent_fmt event).

Lemma file_body_line event : file_body event = option_list (file_line event).
Proof.
  unfold file_body, file_line, FileEvent_failed. destruct (FileEvent_succeeded event), event; try done; simpl.
  match goal with |- context [FileOpenEvent_file_name ?e] =>
    assert (Hc : contains "passwd" (FileOpenEvent_file_name e) = true →
                 contains "passwd" (foe_file_path e) = true) end.
  { rewrite !contains_spec. intros Hp. eapply part_of_trans; [exact Hp|apply file_name_part]. }
  destruct (contains "passwd" (FileOpenEvent_file_name _)); simpl; [rewrite Hc by done; done|].
  by destruct (contains _ _).
Qed.

(** (C23) What the examples print, however often their streams are polled and
    however many of the polls are pending: the events received are the first of
    those waiting in the channel, in order; of a network or process stream each
    gets its line; of the memory events those that are not of a kernel thread; of
    the file events the successful opens of a path with "passwd" in it (the test
    of the file name adds nothing) and the successful renames.  The comment in
    the file example says that it watches successful opens and renames of regular
    files: it prints opens of these paths only, and of files of every type. *)
Theorem examples_print {Rx : Type → Type} `{ReceiverLaws Rx} (pn : PollNetwork Rx) (pp : PollProcess Rx)
    (pm : PollMem Rx) (pf : PollFile Rx) n :
  (received n pn `prefix_of` rx_queue (pn_rx pn) ∧
   watch network_body n pn = NetworkEvent_fmt <$> received n pn) ∧
  (received n pp `prefix_of` rx_queue (pp_rx pp) ∧
   watch process_body n pp = ProcessEvent_fmt <$> received n pp) ∧
  (received n pm `prefix_of` rx_queue (pm_rx pm) ∧
   watch memory_body n pm = omap memory_line (received n pm)) ∧
  (received n pf `prefix_of` rx_queue (pfl_rx pf) ∧
   watch file_body n pf = omap file_line (received n pf)).
Proof.
  split_and!.
  - apply (received_prefix pn_rx).
  - rewrite (watch_received pn_rx). apply mjoin_single. by intros [].
  - apply (received_prefix pp_rx).
  - rewrite (watch_received pp_rx). apply mjoin_single. by intros [].
  - apply (received_prefix pm_rx).
  - rewrite (watch_received pm_rx). apply mjoin_option. intros e. unfold memory_body, memory_line.
    destruct (MemoryEvent_is_kernel_thread e); [done|]. by destruct e.
  - apply (received_prefix pfl_rx).
  - rewrite (watch_received pfl_rx). apply mjoin_option, file_body_line.
Qed.

(** Three opens wait in the stream of the file example, of a directory, a
    regular file and another one; the third poll is pending. *)
Definition example_header : EventHeader := {|
  eh_timestamp_ns := 1; eh_pid := 2; eh_tid := 3; eh_ppid := 1; eh_uid := 0; eh_gid := 0; eh_comm := "mv" |}.
Definition example_open (path : str) (ty : FileType) : FileEvent :=
  FileEvent_Open {| foe_header := example_header; foe_file_path := path; foe_file_type := ty;
                    foe_inode := 5; foe_retval := 0; foe_flags := 0 |}.
Definition example_opens : PollFile list_rx := {| pfl_rx := ListRx
  [example_open "/etc/passwd.d" FileType_Directory; example_open "/etc/hosts" FileType_Regular;
   example_open "/etc/passwd" FileType_Regular] true 2 |}.

Lemma examples_print_witness :
  length (watch file_body 3 example_opens) = 1%nat ∧ length (watch file_body 4 example_opens) = 2%nat.
Proof.
  pose proof (fun n => proj2 (proj2 (proj2 (examples_print {| pn_rx := ListRx [] true 1 |}
                {| pp_rx := ListRx [] true 1 |} {| pm_rx := ListRx [] true 1 |} example_opens n)))) as Hp.
  split; [rewrite (proj2 (Hp 3%nat))|rewrite (proj2 (Hp 4%nat))]; vm_compute; reflexivity.
Defined.
